(* ===== verification/_CoqProject ===== *)
-Q . S2P
Prelude.v
DomainValues.v
EmailReservation.v
UserAccount.v
FloatTime.v
Binary64.v
TaskData.v
Database.v
EventRepository.v
CommandRetry.v
TaskQueue.v
TaskHandling.v
TaskExecutor.v
RuntimeConfig.v
Supervisor.v
WorkerPool.v
Application.v
System.v
Presentation.v
HostLifecycle.v
Diagnostics.v
EventCodec.v
EventStore.v
Tables.v
Recording.v
Processing.v
Worker.v
Runtime.v
Wiring.v
Progress.v
ReferenceStore.v
RunningService.v
RunningProgress.v
DomainTests.v
RuntimeTests.v
TaskTests.v
ServiceTests.v
HostTests.v
WorkerTests.v
