(* ===== verification/Prelude.v ===== *)
(** * Account management service: a verification development

    The program registers user accounts.  A client reserves an e-mail address,
    receives a code, confirms the address, and submits a profile; the account is
    then created in the background.  Two crates make it up.

    - [account-managements-service] holds the domain (the aggregates
      [EmailReservation] and [UserAccount]), the use cases, the task handlers,
      the HTTP interface and the process.
    - [cqrs-runtime] holds what the service runs on: event storage with a
      transactional outbox, commands with conflict retry, the PostgreSQL task
      queue with leases, the executor of deliveries, the supervised worker
      pool, and the host.

    A command is decided by an aggregate rebuilt from its event stream; its
    event and the tasks it publishes are committed by one statement.  Workers
    claim published tasks under a lease, run the handler of the task's format,
    and settle the outcome; expired leases are recovered and delivered again.
    A handler may issue commands itself: creating the account publishes the task
    that completes the reservation.

    ** Files

    Paths are relative to [src/account-managements-service/src] (S) and
    [src/cqrs-runtime] (R).

    - [Prelude]: results and panics, machine integers, strings as lists of code
      points, [Duration] and [Instant], the shared tactics and lemmas.
    - [DomainValues]: S [domain]: [Email], [UserAccountId], [RegistrationProfile],
      the format of codes.
    - [EmailReservation]: S [domain/email_reservation]: commands, events, errors,
      [handle] and [apply]; the documented state diagram as the relation
      [lifecycle].
    - [UserAccount]: S [domain/user_account].
    - [FloatTime]: [Duration] through [f64], and R [src/task/queue/retry.rs].
    - [Binary64]: rounding to binary64, executable, with the laws [FloatTime]
      assumes of it.
    - [TaskData]: R [src/task/data] and the data of R [src/task/queue].
    - [Database]: R [sql]: the tables as finite maps with keys and checks, and
      the errors of a statement; R [src/diagnostics.rs].
    - [EventRepository]: R [src/postgres/event_repository_with_outbox]: the write
      plan, its SQL statement and the effect of that.
    - [CommandRetry]: R [src/command], the loop and delays of conflict retry.
    - [TaskQueue]: R [src/postgres/task_queue]: [claim], [settle],
      [recover_expired], and the operator's [requeue]; [queue_step] interleaves
      them with publications.
    - [TaskHandling]: R [src/task/handling]: dispatcher and JSON adapter.
    - [TaskExecutor]: R [src/task/executor]: lease budget, handler race,
      settlement within its deadline; the class [TaskQueuePort] is the trait
      between executor and queue, which [TaskQueue] implements.
    - [RuntimeConfig]: settings of both crates with their defaults and checks.
    - [Supervisor]: R [src/runtime]: preparation, poller, channel, workers,
      restarts and drain, as a machine on the events the loops wait for.
    - [Application]: S [application] and [infrastructure]: use cases, payloads
      and handlers, and the dispatcher they are wired into.
    - [System]: everything above working together: use cases and deliveries
      against gateways that obey the contract [outcome], which the retrying
      executor is shown to implement.
    - [Presentation]: S [presentation]: routes, handlers and responses, over the
      service traits of S [application].
    - [HostLifecycle]: R [src/host] and S [startup], [main.rs].
    - [WorkerPool]: R [src/runtime/worker_pool.rs], [worker.rs] and
      [supervisor.rs] in detail: the [JoinSet], the index map, the channel that
      closes and the stored wake-ups.
    - [Diagnostics]: [Debug] and [Display] texts and log records of both crates.
    - [EventCodec]: the JSON forms of events and snapshots; the class
      [Aggregate] of the [cqrs_es] trait, with its two instances.
    - [EventStore]: one run of the [cqrs_es] framework over the tables of
      [Database]: what it reads, from a snapshot or the whole stream, what it
      writes, and what it answers.
    - [Tables]: any number of processes running commands and queue transactions
      on the tables, and the world of [System] the tables represent.
    - [Recording]: runs of the dispatcher and the handlers of [Application] with
      every gateway and console call written down beside its answer.
    - [Processing]: use cases and deliveries of any number of processes on the
      tables and the console; [service_step] is what a process may do, and the
      code is shown to do nothing else.  A process settles a delivery the way the
      executor does after a recorded run whose calls happened on these tables.
    - [Worker]: R [src/runtime/worker.rs]: the loop of one worker, run turn by turn.
    - [Runtime]: R [src/runtime/preparation.rs] and the start of
      [supervisor.rs]: the supervisor of [WorkerPool] beside the tables.
    - [Wiring]: R [src/postgres/command_factory.rs], [task_runtime_factory.rs],
      [pool.rs], the reading half of the event repository and the queue's trait
      over the pool, and S [startup/wiring.rs]: the assembled program.
    - [Progress]: the assembled program while nothing interferes: what it is asked
      to do gets done.
    - [ReferenceStore], [RunningService], [RunningProgress]: an executable framework
      that keeps the contract of [cqrs_es], and a registration run through the
      assembled program, which witnesses the theorems of the five files before.
    - [DomainTests], [RuntimeTests], [TaskTests], [ServiceTests], [HostTests],
      [WorkerTests]: the unit tests of the repository as boolean definitions of
      the same names, all of which evaluate to true on the model.

    ** What the theorems show

    - Registration ([System]): whatever interleaves, an address has at most one
      account and a completed reservation names it; no published task is ever
      rejected; an accepted registration can always be completed
      ([registration_completes]); repeated delivery is harmless; the code that is
      delivered is the one that verifies.
    - Tables ([EventStore], [Tables], [EventCodec]): the same holds of the rows.
      A run that read the tables at one moment and writes them at another is
      serializable; loading from a snapshot is replaying the stream; every row
      decodes to what its columns say; the rows always represent a world that
      committed commands reach, and no two account events share an address.
    - Service ([Processing], [Worker], [Runtime], [Wiring]): a task is recorded as
      completed only when its work is done and as failed only when its attempts
      are used up, and what a use case reports is stored.  The assembled program
      keeps to the steps this relies on: every request through its router, every
      delivery any of its workers executes, through restarts and shutdown.
      Requests always get a response; an execution panics only inside a handler,
      and only for a task that records a completion.
    - Progress ([Progress]): from a moment at which the database and the console
      answer, a claimed task of any kind is completed by its execution, and a
      registration of an address nobody else uses meanwhile succeeds from end to
      end, with two polls and two executions after the profile was accepted.  A
      completion event at a position where a snapshot is due is excepted: its
      execution is shown to panic and to store nothing
      ([completion_at_snapshot_panics]).
    - Domain ([EmailReservation], [UserAccount]): the handlers refine the state
      diagram on every branch, never panic on a replayed stream, accept only
      the latest pair and one profile per token, and keep the identity fixed.
    - Storage ([EventRepository], [TaskQueue], [CommandRetry]): a write is all or
      nothing under every connection fault, concurrent writes conflict, tasks
      move only along their lifecycle, an ended lease never settles, and
      conflict retry ends within its attempts.
    - Execution ([TaskHandling], [TaskExecutor], [Supervisor], [WorkerPool],
      [RuntimeConfig]): the right handler runs on the published payload, its
      outcome is what is settled, the deadlines fit the lease for every accepted
      configuration, admission is bounded, shutdown stops it, the pool of
      [JoinSet] tasks implements the supervision by worker index, and no wake-up
      is lost.
    - Edges ([Presentation], [HostLifecycle], [Diagnostics]): a response tells the
      truth about what was committed, failures reveal nothing, the process loses no
      failure and releases what it opened, and no diagnostic shows what the source of
      a failure carries or spans more than one line.

    ** Conventions

    A panic is [None], an error a value of [result].  A call on a state returns
    [option A * W]: when it panics, the state holds what it did until then, and its
    caller panics too ([and_then]) unless the code catches the panic, which only the
    [JoinSet] of the worker pool and the join of the host do.  Integers are [Z] with
    their width checked where the code converts or adds; times are nanoseconds,
    and a computed timestamp beyond the range of [timestamptz] is an error of its
    statement.
    Clock readings, random draws, generated identifiers, row locks of other
    sessions, faults of the connection and which branch of a [select!] wins are
    inputs, so that a theorem covers all of them.  Asynchronous code is a machine
    whose events are the completions it waits for.  The only recursion that is
    not structural is the retry loop; its fuel is [max_attempts], and
    [CommandRetry] proves that it ends within it.

    ** What is assumed

    Crates outside the repository are classes of operations ([UuidCrate],
    [EmailCrate], [ChronoCrate], [TokenDigest], [HttpCrates], [ConfigParsers],
    [Printers], [F64Rounding]) with a class of the laws that are used: printing
    and parsing agree, case folding is idempotent, printed identifiers are plain, a
    character that [Debug] prints as it is ends no line, rounding has the error
    bound of binary64.  Concrete instances evaluate every
    witness; for [F64Rounding] it is the machine's own rounding.  Beyond these:

    - text that is stored contains no NUL character, which PostgreSQL rejects;
    - [RETURNING] lists rows in the order of selection;
    - milliseconds below 2^53 are exact as [f64];
    - a generated account ID is not one that was generated before;
    - [tokio] gives a spawned task an ID no task of the set has, and [Notify]
      stores one wake-up;
    - one run of the [cqrs_es] framework loads an aggregate at one moment
      ([EventStore.loads]), handles the command, and later persists its event,
      every n-th time with a snapshot, through the repository
      ([EventStore.framework_run]); [System] uses of this that a run decides on
      the current stream and commits or not at all ([framework_outcome]), a
      connection failure leaving open which.  On its snapshot path the framework
      applies an accepted event a second time, before storing it;
      [EmailReservation.reapply_tolerated_except_completion] shows that the
      completion of a registration panics there.  Such a run panics and stored
      nothing ([EventStore.run_panicked], [Wiring.cqrs_panicked]), and so do the
      gateway, the use case and the handler that asked for it:
      [registration_completes] promises success only where the gateways answer,
      and [Progress] only where no snapshot is due ([Progress.recordable]);
    - for [Progress] alone: in a calm period the pool, the console and the
      framework answer ([Progress.CalmLaws]), the leases a poll asks for outlast
      it and new task IDs are new ([Progress.polling]);
    - other processes on the same database are instances of this service
      ([Wiring.OthersLaws]), the pool reaches its tables ([Wiring.PoolLaws]), the
      framework writes only through the repository it is given
      ([Wiring.CqrsLaws]), a claim and a settlement are one transaction each, and
      a line that was written and flushed is on the console
      ([Processing.ConsoleLaws]);
    - a handler that is cut off by its deadline has made some of the runs of its
      command ([Processing.handler_step]).

    ** What is not modelled

    Connecting to the database, reading the system clock and installing the log
    subscriber are single calls of other crates, whose outcome is an input; so is
    whether registering a signal handler succeeds.  What [postgres_es] reads and
    how [tracing] formats a record are those crates'.  Module declarations and
    plain getters hold no logic.  The interval timer only schedules events of the
    machines in [Supervisor] and [WorkerPool], which are taken in any order.  Of
    the unit tests, those that need a socket, the pending futures of a channel, a
    captured log or a process of their own are not evaluated; the integration
    tests need a running database.

    ** Further work

    Fairness of the worker pool over long runs, so that the polls and executions
    [Progress] speaks of are known to happen; the integration tests of the
    repository as runs of [RunningService]. *)

From stdpp Require Export prelude gmap strings.
From Stdlib Require Export ZArith Lia.

Global Open Scope Z_scope.

(** ** Results

    Rust's [Result<A, E>]; a panic is [None] in the [option] around it. *)

Inductive result (E A : Type) : Type :=
| Ok (a : A)
| Err (e : E).
Arguments Ok {E A} a.
Arguments Err {E A} e.

#[export] Instance result_eq_dec {E A} `{EqDecision E, EqDecision A} :
  EqDecision (result E A).
Proof. solve_decision. Defined.

#[export] Instance result_ret {E} : MRet (result E) := fun A a => Ok a.
#[export] Instance result_bind {E} : MBind (result E) := fun A B f m =>
  match m with Ok a => f a | Err e => Err e end.
#[export] Instance result_fmap {E} : FMap (result E) := fun A B f m =>
  match m with Ok a => Ok (f a) | Err e => Err e end.

(** [Result::map_err], [Option::ok_or], [Result::ok] and [Result::is_ok]. *)
Definition map_err {E F A} (f : E -> F) (m : result E A) : result F A :=
  match m with Ok a => Ok a | Err e => Err (f e) end.
Definition ok_or {E A} (e : E) (m : option A) : result E A :=
  match m with Some a => Ok a | None => Err e end.
Definition result_ok {E A} (m : result E A) : option A :=
  match m with Ok a => Some a | Err _ => None end.
Definition is_ok {E A} (m : result E A) : bool :=
  match m with Ok _ => true | Err _ => false end.

(** ** Calls that may panic

    A call on a state answers, or panics with [None]; either way it leaves a state. *)
Definition and_then {A B W} (m : option A * W) (f : A -> W -> option B * W) : option B * W :=
  match m with (Some a, w) => f a w | (None, w) => (None, w) end.
Definition map_answer {A B W} (f : A -> B) (m : option A * W) : option B * W := (f <$> m.1, m.2).

(** The call returned, with success. *)
Definition call_ok {E A} (r : option (result E A)) : bool :=
  match r with Some r => is_ok r | None => false end.

Lemma and_then_Some {A B W} (m : option A * W) (f : A -> W -> option B * W) b w :
  and_then m f = (Some b, w) -> exists a w1, m = (Some a, w1) /\ f a w1 = (Some b, w).
Proof. destruct m as [[a|] w1]; simpl; [eauto|done]. Qed.
Lemma and_then_None {A B W} (m : option A * W) (f : A -> W -> option B * W) w :
  and_then m f = (None, w) -> m = (None, w) \/ exists a w1, m = (Some a, w1) /\ f a w1 = (None, w).
Proof. destruct m as [[a|] w1]; simpl; [eauto|]. intros [= <-]. by left. Qed.

(** [if cond { return Err(e) }]: the early returns of the handlers. *)
Definition ensure {E} (b : bool) (e : E) : result E unit :=
  if b then Ok tt else Err e.

(** [Iterator::collect::<Result<Vec<_>, _>>]: stops at the first error. *)
Fixpoint collect {E A} (l : list (result E A)) : result E (list A) :=
  match l with
  | [] => Ok []
  | m :: l' => a ← m; l'' ← collect l'; Ok (a :: l'')
  end.

Lemma collect_ok_length {E A} (l : list (result E A)) l' :
  collect l = Ok l' -> length l' = length l.
Proof.
  revert l'. induction l as [|m l IH]; intros l' H; simplify_eq/=; [done|].
  destruct m; simplify_eq/=. destruct (collect l); simplify_eq/=.
  f_equal. by apply IH.
Qed.

Lemma collect_ok_Forall2 {E A} (l : list (result E A)) l' :
  collect l = Ok l' -> Forall2 (fun m a => m = Ok a) l l'.
Proof.
  revert l'. induction l as [|m l IH]; intros l' H; simplify_eq/=; [constructor|].
  destruct m; simplify_eq/=. destruct (collect l); simplify_eq/=. constructor; auto.
Qed.

Lemma Forall2_impl_in {A B} (P Q : A -> B -> Prop) l k :
  (forall x y, x ∈ l -> P x y -> Q x y) -> Forall2 P l k -> Forall2 Q l k.
Proof.
  intros H HP. induction HP as [|x y l k Hxy HP IH]; constructor.
  - apply H; [apply list_elem_of_here|done].
  - apply IH. intros. apply H; [by apply list_elem_of_further|done].
Qed.

(** ** Automation *)

Create HintDb ams.
Create Rewrite HintDb ams.

(** Case analysis on every match and decision of the goal and hypotheses,
    closing the contradictory branches. *)
Ltac step_match :=
  repeat (case_match || case_decide || case_bool_decide);
  simplify_eq/=.
Ltac crush := repeat (step_match; try naive_solver).

(** Turn the boolean comparisons of the code into their propositions. *)
Ltac zify_bool :=
  repeat match goal with
  | H : _ && _ = true |- _ => apply andb_true_iff in H as [? ?]
  | H : _ || _ = false |- _ => apply orb_false_iff in H as [? ?]
  | H : (_ <=? _) = true |- _ => apply Z.leb_le in H
  | H : (_ <=? _) = false |- _ => apply Z.leb_gt in H
  | H : (_ <? _) = true |- _ => apply Z.ltb_lt in H
  | H : (_ <? _) = false |- _ => apply Z.ltb_ge in H
  | H : (_ =? _) = true |- _ => apply Z.eqb_eq in H
  | H : (_ =? _) = false |- _ => apply Z.eqb_neq in H
  | H : negb _ = true |- _ => apply negb_true_iff in H
  | H : negb _ = false |- _ => apply negb_false_iff in H
  | H : bool_decide _ = true |- _ => apply bool_decide_eq_true in H
  | H : bool_decide _ = false |- _ => apply bool_decide_eq_false in H
  end.

(** ** Machine integers

    A [w]-bit integer is the [Z] it denotes; the bounds are those of Rust on
    a 64-bit target, where [usize] is 64 bits wide. *)

Definition i32_MAX : Z := 2 ^ 31 - 1.
Definition i32_MIN : Z := - 2 ^ 31.
Definition i64_MAX : Z := 2 ^ 63 - 1.
Definition u16_MAX : Z := 2 ^ 16 - 1.
Definition u32_MAX : Z := 2 ^ 32 - 1.
Definition u64_MAX : Z := 2 ^ 64 - 1.
Definition usize_MAX : Z := 2 ^ 64 - 1.
Definition u128_MAX : Z := 2 ^ 128 - 1.

(** Unsigned [checked_add] and [checked_mul] at a width with maximum [m],
    and [TryFrom] into a type with the same lower bound 0. *)
Definition checked (m n : Z) : option Z := if n <=? m then Some n else None.
Definition usize_checked_add (a b : Z) : option Z := checked usize_MAX (a + b).
Definition usize_checked_mul (a b : Z) : option Z := checked usize_MAX (a * b).
Definition usize_wrapping_add (a b : Z) : Z := (a + b) mod 2 ^ 64.

Lemma checked_Some m n k : checked m n = Some k <-> k = n /\ n <= m.
Proof.
  unfold checked. destruct (Z.leb_spec n m); (split; [intros ?|intros [-> ?]]);
    simplify_eq; auto; lia.
Qed.

Lemma checked_None m n : checked m n = None <-> m < n.
Proof. unfold checked. destruct (Z.leb_spec n m); split; intros; simplify_eq; auto; lia. Qed.

Lemma checked_le m n : n <= m -> checked m n = Some n.
Proof. intros. by apply checked_Some. Qed.

(** ** Strings

    A Rust [str] as the list of its characters (Unicode scalar values). *)

Abbreviation rstr := (list N).

Definition lit (s : string) : rstr := Ascii.N_of_ascii <$> String.list_ascii_of_string s.
Notation "§ s" := (lit s%string) (at level 8, s at level 0, format "§ s").

(** [char::is_whitespace]: the Unicode property White_Space. *)
Definition is_whitespace (c : N) : bool :=
  ((9 <=? c) && (c <=? 13) || (c =? 32) || (c =? 133) || (c =? 160)
   || (c =? 5760) || (8192 <=? c) && (c <=? 8202)
   || (c =? 8232) || (c =? 8233) || (c =? 8239) || (c =? 8287)
   || (c =? 12288))%N.

Fixpoint trim_start (s : rstr) : rstr :=
  match s with
  | c :: s' => if is_whitespace c then trim_start s' else s
  | [] => []
  end.
Definition trim_end (s : rstr) : rstr := reverse (trim_start (reverse s)).
(** [str::trim]. *)
Definition trim (s : rstr) : rstr := trim_end (trim_start s).

Lemma trim_start_spec s :
  exists p, s = p ++ trim_start s /\ Forall (fun c => is_whitespace c = true) p.
Proof.
  induction s as [|c s (p & Hp & Hf)]; [by exists []|]. simpl.
  destruct (is_whitespace c) eqn:E.
  - exists (c :: p). split; [by rewrite Hp at 1|by constructor].
  - by exists [].
Qed.

Lemma trim_start_head s c t : trim_start s = c :: t -> is_whitespace c = false.
Proof.
  induction s as [|d s IH]; simpl; [done|].
  destruct (is_whitespace d) eqn:E; [done|]. by intros [= <- <-].
Qed.

Lemma trim_start_fix c t : is_whitespace c = false -> trim_start (c :: t) = c :: t.
Proof. simpl. by intros ->. Qed.

Lemma trim_start_idemp s : trim_start (trim_start s) = trim_start s.
Proof.
  destruct (trim_start s) as [|c t] eqn:E; [done|].
  apply trim_start_fix. by eapply trim_start_head.
Qed.

Lemma trim_end_idemp s : trim_end (trim_end s) = trim_end s.
Proof. unfold trim_end. by rewrite reverse_involutive, trim_start_idemp. Qed.

(** Trimming the end of a string whose head is not blank keeps that head. *)
Lemma trim_end_head c t : is_whitespace c = false -> exists t', trim_end (c :: t) = c :: t'.
Proof.
  intros Hc. unfold trim_end. rewrite reverse_cons.
  destruct (trim_start_spec (reverse t)) as (p & Hp & Hf).
  assert (Hstep : forall q, Forall (fun d => is_whitespace d = true) q ->
    forall r, trim_start (q ++ r) = trim_start r).
  { induction 1 as [|d q Hd _ IH]; intros r; simpl; [done|]. by rewrite Hd. }
  rewrite Hp, <- (assoc_L (++)), Hstep by done.
  destruct (trim_start (reverse t)) as [|d u] eqn:E; simpl.
  - rewrite Hc. by exists [].
  - rewrite (trim_start_head _ _ _ E), reverse_cons, reverse_app. simpl. eauto.
Qed.

Lemma trim_idemp s : trim (trim s) = trim s.
Proof.
  unfold trim. destruct (trim_start s) as [|c t] eqn:E; [done|].
  pose proof (trim_start_head _ _ _ E) as Hc.
  destruct (trim_end_head c t Hc) as [t' Ht'].
  rewrite Ht', trim_start_fix, <- Ht' by done. apply trim_end_idemp.
Qed.
#[export] Hint Rewrite trim_idemp : ams.

(** ** Durations and instants

    [std::time::Duration] is a count of nanoseconds up to [Duration::MAX];
    [tokio::time::Instant] is a point on the monotonic clock, a timespec of
    signed 64-bit seconds on the supported (Unix) targets. *)

Definition NANOS_PER_SEC : Z := 1000000000.
Definition NANOS_PER_MILLI : Z := 1000000.
Definition DURATION_MAX : Z := u64_MAX * NANOS_PER_SEC + 999999999.

Module Duration.
Definition t : Type := Z.
Definition valid (d : t) : Prop := 0 <= d <= DURATION_MAX.
Definition from_secs (s : Z) : t := s * NANOS_PER_SEC.
Definition from_millis (ms : Z) : t := ms * NANOS_PER_MILLI.
Definition as_nanos (d : t) : Z := d.
Definition as_millis (d : t) : Z := d / NANOS_PER_MILLI.
Definition is_zero (d : t) : bool := d =? 0.
Definition checked_add (a b : t) : option t := checked DURATION_MAX (a + b).
Definition checked_mul (a : t) (k : Z) : option t := checked DURATION_MAX (a * k).
Definition saturating_mul (a : t) (k : Z) : t := Z.min (a * k) DURATION_MAX.
End Duration.

Definition INSTANT_MIN : Z := - 2 ^ 63 * NANOS_PER_SEC.
Definition INSTANT_MAX : Z := (2 ^ 63 - 1) * NANOS_PER_SEC + 999999999.

Module Instant.
Definition t : Type := Z.
Definition valid (i : t) : Prop := INSTANT_MIN <= i <= INSTANT_MAX.
Definition checked_add (i : t) (d : Duration.t) : option t := checked INSTANT_MAX (i + d).
Definition checked_sub (i : t) (d : Duration.t) : option t :=
  if INSTANT_MIN <=? i - d then Some (i - d) else None.
(** Saturates at zero. *)
Definition duration_since (later earlier : t) : Duration.t := Z.max 0 (later - earlier).
End Instant.

#[export] Hint Resolve checked_Some checked_None : ams.

(** ** Reachability

    The reflexive-transitive closures of the step relations are stdpp's
    [rtc]; an invariant is a predicate every step preserves. *)

Definition preserves {S} (step : S -> S -> Prop) (I : S -> Prop) : Prop :=
  forall s s', I s -> step s s' -> I s'.

Lemma rtc_preserves {S} (step : S -> S -> Prop) (I : S -> Prop) s s' :
  preserves step I -> I s -> rtc step s s' -> I s'.
Proof. intros Hp Hi Hr. induction Hr; eauto. Qed.
