(* ===== verification/DomainValues.v ===== *)
(** * Domain values

    The value objects of [account-managements-service/src/domain]: e-mail
    addresses, account identifiers, dates and registration profiles.  The
    crates [uuid] and [email_address] and the Unicode case tables are operations
    of a class each; what the service relies on is the class of their laws. *)

From S2P Require Import Prelude.

(** ** Identifiers *)

(** [uuid::Uuid] is its 128-bit value; its text form is the crate's. *)
Abbreviation Uuid := N.

Class UuidCrate := {
  uuid_to_string : Uuid -> rstr;
  uuid_parse_str : rstr -> option Uuid;
}.

(** Documented: [Uuid::parse_str] reads back what [Display] writes. *)
Class UuidLaws `{UuidCrate} := {
  uuid_parse_to_string u : uuid_parse_str (uuid_to_string u) = Some u;
}.

Lemma uuid_to_string_inj `{UuidLaws} u v : uuid_to_string u = uuid_to_string v -> u = v.
Proof.
  intros E. apply (f_equal uuid_parse_str) in E.
  rewrite !uuid_parse_to_string in E. by simplify_eq.
Qed.

Record UserAccountId := mk_UserAccountId { as_uuid : Uuid }.

#[export] Instance UserAccountId_eq_dec : EqDecision UserAccountId.
Proof. solve_decision. Defined.
#[export] Instance UserAccountId_countable : Countable UserAccountId.
Proof. by apply (inj_countable' as_uuid mk_UserAccountId); intros []. Defined.

Definition from_uuid (value : Uuid) : UserAccountId := mk_UserAccountId value.
Definition account_id_to_string `{UuidCrate} (id : UserAccountId) : rstr :=
  uuid_to_string (as_uuid id).
Definition account_id_from_str `{UuidCrate} (value : rstr) : option UserAccountId :=
  mk_UserAccountId <$> uuid_parse_str value.

(** ** Dates

    [chrono::NaiveDate] as its day number, [chrono::DateTime<Utc>] as its
    nanoseconds since the Unix epoch; both crate types order by these. *)

Abbreviation NaiveDate := Z.
Abbreviation DateTime := Z.

Definition NANOS_PER_DAY : Z := 86400 * NANOS_PER_SEC.
Definition date_naive (t : DateTime) : NaiveDate := t / NANOS_PER_DAY.

(** ** E-mail addresses *)

Class EmailCrate := {
  (** [str::to_lowercase], over the Unicode tables. *)
  to_lowercase : rstr -> rstr;
  (** [EmailAddress::parse_with_options] with the options of [Email::parse]:
      the text the parsed address holds. *)
  parse_with_options : rstr -> option rstr;
}.

Definition dquote : N := 34.

Class EmailLaws `{EmailCrate} := {
  to_lowercase_idemp s : to_lowercase (to_lowercase s) = to_lowercase s;
  (** Lowercasing neither makes nor removes blanks at the ends... *)
  to_lowercase_trim s : trim (to_lowercase (trim s)) = to_lowercase (trim s);
  (** ... nor quotation marks. *)
  to_lowercase_quote s : dquote ∈ to_lowercase s -> dquote ∈ s;
  (** Without display text an [EmailAddress] holds exactly its input. *)
  parse_with_options_as_str s e : parse_with_options s = Some e -> e = s;
}.

Record Email := mk_Email { email_as_str : rstr }.

#[export] Instance Email_eq_dec : EqDecision Email.
Proof. solve_decision. Defined.
#[export] Instance Email_countable : Countable Email.
Proof. by apply (inj_countable' email_as_str mk_Email); intros []. Defined.

Inductive InvalidEmail : Type := mk_InvalidEmail.

Lemma trim_elem_of c s : c ∈ trim s -> c ∈ s.
Proof.
  assert (Hs : forall s, c ∈ trim_start s -> c ∈ s).
  { intros u Hu. destruct (trim_start_spec u) as (p & -> & _). set_solver. }
  unfold trim, trim_end. rewrite elem_of_reverse. intros Hc%Hs.
  rewrite elem_of_reverse in Hc. by apply Hs.
Qed.

Section Email.
Context `{EmailCrate}.

(** [Email::parse] *)
Definition email_parse (value : rstr) : result InvalidEmail Email :=
  if bool_decide (dquote ∈ value) then Err mk_InvalidEmail
  else match parse_with_options (to_lowercase (trim value)) with
       | Some address => Ok (mk_Email address)
       | None => Err mk_InvalidEmail
       end.

(** [FromStr for Email] and the visitor of [Deserialize for Email]. *)
Definition email_from_str (value : rstr) : result InvalidEmail Email := email_parse value.
Definition email_visit_str {E} (custom : InvalidEmail -> E) (value : rstr) : result E Email :=
  map_err custom (email_parse value).

(** [Display for Email] *)
Definition email_to_string (e : Email) : rstr := email_as_str e.

Context `{!EmailLaws}.

(** The stored text is the canonical form of the input. *)
Lemma email_parse_as_str value e :
  email_parse value = Ok e -> email_as_str e = to_lowercase (trim value).
Proof.
  unfold email_parse. case_bool_decide; [done|]. case_match eqn:E; [|done].
  intros [= <-]. by apply parse_with_options_as_str in E.
Qed.

Lemma email_parse_canonical value e :
  email_parse value = Ok e -> email_parse (email_as_str e) = Ok e.
Proof.
  intros He. pose proof (email_parse_as_str _ _ He) as Hs.
  unfold email_parse in *. destruct (bool_decide (dquote ∈ value)) eqn:Hq; [done|].
  apply bool_decide_eq_false in Hq. rewrite Hs.
  rewrite bool_decide_eq_false_2 by (intros ?%to_lowercase_quote%trim_elem_of; done).
  by rewrite to_lowercase_trim, to_lowercase_idemp.
Qed.
End Email.

(** ** Registration profiles *)

Record RegistrationProfile := {
  first_name : rstr;
  last_name : rstr;
  date_of_birth : NaiveDate;
  validation_date : NaiveDate;
}.

#[export] Instance RegistrationProfile_eq_dec : EqDecision RegistrationProfile.
Proof. solve_decision. Defined.

(** [RegistrationProfile::new] *)
Definition profile_new (first last : rstr) (dob vd : NaiveDate) : RegistrationProfile :=
  {| first_name := trim first; last_name := trim last;
     date_of_birth := dob; validation_date := vd |}.

Definition profile_normalize (p : RegistrationProfile) : RegistrationProfile :=
  profile_new (first_name p) (last_name p) (date_of_birth p) (validation_date p).

Lemma profile_normalize_idemp p :
  profile_normalize (profile_normalize p) = profile_normalize p.
Proof. unfold profile_normalize, profile_new; simpl. by rewrite !trim_idemp. Qed.

(** The registration rules an accepted profile satisfies. *)
Definition profile_valid (p : RegistrationProfile) : Prop :=
  profile_normalize p = p /\ first_name p <> [] /\ last_name p <> [] /\
  date_of_birth p <= validation_date p.

#[export] Instance profile_valid_dec p : Decision (profile_valid p).
Proof. apply _. Defined.
