(* ===== verification/EmailReservation.v ===== *)
(** * The [EmailReservation] aggregate

    [account-managements-service/src/domain/email_reservation.rs] and its
    modules [commands], [events], [errors] and [aggregate].  A command handler
    reads the aggregate and either rejects or passes one event to the
    framework's sink; it is modelled by the list of events it writes.  [None]
    is a panic ([unreachable!], [panic!]). *)

From S2P Require Import Prelude DomainValues.

(** ** Data *)

Inductive ReservationPhase : Type :=
| Absent
| AwaitingCode (account_id : UserAccountId) (verification_code : Z)
| AwaitingProfile (account_id : UserAccountId) (token_digest : rstr)
| CreatingAccount (account_id : UserAccountId) (consumed_token_digest : rstr)
    (accepted_profile : RegistrationProfile)
| AccountCreated (account_id : UserAccountId) (consumed_token_digest : rstr)
    (accepted_profile : RegistrationProfile) (created_at : DateTime).

#[export] Instance ReservationPhase_eq_dec : EqDecision ReservationPhase.
Proof. solve_decision. Defined.

Record EmailReservation := mk_EmailReservation { phase : ReservationPhase }.

#[export] Instance EmailReservation_eq_dec : EqDecision EmailReservation.
Proof. solve_decision. Defined.

(** [EmailReservation::default()] *)
Definition default : EmailReservation := mk_EmailReservation Absent.

Definition account_id (self : EmailReservation) : option UserAccountId :=
  match phase self with
  | Absent => None
  | AwaitingCode id _ | AwaitingProfile id _
  | CreatingAccount id _ _ | AccountCreated id _ _ _ => Some id
  end.

Definition is_reserved (self : EmailReservation) : bool :=
  match phase self with Absent => false | _ => true end.

Inductive EmailReservationCommand : Type :=
| ReserveEmail (email : Email) (account_id : UserAccountId) (verification_code : Z)
| RequestVerificationCode (email : Email) (account_id : UserAccountId) (verification_code : Z)
| VerifyEmail (email : Email) (account_id : UserAccountId) (code : Z) (token_digest : rstr)
| SubmitRegistrationProfile (email : Email) (account_id : UserAccountId)
    (token_digest : rstr) (profile : RegistrationProfile)
| RecordAccountCreated (email : Email) (account_id : UserAccountId)
    (profile : RegistrationProfile) (created_at : DateTime).

Inductive EmailReservationEvent : Type :=
| EmailReserved (email : Email) (account_id : UserAccountId) (verification_code : Z)
| VerificationCodeRequested (email : Email) (account_id : UserAccountId) (verification_code : Z)
| VerificationRestarted (email : Email) (account_id : UserAccountId) (verification_code : Z)
| EmailVerified (email : Email) (account_id : UserAccountId) (token_digest : rstr)
| RegistrationProfileAccepted (email : Email) (account_id : UserAccountId)
    (consumed_token_digest : rstr) (profile : RegistrationProfile)
| AccountCreationCompleted (email : Email) (account_id : UserAccountId) (created_at : DateTime).

#[export] Instance EmailReservationEvent_eq_dec : EqDecision EmailReservationEvent.
Proof. solve_decision. Defined.

Inductive EmailReservationError : Type :=
| AlreadyReserved | NotReserved | NotCurrentAccountId | AlreadyVerified
| InvalidVerificationCode | InvalidVerificationCodeFormat | AccountIdUnchanged
| NotAwaitingProfile | InvalidAccountCreationToken | ProfileAlreadySubmitted
| EmptyFirstName | EmptyLastName | FutureDateOfBirth | AccountCreationStarted
| AccountCreationMismatch | AccountCreationAlreadyCompleted.

#[export] Instance EmailReservationError_eq_dec : EqDecision EmailReservationError.
Proof. solve_decision. Defined.

(** [DomainEvent::event_type] and [event_version] *)
Definition event_type (e : EmailReservationEvent) : rstr :=
  match e with
  | EmailReserved _ _ _ => §"email_reserved"
  | VerificationCodeRequested _ _ _ => §"verification_code_requested"
  | VerificationRestarted _ _ _ => §"verification_restarted"
  | EmailVerified _ _ _ => §"email_verified"
  | RegistrationProfileAccepted _ _ _ _ => §"registration_profile_accepted"
  | AccountCreationCompleted _ _ _ => §"account_creation_completed"
  end.
Definition event_version (e : EmailReservationEvent) : rstr :=
  match e with
  | EmailReserved _ _ _ => §"1"
  | VerificationCodeRequested _ _ _ | EmailVerified _ _ _ => §"1"
  | VerificationRestarted _ _ _ => §"1"
  | RegistrationProfileAccepted _ _ _ _ | AccountCreationCompleted _ _ _ => §"1"
  end.

(** ** Command handlers *)

Abbreviation handled := (result EmailReservationError (list EmailReservationEvent)).

Definition code_format_ok (code : Z) : bool := (1000000 <=? code) && (code <=? 9999999).

Definition ensure_code_format (code : Z) : result EmailReservationError unit :=
  if code_format_ok code then Ok tt else Err InvalidVerificationCodeFormat.

Definition handle_reserve (self : EmailReservation) (email : Email)
    (id : UserAccountId) (code : Z) : handled :=
  if is_reserved self then Err AlreadyReserved
  else _ ← ensure_code_format code; Ok [EmailReserved email id code].

Definition handle_request_verification_code (self : EmailReservation) (email : Email)
    (id : UserAccountId) (code : Z) : option handled :=
  match account_id self with
  | None => Some (Err NotReserved)
  | Some current =>
    if decide (current = id) then Some (Err AccountIdUnchanged)
    else match ensure_code_format code with
    | Err e => Some (Err e)
    | Ok _ =>
      match phase self with
      | AwaitingCode _ _ => Some (Ok [VerificationCodeRequested email id code])
      | AwaitingProfile _ _ => Some (Ok [VerificationRestarted email id code])
      | CreatingAccount _ _ _ | AccountCreated _ _ _ _ => Some (Err AccountCreationStarted)
      | Absent => None
      end
    end
  end.

Definition handle_verify (self : EmailReservation) (email : Email)
    (id : UserAccountId) (code : Z) (token_digest : rstr) : handled :=
  match phase self with
  | Absent => Err NotReserved
  | AwaitingCode current verification_code =>
    if decide (current <> id) then Err NotCurrentAccountId
    else if decide (verification_code <> code) then Err InvalidVerificationCode
    else Ok [EmailVerified email id token_digest]
  | AwaitingProfile current _ =>
    Err (if decide (current = id) then AlreadyVerified else NotCurrentAccountId)
  | CreatingAccount _ _ _ | AccountCreated _ _ _ _ => Err AccountCreationStarted
  end.

Definition handle_submit_profile (self : EmailReservation) (email : Email)
    (id : UserAccountId) (token_digest : rstr) (profile : RegistrationProfile) : handled :=
  let profile := profile_new (first_name profile) (last_name profile)
                   (date_of_birth profile) (validation_date profile) in
  _ ← match phase self with
      | Absent => Err NotReserved
      | AwaitingCode current _ =>
        Err (if decide (current = id) then NotAwaitingProfile else NotCurrentAccountId)
      | AwaitingProfile current expected =>
        if decide (current <> id) then Err NotCurrentAccountId
        else if decide (expected <> token_digest) then Err InvalidAccountCreationToken
        else Ok tt
      | CreatingAccount current consumed _ | AccountCreated current consumed _ _ =>
        if decide (current <> id) then Err NotCurrentAccountId
        else if decide (consumed <> token_digest) then Err InvalidAccountCreationToken
        else Err ProfileAlreadySubmitted
      end;
  if decide (first_name profile = []) then Err EmptyFirstName
  else if decide (last_name profile = []) then Err EmptyLastName
  else if validation_date profile <? date_of_birth profile then Err FutureDateOfBirth
  else Ok [RegistrationProfileAccepted email id token_digest profile].

Definition handle_record_account_created (self : EmailReservation) (email : Email)
    (id : UserAccountId) (profile : RegistrationProfile) (created_at : DateTime) : handled :=
  match phase self with
  | CreatingAccount current _ accepted =>
    if decide (current = id /\ accepted = profile)
    then Ok [AccountCreationCompleted email id created_at]
    else Err AccountCreationMismatch
  | AccountCreated current _ accepted original =>
    if decide (current = id /\ accepted = profile /\ original = created_at)
    then Err AccountCreationAlreadyCompleted
    else Err AccountCreationMismatch
  | Absent => Err NotReserved
  | AwaitingCode _ _ | AwaitingProfile _ _ => Err NotAwaitingProfile
  end.

(** [Aggregate::handle] *)
Definition handle (self : EmailReservation) (command : EmailReservationCommand) : option handled :=
  match command with
  | ReserveEmail email id code => Some (handle_reserve self email id code)
  | RequestVerificationCode email id code => handle_request_verification_code self email id code
  | VerifyEmail email id code digest => Some (handle_verify self email id code digest)
  | SubmitRegistrationProfile email id digest profile =>
    Some (handle_submit_profile self email id digest profile)
  | RecordAccountCreated email id profile created_at =>
    Some (handle_record_account_created self email id profile created_at)
  end.

(** [Aggregate::apply] *)
Definition apply (self : EmailReservation) (event : EmailReservationEvent) : option EmailReservation :=
  match event with
  | EmailReserved _ id code | VerificationCodeRequested _ id code
  | VerificationRestarted _ id code => Some (mk_EmailReservation (AwaitingCode id code))
  | EmailVerified _ id digest => Some (mk_EmailReservation (AwaitingProfile id digest))
  | RegistrationProfileAccepted _ id digest profile =>
    Some (mk_EmailReservation (CreatingAccount id digest profile))
  | AccountCreationCompleted _ id created_at =>
    match phase self with
    | CreatingAccount _ digest profile =>
      Some (mk_EmailReservation (AccountCreated id digest profile created_at))
    | _ => None
    end
  end.

(** Rebuilding the aggregate from its stream. *)
Definition replay_from (s : EmailReservation) (es : list EmailReservationEvent) :
  option EmailReservation := foldl (fun os e => s ← os; apply s e) (Some s) es.
Definition replay (es : list EmailReservationEvent) : option EmailReservation :=
  replay_from default es.

(** ** The documented state diagram

    The transitions the README draws for this aggregate, with the conditions
    its list of invariants attaches to them. *)

Inductive lifecycle : ReservationPhase -> EmailReservationCommand ->
    EmailReservationEvent -> ReservationPhase -> Prop :=
| lc_reserve em id code :
    1000000 <= code <= 9999999 ->
    lifecycle Absent (ReserveEmail em id code) (EmailReserved em id code) (AwaitingCode id code)
| lc_reissue em id code old old_code :
    id <> old -> 1000000 <= code <= 9999999 ->
    lifecycle (AwaitingCode old old_code) (RequestVerificationCode em id code)
      (VerificationCodeRequested em id code) (AwaitingCode id code)
| lc_restart em id code old digest :
    id <> old -> 1000000 <= code <= 9999999 ->
    lifecycle (AwaitingProfile old digest) (RequestVerificationCode em id code)
      (VerificationRestarted em id code) (AwaitingCode id code)
| lc_verify em id code digest :
    lifecycle (AwaitingCode id code) (VerifyEmail em id code digest)
      (EmailVerified em id digest) (AwaitingProfile id digest)
| lc_submit em id digest p :
    profile_valid (profile_normalize p) ->
    lifecycle (AwaitingProfile id digest) (SubmitRegistrationProfile em id digest p)
      (RegistrationProfileAccepted em id digest (profile_normalize p))
      (CreatingAccount id digest (profile_normalize p))
| lc_complete em id digest p t :
    lifecycle (CreatingAccount id digest p) (RecordAccountCreated em id p t)
      (AccountCreationCompleted em id t) (AccountCreated id digest p t).
#[export] Hint Constructors lifecycle : ams.

(** ** Handler lemmas *)

Lemma code_format_ok_spec code : code_format_ok code = true <-> 1000000 <= code <= 9999999.
Proof. unfold code_format_ok. rewrite andb_true_iff, !Z.leb_le. lia. Qed.

Lemma profile_normalize_valid p :
  profile_valid (profile_normalize p) <->
  trim (first_name p) <> [] /\ trim (last_name p) <> [] /\ date_of_birth p <= validation_date p.
Proof.
  unfold profile_valid. rewrite profile_normalize_idemp. simpl. naive_solver.
Qed.

(** Unfolds one handler and splits it on its guards. *)
Ltac open_handler :=
  unfold handle, handle_reserve, handle_request_verification_code, handle_verify,
    handle_submit_profile, handle_record_account_created, ensure_code_format,
    is_reserved, account_id, apply in *; simpl in *.
Ltac split_phase s := destruct s as [[|?id ?code|?id ?dg|?id ?dg ?p|?id ?dg ?p ?t]].

Lemma handle_total s c : is_Some (handle s c).
Proof.
  destruct c; open_handler; try by eauto.
  split_phase s; simpl; step_match; by eauto.
Qed.

(** Acceptance, seen as one pair of the event and the next state. *)
Definition step_to (s : EmailReservation) (c : EmailReservationCommand)
    (e : EmailReservationEvent) (s' : EmailReservation) : Prop :=
  handle s c = Some (Ok [e]) /\ apply s e = Some s'.

Lemma lifecycle_accepts p c e p' :
  lifecycle p c e p' -> step_to (mk_EmailReservation p) c e (mk_EmailReservation p').
Proof.
  destruct 1; unfold step_to; open_handler;
    try rewrite (proj2 (code_format_ok_spec _)) by done;
    repeat case_decide; try done; try (exfalso; congruence || naive_solver).
  all: apply profile_normalize_valid in H as (? & ? & ?); try done.
  simpl. by rewrite (proj2 (Z.ltb_ge _ _)).
Qed.

Lemma accepts_lifecycle s c es :
  handle s c = Some (Ok es) ->
  exists e s', es = [e] /\ apply s e = Some s' /\ lifecycle (phase s) c e (phase s').
Proof.
  intros Hh. split_phase s; destruct c; open_handler; simplify_eq/=;
    repeat ((case_decide || case_match); simplify_eq/=); zify_bool;
    try match goal with H : code_format_ok _ = true |- _ => apply code_format_ok_spec in H end;
    destruct_and?; simplify_eq/=;
    do 2 eexists; (split; [done|]); (split; [done|]); simpl;
    repeat match goal with H : ~ (_ <> _) |- _ => apply dec_stable in H; subst end;
    try (econstructor; congruence || done).
  apply lc_submit. apply profile_normalize_valid. simpl in *; auto.
Qed.

Lemma handle_one_event s c es :
  handle s c = Some (Ok es) -> exists e s', es = [e] /\ apply s e = Some s'.
Proof. intros (e & s' & ? & ? & _)%accepts_lifecycle. eauto. Qed.
#[export] Hint Resolve lifecycle_accepts : ams.

(** ** Histories

    The event streams accepted commands build, with the aggregate state each
    one leads to.  Rejected commands write nothing. *)

Inductive history : list EmailReservationEvent -> EmailReservation -> Prop :=
| history_nil : history [] default
| history_snoc es s c e s' :
    history es s -> step_to s c e s' -> history (es ++ [e]) s'.
#[export] Hint Constructors history : ams.

Definition started (p : ReservationPhase) : bool :=
  match p with CreatingAccount _ _ _ | AccountCreated _ _ _ _ => true | _ => false end.

(** The pair the latest issuance event of a stream carries. *)
Definition issued (e : EmailReservationEvent) : option (UserAccountId * Z) :=
  match e with
  | EmailReserved _ id code | VerificationCodeRequested _ id code
  | VerificationRestarted _ id code => Some (id, code)
  | _ => None
  end.
Definition last_issued (es : list EmailReservationEvent) : option (UserAccountId * Z) :=
  last (omap issued es).

Definition is_accepted (e : EmailReservationEvent) : bool :=
  match e with RegistrationProfileAccepted _ _ _ _ => true | _ => false end.
Definition is_completed (e : EmailReservationEvent) : bool :=
  match e with AccountCreationCompleted _ _ _ => true | _ => false end.
Definition count_events (f : EmailReservationEvent -> bool) (es : list EmailReservationEvent) : nat :=
  length (filter (fun e => f e = true) es).

(** What every stream says about the phase it leads to. *)
Definition phase_inv (es : list EmailReservationEvent) (p : ReservationPhase) : Prop :=
  match p with
  | Absent => es = []
  | AwaitingCode id code => 1000000 <= code <= 9999999 /\ last_issued es = Some (id, code)
  | AwaitingProfile id digest =>
    (exists em, EmailVerified em id digest ∈ es) /\ fst <$> last_issued es = Some id
  | CreatingAccount id digest p =>
    (exists em, EmailVerified em id digest ∈ es) /\
    (exists em, RegistrationProfileAccepted em id digest p ∈ es) /\
    fst <$> last_issued es = Some id /\ profile_valid p
  | AccountCreated id digest p t =>
    (exists em, EmailVerified em id digest ∈ es) /\
    (exists em, RegistrationProfileAccepted em id digest p ∈ es) /\
    (exists em, AccountCreationCompleted em id t ∈ es) /\
    fst <$> last_issued es = Some id /\ profile_valid p
  end.

Lemma step_to_lifecycle s c e s' : step_to s c e s' <-> lifecycle (phase s) c e (phase s').
Proof.
  split.
  - intros [Hh Ha]. apply accepts_lifecycle in Hh as (e' & s'' & [= <-] & Ha' & Hl).
    by simplify_eq.
  - destruct s, s'. apply lifecycle_accepts.
Qed.

Lemma history_snoc' es s c e p' :
  history es s -> lifecycle (phase s) c e p' -> history (es ++ [e]) (mk_EmailReservation p').
Proof. intros Hs Hl. econstructor; [done|]. by apply step_to_lifecycle. Qed.
#[export] Hint Resolve history_snoc' : ams.

Lemma replay_snoc es e : replay (es ++ [e]) = (s ← replay es; apply s e).
Proof. unfold replay, replay_from. by rewrite foldl_app. Qed.

Lemma last_issued_snoc es e :
  last_issued (es ++ [e]) = match issued e with Some p => Some p | None => last_issued es end.
Proof.
  unfold last_issued. rewrite omap_app. simpl. case_match; [by rewrite last_snoc|].
  by rewrite app_nil_r.
Qed.

Lemma count_events_snoc f es e :
  count_events f (es ++ [e]) = (count_events f es + if f e then 1 else 0)%nat.
Proof.
  unfold count_events. rewrite filter_app, length_app. f_equal.
  rewrite filter_cons, filter_nil. by destruct (f e).
Qed.
#[export] Hint Rewrite last_issued_snoc count_events_snoc replay_snoc : ams.

Lemma history_phase_inv es s : history es s -> phase_inv es (phase s).
Proof.
  induction 1 as [|es s c e s' _ IH Hl%step_to_lifecycle]; [done|].
  revert IH. destruct Hl; simpl; rewrite last_issued_snoc; simpl; intros IH; destruct_and?;
    repeat match goal with H : exists _, _ |- _ => destruct H end; split_and?;
    try done;
    try (eexists; apply elem_of_app;
         first [left; eassumption | right; apply list_elem_of_singleton; reflexivity]).
  match goal with H : last_issued _ = _ |- _ => by rewrite H end.
Qed.

Lemma history_replay es s : history es s -> replay es = Some s.
Proof.
  induction 1 as [|es s c e s' _ IH [_ Ha]]; [done|]. by rewrite replay_snoc, IH.
Qed.

Lemma history_counts es s :
  history es s ->
  count_events is_accepted es = (if started (phase s) then 1 else 0)%nat /\
  count_events is_completed es =
    (match phase s with AccountCreated _ _ _ _ => 1 | _ => 0 end)%nat.
Proof.
  induction 1 as [|es s c e s' _ IH Hl%step_to_lifecycle]; [done|].
  revert IH. rewrite !count_events_snoc. destruct Hl; simpl; lia.
Qed.

(** ** Properties *)

Definition transition (s s' : EmailReservation) : Prop := exists c e, step_to s c e s'.

Definition accepted_profile (p : ReservationPhase) : option RegistrationProfile :=
  match p with
  | CreatingAccount _ _ profile | AccountCreated _ _ profile _ => Some profile
  | _ => None
  end.

Lemma started_step s s' :
  transition s s' -> started (phase s) = true ->
  started (phase s') = true /\ account_id s' = account_id s /\
  accepted_profile (phase s') = accepted_profile (phase s).
Proof.
  intros (c & e & Hl%step_to_lifecycle) Hs. unfold account_id.
  by destruct Hl.
Qed.

(** The example registration the witnesses run. *)
Definition ex_email : Email := mk_Email §"alice@example.com".
Definition ex_id : UserAccountId := mk_UserAccountId 1.
Definition ex_profile : RegistrationProfile := profile_new §" Alice " §" Smith " 7436 20710.
Definition ex_events : list EmailReservationEvent :=
  [EmailReserved ex_email ex_id 1234567; EmailVerified ex_email ex_id §"digest";
   RegistrationProfileAccepted ex_email ex_id §"digest" ex_profile;
   AccountCreationCompleted ex_email ex_id 42].

Lemma ex_history_reserved :
  history (take 1 ex_events) (mk_EmailReservation (AwaitingCode ex_id 1234567)).
Proof. apply (history_snoc [] default (ReserveEmail ex_email ex_id 1234567)); [constructor|done]. Qed.

Lemma ex_history :
  history ex_events (mk_EmailReservation (AccountCreated ex_id §"digest" ex_profile 42)).
Proof.
  apply (history_snoc (take 3 ex_events)
    (mk_EmailReservation (CreatingAccount ex_id §"digest" ex_profile))
    (RecordAccountCreated ex_email ex_id ex_profile 42)); [|done].
  apply (history_snoc (take 2 ex_events) (mk_EmailReservation (AwaitingProfile ex_id §"digest"))
    (SubmitRegistrationProfile ex_email ex_id §"digest" ex_profile)); [|done].
  apply (history_snoc (take 1 ex_events) (mk_EmailReservation (AwaitingCode ex_id 1234567))
    (VerifyEmail ex_email ex_id 1234567 §"digest")); [apply ex_history_reserved|done].
Qed.

(** C12: the command handlers implement exactly the documented state diagram:
    a command is accepted if and only if the diagram has a transition for it
    from the current phase; then exactly one event is written and applying it
    leads to the target phase. *)
Theorem handle_refines_lifecycle s c es :
  handle s c = Some (Ok es) <->
  exists e p', es = [e] /\ apply s e = Some (mk_EmailReservation p') /\
    lifecycle (phase s) c e p'.
Proof.
  split.
  - intros (e & [p'] & ? & ? & ?)%accepts_lifecycle. eauto.
  - intros (e & p' & -> & _ & Hl). destruct s. by apply lifecycle_accepts in Hl as [? _].
Qed.

(** The [unreachable!] of the handlers is never reached, and a command
    is either rejected with no event or writes exactly one event that the
    aggregate can apply without panicking. *)
Theorem handle_never_panics s c :
  match handle s c with
  | None => False
  | Some (Err _) => True
  | Some (Ok es) => exists e, es = [e] /\ is_Some (apply s e)
  end.
Proof.
  destruct (handle_total s c) as [r Hr]. rewrite Hr. destruct r as [es|]; [|done].
  apply handle_one_event in Hr as (e & s' & -> & Ha). eauto.
Qed.

(** Event sourcing is sound for every stream accepted commands build:
    replaying it never panics, rebuilds the very state the commands left,
    and the stream accounts for everything the phase holds (an issued
    seven-digit code, the verification that issued the token digest, the
    acceptance of a valid profile, the completion). *)
Theorem history_rebuilds_state es s :
  history es s -> replay es = Some s /\ phase_inv es (phase s).
Proof. intros H. split; [by apply history_replay|by apply history_phase_inv]. Qed.

Lemma history_rebuilds_state_witness :
  replay ex_events = Some (mk_EmailReservation (AccountCreated ex_id §"digest" ex_profile 42)).
Proof. apply (history_rebuilds_state _ _ ex_history). Defined.

(** C22: only the latest issued pair of account ID and code verifies the
    address; earlier pairs never do, even when the numeric code repeats. *)
Theorem only_latest_pair_verifies es s em id code digest r :
  history es s -> handle s (VerifyEmail em id code digest) = Some (Ok r) ->
  last_issued es = Some (id, code).
Proof.
  intros Hh (e & s' & _ & _ & Hl)%accepts_lifecycle.
  apply history_phase_inv in Hh. inversion Hl as [| | | ? ? ? ? Hp | |]. subst.
  rewrite <- Hp in Hh. naive_solver.
Qed.

Lemma only_latest_pair_verifies_witness :
  last_issued (take 1 ex_events) = Some (ex_id, 1234567).
Proof.
  exact (only_latest_pair_verifies _ _ ex_email ex_id 1234567 §"digest" _
    ex_history_reserved eq_refl).
Defined.

(** C23: the account-creation token is one-time: a stream holds at most one
    accepted profile and at most one completion, the completion only after
    the acceptance, and once a profile is accepted every further submission
    is rejected. *)
Theorem profile_accepted_once es s :
  history es s ->
  (count_events is_completed es <= count_events is_accepted es <= 1)%nat /\
  (started (phase s) = true -> forall em id digest profile r,
     handle s (SubmitRegistrationProfile em id digest profile) <> Some (Ok r)).
Proof.
  intros Hh. split.
  - destruct (history_counts _ _ Hh) as [-> ->]. destruct (phase s); simpl; lia.
  - intros Hs em id digest profile r (e & s' & _ & _ & Hl)%accepts_lifecycle.
    inversion Hl as [| | | | ? ? ? ? ? Hp |]. by rewrite <- Hp in Hs.
Qed.

Lemma profile_accepted_once_witness :
  (count_events is_completed ex_events <= count_events is_accepted ex_events <= 1)%nat.
Proof. apply (profile_accepted_once _ _ ex_history). Defined.

(** Once account creation starts, no later transition changes the
    account ID or the accepted profile, and reservation, reissue and
    verification are rejected with the errors meant for that phase. *)
Theorem creation_fixes_identity s s' :
  started (phase s) = true -> rtc transition s s' ->
  account_id s' = account_id s /\
  accepted_profile (phase s') = accepted_profile (phase s) /\
  forall em id code digest,
    handle s' (ReserveEmail em id code) = Some (Err AlreadyReserved) /\
    handle s' (VerifyEmail em id code digest) = Some (Err AccountCreationStarted) /\
    (account_id s <> Some id -> 1000000 <= code <= 9999999 ->
     handle s' (RequestVerificationCode em id code) = Some (Err AccountCreationStarted)).
Proof.
  intros Hs Hr.
  assert (Hp : started (phase s') = true /\ account_id s' = account_id s /\
    accepted_profile (phase s') = accepted_profile (phase s)).
  { induction Hr as [|s1 s2 s3 Hst _ IH]; [done|].
    destruct (started_step _ _ Hst Hs) as (Hs2 & <- & <-). auto. }
  destruct Hp as (Hs' & <- & <-). split_and!; [done..|].
  intros em id code digest.
  split_phase s'; try discriminate Hs'; (split; [done|]); (split; [done|]); simpl;
    intros Hne Hc%code_format_ok_spec; open_handler; rewrite Hc; case_decide; congruence.
Qed.

Lemma creation_fixes_identity_witness :
  account_id (mk_EmailReservation (AccountCreated ex_id §"digest" ex_profile 42)) = Some ex_id.
Proof.
  refine (proj1 (creation_fixes_identity
    (mk_EmailReservation (CreatingAccount ex_id §"digest" ex_profile)) _ eq_refl _)).
  apply rtc_once. eexists _, (AccountCreationCompleted ex_email ex_id 42).
  by apply (lifecycle_accepts _ (RecordAccountCreated ex_email ex_id ex_profile 42)), lc_complete.
Defined.

Lemma apply_twice s e s' :
  apply s e = Some s' -> apply s' e = if is_completed e then None else Some s'.
Proof.
  destruct e; open_handler; try by intros [= <-].
  by split_phase s; intros ?; simplify_eq/=.
Qed.

(** C40: applying an accepted event a second time is harmless for every event
    except [AccountCreationCompleted], whose second application panics. *)
Theorem reapply_tolerated_except_completion s e s' :
  apply s e = Some s' ->
  apply s' e = if is_completed e then None else Some s'.
Proof. apply apply_twice. Qed.

Lemma reapply_tolerated_except_completion_witness :
  apply (mk_EmailReservation (AccountCreated ex_id §"digest" ex_profile 42))
    (AccountCreationCompleted ex_email ex_id 42) = None.
Proof.
  exact (reapply_tolerated_except_completion
    (mk_EmailReservation (CreatingAccount ex_id §"digest" ex_profile))
    (AccountCreationCompleted ex_email ex_id 42) _ eq_refl).
Defined.
