(* ===== verification/UserAccount.v ===== *)
(** * The [UserAccount] aggregate

    [account-managements-service/src/domain/user_account.rs] and its modules:
    the immutable account record, keyed by account UUID. *)

From S2P Require Import Prelude DomainValues.

(** ** Data *)

Record CreatedAccount := {
  ca_account_id : UserAccountId;
  ca_email : Email;
  ca_first_name : rstr;
  ca_last_name : rstr;
  ca_date_of_birth : NaiveDate;
  ca_validation_date : NaiveDate;
  ca_created_at : DateTime;
}.

#[export] Instance CreatedAccount_eq_dec : EqDecision CreatedAccount.
Proof. solve_decision. Defined.

Record UserAccount := mk_UserAccount { created : option CreatedAccount }.

#[export] Instance UserAccount_eq_dec : EqDecision UserAccount.
Proof. solve_decision. Defined.

(** [UserAccount::default()] *)
Definition default : UserAccount := mk_UserAccount None.

Inductive UserAccountCommand : Type :=
| CreateAccount (account_id : UserAccountId) (email : Email) (first_name last_name : rstr)
    (date_of_birth validation_date : NaiveDate) (created_at : DateTime).

Inductive UserAccountEvent : Type :=
| AccountCreated (account_id : UserAccountId) (email : Email) (first_name last_name : rstr)
    (date_of_birth validation_date : NaiveDate) (created_at : DateTime).

#[export] Instance UserAccountEvent_eq_dec : EqDecision UserAccountEvent.
Proof. solve_decision. Defined.

Inductive UserAccountError : Type :=
| EmptyFirstName
| EmptyLastName
| FutureDateOfBirth (date_of_birth validation_date : NaiveDate)
| AlreadyExistsWithDifferentData
| AlreadyCreated.

#[export] Instance UserAccountError_eq_dec : EqDecision UserAccountError.
Proof. solve_decision. Defined.

Definition event_type (e : UserAccountEvent) : rstr := §"account_created".
Definition event_version (e : UserAccountEvent) : rstr := §"1".

(** ** Command handler *)

Abbreviation handled := (result UserAccountError (list UserAccountEvent)).

Definition handle_create_account (self : UserAccount) (account_id : UserAccountId)
    (email : Email) (first last : rstr) (dob vd : NaiveDate) (created_at : DateTime) : handled :=
  let first := trim first in
  let last := trim last in
  match created self with
  | Some existing =>
    if bool_decide (ca_account_id existing = account_id)
       && bool_decide (ca_email existing = email)
       && bool_decide (ca_first_name existing = first)
       && bool_decide (ca_last_name existing = last)
       && (ca_date_of_birth existing =? dob)
       && (ca_validation_date existing =? vd)
    then Err AlreadyCreated
    else Err AlreadyExistsWithDifferentData
  | None =>
    if decide (first = []) then Err EmptyFirstName
    else if decide (last = []) then Err EmptyLastName
    else if vd <? dob then Err (FutureDateOfBirth dob vd)
    else Ok [AccountCreated account_id email first last dob vd created_at]
  end.

(** [Aggregate::handle] and [Aggregate::apply] *)
Definition handle (self : UserAccount) (command : UserAccountCommand) : handled :=
  match command with
  | CreateAccount id email first last dob vd t =>
    handle_create_account self id email first last dob vd t
  end.

Definition apply (self : UserAccount) (event : UserAccountEvent) : UserAccount :=
  match event with
  | AccountCreated id email first last dob vd t =>
    mk_UserAccount (Some {| ca_account_id := id; ca_email := email; ca_first_name := first;
      ca_last_name := last; ca_date_of_birth := dob; ca_validation_date := vd;
      ca_created_at := t |})
  end.

Definition replay (es : list UserAccountEvent) : UserAccount := foldl apply default es.

(** ** Lemmas *)

(** The request a creation command makes, without the time it is made at. *)
Definition intent (c : UserAccountCommand) : UserAccountId * Email * RegistrationProfile :=
  match c with
  | CreateAccount id email first last dob vd _ => (id, email, profile_new first last dob vd)
  end.
Definition recorded (a : CreatedAccount) : UserAccountId * Email * RegistrationProfile :=
  (ca_account_id a, ca_email a,
   {| first_name := ca_first_name a; last_name := ca_last_name a;
      date_of_birth := ca_date_of_birth a; validation_date := ca_validation_date a |}).

Lemma handle_existing s a c :
  created s = Some a ->
  handle s c = Err (if decide (recorded a = intent c) then AlreadyCreated
                    else AlreadyExistsWithDifferentData).
Proof.
  intros Ha. destruct c as [id em f l dob vd t]. unfold handle, handle_create_account.
  rewrite Ha. destruct a; unfold recorded, profile_new; simpl.
  case_decide as Hd; unfold profile_new in Hd.
  - injection Hd as -> -> -> -> -> ->.
    by rewrite !bool_decide_eq_true_2, !Z.eqb_refl by done.
  - case_match eqn:E; [|done]. zify_bool. congruence.
Qed.

Lemma handle_absent s id em f l dob vd t es :
  created s = None ->
  handle s (CreateAccount id em f l dob vd t) = Ok es <->
  profile_valid (profile_new f l dob vd) /\
  es = [AccountCreated id em (trim f) (trim l) dob vd t].
Proof.
  intros Hs. unfold handle, handle_create_account. rewrite Hs.
  unfold profile_valid, profile_normalize, profile_new. simpl. rewrite !trim_idemp.
  repeat case_decide; [naive_solver..|].
  destruct (Z.ltb_spec vd dob); [naive_solver lia|]. naive_solver.
Qed.

Lemma handle_created_inv s c es :
  handle s c = Ok es -> created s = None /\ exists e, es = [e].
Proof.
  destruct s as [[a|]]; [by rewrite (handle_existing _ a)|].
  destruct c. intros [_ ->]%handle_absent; eauto.
Qed.

(** Streams accepted commands build. *)
Inductive history : list UserAccountEvent -> UserAccount -> Prop :=
| history_nil : history [] default
| history_snoc es s c e :
    history es s -> handle s c = Ok [e] -> history (es ++ [e]) (apply s e).

Lemma history_created es s :
  history es s -> (length es <= 1)%nat /\ (created s = None <-> es = []).
Proof.
  destruct 1 as [|es s c e Hh [Hc _]%handle_created_inv]; [by split; simpl; [lia|]|].
  assert (es = []) as ->.
  { inversion Hh as [|es' s' c' e']; subst; [done|]. by destruct e'. }
  destruct e. simpl. split; [lia|done].
Qed.

Lemma account_replay_snoc es e : replay (es ++ [e]) = apply (replay es) e.
Proof. unfold replay. by rewrite foldl_app. Qed.

Lemma account_history_replay es s : history es s -> replay es = s.
Proof. induction 1; [done|]. by rewrite account_replay_snoc, IHhistory. Qed.

(** ** Properties *)

Definition ex_command (t : DateTime) : UserAccountCommand :=
  CreateAccount (mk_UserAccountId 1) (mk_Email §"alice@example.com")
    §" Alice " §" Smith " 7436 20710 t.
Definition ex_event : UserAccountEvent :=
  AccountCreated (mk_UserAccountId 1) (mk_Email §"alice@example.com")
    §"Alice" §"Smith" 7436 20710 42.

Lemma ex_account_history : history [ex_event] (apply default ex_event).
Proof. apply (history_snoc [] default (ex_command 42)); [constructor|done]. Qed.

(** An account is created at most once and never changes: a stream has at
    most one event, replay rebuilds the account, and once the account exists
    every command is rejected, as an exact repeat precisely when it asks for
    the recorded account ID, e-mail and normalized profile whatever its
    creation time, and as a conflict otherwise. *)
Theorem account_created_once es s :
  history es s ->
  (length es <= 1)%nat /\ replay es = s /\
  forall a c, created s = Some a ->
    handle s c = Err (if decide (recorded a = intent c) then AlreadyCreated
                      else AlreadyExistsWithDifferentData).
Proof.
  intros Hh. split; [by eapply history_created|]. split; [by apply account_history_replay|].
  intros a c. apply handle_existing.
Qed.

Lemma account_created_once_witness :
  handle (apply default ex_event) (ex_command 43) = Err AlreadyCreated.
Proof.
  exact (proj2 (proj2 (account_created_once _ _ ex_account_history)) _ (ex_command 43) eq_refl).
Defined.

(** An absent account is created exactly from a valid profile: both names
    non-empty after trimming and the birth date not after the validation
    date; the event then records the trimmed names and the given time. *)
Theorem account_creation_validates id em f l dob vd t es :
  handle default (CreateAccount id em f l dob vd t) = Ok es <->
  (trim f <> [] /\ trim l <> [] /\ dob <= vd) /\
  es = [AccountCreated id em (trim f) (trim l) dob vd t].
Proof.
  rewrite handle_absent by done. unfold profile_valid, profile_normalize, profile_new.
  simpl. rewrite !trim_idemp. naive_solver.
Qed.
