(* ===== verification/FloatTime.v ===== *)
(** * Floating-point durations

    The conversions between [std::time::Duration] and [f64] the retry code
    uses, and [redelivery_backoff] of [cqrs-runtime/src/task/queue/retry.rs].
    A finite [f64] is the rational it denotes; every arithmetic operation
    rounds its exact result.  The rounding is a parameter, of which only the
    error bound of IEEE 754 binary64 is used. *)

From S2P Require Import Prelude.
From Stdlib Require Export QArith Qround Lqa.
#[local] Open Scope Z_scope.

Class F64Rounding := { rnd : Q -> Q }.

Definition f64_eps : Q := 1 # (2 ^ 53).
Definition f64_tiny : Q := 1 # (2 ^ 1075).

(** Round-to-nearest in binary64 below the overflow threshold: relative error
    at most [2^-53], absolute error at most [2^-1075] near zero; the result has
    the sign of the argument; rounding is monotone and exact on the integers
    up to [2^53].  From there on neighbouring values are two or more apart, so
    that adding less than one to a value rounds to the value. *)
Class F64Laws `{F64Rounding} := {
  rnd_lower x : (0 <= x -> x * (1 - f64_eps) - f64_tiny <= rnd x)%Q;
  rnd_upper x : (0 <= x -> rnd x <= x * (1 + f64_eps) + f64_tiny)%Q;
  rnd_nonneg x : (0 <= x -> 0 <= rnd x)%Q;
  rnd_mono x y : (x <= y -> rnd x <= rnd y)%Q;
  rnd_exact z : 0 <= z <= 2 ^ 53 -> (rnd (inject_Z z) == inject_Z z)%Q;
  rnd_absorbs z f : 2 ^ 53 <= z -> (0 <= f -> f < 1 -> rnd (rnd (inject_Z z) + f) == rnd (inject_Z z))%Q;
}.

(** A value of type [f64]: finite, or one of the infinities and NaNs. *)
Inductive f64 := Finite (q : Q) | NotFinite.

Definition Qround_even (q : Q) : Z :=
  let n := Qnum q in let d := QDen q in
  let m := n / d in
  match Z.compare (2 * (n mod d)) d with
  | Lt => m
  | Gt => m + 1
  | Eq => if Z.even m then m else m + 1
  end.

Section Conversions.
Context `{F64Rounding}.

(** [Duration::as_secs_f64] *)
Definition as_secs_f64 (d : Duration.t) : Q :=
  rnd (rnd (inject_Z (d / NANOS_PER_SEC))
       + rnd (rnd (inject_Z (d mod NANOS_PER_SEC)) / inject_Z NANOS_PER_SEC)).

(** [Duration::from_secs_f64]: to the nearest nanosecond; panics when negative
    or not representable. *)
Definition from_secs_f64 (q : Q) : option Duration.t :=
  if Qle_bool 0 q then checked DURATION_MAX (Qround_even (q * inject_Z NANOS_PER_SEC))
  else None.

(** [Duration::mul_f64] *)
Definition mul_f64 (d : Duration.t) (f : Q) : option Duration.t :=
  from_secs_f64 (rnd (f * as_secs_f64 d)).

(** [redelivery_backoff]; [jitter] is the value drawn by
    [rand::random_range(0.8..=1.2)]. *)
Definition redelivery_backoff (attempt : Z) (jitter : Q) : option Duration.t :=
  let exponent := Z.max 0 (Z.min (Z.max i32_MIN (attempt - 1)) 6) in
  let base := Z.min (5 * 2 ^ exponent) 300 in
  let x := rnd (rnd (inject_Z base) * jitter) in
  from_secs_f64 (if Qle_bool x 300 then x else 300).

(** The range of the draw, as [f64] constants. *)
Definition jitter_in_range (j : Q) : Prop :=
  (rnd (8 # 10) <= j /\ j <= rnd (12 # 10))%Q.
End Conversions.

(** ** Rounding to nanoseconds *)

Lemma Qround_even_mono_Z (q : Q) (z : Z) :
  ((inject_Z z - (1 # 2) < q)%Q -> z <= Qround_even q) /\
  ((q < inject_Z z + (1 # 2))%Q -> Qround_even q <= z).
Proof.
  destruct q as [n d]. unfold Qround_even, Qlt, inject_Z, Qminus, Qplus, Qopp; simpl.
  pose proof (Z.div_mod n (Zpos d) ltac:(lia)) as Hd.
  pose proof (Z.mod_pos_bound n (Zpos d) ltac:(lia)) as Hb.
  set (m := n / Z.pos d) in *. set (r := n mod Z.pos d) in *.
  rewrite !Pos.mul_1_l. change (Z.pos 2) with 2.
  split; intros Hq; case_match eqn:E; try case_match;
    rewrite ?Z.compare_eq_iff, ?Z.compare_lt_iff, ?Z.compare_gt_iff in E; nia.
Qed.

Lemma Qround_even_le q z : (q <= inject_Z z)%Q -> Qround_even q <= z.
Proof. intros Hq. apply Qround_even_mono_Z. lra. Qed.

Lemma Qround_even_nonneg q : (0 <= q)%Q -> 0 <= Qround_even q.
Proof. intros Hq. apply Qround_even_mono_Z. change (inject_Z 0) with 0%Q. lra. Qed.

(** A number of seconds within half a nanosecond of [lo], or above it, and at
    most [hi], is converted to a duration between them. *)
Lemma from_secs_f64_bounds (q : Q) (lo hi : Z) :
  0 <= lo -> hi * NANOS_PER_SEC <= DURATION_MAX -> (0 <= q)%Q ->
  (inject_Z lo - (1 # 4000000000) <= q)%Q -> (q <= inject_Z hi)%Q ->
  exists d, from_secs_f64 q = Some d /\ lo * NANOS_PER_SEC <= d <= hi * NANOS_PER_SEC.
Proof.
  intros Hlo Hmax H0 Hl Hh. unfold from_secs_f64.
  rewrite (proj2 (Qle_bool_iff 0 q)) by done.
  set (x := (q * inject_Z NANOS_PER_SEC)%Q).
  assert (Hx : Qround_even x <= hi * NANOS_PER_SEC).
  { apply Qround_even_le. unfold x, NANOS_PER_SEC in *. rewrite inject_Z_mult.
    change (inject_Z 1000000000) with 1000000000%Q. lra. }
  assert (Hy : lo * NANOS_PER_SEC <= Qround_even x).
  { apply Qround_even_mono_Z. unfold x, NANOS_PER_SEC in *. rewrite inject_Z_mult.
    change (inject_Z 1000000000) with 1000000000%Q. lra. }
  exists (Qround_even x). split; [|lia]. apply checked_Some. split; [done|lia].
Qed.

(** ** Error bounds *)

Section Bounds.
Context `{F64Laws}.

(** The two error terms, rounded up to one decimal constant. *)
Definition delta : Q := 1 # 10000000000000.

Lemma rnd_lower_delta x : (0 <= x -> x * (1 - delta) - delta <= rnd x)%Q.
Proof.
  intros Hx. pose proof (rnd_lower x Hx) as Hl.
  assert (He : (f64_eps <= delta)%Q) by done.
  assert (Ht : (f64_tiny <= delta)%Q) by done. nra.
Qed.

Lemma rnd_upper_delta x : (0 <= x -> rnd x <= x * (1 + delta) + delta)%Q.
Proof.
  intros Hx. pose proof (rnd_upper x Hx) as Hl.
  assert (He : (f64_eps <= delta)%Q) by done.
  assert (Ht : (f64_tiny <= delta)%Q) by done. nra.
Qed.

(** A product of a rounded integer of at least [n] and a factor of at least
    the [f64] 0.8 stays within a quarter nanosecond above [0.8 n]. *)
Lemma rnd_scaled_lower (n : Z) (b j : Q) :
  0 <= n <= 300 -> (inject_Z n <= b)%Q -> (rnd (8 # 10) <= j)%Q ->
  ((8 # 10) * inject_Z n - (1 # 4000000000) <= rnd (rnd b * j))%Q.
Proof.
  intros Hn Hb Hj.
  assert (Hn0 : (0 <= inject_Z n)%Q) by (change 0%Q with (inject_Z 0); rewrite <- Zle_Qle; lia).
  assert (Hn3 : (inject_Z n <= 300)%Q) by (change 300%Q with (inject_Z 300); rewrite <- Zle_Qle; lia).
  assert (Hb0 : (0 <= b)%Q) by lra.
  pose proof (rnd_lower_delta b Hb0) as H1. pose proof (rnd_nonneg b Hb0) as H1'.
  pose proof (rnd_lower_delta (8 # 10) ltac:(done)) as H2.
  pose proof (rnd_nonneg (8 # 10) ltac:(done)) as H2'.
  assert (Hj0 : (0 <= j)%Q) by lra.
  assert (Hp : (0 <= rnd b * j)%Q) by nra.
  pose proof (rnd_lower_delta _ Hp) as H3.
  assert (Hj8 : ((8 # 10) - 2 * delta <= j)%Q) by (unfold delta in *; lra).
  assert (Hbn : (inject_Z n - 301 * delta <= rnd b)%Q) by (unfold delta in *; nra).
  assert (Hm : (((8 # 10) - 2 * delta) * inject_Z n - 301 * delta <= rnd b * j)%Q).
  { destruct (Qlt_le_dec (inject_Z n) (301 * delta)).
    - unfold delta in *. nra.
    - assert ((inject_Z n - 301 * delta) * ((8 # 10) - 2 * delta) <= rnd b * j)%Q by (unfold delta in *; nra).
      unfold delta in *. lra. }
  unfold delta in *. nra.
Qed.

(** The redelivery delay never panics and is always between 4 and 300
    seconds, whatever the attempt number (including out-of-range ones) and
    the jitter drawn, and at least 240 seconds from the seventh attempt on. *)
Lemma redelivery_backoff_bounds attempt j :
  jitter_in_range j ->
  exists d, redelivery_backoff attempt j = Some d /\
    Duration.from_secs 4 <= d <= Duration.from_secs 300 /\
    (7 <= attempt -> Duration.from_secs 240 <= d).
Proof.
  intros [Hj _]. unfold redelivery_backoff, Duration.from_secs.
  set (e := Z.max 0 (Z.min (Z.max i32_MIN (attempt - 1)) 6)).
  set (b := Z.min (5 * 2 ^ e) 300).
  assert (He : 0 <= e <= 6) by (unfold e; lia).
  assert (Hb : 5 <= b <= 300).
  { unfold b. pose proof (Z.pow_pos_nonneg 2 e). lia. }
  assert (Hb7 : 7 <= attempt -> b = 300).
  { intros Ha. assert (He6 : e = 6) by (unfold e, i32_MIN; lia). unfold b. by rewrite He6. }
  assert (Hn : exists n, 5 <= n <= 300 /\ (7 <= attempt -> n = 300) /\ n = b) by eauto.
  destruct Hn as (n & Hn & Hn7 & Hnb).
  pose proof (rnd_scaled_lower n (inject_Z b) j ltac:(lia) ltac:(subst; lra) Hj) as Hx.
  set (x := rnd (rnd (inject_Z b) * j)) in *.
  assert (Hx4 : ((8 # 10) * inject_Z n <= 240)%Q).
  { assert ((inject_Z n <= 300)%Q) by (change 300%Q with (inject_Z 300); rewrite <- Zle_Qle; lia). lra. }
  assert (Hn5 : (5 <= inject_Z n)%Q) by (change 5%Q with (inject_Z 5); rewrite <- Zle_Qle; lia).
  set (y := if Qle_bool x 300 then x else 300%Q).
  assert (Hy : ((8 # 10) * inject_Z n - (1 # 4000000000) <= y <= 300)%Q).
  { unfold y. destruct (Qle_bool x 300) eqn:E; [apply Qle_bool_iff in E|]; split; lra. }
  destruct Hy as [Hy1 Hy2]. set (lo := if decide (7 <= attempt) then 240 else 4).
  destruct (from_secs_f64_bounds y lo 300) as (d & Hd & Hdb).
  - unfold lo. case_decide; lia.
  - done.
  - lra.
  - unfold lo. case_decide as Ha.
    + rewrite (Hn7 Ha) in Hy1. change (inject_Z 300) with 300%Q in Hy1.
      change (inject_Z 240) with 240%Q. lra.
    + change (inject_Z 4) with 4%Q. lra.
  - change (inject_Z 300) with 300%Q. lra.
  - exists d. split; [done|]. revert Hdb. unfold lo, NANOS_PER_SEC. case_decide; lia.
Qed.
End Bounds.

(** ** Durations as seconds *)

Section Seconds.
Context `{F64Laws}.

Lemma as_secs_f64_nonneg d : 0 <= d -> (0 <= as_secs_f64 d)%Q.
Proof.
  intros Hd. unfold as_secs_f64. apply rnd_nonneg.
  assert (0 <= rnd (inject_Z (d / NANOS_PER_SEC)))%Q.
  { apply rnd_nonneg. change 0%Q with (inject_Z 0). rewrite <- Zle_Qle.
    apply Z.div_pos; [done|reflexivity]. }
  assert (0 <= rnd (rnd (inject_Z (d mod NANOS_PER_SEC)) / inject_Z NANOS_PER_SEC))%Q; [|lra].
  apply rnd_nonneg, Qle_shift_div_l; [done|]. rewrite Qmult_0_l. apply rnd_nonneg.
  change 0%Q with (inject_Z 0). rewrite <- Zle_Qle. by apply Z.mod_pos_bound.
Qed.

(** The nanoseconds of a duration are a fraction of a second, less than one. *)
Lemma nanos_fraction n :
  0 <= n < NANOS_PER_SEC ->
  (0 <= rnd (rnd (inject_Z n) / inject_Z NANOS_PER_SEC) < 1)%Q.
Proof.
  unfold NANOS_PER_SEC. intros Hn.
  assert (Hr : (rnd (inject_Z n) == inject_Z n)%Q) by (apply rnd_exact; lia).
  assert (Hb : (0 <= inject_Z n <= 999999999)%Q).
  { change 0%Q with (inject_Z 0). change 999999999%Q with (inject_Z 999999999).
    rewrite <- !Zle_Qle. lia. }
  assert (Hq0 : (0 <= rnd (inject_Z n) / inject_Z 1000000000)%Q).
  { apply Qle_shift_div_l; [done|]. lra. }
  assert (Hq1 : (rnd (inject_Z n) / inject_Z 1000000000 <= 999999999 # 1000000000)%Q).
  { apply Qle_shift_div_r; [done|]. change (inject_Z 1000000000) with 1000000000%Q. lra. }
  split; [by apply rnd_nonneg|]. pose proof (rnd_upper_delta _ Hq0) as Hu.
  unfold delta in Hu. lra.
Qed.

(** The seconds and the nanoseconds of a shorter duration stay below the seconds
    of a longer one. *)
Lemma rnd_seconds_le s s' f :
  0 <= s < s' -> (0 <= f < 1)%Q -> (rnd (rnd (inject_Z s) + f) <= rnd (inject_Z s'))%Q.
Proof.
  intros Hs [Hf0 Hf1]. destruct (Z.le_gt_cases (2 ^ 53) s) as [Hbig|Hsmall].
  - rewrite rnd_absorbs by done. apply rnd_mono. rewrite <- Zle_Qle. lia.
  - apply rnd_mono. rewrite rnd_exact by lia.
    assert (Hlt : (inject_Z s + 1 <= inject_Z s')%Q); [|lra].
    change 1%Q with (inject_Z 1). rewrite <- inject_Z_plus, <- Zle_Qle. lia.
Qed.

(** The seconds alone are at most the whole duration. *)
Lemma rnd_seconds_ge s f :
  0 <= s -> (0 <= f < 1)%Q -> (rnd (inject_Z s) <= rnd (rnd (inject_Z s) + f))%Q.
Proof.
  intros Hs [Hf0 Hf1]. destruct (Z.le_gt_cases (2 ^ 53) s) as [Hbig|Hsmall].
  - rewrite rnd_absorbs by done. apply Qle_refl.
  - apply rnd_mono. rewrite rnd_exact by lia. lra.
Qed.

(** The conversion is monotone. *)
Lemma as_secs_f64_mono d d' :
  0 <= d <= d' -> (as_secs_f64 d <= as_secs_f64 d')%Q.
Proof.
  intros Hd. unfold as_secs_f64.
  pose proof (Z.div_mod d NANOS_PER_SEC ltac:(done)) as E.
  pose proof (Z.div_mod d' NANOS_PER_SEC ltac:(done)) as E'.
  pose proof (Z.mod_pos_bound d NANOS_PER_SEC ltac:(done)) as Hb.
  pose proof (Z.mod_pos_bound d' NANOS_PER_SEC ltac:(done)) as Hb'.
  assert (Hs : 0 <= d / NANOS_PER_SEC <= d' / NANOS_PER_SEC).
  { split; [apply Z.div_pos; [lia|done]|apply Z.div_le_mono; [done|lia]]. }
  set (s := d / NANOS_PER_SEC) in *. set (s' := d' / NANOS_PER_SEC) in *.
  pose proof (nanos_fraction _ Hb) as Hf. pose proof (nanos_fraction _ Hb') as Hf'.
  destruct (decide (s = s')) as [Heq|Hne].
  - rewrite Heq. apply rnd_mono, Qplus_le_r, rnd_mono, Qmult_le_compat_r; [|done].
    apply rnd_mono. rewrite <- Zle_Qle. rewrite Heq in E. lia.
  - eapply Qle_trans; [apply (rnd_seconds_le s s'); [lia|done]|apply rnd_seconds_ge; [lia|done]].
Qed.

Lemma as_secs_f64_upper d :
  0 <= d -> d / NANOS_PER_SEC <= 2 ^ 54 -> (as_secs_f64 d <= inject_Z (2 ^ 55))%Q.
Proof.
  intros Hd Hmax. unfold as_secs_f64.
  assert (Hs : 0 <= d / NANOS_PER_SEC) by (apply Z.div_pos; done).
  set (s := d / NANOS_PER_SEC) in *.
  assert (Hq : (0 <= inject_Z s <= inject_Z (2 ^ 54))%Q).
  { change 0%Q with (inject_Z 0). rewrite <- !Zle_Qle. lia. }
  pose proof (nanos_fraction _ (Z.mod_pos_bound d NANOS_PER_SEC ltac:(done))) as Hf.
  pose proof (rnd_upper_delta _ (proj1 Hq)) as Hr.
  pose proof (rnd_nonneg _ (proj1 Hq)) as Hr0.
  set (f := rnd (rnd (inject_Z (d mod NANOS_PER_SEC)) / inject_Z NANOS_PER_SEC)) in *.
  assert (Hs0 : (0 <= rnd (inject_Z s) + f)%Q) by lra.
  pose proof (rnd_upper_delta _ Hs0) as Hu. unfold delta in *.
  change (inject_Z (2 ^ 54)) with (18014398509481984 # 1) in *.
  change (inject_Z (2 ^ 55)) with (36028797018963968 # 1). nra.
Qed.

(** Any number of seconds up to [2^60] is a representable duration. *)
Lemma from_secs_f64_total q :
  (0 <= q <= inject_Z (2 ^ 60))%Q -> exists d, from_secs_f64 q = Some d /\ 0 <= d.
Proof.
  intros [Hq0 Hq1]. destruct (from_secs_f64_bounds q 0 (2 ^ 60)) as (d & Hd & ?);
    [lia|done|done| |done|].
  - change (inject_Z 0) with 0%Q. lra.
  - exists d. split; [done|]. unfold NANOS_PER_SEC in *. lia.
Qed.

Lemma mul_f64_total d f :
  0 <= d -> d / NANOS_PER_SEC <= 2 ^ 54 -> (0 <= f <= 3)%Q -> exists x, mul_f64 d f = Some x /\ 0 <= x.
Proof.
  intros Hd Hmax Hf. unfold mul_f64. apply from_secs_f64_total.
  pose proof (as_secs_f64_nonneg d Hd) as Hs0. pose proof (as_secs_f64_upper d Hd Hmax) as Hs1.
  set (s := as_secs_f64 d) in *.
  change (inject_Z (2 ^ 55)) with (36028797018963968 # 1) in Hs1.
  change (inject_Z (2 ^ 60)) with (1152921504606846976 # 1).
  assert (Hp : (0 <= f * s)%Q) by nra.
  split; [by apply rnd_nonneg|]. pose proof (rnd_upper_delta _ Hp). unfold delta in *. nra.
Qed.
End Seconds.
