(* ===== verification/Binary64.v ===== *)
(** * Rounding to binary64

    Round to nearest, ties to even, as an executable function on rationals: the
    instance of [F64Rounding] the machine has, below the overflow threshold.
    It satisfies [F64Laws], so everything proved of the delays of the retry code
    holds for real floating-point numbers, and their values can be computed. *)

From S2P Require Import Prelude FloatTime.
From Stdlib Require Import Qpower.
#[local] Open Scope Z_scope.

Definition pow2 (e : Z) : Q := (2 ^ e)%Q.

(** The exponent of the leading bit of a positive number. *)
Definition binade (x : Q) : Z :=
  let l := Z.log2 (Qnum x) - Z.log2 (QDen x) in
  if Qle_bool (pow2 l) x then l else l - 1.

(** The exponent of the last place: 53 bits of precision, until the
    subnormal numbers. *)
Definition last_place (x : Q) : Z := Z.max (binade x - 52) (-1074).

(** The multiple of [2^u] nearest to [x]. *)
Definition round_to (u : Z) (x : Q) : Q := (inject_Z (Qround_even (x / pow2 u)) * pow2 u)%Q.

Definition b64 (x : Q) : Q :=
  match Qcompare x 0 with
  | Eq => 0
  | Gt => round_to (last_place x) x
  | Lt => - round_to (last_place (- x)) (- x)
  end.

Definition binary64 : F64Rounding := {| rnd := b64 |}.

(** ** Powers of two *)

Lemma pow2_pos e : (0 < pow2 e)%Q.
Proof. apply Qpower_0_lt. done. Qed.

Lemma pow2_plus a b : (pow2 (a + b) == pow2 a * pow2 b)%Q.
Proof. apply Qpower_plus. done. Qed.

Lemma pow2_Z e : 0 <= e -> (pow2 e == inject_Z (2 ^ e))%Q.
Proof. intros He. unfold pow2. change 2%Q with (inject_Z 2). by rewrite Zpower_Qpower. Qed.

Lemma pow2_le a b : a <= b -> (pow2 a <= pow2 b)%Q.
Proof. intros Hab. apply Qpower_le_compat_l; [done|]. discriminate. Qed.

Lemma pow2_succ e : (pow2 (e + 1) == 2 * pow2 e)%Q.
Proof. rewrite pow2_plus. change (pow2 1) with 2%Q. ring. Qed.

(** A number below the next power is above this one's half, and so on: the
    logarithm is determined. *)
Lemma pow2_lt_inv a b : (pow2 a < pow2 b)%Q -> a < b.
Proof.
  intros Hlt. destruct (Z.lt_ge_cases a b) as [|Hge]; [done|].
  pose proof (pow2_le b a Hge). lra.
Qed.

Lemma log2_bounds (p : positive) :
  (pow2 (Z.log2 (Zpos p)) <= inject_Z (Zpos p) /\ inject_Z (Zpos p) < pow2 (Z.log2 (Zpos p) + 1))%Q.
Proof.
  pose proof (Z.log2_spec (Zpos p) ltac:(lia)) as [Hl Hu]. pose proof (Z.log2_nonneg (Zpos p)).
  rewrite !pow2_Z by lia. rewrite <- Zle_Qle, <- Zlt_Qlt. rewrite <- Z.add_1_r in Hu. lia.
Qed.

Lemma binade_spec x : (0 < x)%Q -> (pow2 (binade x) <= x /\ x < pow2 (binade x + 1))%Q.
Proof.
  destruct x as [[|n|n] d]; [done| |done]. intros _.
  pose proof (log2_bounds n) as [Hn1 Hn2]. pose proof (log2_bounds d) as [Hd1 Hd2].
  unfold binade. cbn [Qnum Qden]. change (QDen (Z.pos n # d)) with (Z.pos d).
  set (a := Z.log2 (Z.pos n)) in *. set (b := Z.log2 (Z.pos d)) in *.
  assert (Hx : (Z.pos n # d == inject_Z (Z.pos n) / inject_Z (Z.pos d))%Q) by apply Qmake_Qdiv.
  assert (Hd : (0 < inject_Z (Z.pos d))%Q) by done.
  pose proof (pow2_pos b). pose proof (pow2_pos (a - b)) as Hp.
  assert (Ha : (pow2 a == pow2 (a - b) * pow2 b)%Q) by (rewrite <- pow2_plus; f_equiv; lia).
  rewrite pow2_succ in Hn2, Hd2.
  assert (Hup : (Z.pos n # d < pow2 (a - b + 1))%Q).
  { rewrite Hx, pow2_succ. apply Qlt_shift_div_r; [done|]. nra. }
  destruct (Qle_bool (pow2 (a - b)) (Z.pos n # d)) eqn:E.
  - apply Qle_bool_iff in E. done.
  - replace (a - b - 1 + 1) with (a - b) by lia. split.
    + rewrite Hx. apply Qle_shift_div_l; [done|].
      assert (Hh : (pow2 (a - b) == 2 * pow2 (a - b - 1))%Q).
      { rewrite <- pow2_succ. f_equiv. lia. }
      pose proof (pow2_pos (a - b - 1)). nra.
    + apply Qnot_le_lt. rewrite <- Qle_bool_iff. by rewrite E.
Qed.

Lemma binade_mono x y : (0 < x)%Q -> (x <= y)%Q -> binade x <= binade y.
Proof.
  intros Hx Hxy. pose proof (binade_spec x Hx) as [Hl _].
  pose proof (binade_spec y ltac:(lra)) as [_ Hu].
  assert (Hlt : binade x < binade y + 1) by (apply pow2_lt_inv; lra). lia.
Qed.

(** ** Rounding to an integer *)

Lemma Qround_even_spec q :
  let z := Qround_even q in
  (inject_Z z - (1 # 2) <= q /\ q <= inject_Z z + (1 # 2))%Q /\
  ((q == inject_Z z - (1 # 2) \/ q == inject_Z z + (1 # 2))%Q -> Z.even z = true).
Proof.
  destruct q as [n d]. cbv zeta. unfold Qround_even. cbn [Qnum Qden].
  change (QDen (n # d)) with (Z.pos d).
  pose proof (Z.div_mod n (Zpos d) ltac:(lia)) as Hd.
  pose proof (Z.mod_pos_bound n (Zpos d) ltac:(lia)) as Hb.
  set (m := n / Z.pos d) in *. set (r := n mod Z.pos d) in *.
  unfold Qeq, Qle, inject_Z, Qminus, Qplus, Qopp. simpl. rewrite !Pos.mul_1_l.
  destruct (Z.compare_spec (2 * r) (Z.pos d)) as [Hc|Hc|Hc]; [destruct (Z.even m) eqn:Em| |].
  - split; [split; nia|done].
  - split; [split; nia|]. intros _. by rewrite Z.add_1_r, Z.even_succ, <- Z.negb_even, Em.
  - split; [split; nia|]. intros [?|?]; nia.
  - split; [split; nia|]. intros [?|?]; nia.
Qed.

Lemma Qround_even_mono p q : (p <= q)%Q -> Qround_even p <= Qround_even q.
Proof.
  intros Hpq. destruct (Z.le_gt_cases (Qround_even p) (Qround_even q)) as [|Hgt]; [done|exfalso].
  pose proof (Qround_even_spec p) as [[Hp _] Hpe]. pose proof (Qround_even_spec q) as [[_ Hq] Hqe].
  assert (Hz : (inject_Z (Qround_even q) + 1 <= inject_Z (Qround_even p))%Q).
  { change 1%Q with (inject_Z 1). rewrite <- inject_Z_plus, <- Zle_Qle. lia. }
  assert (Hp2 : Z.even (Qround_even p) = true) by (apply Hpe; left; lra).
  assert (Hq2 : Z.even (Qround_even q) = true) by (apply Hqe; right; lra).
  assert (Hs : (inject_Z (Qround_even p) == inject_Z (Qround_even q + 1))%Q).
  { rewrite inject_Z_plus. change (inject_Z 1) with 1%Q. lra. }
  apply (proj1 (inject_Z_injective _ _)) in Hs. rewrite Hs, Z.add_1_r, Z.even_succ, <- Z.negb_even, Hq2 in Hp2. done.
Qed.

#[export] Instance Qround_even_proper : Proper (Qeq ==> eq) Qround_even.
Proof. intros p q Hpq. apply Z.le_antisymm; apply Qround_even_mono; lra. Qed.

Lemma Qround_even_Z z : Qround_even (inject_Z z) = z.
Proof.
  apply Z.le_antisymm; [apply Qround_even_le; lra|].
  apply Qround_even_mono_Z. lra.
Qed.

(** ** Rounding to a place *)

#[export] Instance round_to_proper u : Proper (Qeq ==> Qeq) (round_to u).
Proof. intros x y Hxy. unfold round_to. by rewrite Hxy. Qed.

Lemma round_to_mono u x y : (x <= y)%Q -> (round_to u x <= round_to u y)%Q.
Proof.
  intros Hxy. unfold round_to. pose proof (pow2_pos u).
  apply Qmult_le_compat_r; [|lra]. rewrite <- Zle_Qle. apply Qround_even_mono.
  apply Qmult_le_compat_r; [done|]. apply Qinv_le_0_compat. lra.
Qed.

Lemma round_to_multiple u k : (round_to u (inject_Z k * pow2 u) == inject_Z k * pow2 u)%Q.
Proof.
  unfold round_to. pose proof (pow2_pos u).
  assert (Hk : (inject_Z k * pow2 u / pow2 u == inject_Z k)%Q) by (field; lra).
  by rewrite Hk, Qround_even_Z.
Qed.

Lemma round_to_pow2 u e : u <= e -> (round_to u (pow2 e) == pow2 e)%Q.
Proof.
  intros Hu. assert (He : (pow2 e == inject_Z (2 ^ (e - u)) * pow2 u)%Q).
  { rewrite <- pow2_Z, <- pow2_plus by lia. f_equiv. lia. }
  rewrite He. apply round_to_multiple.
Qed.

Lemma round_to_error u x :
  (x - (1 # 2) * pow2 u <= round_to u x /\ round_to u x <= x + (1 # 2) * pow2 u)%Q.
Proof.
  pose proof (pow2_pos u). pose proof (Qround_even_spec (x / pow2 u)) as [[Hl Hu] _].
  unfold round_to. set (z := inject_Z (Qround_even (x / pow2 u))) in *.
  assert (Hx : (x == x / pow2 u * pow2 u)%Q) by (field; lra).
  set (w := (x / pow2 u)%Q) in *. split; rewrite Hx at 1; nra.
Qed.

Lemma round_to_nonneg u x : (0 <= x)%Q -> (0 <= round_to u x)%Q.
Proof.
  intros Hx. apply (round_to_mono u) in Hx. revert Hx.
  assert (H0 : (round_to u 0 == 0)%Q); [|by rewrite H0].
  pose proof (round_to_multiple u 0) as Hm. change (inject_Z 0) with 0%Q in Hm.
  assert (Hz : (0 * pow2 u == 0)%Q) by ring. by rewrite Hz in Hm.
Qed.

(** Half a unit in the last place is below the error bound. *)
Lemma last_place_error x :
  (0 < x)%Q -> ((1 # 2) * pow2 (last_place x) <= x * f64_eps + f64_tiny)%Q.
Proof.
  intros Hx. pose proof (binade_spec x Hx) as [Hb _]. unfold last_place.
  assert (He : (0 <= x * f64_eps)%Q) by (apply Qmult_le_0_compat; [lra|done]).
  assert (Ht : (0 <= f64_tiny)%Q) by done.
  destruct (Z.max_spec (binade x - 52) (-1074)) as [[_ ->]|[_ ->]].
  - assert (Hs : ((1 # 2) * pow2 (-1074) <= f64_tiny)%Q) by done. lra.
  - replace (binade x - 52) with (binade x + -52) by lia. rewrite pow2_plus.
    assert (Hs : ((1 # 2) * pow2 (-52) == f64_eps)%Q) by done.
    assert (Hf : (0 <= f64_eps)%Q) by done. nra.
Qed.

(** Between two binades lies a number both sides represent. *)
Lemma round_mono_pos x y :
  (0 < x)%Q -> (x <= y)%Q -> (round_to (last_place x) x <= round_to (last_place y) y)%Q.
Proof.
  intros Hx Hxy. pose proof (binade_mono x y Hx Hxy) as Hb.
  destruct (Z.eq_dec (last_place x) (last_place y)) as [->|Hne]; [by apply round_to_mono|].
  pose proof (binade_spec x Hx) as [_ Hxu]. pose proof (binade_spec y ltac:(lra)) as [Hyl _].
  unfold last_place in *.
  assert (Hlt : binade x + 1 <= binade y) by lia.
  pose proof (pow2_le _ _ Hlt) as Hp.
  apply Qle_trans with (pow2 (binade y)).
  - rewrite <- (round_to_pow2 (Z.max (binade x - 52) (-1074)) (binade y)) by lia.
    apply round_to_mono. lra.
  - rewrite <- (round_to_pow2 (Z.max (binade y - 52) (-1074)) (binade y)) at 1 by lia.
    by apply round_to_mono.
Qed.

(** ** The function *)

Lemma b64_pos x : (0 < x)%Q -> b64 x = round_to (last_place x) x.
Proof. intros Hx. unfold b64. by apply Qgt_alt in Hx as ->. Qed.
Lemma b64_neg x : (x < 0)%Q -> b64 x = (- round_to (last_place (- x)) (- x))%Q.
Proof. intros Hx. unfold b64. by apply Qlt_alt in Hx as ->. Qed.
Lemma b64_zero x : (x == 0)%Q -> b64 x = 0%Q.
Proof. intros Hx. unfold b64. by apply Qeq_alt in Hx as ->. Qed.

Lemma b64_nonneg x : (0 <= x)%Q -> (0 <= b64 x)%Q.
Proof.
  intros Hx. destruct (Qle_lt_or_eq 0 x Hx) as [Hp|Hz].
  - rewrite b64_pos by done. by apply round_to_nonneg.
  - by rewrite b64_zero.
Qed.

Lemma b64_error x :
  (0 <= x)%Q -> (x * (1 - f64_eps) - f64_tiny <= b64 x /\ b64 x <= x * (1 + f64_eps) + f64_tiny)%Q.
Proof.
  intros Hx. assert (Ht : (0 <= f64_tiny)%Q) by done.
  destruct (Qle_lt_or_eq 0 x Hx) as [Hp|Hz].
  - rewrite b64_pos by done. pose proof (round_to_error (last_place x) x).
    pose proof (last_place_error x Hp). lra.
  - rewrite b64_zero by done. rewrite <- Hz. lra.
Qed.

Lemma b64_mono x y : (x <= y)%Q -> (b64 x <= b64 y)%Q.
Proof.
  intros Hxy. destruct (Q_dec x 0) as [[Hx|Hx]|Hx].
  - destruct (Qlt_le_dec y 0) as [Hy|Hy].
    + rewrite !b64_neg by done. pose proof (round_mono_pos (- y) (- x)). lra.
    + rewrite b64_neg by done. pose proof (round_to_nonneg (last_place (- x)) (- x)).
      pose proof (b64_nonneg y Hy). lra.
  - rewrite !b64_pos by lra. by apply round_mono_pos.
  - rewrite b64_zero by done. apply b64_nonneg. lra.
Qed.

#[export] Instance b64_proper : Proper (Qeq ==> Qeq) b64.
Proof. intros x y E. apply Qle_antisym; apply b64_mono; rewrite E; apply Qle_refl. Qed.

Lemma b64_exact z : 0 <= z <= 2 ^ 53 -> (b64 (inject_Z z) == inject_Z z)%Q.
Proof.
  intros Hz. destruct (Z.eq_dec z 0) as [->|Hne]; [done|].
  assert (Hp : (0 < inject_Z z)%Q) by (change 0%Q with (inject_Z 0); rewrite <- Zlt_Qlt; lia).
  destruct (Z.eq_dec z (2 ^ 53)) as [->|Hlt]; [done|].
  rewrite b64_pos by done. pose proof (binade_spec _ Hp) as [Hl _].
  assert (Hb : binade (inject_Z z) < 53).
  { apply pow2_lt_inv. rewrite (pow2_Z 53) by done. apply Qle_lt_trans with (inject_Z z); [done|].
    rewrite <- Zlt_Qlt. lia. }
  set (u := last_place (inject_Z z)).
  assert (Hu : u <= 0) by (unfold u, last_place; lia).
  assert (He : (inject_Z z == inject_Z (z * 2 ^ (- u)) * pow2 u)%Q).
  { rewrite inject_Z_mult, <- pow2_Z, <- Qmult_assoc, <- pow2_plus by lia.
    rewrite Z.add_opp_diag_l. change (pow2 0) with 1%Q. ring. }
  rewrite He at 1. rewrite round_to_multiple. by rewrite <- He.
Qed.

(** A value of 53 significant bits whose last place is at least two, and a
    fraction added to it. *)
Lemma b64_plus_fraction u k f :
  1 <= u -> 2 ^ 52 <= k < 2 ^ 53 -> (0 <= f)%Q -> (f < 1)%Q ->
  (b64 (inject_Z k * pow2 u + f) == inject_Z k * pow2 u)%Q.
Proof.
  intros Hu Hk Hf0 Hf1. pose proof (pow2_le 1 u Hu) as Hp. change (pow2 1) with 2%Q in Hp.
  assert (Hk1 : (inject_Z (2 ^ 52) <= inject_Z k)%Q) by (rewrite <- Zle_Qle; lia).
  assert (Hk2 : (inject_Z k + 1 <= inject_Z (2 ^ 53))%Q).
  { change 1%Q with (inject_Z 1). rewrite <- inject_Z_plus, <- Zle_Qle. lia. }
  rewrite <- (pow2_Z 52) in Hk1 by done. rewrite <- (pow2_Z 53) in Hk2 by done.
  set (x := (inject_Z k * pow2 u + f)%Q).
  assert (Hlo : (pow2 (u + 52) <= x)%Q) by (unfold x; rewrite pow2_plus; nra).
  assert (Hhi : (x < pow2 (u + 53))%Q) by (unfold x; rewrite pow2_plus; nra).
  pose proof (pow2_pos (u + 52)) as Hpos. assert (Hx : (0 < x)%Q) by lra.
  pose proof (binade_spec x Hx) as [Hb1 Hb2].
  assert (Hb : binade x = u + 52).
  { assert (u + 52 < binade x + 1) by (apply pow2_lt_inv; lra).
    assert (binade x < u + 53) by (apply pow2_lt_inv; lra). lia. }
  rewrite b64_pos by done. unfold last_place. rewrite Hb, Z.max_l by lia.
  replace (u + 52 - 52) with u by lia. unfold round_to.
  enough (Qround_even (x / pow2 u) = k) as -> by done.
  assert (Hd : (x / pow2 u == inject_Z k + f / pow2 u)%Q) by (unfold x; field; lra).
  assert (Hh1 : (0 <= f / pow2 u)%Q) by (apply Qle_shift_div_l; lra).
  assert (Hh2 : (f / pow2 u < 1 # 2)%Q) by (apply Qlt_shift_div_r; lra).
  apply Z.le_antisymm; apply Qround_even_mono_Z; lra.
Qed.

Lemma b64_absorbs z f :
  2 ^ 53 <= z -> (0 <= f)%Q -> (f < 1)%Q -> (b64 (b64 (inject_Z z) + f) == b64 (inject_Z z))%Q.
Proof.
  intros Hz Hf0 Hf1.
  assert (Hz' : (pow2 53 <= inject_Z z)%Q) by (rewrite pow2_Z, <- Zle_Qle by done; done).
  pose proof (pow2_pos 53) as Hp53. assert (Hp : (0 < inject_Z z)%Q) by lra.
  pose proof (binade_spec _ Hp) as [Hl Hh].
  assert (Hb : 53 <= binade (inject_Z z)).
  { assert (53 < binade (inject_Z z) + 1); [|lia]. apply pow2_lt_inv. lra. }
  assert (E : b64 (inject_Z z) = round_to (binade (inject_Z z) - 52) (inject_Z z)).
  { rewrite b64_pos by done. unfold last_place. by rewrite Z.max_l by lia. }
  set (u := binade (inject_Z z) - 52) in *. pose proof (pow2_pos u) as Hpu.
  unfold round_to in E. set (k := Qround_even (inject_Z z / pow2 u)) in *.
  assert (Hk1 : 2 ^ 52 <= k).
  { rewrite <- (Qround_even_Z (2 ^ 52)). apply Qround_even_mono, Qle_shift_div_l; [done|].
    rewrite <- pow2_Z, <- pow2_plus by done. replace (52 + u) with (binade (inject_Z z)) by lia. done. }
  assert (Hk2 : k <= 2 ^ 53).
  { rewrite <- (Qround_even_Z (2 ^ 53)). apply Qround_even_mono, Qle_shift_div_r; [done|].
    rewrite <- pow2_Z, <- pow2_plus by done.
    replace (53 + u) with (binade (inject_Z z) + 1) by lia. lra. }
  rewrite E. destruct (Z.eq_dec k (2 ^ 53)) as [Hk|Hk]; [|apply b64_plus_fraction; lia || done].
  assert (Ek : (inject_Z k * pow2 u == inject_Z (2 ^ 52) * pow2 (u + 1))%Q).
  { rewrite Hk, pow2_succ. change (inject_Z (2 ^ 53)) with (2 * inject_Z (2 ^ 52))%Q. ring. }
  rewrite Ek. apply b64_plus_fraction; lia || done.
Qed.

(** The laws every theorem about floating-point delays assumes hold of
    round-to-nearest-even. *)
Lemma binary64_laws : @F64Laws binary64.
Proof.
  split; simpl.
  - intros x Hx. by apply b64_error.
  - intros x Hx. by apply b64_error.
  - apply b64_nonneg.
  - apply b64_mono.
  - apply b64_exact.
  - intros z f. apply b64_absorbs.
Qed.
