(* ===== verification/TaskData.v ===== *)
(** * Task data and queue contracts

    [cqrs-runtime/src/task/data] (formats, validation, publication, attempts)
    and the data of [cqrs-runtime/src/task/queue] (leases, settlement requests
    and results, recovery reports, errors). *)

From S2P Require Import Prelude DomainValues.

(** ** JSON values

    [serde_json::Value]; an object is the list of its entries. *)

Inductive Value : Type :=
| JNull
| JBool (b : bool)
| JNumber (n : Z)
| JString (s : rstr)
| JArray (l : list Value)
| JObject (l : list (rstr * Value)).

Definition is_object (v : Value) : bool :=
  match v with JObject _ => true | _ => false end.

Definition json_get (k : rstr) (v : Value) : option Value :=
  match v with
  | JObject l => snd <$> List.find (fun p => bool_decide (fst p = k)) l
  | _ => None
  end.

(** ** Formats *)

Inductive TaskFormatError := EmptyType | InvalidVersion.

#[export] Instance TaskFormatError_eq_dec : EqDecision TaskFormatError.
Proof. solve_decision. Defined.

Record TaskFormat := mk_TaskFormat { task_type : rstr; task_version : Z }.

#[export] Instance TaskFormat_eq_dec : EqDecision TaskFormat.
Proof. solve_decision. Defined.
#[export] Instance TaskFormat_countable : Countable TaskFormat.
Proof.
  by apply (inj_countable' (fun f => (task_type f, task_version f))
    (fun p => mk_TaskFormat (fst p) (snd p))); intros [].
Defined.

(** [TaskFormat::new] *)
Definition format_new (ty : rstr) (version : Z) : result TaskFormatError TaskFormat :=
  if bool_decide (ty = []) then Err EmptyType
  else if version <=? 0 then Err InvalidVersion
  else Ok (mk_TaskFormat ty version).

(** The trait [TaskPayload] with the serde implementation of its types. *)
Class TaskPayload (P : Type) := {
  TASK_TYPE : rstr;
  TASK_VERSION : Z;
  to_value : P -> option Value;
  from_value : Value -> option P;
}.
Arguments TASK_TYPE P {_}.
Arguments TASK_VERSION P {_}.

(** [TaskFormat::of] *)
Definition format_of (P : Type) `{TaskPayload P} : result TaskFormatError TaskFormat :=
  format_new (TASK_TYPE P) (TASK_VERSION P).

Definition format_valid (f : TaskFormat) : Prop := task_type f <> [] /\ 0 < task_version f.

Lemma format_new_ok ty v f :
  format_new ty v = Ok f <-> f = mk_TaskFormat ty v /\ format_valid f.
Proof.
  unfold format_new, format_valid. case_bool_decide; [naive_solver|].
  destruct (Z.leb_spec v 0); split; [done|intros [-> [??]]; simpl in *; lia| |naive_solver].
  intros [= <-]. simpl. split_and!; [done..|lia].
Qed.

(** ** Validation *)

Inductive TaskValidationError :=
| FormatError (e : TaskFormatError)
| Serialization
| PayloadNotObject
| MetadataNotObject
| InvalidAttemptLimit
| InvalidAttempt
| InvalidSchedule.

Definition validate_payload (payload : Value) : result TaskValidationError unit :=
  if is_object payload then Ok tt else Err PayloadNotObject.
Definition validate_metadata (metadata : Value) : result TaskValidationError unit :=
  if is_object metadata then Ok tt else Err MetadataNotObject.

(** ** Publication *)

Inductive TaskSchedule := Now | After (d : Duration.t) | At (t : DateTime).

Definition schedule_validate (s : TaskSchedule) : result TaskValidationError unit :=
  match s with
  | After delay => if i64_MAX <? Duration.as_millis delay then Err InvalidSchedule else Ok tt
  | _ => Ok tt
  end.

Record NewTask := {
  nt_id : Uuid;
  nt_format : TaskFormat;
  nt_payload : Value;
  nt_metadata : Value;
  nt_schedule : TaskSchedule;
  nt_max_attempts : Z;
}.

(** [NewTask::from_payload]; [id] is the fresh [Uuid::new_v4()]. *)
Definition from_payload (id : Uuid) (format : TaskFormat) (payload : Value) :
    result TaskValidationError NewTask :=
  _ ← validate_payload payload;
  Ok {| nt_id := id; nt_format := format; nt_payload := payload;
        nt_metadata := JObject []; nt_schedule := Now; nt_max_attempts := 10 |}.

(** [NewTask::new] *)
Definition new_task {P} `{TaskPayload P} (id : Uuid) (payload : P) :
    result TaskValidationError NewTask :=
  format ← map_err FormatError (format_of P);
  value ← ok_or Serialization (to_value payload);
  from_payload id format value.

Definition scheduled (self : NewTask) (schedule : TaskSchedule) : result TaskValidationError NewTask :=
  _ ← schedule_validate schedule;
  Ok {| nt_id := nt_id self; nt_format := nt_format self; nt_payload := nt_payload self;
        nt_metadata := nt_metadata self; nt_schedule := schedule;
        nt_max_attempts := nt_max_attempts self |}.

Definition with_metadata (self : NewTask) (metadata : Value) : result TaskValidationError NewTask :=
  _ ← validate_metadata metadata;
  Ok {| nt_id := nt_id self; nt_format := nt_format self; nt_payload := nt_payload self;
        nt_metadata := metadata; nt_schedule := nt_schedule self;
        nt_max_attempts := nt_max_attempts self |}.

Definition with_max_attempts (self : NewTask) (max_attempts : Z) : result TaskValidationError NewTask :=
  if max_attempts <=? 0 then Err InvalidAttemptLimit
  else Ok {| nt_id := nt_id self; nt_format := nt_format self; nt_payload := nt_payload self;
             nt_metadata := nt_metadata self; nt_schedule := nt_schedule self;
             nt_max_attempts := max_attempts |}.

(** What every constructible task satisfies, and storage relies on. *)
Definition new_task_valid (t : NewTask) : Prop :=
  format_valid (nt_format t) /\ is_object (nt_payload t) = true /\
  is_object (nt_metadata t) = true /\ 0 < nt_max_attempts t /\
  schedule_validate (nt_schedule t) = Ok tt.

(** ** Attempts and leases *)

Record TaskAttempt := {
  at_id : Uuid;
  at_format : TaskFormat;
  at_payload : Value;
  at_metadata : Value;
  at_number : Z;
}.

Definition attempt_new (id : Uuid) (format : TaskFormat) (payload metadata : Value) (number : Z) :
    result TaskValidationError TaskAttempt :=
  _ ← validate_payload payload;
  _ ← validate_metadata metadata;
  if number <=? 0 then Err InvalidAttempt
  else Ok {| at_id := id; at_format := format; at_payload := payload;
             at_metadata := metadata; at_number := number |}.

Definition LEASE_SAFETY_MARGIN : Duration.t := Duration.from_secs 5.

Record TaskLease := { lock_token : Uuid; lease_deadline : Instant.t }.
Record LeasedTask := { lt_attempt : TaskAttempt; lt_lease : TaskLease }.

(** ** Queue errors, settlement and recovery *)

Inductive QueueRequestError := InvalidLimit | InvalidLeaseDuration | InvalidRetryDelay.

Inductive TaskProcessingError :=
| InvalidRequest (e : QueueRequestError)
| InvalidDelivery
| InvalidExecutionBudget
| Unavailable
| TimedOut
| LeaseBudgetExhausted.

#[export] Instance QueueRequestError_eq_dec : EqDecision QueueRequestError.
Proof. solve_decision. Defined.
#[export] Instance TaskProcessingError_eq_dec : EqDecision TaskProcessingError.
Proof. solve_decision. Defined.

Inductive SettlementRequest :=
| Completed
| Retry (delay : Duration.t) (reason : rstr)
| Failed (reason : rstr).

Inductive TaskFailureCause := PermanentRejection | AttemptLimitReached | LeaseExpired.

#[export] Instance TaskFailureCause_eq_dec : EqDecision TaskFailureCause.
Proof. solve_decision. Defined.

Definition cause_as_str (c : TaskFailureCause) : rstr :=
  match c with
  | PermanentRejection => §"permanent failure"
  | AttemptLimitReached => §"retry limit reached"
  | LeaseExpired => §"worker lease expired"
  end.

Record TaskFailure := {
  tf_id : Uuid;
  tf_format : TaskFormat;
  tf_attempt : Z;
  tf_cause : TaskFailureCause;
}.

#[export] Instance TaskFailure_eq_dec : EqDecision TaskFailure.
Proof. solve_decision. Defined.

Inductive SettlementResult :=
| OwnershipLost
| SettledCompleted
| RetryScheduled
| SettledFailed (f : TaskFailure).

#[export] Instance SettlementResult_eq_dec : EqDecision SettlementResult.
Proof. solve_decision. Defined.

Definition is_applied (r : SettlementResult) : bool :=
  match r with OwnershipLost => false | _ => true end.
Definition failure (r : SettlementResult) : option TaskFailure :=
  match r with SettledFailed f => Some f | _ => None end.

Record LeaseRecoveryReport := { retried_count : Z; failures : list TaskFailure }.
Definition report_new (retried : Z) (fs : list TaskFailure) : LeaseRecoveryReport :=
  {| retried_count := retried; failures := fs |}.
Definition processed_count (r : LeaseRecoveryReport) : Z :=
  retried_count r + Z.of_nat (length (failures r)).

(** ** Lemmas *)

Lemma from_payload_valid id f v t :
  format_valid f -> from_payload id f v = Ok t -> new_task_valid t.
Proof.
  unfold from_payload, validate_payload, new_task_valid. intros Hf H.
  destruct (is_object v) eqn:E; simplify_eq/=. done.
Qed.

(** Every way the runtime builds a task yields one storage can hold. *)
Inductive built : NewTask -> Prop :=
| built_payload id f v t : format_valid f -> from_payload id f v = Ok t -> built t
| built_scheduled t s t' : built t -> scheduled t s = Ok t' -> built t'
| built_metadata t m t' : built t -> with_metadata t m = Ok t' -> built t'
| built_attempts t n t' : built t -> with_max_attempts t n = Ok t' -> built t'.

Lemma built_valid t : built t -> new_task_valid t.
Proof.
  induction 1 as [id f v t Hf H|t s t' _ IH H|t m t' _ IH H|t n t' _ IH H].
  - by eapply from_payload_valid.
  - unfold scheduled in H. destruct (schedule_validate s) as [[]|] eqn:E; simplify_eq/=.
    destruct IH as (?&?&?&?&?). done.
  - unfold with_metadata, validate_metadata in H. destruct (is_object m) eqn:E; simplify_eq/=.
    destruct IH as (?&?&?&?&?). done.
  - unfold with_max_attempts in H. case_match eqn:E; simplify_eq/=. zify_bool.
    destruct IH as (?&?&?&?&?). done.
Qed.

Lemma new_task_built {P} `{TaskPayload P} id (p : P) t : new_task id p = Ok t -> built t.
Proof.
  unfold new_task. intros Ht.
  destruct (format_of P) as [f|] eqn:Ef; simplify_eq/=.
  destruct (to_value p) as [v|]; simplify_eq/=.
  eapply built_payload; [|done]. by apply format_new_ok in Ef as [-> ?].
Qed.
#[export] Hint Resolve new_task_built built_valid : ams.

Lemma new_task_fields {P} `{TaskPayload P} id (p : P) t :
  new_task id p = Ok t ->
  nt_id t = id /\ format_of P = Ok (nt_format t) /\ to_value p = Some (nt_payload t) /\
  nt_max_attempts t = 10.
Proof.
  unfold new_task, from_payload, validate_payload. intros Ht.
  destruct (format_of P) as [f|] eqn:Ef; simplify_eq/=.
  destruct (to_value p) as [v|] eqn:Ev; simplify_eq/=.
  destruct (is_object v); simplify_eq/=. done.
Qed.

Lemma attempt_new_ok id f v m n a :
  attempt_new id f v m n = Ok a <->
  a = {| at_id := id; at_format := f; at_payload := v; at_metadata := m; at_number := n |} /\
  is_object v = true /\ is_object m = true /\ 0 < n.
Proof.
  unfold attempt_new, validate_payload, validate_metadata.
  destruct (is_object v), (is_object m); simpl; [|naive_solver..].
  destruct (Z.leb_spec n 0); naive_solver lia.
Qed.
