(* ===== verification/Database.v ===== *)
(** * The PostgreSQL schema

    The tables of [cqrs-runtime/sql/001-event-store.sql] and
    [002-transactional-outbox.sql] with their keys, defaults and CHECK
    constraints, the errors a statement can end with, and the diagnostics of
    [cqrs-runtime/src/diagnostics.rs].  Timestamps are nanoseconds. *)

From S2P Require Import Prelude DomainValues TaskData.

(** ** Tables *)

Record event_row := {
  er_event_type : rstr;
  er_event_version : rstr;
  er_payload : Value;
  er_metadata : Value;
}.

Record snapshot_row := { sr_current_snapshot : Z; sr_payload : Value }.

(** The values CHECK allows in the column [status]. *)
Inductive status := st_pending | st_processing | st_completed | st_failed.

#[export] Instance status_eq_dec : EqDecision status.
Proof. solve_decision. Defined.

Definition status_text (s : status) : rstr :=
  match s with
  | st_pending => §"pending"
  | st_processing => §"processing"
  | st_completed => §"completed"
  | st_failed => §"failed"
  end.

Record outbox_row := {
  ob_aggregate_type : rstr;
  ob_aggregate_id : rstr;
  ob_aggregate_sequence : Z;
  ob_task_type : rstr;
  ob_task_version : Z;
  ob_payload : Value;
  ob_metadata : Value;
  ob_status : status;
  ob_created_at : Z;
  ob_available_at : Z;
  ob_finished_at : option Z;
  ob_attempts : Z;
  ob_max_attempts : Z;
  ob_last_error : option rstr;
  ob_locked_by : option rstr;
  ob_lock_token : option Uuid;
  ob_locked_until : option Z;
}.

(** Keyed by the primary keys. *)
Record db := mk_db {
  events : gmap (rstr * rstr * Z) event_row;
  snapshots : gmap (rstr * rstr * Z) snapshot_row;
  outbox : gmap Uuid outbox_row;
}.

Definition set_outbox (d : db) (o : gmap Uuid outbox_row) : db :=
  mk_db (events d) (snapshots d) o.

(** The CHECK constraints of [transactional_outbox]. *)
Definition outbox_check (r : outbox_row) : bool :=
  (0 <? ob_aggregate_sequence r)
  && bool_decide (ob_task_type r <> [])
  && (0 <? ob_task_version r)
  && is_object (ob_payload r)
  && is_object (ob_metadata r)
  && (0 <=? ob_attempts r)
  && (0 <? ob_max_attempts r)
  && (ob_attempts r <=? ob_max_attempts r)
  && (if decide (ob_status r = st_processing)
      then bool_decide (is_Some (ob_locked_by r)) && bool_decide (is_Some (ob_lock_token r))
           && bool_decide (is_Some (ob_locked_until r))
      else bool_decide (ob_locked_by r = None) && bool_decide (ob_lock_token r = None)
           && bool_decide (ob_locked_until r = None))
  && eqb (bool_decide (ob_status r = st_completed \/ ob_status r = st_failed))
         (bool_decide (is_Some (ob_finished_at r)))
  && (negb (bool_decide (ob_status r = st_pending)) || (ob_attempts r <? ob_max_attempts r)).

(** The moments [timestamptz] represents, in nanoseconds since 1970: the type counts
    microseconds from the year 2000, begins with the first Julian day and ends with
    the year 294276. *)
Definition TIMESTAMP_START : Z := - 211813488000000000 * 1000 + 946684800 * 1000000000.
Definition TIMESTAMP_END : Z := 9223371331200000000 * 1000 + 946684800 * 1000000000.
Definition timestamp_in_range (t : Z) : bool := (TIMESTAMP_START <=? t) && (t <? TIMESTAMP_END).

(** Every stored row satisfies its table's constraints. *)
Definition outbox_ok (d : db) : Prop :=
  map_Forall (fun _ r => outbox_check r = true) (outbox d).

(** The constraints as propositions. *)
Definition lock_shape (r : outbox_row) : Prop :=
  if decide (ob_status r = st_processing)
  then is_Some (ob_locked_by r) /\ is_Some (ob_lock_token r) /\ is_Some (ob_locked_until r)
  else ob_locked_by r = None /\ ob_lock_token r = None /\ ob_locked_until r = None.

Definition outbox_row_ok (r : outbox_row) : Prop :=
  0 < ob_aggregate_sequence r /\ ob_task_type r <> [] /\ 0 < ob_task_version r /\
  is_object (ob_payload r) = true /\ is_object (ob_metadata r) = true /\
  0 <= ob_attempts r /\ 0 < ob_max_attempts r /\ ob_attempts r <= ob_max_attempts r /\
  lock_shape r /\
  (ob_status r = st_completed \/ ob_status r = st_failed <-> is_Some (ob_finished_at r)) /\
  (ob_status r = st_pending -> ob_attempts r < ob_max_attempts r).

Lemma outbox_check_spec r : outbox_check r = true <-> outbox_row_ok r.
Proof.
  unfold outbox_check, outbox_row_ok, lock_shape.
  rewrite !andb_true_iff, !Z.ltb_lt, !Z.leb_le, bool_decide_eq_true, eqb_true_iff.
  rewrite orb_true_iff, negb_true_iff, bool_decide_eq_false, Z.ltb_lt.
  assert (Hb : forall P Q `{Decision P} `{Decision Q}, bool_decide P = bool_decide Q <-> (P <-> Q)).
  { intros P Q ? ?. by repeat case_bool_decide; naive_solver. }
  rewrite Hb.
  case_decide; rewrite !andb_true_iff, !bool_decide_eq_true;
    destruct (decide (ob_status r = st_pending)); naive_solver.
Qed.

(** ** Statement failures

    [sqlx::Error]: the code, constraint and message of a database error, and the text
    that the other variants carry or their sources print; the variants the code does
    not tell apart are [OtherSqlxError]. *)

Inductive SqlxError :=
| Io (text : rstr) | Tls (text : rstr)
| DatabaseError (code : option rstr) (constraint : option rstr) (message : rstr)
| PoolTimedOut | PoolClosed
| Decode (text : rstr) | ColumnDecode (index text : rstr) | Configuration (text : rstr)
| OtherSqlxError (text : rstr).

#[export] Instance SqlxError_eq_dec : EqDecision SqlxError.
Proof. solve_decision. Defined.

Definition unique_violation (constraint : rstr) : SqlxError :=
  DatabaseError (Some (§"23505")) (Some constraint) (§"duplicate key value violates unique constraint").
Definition check_violation : SqlxError :=
  DatabaseError (Some (§"23514")) None (§"new row violates check constraint").
Definition timestamp_out_of_range : SqlxError :=
  DatabaseError (Some (§"22008")) None (§"timestamp out of range").

(** ** Diagnostics *)

Definition is_ascii_uppercase (c : N) : bool := ((65 <=? c) && (c <=? 90))%N.
Definition is_ascii_digit (c : N) : bool := ((48 <=? c) && (c <=? 57))%N.
Definition is_ascii_alphanumeric (c : N) : bool :=
  (is_ascii_uppercase c || is_ascii_digit c || (97 <=? c) && (c <=? 122))%N.

Definition safe_type (value : rstr) : rstr :=
  if negb (bool_decide (value = [])) &&
     forallb (fun c => is_ascii_alphanumeric c || (c =? 95)%N) value
  then value else §"unknown".

Definition sqlx_kind (e : SqlxError) : rstr :=
  match e with
  | Io _ => §"io"
  | Tls _ => §"tls"
  | DatabaseError _ _ _ => §"database"
  | PoolTimedOut => §"pool_timeout"
  | PoolClosed => §"pool_closed"
  | Decode _ | ColumnDecode _ _ => §"decode"
  | Configuration _ => §"configuration"
  | _ => §"other"
  end.

Definition sqlstate (e : SqlxError) : option rstr :=
  match e with
  | DatabaseError (Some code) _ _ =>
    if (length code =? 5)%nat && forallb (fun c => is_ascii_uppercase c || is_ascii_digit c) code
    then Some code else None
  | _ => None
  end.

(** What a diagnostic may carry: names of fixed alphabet only. *)
Definition safe_char (c : N) : bool := is_ascii_alphanumeric c || (c =? 95)%N.

(** Diagnostics never carry arbitrary text: whatever task or aggregate
    type, storage error or database code is reported, the logged type and
    code consist of ASCII letters, digits and underscores; a clean type name
    is logged unchanged. *)
Theorem diagnostics_are_safe (ty : rstr) (e : SqlxError) :
  forallb safe_char (safe_type ty) = true /\
  forallb safe_char (sqlx_kind e) = true /\
  (forall code, sqlstate e = Some code -> forallb safe_char code = true /\ length code = 5%nat) /\
  (ty <> [] /\ forallb safe_char ty = true <-> safe_type ty = ty /\ ty <> []).
Proof.
  assert (Hs : forall t, forallb safe_char (safe_type t) = true).
  { intros t. unfold safe_type. case_match eqn:E; [|done]. by apply andb_true_iff in E as [_ ?]. }
  split_and!; [apply Hs|by destruct e| |].
  - intros code. destruct e as [| |[c|] ? ?| | | | | |]; try done. simpl.
    case_match eqn:E; [|done]. intros [= <-]. apply andb_true_iff in E as [El%Nat.eqb_eq Ef].
    split; [|done]. apply forallb_forall. intros x Hx. unfold safe_char, is_ascii_alphanumeric.
    rewrite forallb_forall in Ef. by rewrite (Ef x Hx).
  - split.
    + intros [Hne Hf]. split; [|done]. unfold safe_type.
      rewrite bool_decide_eq_false_2 by done. simpl. unfold safe_char in Hf. by rewrite Hf.
    + intros [He Hne]. split; [done|]. rewrite <- He. apply Hs.
Qed.
