(* ===== verification/EventRepository.v ===== *)
(** * Event persistence with the transactional outbox

    [cqrs-runtime/src/postgres/event_repository_with_outbox]: the checked write
    plan, its compilation to one SQL statement, the effect of that statement on
    the tables, and the repository on top of them. *)

From S2P Require Import Prelude DomainValues TaskData Database.

(** ** Errors *)

Inductive WriteValidationError :=
| MultipleEvents | SnapshotWithoutEvent | TasksWithoutEvent
| SequenceOverflow | BindLimitExceeded.

(** [cqrs_es::persist::PersistenceError], with the boxed source of an unknown
    error. *)
Inductive UnknownSource := FromValidation (e : WriteValidationError) | FromSqlx (e : SqlxError).
Inductive PersistenceError :=
| OptimisticLockError
| ConnectionError (e : SqlxError)
| UnknownError (source : UnknownSource).

Definition invalid_write (reason : WriteValidationError) : PersistenceError :=
  UnknownError (FromValidation reason).

(** ** The write plan *)

(** [cqrs_es::persist::SerializedEvent] *)
Record SerializedEvent := {
  se_aggregate_id : rstr;
  se_sequence : Z;
  se_event_type : rstr;
  se_event_version : rstr;
  se_payload : Value;
  se_metadata : Value;
}.

Inductive SnapshotWrite :=
| NoSnapshot
| InsertSnapshot (aggregate_id : rstr) (payload : Value) (version : Z)
| UpdateSnapshot (aggregate_id : rstr) (payload : Value) (version : Z).

Inductive WritePlan :=
| NoOp
| OneEvent (event : SerializedEvent) (sequence : Z) (snapshot : SnapshotWrite).

Definition sequence_as_i64 (sequence : Z) : result PersistenceError Z :=
  if sequence <=? i64_MAX then Ok sequence else Err (invalid_write SequenceOverflow).

(** [SnapshotWrite::new] and [SnapshotWrite::bind_count] *)
Definition snapshot_write_new (update : option (rstr * Value * Z)) :
    result PersistenceError SnapshotWrite :=
  match update with
  | None => Ok NoSnapshot
  | Some (aggregate_id, payload, version) =>
    version ← sequence_as_i64 version;
    Ok (if version =? 1 then InsertSnapshot aggregate_id payload version
        else UpdateSnapshot aggregate_id payload version)
  end.
Definition bind_count (s : SnapshotWrite) : Z :=
  match s with NoSnapshot => 0 | InsertSnapshot _ _ _ => 5 | UpdateSnapshot _ _ _ => 6 end.

Definition EVENT_BINDS : Z := 7.
Definition TASK_BINDS : Z := 11.

Definition validate_bind_count (tasks snapshot_binds : Z) : result PersistenceError unit :=
  let count := c ← usize_checked_mul tasks TASK_BINDS;
               c ← usize_checked_add c EVENT_BINDS;
               usize_checked_add c snapshot_binds in
  match count with
  | Some c => if c <? u16_MAX then Ok tt else Err (invalid_write BindLimitExceeded)
  | None => Err (invalid_write BindLimitExceeded)
  end.

(** [WritePlan::new] *)
Definition write_plan_new (events : list SerializedEvent) (snapshot : option (rstr * Value * Z))
    (tasks : list NewTask) : result PersistenceError WritePlan :=
  match events with
  | [] =>
    if bool_decide (is_Some snapshot) then Err (invalid_write SnapshotWithoutEvent)
    else match tasks with
    | _ :: _ => Err (invalid_write TasksWithoutEvent)
    | [] => Ok NoOp
    end
  | [event] =>
    snapshot ← snapshot_write_new snapshot;
    _ ← validate_bind_count (Z.of_nat (length tasks)) (bind_count snapshot);
    sequence ← sequence_as_i64 (se_sequence event);
    Ok (OneEvent event sequence snapshot)
  | _ => Err (invalid_write MultipleEvents)
  end.

(** ** The compiled statement

    [QueryBuilder]: text and bound parameters in order. *)

Inductive query_part := Push (text : string) | PushBind.

#[export] Instance query_part_eq_dec : EqDecision query_part.
Proof. solve_decision. Defined.

Definition count_binds (q : list query_part) : Z :=
  Z.of_nat (length (filter (fun p => p = PushBind) q)).

(** [push_values]: one parenthesised row of binds per item. *)
Definition row_binds (n : nat) : list query_part := replicate n PushBind.

Definition append_snapshot (snapshot : SnapshotWrite) : list query_part :=
  match snapshot with
  | NoSnapshot => []
  | InsertSnapshot _ _ _ =>
    [Push "written_snapshot AS (INSERT INTO snapshots (aggregate_type, aggregate_id, last_sequence, current_snapshot, payload) VALUES (";
     PushBind; Push ", "; PushBind; Push ", "; PushBind; Push ", "; PushBind; Push ", "; PushBind;
     Push ") RETURNING 1), "]
  | UpdateSnapshot _ _ _ =>
    [Push "written_snapshot AS (UPDATE snapshots SET last_sequence = "; PushBind;
     Push ", current_snapshot = "; PushBind; Push ", payload = "; PushBind;
     Push " WHERE aggregate_type = "; PushBind; Push " AND aggregate_id = "; PushBind;
     Push " AND current_snapshot = "; PushBind; Push " RETURNING 1), "]
  end.

(** The [written_tasks] branch of [persist_one]. *)
Definition append_tasks (tasks : list NewTask) : list query_part :=
  match tasks with
  | [] => []
  | _ =>
    [Push ", written_tasks AS (INSERT INTO transactional_outbox (id, aggregate_type, aggregate_id, aggregate_sequence, task_type, task_version, payload, metadata, available_at, max_attempts) ";
     Push "SELECT id, aggregate_type, aggregate_id, aggregate_sequence, task_type, task_version, payload, metadata, COALESCE(scheduled_at, statement_timestamp() + delay_ms * interval '1 millisecond'), max_attempts FROM (";
     Push "VALUES "]
    ++ (tasks ≫= fun _ => row_binds 11)
    ++ [Push ") AS input(id, aggregate_type, aggregate_id, aggregate_sequence, task_type, task_version, payload, metadata, scheduled_at, delay_ms, max_attempts) WHERE EXISTS (SELECT 1 FROM written_events) RETURNING id)"]
  end.

Definition has_snapshot (snapshot : SnapshotWrite) : bool :=
  match snapshot with NoSnapshot => false | _ => true end.

Definition persist_query (tasks : list NewTask) (snapshot : SnapshotWrite) : list query_part :=
  [Push "WITH "] ++ append_snapshot snapshot
  ++ [Push "written_events AS (INSERT INTO events (aggregate_type, aggregate_id, sequence, event_type, event_version, payload, metadata) "]
  ++ (if has_snapshot snapshot then [Push "SELECT * FROM ("] else [])
  ++ [Push "VALUES "] ++ row_binds 7
  ++ (if has_snapshot snapshot then
        [Push ") AS input(aggregate_type, aggregate_id, sequence, event_type, event_version, payload, metadata) WHERE EXISTS (SELECT 1 FROM written_snapshot)"]
      else [])
  ++ [Push " RETURNING sequence)"]
  ++ append_tasks tasks
  ++ match snapshot with
     | NoSnapshot => [Push " SELECT 1::bigint AS snapshot_count"]
     | _ => [Push " SELECT COUNT(*)::bigint AS snapshot_count FROM written_snapshot"]
     end.

(** ** Its effect on the tables

    The common table expressions depend on each other in this order; the
    first violated constraint fails the whole statement. *)

(** [schedule_parts] and the [COALESCE] of the statement; the conversion of the
    milliseconds to [f64] is exact for the delays below 2^53 ms. *)
Definition schedule_parts (s : TaskSchedule) : option DateTime * Z :=
  match s with
  | Now => (None, 0)
  | At t => (Some t, 0)
  | After delay => (None, Duration.as_millis delay)
  end.
Definition available_at (now : Z) (s : TaskSchedule) : Z :=
  let '(at_time, delay_ms) := schedule_parts s in
  default (now + delay_ms * NANOS_PER_MILLI) at_time.

Definition task_row (now : Z) (ty id : rstr) (sequence : Z) (t : NewTask) : outbox_row := {|
  ob_aggregate_type := ty; ob_aggregate_id := id; ob_aggregate_sequence := sequence;
  ob_task_type := task_type (nt_format t); ob_task_version := task_version (nt_format t);
  ob_payload := nt_payload t; ob_metadata := nt_metadata t;
  ob_status := st_pending; ob_created_at := now; ob_available_at := available_at now (nt_schedule t);
  ob_finished_at := None; ob_attempts := 0; ob_max_attempts := nt_max_attempts t;
  ob_last_error := None; ob_locked_by := None; ob_lock_token := None; ob_locked_until := None;
|}.

Definition insert_snapshot (ty : rstr) (sequence : Z) (id : rstr) (payload : Value) (version : Z)
    (d : db) : result SqlxError db :=
  if (sequence <? 0) || (version <? 0) then Err check_violation
  else match snapshots d !! (ty, id, sequence) with
  | Some _ => Err (unique_violation (§"snapshots_pkey"))
  | None => Ok (mk_db (events d)
      (<[(ty, id, sequence) := {| sr_current_snapshot := version; sr_payload := payload |}]>
         (snapshots d)) (outbox d))
  end.

Definition snapshot_matches (ty id : rstr) (version : Z) (d : db) : list (rstr * rstr * Z) :=
  fst <$> filter (fun kr => fst (fst kr) = (ty, id) /\ sr_current_snapshot (snd kr) = version)
    (map_to_list (snapshots d)).

(** The updated rows: none, or one moved to its new key; two would collide. *)
Definition update_snapshot (ty : rstr) (sequence : Z) (id : rstr) (payload : Value) (version : Z)
    (d : db) : result SqlxError (db * Z) :=
  match snapshot_matches ty id (version - 1) d with
  | [] => Ok (d, 0)
  | [k] =>
    if (sequence <? 0) || (version <? 0) then Err check_violation
    else match delete k (snapshots d) !! (ty, id, sequence) with
    | Some _ => Err (unique_violation (§"snapshots_pkey"))
    | None => Ok (mk_db (events d)
        (<[(ty, id, sequence) := {| sr_current_snapshot := version; sr_payload := payload |}]>
           (delete k (snapshots d))) (outbox d), 1)
    end
  | _ => Err (unique_violation (§"snapshots_pkey"))
  end.

Definition insert_event (ty : rstr) (sequence : Z) (e : SerializedEvent) (d : db) :
    result SqlxError db :=
  if sequence <? 0 then Err check_violation
  else match events d !! (ty, se_aggregate_id e, sequence) with
  | Some _ => Err (unique_violation (§"events_pkey"))
  | None => Ok (mk_db
      (<[(ty, se_aggregate_id e, sequence) :=
           {| er_event_type := se_event_type e; er_event_version := se_event_version e;
              er_payload := se_payload e; er_metadata := se_metadata e |}]> (events d))
      (snapshots d) (outbox d))
  end.

Fixpoint insert_tasks (now : Z) (ty id : rstr) (sequence : Z) (tasks : list NewTask) (d : db) :
    result SqlxError db :=
  match tasks with
  | [] => Ok d
  | t :: tasks =>
    let row := task_row now ty id sequence t in
    if negb (timestamp_in_range (ob_available_at row)) then Err timestamp_out_of_range
    else if outbox_check row then
      match outbox d !! nt_id t with
      | Some _ => Err (unique_violation (§"transactional_outbox_pkey"))
      | None => insert_tasks now ty id sequence tasks (set_outbox d (<[nt_id t := row]> (outbox d)))
      end
    else Err check_violation
  end.

(** The [written_snapshot] branch and its row count. *)
Definition write_snapshot (ty : rstr) (sequence : Z) (sw : SnapshotWrite) (d : db) :
    result SqlxError (db * Z) :=
  match sw with
  | NoSnapshot => Ok (d, 1)
  | InsertSnapshot id payload version =>
    d1 ← insert_snapshot ty sequence id payload version d; Ok (d1, 1)
  | UpdateSnapshot id payload version => update_snapshot ty sequence id payload version d
  end.

(** The statement's effect and its [snapshot_count]. *)
Definition persist_statement (now : Z) (ty : rstr) (tasks : list NewTask) (event : SerializedEvent)
    (sequence : Z) (snapshot : SnapshotWrite) (d : db) : result SqlxError (db * Z) :=
  '(d1, count) ← write_snapshot ty sequence snapshot d;
  if count =? 0 then Ok (d1, count)
  else d2 ← insert_event ty sequence event d1;
       d3 ← insert_tasks now ty (se_aggregate_id event) sequence tasks d2;
       Ok (d3, count).

(** ** The repository *)

Definition map_sqlx_error (error : SqlxError) : PersistenceError :=
  let is_optimistic_conflict :=
    match error with
    | DatabaseError code constraint _ =>
      bool_decide (code = Some (§"23505")) &&
      (bool_decide (constraint = Some (§"events_pkey")) || bool_decide (constraint = Some (§"snapshots_pkey")))
    | _ => false
    end in
  if is_optimistic_conflict then OptimisticLockError
  else match error with
  | Io _ | Tls _ => ConnectionError error
  | _ => UnknownError (FromSqlx error)
  end.

(** What the connection does to one statement: run it, fail before it takes
    effect, or run it and lose the reply. *)
Inductive link := Healthy | FailsBefore (e : SqlxError) | LosesReply (e : SqlxError).

Definition persist_one (l : link) (now : Z) (ty : rstr) (tasks : list NewTask)
    (event : SerializedEvent) (sequence : Z) (snapshot : SnapshotWrite) (d : db) :
    result PersistenceError unit * db :=
  match l with
  | FailsBefore e => (Err (map_sqlx_error e), d)
  | _ =>
    match persist_statement now ty tasks event sequence snapshot d with
    | Err e => (Err (map_sqlx_error e), d)
    | Ok (d', count) =>
      match l with
      | LosesReply e => (Err (map_sqlx_error e), d')
      | _ => (if count =? 1 then Ok tt else Err OptimisticLockError, d')
      end
    end
  end.

(** [PostgresEventRepositoryWithOutbox]: the task list bound to one command. *)
Record Repository := { repo_tasks : list NewTask }.
Definition repository_new : Repository := {| repo_tasks := [] |}.
Definition with_outbox (r : Repository) (tasks : list NewTask) : Repository := {| repo_tasks := tasks |}.

Definition persist_command (r : Repository) (l : link) (now : Z) (ty : rstr)
    (events : list SerializedEvent) (snapshot : option (rstr * Value * Z)) (d : db) :
    result PersistenceError unit * db :=
  match write_plan_new events snapshot (repo_tasks r) with
  | Err e => (Err e, d)
  | Ok NoOp => (Ok tt, d)
  | Ok (OneEvent event sequence snapshot) =>
    persist_one l now ty (repo_tasks r) event sequence snapshot d
  end.

(** ** Lemmas *)

(** The snapshots after a write: the first version is a new row, a later one
    replaces a row of the aggregate that holds the version before it. *)
Definition snapshot_replaced (ty : rstr) (sequence : Z) (id : rstr) (payload : Value) (version : Z)
    (m m' : gmap (rstr * rstr * Z) snapshot_row) : Prop :=
  exists k row, m !! k = Some row /\ k.1 = (ty, id) /\ sr_current_snapshot row = version - 1 /\
    m' = <[(ty, id, sequence) := {| sr_current_snapshot := version; sr_payload := payload |}]> (delete k m).
Definition snapshot_stored (ty : rstr) (sequence : Z) (id : rstr) (payload : Value) (version : Z)
    (m m' : gmap (rstr * rstr * Z) snapshot_row) : Prop :=
  if decide (version = 1)
  then m' = <[(ty, id, sequence) := {| sr_current_snapshot := version; sr_payload := payload |}]> m
  else snapshot_replaced ty sequence id payload version m m'.

(** The rows one committed write adds: the event, and one pending row per
    task, each under a key that was free, with the snapshot of the new state if
    one is due; everything else is untouched. *)
Definition committed (now : Z) (ty : rstr) (e : SerializedEvent) (tasks : list NewTask)
    (snapshot : option (rstr * Value * Z)) (d d' : db) : Prop :=
  let key := (ty, se_aggregate_id e, se_sequence e) in
  events d !! key = None /\
  events d' = <[key := {| er_event_type := se_event_type e;
    er_event_version := se_event_version e; er_payload := se_payload e;
    er_metadata := se_metadata e |}]> (events d) /\
  NoDup (nt_id <$> tasks) /\
  (forall t, t ∈ tasks -> outbox d !! nt_id t = None /\
     outbox_check (task_row now ty (se_aggregate_id e) (se_sequence e) t) = true /\
     outbox d' !! nt_id t = Some (task_row now ty (se_aggregate_id e) (se_sequence e) t)) /\
  (forall i, i ∉ (nt_id <$> tasks) -> outbox d' !! i = outbox d !! i) /\
  match snapshot with
  | None => snapshots d' = snapshots d
  | Some (id, payload, version) =>
    snapshot_stored ty (se_sequence e) id payload version (snapshots d) (snapshots d')
  end.

Lemma insert_tasks_ok now ty id sequence tasks d d' :
  insert_tasks now ty id sequence tasks d = Ok d' ->
  events d' = events d /\ snapshots d' = snapshots d /\ NoDup (nt_id <$> tasks) /\
  (forall t, t ∈ tasks -> outbox d !! nt_id t = None /\
     outbox_check (task_row now ty id sequence t) = true /\
     outbox d' !! nt_id t = Some (task_row now ty id sequence t)) /\
  (forall i, i ∉ (nt_id <$> tasks) -> outbox d' !! i = outbox d !! i).
Proof.
  revert d. induction tasks as [|t tasks IH]; intros d H; simplify_eq/=.
  { split_and!; try done; [constructor|set_solver]. }
  destruct (timestamp_in_range _); cbn [negb] in *; [|done].
  destruct (outbox_check _) eqn:Ec; [|done]. case_match eqn:El; [done|].
  apply IH in H as (He & Hs & Hn & Hin & Hout). simpl in *.
  assert (Ht : nt_id t ∉ (nt_id <$> tasks)).
  { intros (t' & Heq & Ht')%list_elem_of_fmap. apply Hin in Ht' as [Hnone _].
    rewrite <- Heq, lookup_insert_eq in Hnone. done. }
  split_and!; [done|done|by constructor| |].
  - intros t' [->|Ht']%elem_of_cons.
    + rewrite Hout by done. by rewrite lookup_insert_eq.
    + destruct (Hin t' Ht') as (Hnone & ? & ?). split_and!; [|done..].
      rewrite lookup_insert_ne in Hnone; [done|]. intros Heq. apply Ht.
      rewrite Heq. by apply list_elem_of_fmap_2.
  - intros i Hi. apply not_elem_of_cons in Hi as [Hne Hi].
    rewrite Hout by done. by rewrite lookup_insert_ne.
Qed.

Lemma insert_tasks_succeeds now ty id sequence tasks d :
  NoDup (nt_id <$> tasks) ->
  Forall (fun t => outbox d !! nt_id t = None /\ timestamp_in_range (available_at now (nt_schedule t)) = true /\
                   outbox_check (task_row now ty id sequence t) = true) tasks ->
  exists d', insert_tasks now ty id sequence tasks d = Ok d'.
Proof.
  revert d. induction tasks as [|t tasks IH]; intros d Hn Hf; simpl; [eauto|].
  inversion Hn as [|? ? Ht Hn']; inversion Hf as [|? ? (Hnone & Hts & Hc) Hf']; subst.
  rewrite Hts. cbn [negb]. rewrite Hc, Hnone. apply IH; [done|]. rewrite Forall_forall in Hf' |- *.
  intros t' Ht'. destruct (Hf' t' Ht') as [? ?]. split; [|done]. simpl.
  rewrite lookup_insert_ne; [done|]. intros Heq. apply Ht. rewrite Heq.
  by apply list_elem_of_fmap_2.
Qed.

(** A valid task published with a positive sequence satisfies the schema. *)
Lemma task_row_check now ty id sequence t :
  new_task_valid t -> 0 < sequence -> outbox_check (task_row now ty id sequence t) = true.
Proof.
  intros ([? ?] & ? & ? & ? & ?) ?. apply outbox_check_spec.
  unfold outbox_row_ok, lock_shape, task_row; simpl. split_and!; try done; try lia.
  split; [by intros [|]|by intros [? ?]].
Qed.
#[export] Hint Resolve task_row_check : ams.

Lemma sequence_as_i64_ok n m : sequence_as_i64 n = Ok m -> m = n /\ n <= i64_MAX.
Proof. unfold sequence_as_i64. case_match; intros; simplify_eq; zify_bool; auto. Qed.

Lemma write_plan_one es snapshot tasks e sequence sw :
  write_plan_new es snapshot tasks = Ok (OneEvent e sequence sw) ->
  es = [e] /\ sequence = se_sequence e /\ snapshot_write_new snapshot = Ok sw /\
  validate_bind_count (Z.of_nat (length tasks)) (bind_count sw) = Ok tt.
Proof.
  unfold write_plan_new. destruct es as [|e' [|]]; [by repeat case_match| |done].
  destruct (snapshot_write_new snapshot) as [sw'|]; simpl; [|done].
  destruct (validate_bind_count _ _) as [[]|] eqn:Eb; simpl; [|done].
  destruct (sequence_as_i64 _) eqn:Es; simpl; [|done].
  apply sequence_as_i64_ok in Es as [-> _]. intros [= <- <- <-]. done.
Qed.

Lemma write_plan_noop es snapshot tasks :
  write_plan_new es snapshot tasks = Ok NoOp -> es = [] /\ snapshot = None /\ tasks = [].
Proof.
  unfold write_plan_new. destruct es as [|e [|]]; [| |done].
  - case_bool_decide as Hs; [done|]. destruct tasks; [|done]. destruct snapshot; naive_solver.
  - destruct (snapshot_write_new snapshot); simpl; [|done].
    destruct (validate_bind_count _ _); simpl; [|done]. by destruct (sequence_as_i64 _).
Qed.

Lemma snapshot_write_none snapshot : snapshot_write_new snapshot = Ok NoSnapshot -> snapshot = None.
Proof.
  destruct snapshot as [[[id p] v]|]; simpl; [|done].
  destruct (sequence_as_i64 v); simpl; [|done]. by case_match.
Qed.

(** What the snapshot part of the statement does, by its count. *)
Definition snapshot_written (ty : rstr) (sequence : Z) (sw : SnapshotWrite) (d d1 : db) : Prop :=
  events d1 = events d /\ outbox d1 = outbox d /\
  match sw with
  | NoSnapshot => snapshots d1 = snapshots d
  | InsertSnapshot id p v => snapshots d1 =
      <[(ty, id, sequence) := {| sr_current_snapshot := v; sr_payload := p |}]> (snapshots d)
  | UpdateSnapshot id p v => snapshot_replaced ty sequence id p v (snapshots d) (snapshots d1)
  end.

Lemma snapshot_matches_sound ty id version d k ks :
  snapshot_matches ty id version d = k :: ks ->
  exists row, snapshots d !! k = Some row /\ k.1 = (ty, id) /\ sr_current_snapshot row = version.
Proof.
  unfold snapshot_matches. intros Hm.
  assert (Hk : k ∈ k :: ks) by set_solver. rewrite <- Hm in Hk.
  apply list_elem_of_fmap in Hk as ([k' row] & -> & [[Hk Hv] Hin]%list_elem_of_filter).
  apply elem_of_map_to_list in Hin. eauto.
Qed.

Lemma write_snapshot_ok ty sequence sw d d' n :
  write_snapshot ty sequence sw d = Ok (d', n) ->
  n = 0 /\ d' = d \/ n = 1 /\ snapshot_written ty sequence sw d d'.
Proof.
  unfold snapshot_written. destruct sw; simpl.
  - intros [= <- <-]. auto.
  - unfold insert_snapshot. intros. repeat case_match; simplify_eq/=.
    by right.
  - unfold update_snapshot. destruct (snapshot_matches _ _ _ d) as [|k [|]] eqn:Em; intros;
      repeat case_match; simplify_eq/=; auto.
    apply snapshot_matches_sound in Em as (row & ? & ? & ?). right. split_and!; [done..|].
    by exists k, row.
Qed.

Lemma insert_event_ok ty e d d' :
  insert_event ty (se_sequence e) e d = Ok d' ->
  events d !! (ty, se_aggregate_id e, se_sequence e) = None /\
  events d' = <[(ty, se_aggregate_id e, se_sequence e) :=
    {| er_event_type := se_event_type e; er_event_version := se_event_version e;
       er_payload := se_payload e; er_metadata := se_metadata e |}]> (events d) /\
  outbox d' = outbox d /\ snapshots d' = snapshots d.
Proof. unfold insert_event. intros. repeat case_match; simplify_eq/=; auto. Qed.

(** The requested snapshot is the one the plan writes. *)
Lemma snapshot_write_request ty sequence snapshot sw d d1 :
  snapshot_write_new snapshot = Ok sw -> snapshot_written ty sequence sw d d1 ->
  match snapshot with
  | None => snapshots d1 = snapshots d
  | Some (id, payload, version) =>
    snapshot_stored ty sequence id payload version (snapshots d) (snapshots d1)
  end.
Proof.
  intros Hn (_ & _ & Hw). destruct snapshot as [[[id p] v]|]; simplify_eq/=; [|done].
  destruct (sequence_as_i64 v) as [m|] eqn:Ev; simplify_eq/=.
  apply sequence_as_i64_ok in Ev as [-> _]. unfold snapshot_stored.
  destruct (Z.eqb_spec v 1); simplify_eq/=; [done|]; by rewrite decide_False.
Qed.

(** The statement either does nothing (a stale snapshot version) or commits. *)
Lemma persist_statement_ok now ty tasks e snapshot sw d d' n :
  snapshot_write_new snapshot = Ok sw ->
  persist_statement now ty tasks e (se_sequence e) sw d = Ok (d', n) ->
  n = 0 /\ d' = d \/ n = 1 /\ committed now ty e tasks snapshot d d'.
Proof.
  intros Hsw. unfold persist_statement.
  destruct (write_snapshot _ _ sw d) as [[d1 c]|] eqn:E1; simpl; [|done].
  apply write_snapshot_ok in E1 as [[-> ->]|[-> Hw]]; simpl.
  { intros [= <- <-]. auto. }
  destruct (insert_event _ _ _ d1) as [d2|] eqn:E2; simpl; [|done].
  destruct (insert_tasks _ _ _ _ _ d2) as [d3|] eqn:E3; simpl; [|done].
  intros [= <- <-]. right. split; [done|].
  apply insert_event_ok in E2 as (Hk & He2 & Ho2 & Hs2).
  apply insert_tasks_ok in E3 as (He3 & Hs3 & Hn & Hin & Hout).
  pose proof (snapshot_write_request _ _ _ _ _ _ Hsw Hw) as Hsn.
  rewrite <- Hs2, <- Hs3 in Hsn.
  destruct Hw as (He & Ho & _). rewrite Ho2, Ho in *. rewrite He in *.
  unfold committed. split_and!; try done.
  - by rewrite He3.
Qed.

Lemma count_binds_app q1 q2 : count_binds (q1 ++ q2) = count_binds q1 + count_binds q2.
Proof. unfold count_binds. rewrite filter_app, length_app. lia. Qed.

Lemma count_binds_rows n : count_binds (row_binds n) = Z.of_nat n.
Proof.
  unfold count_binds, row_binds. f_equal. induction n as [|n IH]; [done|].
  rewrite replicate_S, filter_cons_True by done. simpl. by rewrite IH.
Qed.

Lemma count_binds_bind {A} (l : list A) n :
  count_binds (l ≫= fun _ => row_binds n) = Z.of_nat (length l) * Z.of_nat n.
Proof.
  induction l as [|x l IH]; [done|].
  rewrite bind_cons, count_binds_app, count_binds_rows, IH, length_cons. lia.
Qed.

Lemma append_tasks_binds tasks : count_binds (append_tasks tasks) = 11 * Z.of_nat (length tasks).
Proof.
  unfold append_tasks. case_match eqn:E; [done|]. rewrite <- E, !count_binds_app.
  rewrite count_binds_bind. cbv [count_binds]; simpl. lia.
Qed.

Lemma persist_query_binds tasks sw :
  count_binds (persist_query tasks sw)
  = EVENT_BINDS + TASK_BINDS * Z.of_nat (length tasks) + bind_count sw.
Proof.
  unfold persist_query. rewrite !count_binds_app, count_binds_rows.
  rewrite append_tasks_binds. unfold EVENT_BINDS, TASK_BINDS. destruct sw; simpl; cbv [count_binds]; simpl; lia.
Qed.

Lemma validate_bind_count_ok n b :
  0 <= n -> 0 <= b ->
  validate_bind_count n b = Ok tt <-> EVENT_BINDS + TASK_BINDS * n + b < u16_MAX.
Proof.
  unfold validate_bind_count, usize_checked_mul, usize_checked_add, EVENT_BINDS, TASK_BINDS.
  intros Hn Hb. split.
  - destruct (checked _ (n * _)) eqn:E1; simpl; [|done]. apply checked_Some in E1 as [-> _].
    destruct (checked _ (_ + 7)) eqn:E2; simpl; [|done]. apply checked_Some in E2 as [-> _].
    destruct (checked _ (_ + b)) eqn:E3; simpl; [|done]. apply checked_Some in E3 as [-> _].
    case_match eqn:E; intros; simplify_eq. zify_bool. lia.
  - unfold usize_MAX, u16_MAX. intros Hlt.
    rewrite checked_le by lia. simpl. rewrite checked_le by lia. simpl.
    rewrite checked_le by lia. by rewrite (proj2 (Z.ltb_lt _ _)) by lia.
Qed.

Lemma bind_count_nonneg sw : 0 <= bind_count sw.
Proof. by destruct sw. Qed.
#[export] Hint Resolve bind_count_nonneg : ams.

(** Exactly when, and how, one event is planned. *)
Lemma write_plan_single e snapshot tasks sw :
  write_plan_new [e] snapshot tasks = Ok (OneEvent e (se_sequence e) sw) <->
  snapshot_write_new snapshot = Ok sw /\ se_sequence e <= i64_MAX /\
  count_binds (persist_query tasks sw) < u16_MAX.
Proof.
  rewrite persist_query_binds, <- validate_bind_count_ok by (auto with ams; lia). simpl.
  destruct (snapshot_write_new snapshot) as [sw'|]; simpl; [|naive_solver].
  unfold sequence_as_i64. split.
  - destruct (validate_bind_count _ _) as [[]|] eqn:E; simpl; [|done]. case_match; [|done].
    intros [= ->]. zify_bool. auto.
  - intros ([= ->] & Hs & ->). simpl. by rewrite (proj2 (Z.leb_le _ _)).
Qed.

(** ** Atomicity, conflicts and limits *)

Lemma persist_command_effect r l now ty es snapshot d :
  (persist_command r l now ty es snapshot d).2 = d \/
  exists e, es = [e] /\
    committed now ty e (repo_tasks r) snapshot d (persist_command r l now ty es snapshot d).2.
Proof.
  unfold persist_command. destruct (write_plan_new _ _ _) as [[|e sequence sw]|err] eqn:Ep;
    [auto| |auto].
  apply write_plan_one in Ep as (-> & -> & Hsw & _). unfold persist_one.
  destruct (persist_statement _ _ _ _ _ _ _) as [[d' n]|se] eqn:Es; [|by destruct l; auto].
  apply (persist_statement_ok _ _ _ _ snapshot) in Es as [[-> ->]|[-> Hc]]; [| |done];
    destruct l; simpl; eauto.
Qed.

Lemma persist_command_cases (r : Repository) (l : link) (now : Z) (ty : rstr)
    (es : list SerializedEvent) (snapshot : option (rstr * Value * Z)) (d : db) :
  let '(res, d') := persist_command r l now ty es snapshot d in
  let done_ := exists e, es = [e] /\ committed now ty e (repo_tasks r) snapshot d d' in
  (d' = d \/ done_) /\
  (res = Ok tt -> done_ \/ es = [] /\ snapshot = None /\ repo_tasks r = [] /\ d' = d) /\
  (res <> Ok tt -> d' = d \/ exists e, l = LosesReply e /\ res = Err (map_sqlx_error e) /\ done_).
Proof.
  unfold persist_command. destruct (write_plan_new _ _ _) as [[|e sequence sw]|err] eqn:Ep.
  - apply write_plan_noop in Ep as (-> & -> & ->). split_and!; auto.
  - apply write_plan_one in Ep as (-> & -> & Hsw & _). unfold persist_one.
    destruct (persist_statement _ _ _ _ _ _ _) as [[d' n]|se] eqn:Es.
    + apply (persist_statement_ok _ _ _ _ snapshot) in Es as [[-> ->]|[-> Hc]]; [| |done];
        destruct l; simpl; naive_solver.
    + destruct l; naive_solver.
  - naive_solver.
Qed.

(** C20: a command write is all or nothing whatever happens to the connection:
    afterwards the tables are unchanged, or they hold the event, the requested
    snapshot and one pending row for every bound task.  [Ok] means an empty
    write or a committed one; when the reply is not lost, an error means that
    nothing was written. *)
Theorem persist_command_atomic (r : Repository) (l : link) (now : Z) (ty : rstr)
    (es : list SerializedEvent) (snapshot : option (rstr * Value * Z)) (d : db) :
  let '(res, d') := persist_command r l now ty es snapshot d in
  let done_ := exists e, es = [e] /\ committed now ty e (repo_tasks r) snapshot d d' in
  (d' = d \/ done_) /\
  (res = Ok tt -> done_ \/ es = [] /\ snapshot = None /\ repo_tasks r = [] /\ d' = d) /\
  (res <> Ok tt -> d' = d \/ exists e, l = LosesReply e /\ res = Err (map_sqlx_error e) /\ done_).
Proof. exact (persist_command_cases r l now ty es snapshot d). Qed.

Lemma insert_snapshot_error ty sequence id p v d e :
  0 <= sequence -> 0 <= v -> insert_snapshot ty sequence id p v d = Err e ->
  map_sqlx_error e = OptimisticLockError.
Proof.
  unfold insert_snapshot. intros. case_match eqn:E.
  { apply orb_true_iff in E as [?|?]; zify_bool; lia. }
  case_match; by simplify_eq.
Qed.

Lemma update_snapshot_error ty sequence id p v d e :
  0 <= sequence -> 0 <= v -> update_snapshot ty sequence id p v d = Err e ->
  map_sqlx_error e = OptimisticLockError.
Proof.
  unfold update_snapshot. intros. case_match; [done|]. case_match; [|by simplify_eq].
  case_match eqn:E; [apply orb_true_iff in E as [?|?]; zify_bool; lia|].
  case_match; by simplify_eq.
Qed.

(** Versions and sequences are [usize] values. *)
Definition usize_write (e : SerializedEvent) (snapshot : option (rstr * Value * Z)) : Prop :=
  0 <= se_sequence e /\ match snapshot with Some (_, _, v) => 0 <= v | None => True end.

Lemma write_snapshot_error ty sequence snapshot sw d e :
  0 <= sequence -> match snapshot with Some (_, _, v) => 0 <= v | None => True end ->
  snapshot_write_new snapshot = Ok sw ->
  write_snapshot ty sequence sw d = Err e -> map_sqlx_error e = OptimisticLockError.
Proof.
  intros Hs Hv Hsw. destruct snapshot as [[[id p] v]|]; simplify_eq/=; [|done].
  destruct (sequence_as_i64 v) as [m|] eqn:Ev; simplify_eq/=.
  apply sequence_as_i64_ok in Ev as [-> _]. case_match; simpl.
  - destruct (insert_snapshot _ _ _ _ _ _) eqn:E; intros; simplify_eq/=.
    by apply (insert_snapshot_error ty sequence id p v d).
  - by apply update_snapshot_error.
Qed.

(** A taken stream position fails the whole statement as a conflict. *)
Lemma persist_one_taken now ty tasks e snapshot sw d :
  usize_write e snapshot -> snapshot_write_new snapshot = Ok sw ->
  is_Some (events d !! (ty, se_aggregate_id e, se_sequence e)) ->
  persist_one Healthy now ty tasks e (se_sequence e) sw d = (Err OptimisticLockError, d).
Proof.
  intros [Hs Hv] Hsw [row Hk]. unfold persist_one, persist_statement.
 
  destruct (write_snapshot _ _ sw d) as [[d1 c]|er] eqn:E1; simpl.
  - apply write_snapshot_ok in E1 as [[-> ->]|(-> & He & _)]; simpl; [done|].
    unfold insert_event. rewrite (proj2 (Z.ltb_ge _ _)) by lia. by rewrite He, Hk.
  - by rewrite (write_snapshot_error _ _ _ _ _ _ Hs Hv Hsw E1).
Qed.

(** Of two commands that decided on the same stream position, at most one
    is stored: once one write has been acknowledged, any other valid write of
    that aggregate at the same sequence, whatever its snapshot and tasks,
    is reported as an optimistic conflict and changes nothing. *)
Theorem concurrent_write_conflicts (r1 r2 : Repository) (now1 now2 : Z) (ty : rstr)
    (e1 e2 : SerializedEvent) (s1 s2 : option (rstr * Value * Z)) (p2 : WritePlan) (d d1 : db) :
  persist_command r1 Healthy now1 ty [e1] s1 d = (Ok tt, d1) ->
  se_aggregate_id e1 = se_aggregate_id e2 -> se_sequence e1 = se_sequence e2 ->
  usize_write e2 s2 -> write_plan_new [e2] s2 (repo_tasks r2) = Ok p2 ->
  persist_command r2 Healthy now2 ty [e2] s2 d1 = (Err OptimisticLockError, d1).
Proof.
  intros H1 Hid Hseq Hu Hp2.
  assert (Hk : is_Some (events d1 !! (ty, se_aggregate_id e2, se_sequence e2))).
  { unfold persist_command in H1.
    destruct (write_plan_new _ _ _) as [[|e sequence sw]|err] eqn:Ep; [by apply write_plan_noop in Ep as [? _]| |done].
    apply write_plan_one in Ep as ([= <-] & -> & Hsw & _). unfold persist_one in H1.
    destruct (persist_statement _ _ _ _ _ _ _) as [[d' n]|] eqn:Es; simplify_eq/=.
    apply (persist_statement_ok _ _ _ _ s1) in Es as [[-> ->]|[-> (Hnone & He & _)]]; [done| |done].
    simplify_eq. rewrite He, <- Hid, <- Hseq, lookup_insert_eq. by eexists. }
  unfold persist_command. rewrite Hp2. destruct p2 as [|e sequence sw].
  - by apply write_plan_noop in Hp2 as [? _].
  - apply write_plan_one in Hp2 as ([= <-] & -> & Hsw & _). by apply (persist_one_taken _ _ _ _ s2).
Qed.

(** The write plan accepts exactly the writes one statement can carry: a
    single event, with any snapshot and tasks, whose sequence and snapshot
    version fit a [bigint] and whose statement binds fewer than 65535
    parameters; or nothing at all.  The bound is on the statement that is
    really built. *)
Theorem write_plan_accepts_exactly (es : list SerializedEvent)
    (snapshot : option (rstr * Value * Z)) (tasks : list NewTask) :
  is_ok (write_plan_new es snapshot tasks) = true <->
  (es = [] /\ snapshot = None /\ tasks = []) \/
  (exists e sw, es = [e] /\ snapshot_write_new snapshot = Ok sw /\ se_sequence e <= i64_MAX /\
     count_binds (persist_query tasks sw) < u16_MAX).
Proof.
  split.
  - destruct (write_plan_new _ _ _) as [[|e sequence sw]|] eqn:Ep; [| |done]; intros _.
    + left. by apply write_plan_noop.
    + right. pose proof (write_plan_one _ _ _ _ _ _ Ep) as (-> & -> & _).
      apply write_plan_single in Ep as (? & ? & ?). eauto 10.
  - intros [(-> & -> & ->)|(e & sw & -> & Hsw)]; [done|].
    by rewrite (proj2 (write_plan_single e snapshot tasks sw) Hsw).
Qed.

(** Storing tasks keeps the outbox constraints. *)
Lemma committed_outbox_ok now ty e tasks snapshot d d' :
  committed now ty e tasks snapshot d d' -> outbox_ok d -> outbox_ok d'.
Proof.
  intros (_ & _ & _ & Hin & Hout & _) Hok i row Hi.
  destruct (decide (i ∈ (nt_id <$> tasks))) as [Ht|Ht].
  - apply list_elem_of_fmap in Ht as (t & -> & Ht). destruct (Hin t Ht) as (_ & ? & Hrow).
    rewrite Hrow in Hi. by simplify_eq.
  - rewrite Hout in Hi by done. by apply (Hok i).
Qed.

(** Publication succeeds and is durable: a command whose tasks were built
    by the task constructors, with fresh distinct IDs, whose stream position
    is free, whose times PostgreSQL can represent and which needs no snapshot, is
    acknowledged; its event and every
    task are stored, each task pending, unlocked, with no attempt spent, and
    available at its scheduled time, and the outbox constraints still hold. *)
Theorem publication_succeeds (r : Repository) (now : Z) (ty : rstr) (e : SerializedEvent) (d : db) :
  Forall built (repo_tasks r) ->
  NoDup (nt_id <$> repo_tasks r) ->
  Forall (fun t => outbox d !! nt_id t = None) (repo_tasks r) ->
  Forall (fun t => timestamp_in_range (available_at now (nt_schedule t)) = true) (repo_tasks r) ->
  events d !! (ty, se_aggregate_id e, se_sequence e) = None ->
  0 < se_sequence e <= i64_MAX ->
  EVENT_BINDS + TASK_BINDS * Z.of_nat (length (repo_tasks r)) < u16_MAX ->
  outbox_ok d ->
  exists d', persist_command r Healthy now ty [e] None d = (Ok tt, d') /\
    committed now ty e (repo_tasks r) None d d' /\ outbox_ok d'.
Proof.
  intros Hb Hn Hfresh Hts Hfree Hseq Hbinds Hok.
  assert (Hv : Forall new_task_valid (repo_tasks r)).
  { apply (Forall_impl _ _ _ Hb). apply built_valid. }
  assert (Hp : write_plan_new [e] None (repo_tasks r) = Ok (OneEvent e (se_sequence e) NoSnapshot)).
  { apply write_plan_single. rewrite persist_query_binds. split_and!; [done|lia|].
    change (bind_count NoSnapshot) with 0. lia. }
  destruct (insert_tasks_succeeds now ty (se_aggregate_id e) (se_sequence e) (repo_tasks r)
    (mk_db (<[(ty, se_aggregate_id e, se_sequence e) :=
           {| er_event_type := se_event_type e; er_event_version := se_event_version e;
              er_payload := se_payload e; er_metadata := se_metadata e |}]> (events d))
      (snapshots d) (outbox d))) as [d' Hd'].
  { done. }
  { rewrite Forall_forall in Hfresh, Hts, Hv |- *. intros t Ht. split_and!; [by apply Hfresh|by apply Hts|].
    apply task_row_check; [by apply Hv|lia]. }
  assert (Hs : persist_statement now ty (repo_tasks r) e (se_sequence e) NoSnapshot d = Ok (d', 1)).
  { unfold persist_statement, insert_event; simpl. rewrite (proj2 (Z.ltb_ge _ _)) by lia.
    rewrite Hfree. simpl. by rewrite Hd'. }
  pose proof (persist_statement_ok _ _ _ _ None _ _ _ _ eq_refl Hs) as [[? _]|[_ Hc]]; [done|].
  exists d'. split_and!; [|done|by eapply committed_outbox_ok].
  unfold persist_command. rewrite Hp. unfold persist_one. by rewrite Hs.
Qed.

(** ** Examples *)

Definition ex_event (id : rstr) (sequence : Z) : SerializedEvent := {|
  se_aggregate_id := id; se_sequence := sequence; se_event_type := §"recorded";
  se_event_version := §"1"; se_payload := JObject []; se_metadata := JObject []; |}.
Definition ex_task (id : Uuid) : NewTask := {|
  nt_id := id; nt_format := mk_TaskFormat (§"test") 1; nt_payload := JObject [];
  nt_metadata := JObject []; nt_schedule := Now; nt_max_attempts := 10; |}.
Definition empty_db : db := mk_db ∅ ∅ ∅.

Lemma ex_task_built id : built (ex_task id).
Proof. by apply (built_payload id (mk_TaskFormat (§"test") 1) (JObject [])). Qed.

Definition ex_repo : Repository := with_outbox repository_new [ex_task 1; ex_task 2].

Lemma publication_succeeds_witness :
  exists d', persist_command ex_repo Healthy 0 (§"test") [ex_event (§"a") 1] None empty_db
             = (Ok tt, d') /\ committed 0 (§"test") (ex_event (§"a") 1) (repo_tasks ex_repo) None
                                empty_db d' /\ outbox_ok d'.
Proof.
  apply (publication_succeeds ex_repo 0 (§"test") (ex_event (§"a") 1) empty_db).
  - repeat constructor; apply ex_task_built.
  - apply (bool_decide_unpack _). by vm_compute.
  - by repeat constructor.
  - by repeat constructor.
  - done.
  - by vm_compute.
  - by vm_compute.
  - intros i r Hi. done.
Defined.

Lemma concurrent_write_conflicts_witness :
  let d1 := snd (persist_command ex_repo Healthy 0 (§"test") [ex_event (§"a") 1] None empty_db) in
  persist_command repository_new Healthy 5 (§"test") [ex_event (§"a") 1]
    (Some (§"a", JObject [], 1)) d1 = (Err OptimisticLockError, d1).
Proof.
  apply (concurrent_write_conflicts ex_repo repository_new 0 5 (§"test") (ex_event (§"a") 1)
    (ex_event (§"a") 1) None (Some (§"a", JObject [], 1))
    (OneEvent (ex_event (§"a") 1) 1 (InsertSnapshot (§"a") (JObject []) 1)) empty_db).
  - by vm_compute.
  - done.
  - done.
  - by vm_compute.
  - by vm_compute.
Defined.
