(* ===== verification/CommandRetry.v ===== *)
(** * Command execution with bounded conflict retry

    [cqrs-runtime/src/command.rs], [command/retry.rs] and
    [command/executor.rs].  The framework of the [cqrs_es] crate is the
    operation that is retried, a function on the state it works on; panics are
    [None]. *)

From S2P Require Import Prelude DomainValues FloatTime Binary64 TaskData.
#[local] Open Scope Z_scope.

(** ** Errors *)

(** [cqrs_es::AggregateError] *)
Inductive AggregateError (D : Type) :=
| UserError (e : D)
| AggregateConflict
| DatabaseConnectionError
| DeserializationError
| UnexpectedError.
Arguments UserError {D} e.
Arguments AggregateConflict {D}.
Arguments DatabaseConnectionError {D}.
Arguments DeserializationError {D}.
Arguments UnexpectedError {D}.

Inductive CommandGatewayError (D : Type) := Domain (e : D) | Conflict | GatewayUnavailable.
Arguments Domain {D} e.
Arguments Conflict {D}.
Arguments GatewayUnavailable {D}.

Definition map_aggregate_error {D} (error : AggregateError D) : CommandGatewayError D :=
  match error with
  | UserError error => Domain error
  | AggregateConflict => Conflict
  | DatabaseConnectionError | DeserializationError | UnexpectedError => GatewayUnavailable
  end.

(** The category [log_aggregate_error] reports, if any. *)
Definition log_aggregate_error {D} (error : AggregateError D) : option rstr :=
  match error with
  | DatabaseConnectionError => Some (§"connection")
  | DeserializationError => Some (§"deserialization")
  | UnexpectedError => Some (§"unexpected")
  | UserError _ | AggregateConflict => None
  end.

Definition is_conflict {T D} (r : result (AggregateError D) T) : bool :=
  match r with Err AggregateConflict => true | _ => false end.

(** ** The policy *)

Inductive AggregateConflictRetryPolicyError := InvalidAttemptLimit_ | InvalidBackoff | InvalidJitter.

Record AggregateConflictRetryPolicy := {
  max_attempts : Z;
  initial_backoff : Duration.t;
  max_backoff : Duration.t;
  jitter_ratio : Q;
}.

(** [AggregateConflictRetryPolicy::new] *)
Definition policy_new (max_attempts : Z) (initial_backoff max_backoff : Duration.t)
    (jitter_ratio : f64) : result AggregateConflictRetryPolicyError AggregateConflictRetryPolicy :=
  if max_attempts =? 0 then Err InvalidAttemptLimit_
  else if (max_backoff <? initial_backoff) || (i64_MAX <? Duration.as_millis max_backoff)
  then Err InvalidBackoff
  else match jitter_ratio with
  | NotFinite => Err InvalidJitter
  | Finite j =>
    if negb (Qle_bool 0 j && Qle_bool j 1) then Err InvalidJitter
    else Ok {| max_attempts := max_attempts; initial_backoff := initial_backoff;
               max_backoff := max_backoff; jitter_ratio := j |}
  end.

(** [2_u32.checked_pow] *)
Definition u32_pow2 (exponent : Z) : option Z :=
  if 32 <=? exponent then None else checked u32_MAX (2 ^ exponent).

Section Policy.
Context `{F64Rounding}.

Definition backoff_bounds (self : AggregateConflictRetryPolicy) (retry : Z) :
    option (Duration.t * Duration.t) :=
  let exponent := default u32_MAX (checked u32_MAX (retry - 1)) in
  let multiplier := default u32_MAX (u32_pow2 exponent) in
  let backoff := Z.min (Duration.saturating_mul (initial_backoff self) multiplier) (max_backoff self) in
  l ← mul_f64 backoff (rnd (1 - jitter_ratio self));
  u ← mul_f64 backoff (rnd (1 + jitter_ratio self));
  Some (Z.min l backoff, Z.max (Z.min u (max_backoff self)) backoff).

(** [rand::random_range(lo..=hi)] panics on an empty range; otherwise it is
    the draw, which lies in the range. *)
Definition random_range (draw : Q -> Q -> Q) (lo hi : Q) : option Q :=
  if Qle_bool lo hi then Some (draw lo hi) else None.

Definition backoff (self : AggregateConflictRetryPolicy) (draw : Q -> Q -> Q) (retry : Z) :
    option Duration.t :=
  '(lower, upper) ← backoff_bounds self retry;
  if lower =? upper then Some lower
  else x ← random_range draw (as_secs_f64 lower) (as_secs_f64 upper);
       d ← from_secs_f64 x;
       Some (Z.min (Z.max d lower) upper).

(** [Default]: the ratio is the [f64] literal 0.2. *)
Definition policy_default : result AggregateConflictRetryPolicyError AggregateConflictRetryPolicy :=
  policy_new 3 (Duration.from_millis 5) (Duration.from_millis 50) (Finite (rnd (2 # 10))).

(** ** The loop

    [operation] runs on the state [S] and may panic, which ends the loop; [draws]
    gives each retry's randomness.  The slept delays are returned with the result. *)
Section Loop.
Context {S T D : Type} (policy : AggregateConflictRetryPolicy) (draws : Z -> Q -> Q -> Q)
  (operation : S -> option (result (AggregateError D) T) * S).

Fixpoint retry_loop (remaining : nat) (attempt : Z) (s : S) :
    option (result (AggregateError D) T * list Duration.t) * S :=
  match remaining with
  | O => (None, s)
  | Datatypes.S remaining =>
    and_then (operation s) (fun r s =>
    if is_conflict r && (attempt <? max_attempts policy) then
      and_then (backoff policy (draws attempt) attempt, s) (fun delay s =>
      map_answer (fun '(r, delays) => (r, delay :: delays)) (retry_loop remaining (attempt + 1) s))
    else (Some (r, []), s))
  end.

Definition retry_on_aggregate_conflict (s : S) :
    option (result (AggregateError D) T * list Duration.t) * S :=
  retry_loop (Z.to_nat (max_attempts policy)) 1 s.
End Loop.

(** ** The executor

    [framework] is what [build_framework] returns for the task list: the
    command execution of [cqrs_es]. *)
Definition execute {S C D : Type} (policy : AggregateConflictRetryPolicy)
    (draws : Z -> Q -> Q -> Q)
    (build_framework : list NewTask -> rstr -> C -> S -> option (result (AggregateError D) unit) * S)
    (aggregate_id : rstr) (command : C) (tasks : list NewTask) (s : S) :
    option (result (CommandGatewayError D) unit * list Duration.t) * S :=
  let framework := build_framework tasks in
  map_answer (fun '(r, delays) => (map_err map_aggregate_error r, delays))
    (retry_on_aggregate_conflict policy draws (framework aggregate_id command) s).
End Policy.

(** ** Lemmas *)

(** What the constructor guarantees. *)
Definition policy_ok (p : AggregateConflictRetryPolicy) : Prop :=
  1 <= max_attempts p <= usize_MAX /\
  0 <= initial_backoff p <= max_backoff p /\
  (0 <= jitter_ratio p <= 1)%Q /\ Duration.as_millis (max_backoff p) <= i64_MAX.

Lemma policy_new_ok n i m j p :
  0 <= n <= usize_MAX -> 0 <= i -> policy_new n i m j = Ok p -> policy_ok p.
Proof.
  intros Hn Hi. unfold policy_new, policy_ok. case_match eqn:E1; [done|].
  case_match eqn:E2; [done|]. destruct j as [q|]; [|done]. case_match eqn:E3; [done|].
  intros [= <-]; simpl. apply negb_false_iff, andb_true_iff in E3 as [H1%Qle_bool_iff H2%Qle_bool_iff].
  zify_bool. split_and!; auto; lia.
Qed.

Lemma u32_pow2_bounds e : 0 <= e -> 1 <= default u32_MAX (u32_pow2 e) <= u32_MAX.
Proof.
  intros He. unfold u32_pow2. destruct (Z.leb_spec 32 e); simpl; [done|].
  assert (1 <= 2 ^ e <= 2 ^ 31).
  { split; [apply (Z.pow_le_mono_r 2 0 e); lia|apply Z.pow_le_mono_r; lia]. }
  rewrite checked_le by (unfold u32_MAX; lia). simpl. unfold u32_MAX. lia.
Qed.

(** A delay whose milliseconds fit [i64] has less than [2^54] seconds. *)
Lemma representable_secs d m :
  0 <= d <= m -> Duration.as_millis m <= i64_MAX -> d / NANOS_PER_SEC <= 2 ^ 54.
Proof.
  unfold Duration.as_millis, NANOS_PER_MILLI, NANOS_PER_SEC, i64_MAX. intros Hd Hm.
  Z.to_euclidean_division_equations. lia.
Qed.

Section Bounds.
Context `{F64Laws}.

(** The bounds are ordered, below the configured maximum, and around the
    exponential delay. *)
Lemma backoff_bounds_ordered p retry :
  policy_ok p -> 1 <= retry ->
  exists lo hi, backoff_bounds p retry = Some (lo, hi) /\ 0 <= lo <= hi /\ hi <= max_backoff p.
Proof.
  intros (_ & Hi & Hj & Hmax) Hr. unfold backoff_bounds.
  set (e := default u32_MAX (checked u32_MAX (retry - 1))).
  assert (He : 0 <= e).
  { unfold e, checked. case_match; simpl; [lia|]. by unfold u32_MAX. }
  pose proof (u32_pow2_bounds e He) as Hp. set (k := default u32_MAX (u32_pow2 e)) in *.
  set (b := Z.min (Duration.saturating_mul (initial_backoff p) k) (max_backoff p)).
  assert (Hb : 0 <= b <= max_backoff p).
  { unfold b, Duration.saturating_mul, DURATION_MAX, u64_MAX, NANOS_PER_SEC. nia. }
  assert (Hbs : b / NANOS_PER_SEC <= 2 ^ 54) by (by apply (representable_secs b (max_backoff p))).
  assert (Hr1 : (0 <= rnd (1 - jitter_ratio p) <= 3)%Q).
  { assert (H0' : (0 <= 1 - jitter_ratio p)%Q) by lra.
    pose proof (rnd_upper_delta _ H0'). unfold delta in *. split; [by apply rnd_nonneg|lra]. }
  assert (Hr2 : (0 <= rnd (1 + jitter_ratio p) <= 3)%Q).
  { assert (H0' : (0 <= 1 + jitter_ratio p)%Q) by lra.
    pose proof (rnd_upper_delta _ H0'). unfold delta in *. split; [by apply rnd_nonneg|lra]. }
  destruct (mul_f64_total b _ (proj1 Hb) Hbs Hr1) as (l & -> & Hl).
  destruct (mul_f64_total b _ (proj1 Hb) Hbs Hr2) as (u & -> & Hu). simpl.
  eexists _, _. split; [done|]. lia.
Qed.

(** Drawing never panics and stays within the bounds. *)
Lemma backoff_total p draw retry :
  policy_ok p -> 1 <= retry ->
  (forall lo hi, lo <= hi -> lo <= draw lo hi <= hi)%Q ->
  exists d, backoff p draw retry = Some d /\ 0 <= d <= max_backoff p.
Proof.
  intros Hp Hr Hd. destruct (backoff_bounds_ordered p retry Hp Hr) as (lo & hi & E & Hlo & Hhi).
  unfold backoff. rewrite E. simpl. destruct (lo =? hi) eqn:Eq.
  { exists lo. split; [done|lia]. }
  destruct Hp as (_ & _ & _ & Hmax).
  assert (Hs : hi / NANOS_PER_SEC <= 2 ^ 54) by (apply (representable_secs hi (max_backoff p)); lia).
  pose proof (as_secs_f64_mono lo hi Hlo) as Hm.
  unfold random_range. rewrite (proj2 (Qle_bool_iff _ _) Hm). simpl.
  specialize (Hd _ _ Hm).
  pose proof (as_secs_f64_nonneg lo (proj1 Hlo)) as Hn.
  pose proof (as_secs_f64_upper hi ltac:(lia) Hs) as Hu.
  destruct (from_secs_f64_total (draw (as_secs_f64 lo) (as_secs_f64 hi))) as (d & Ed & Hd0).
  { split; [lra|]. change (inject_Z (2 ^ 55)) with (36028797018963968 # 1) in Hu.
    change (inject_Z (2 ^ 60)) with (1152921504606846976 # 1). lra. }
  rewrite Ed. simpl. eexists. split; [done|]. lia.
Qed.
End Bounds.

(** ** Properties of the loop *)

(** The first [k] runs of the operation, in order: states and results. *)
Inductive runs {S R} (operation : S -> R * S) : S -> list R -> S -> Prop :=
| runs_nil s : runs operation s [] s
| runs_cons s r s1 rs s2 :
  operation s = (r, s1) -> runs operation s1 rs s2 -> runs operation s (r :: rs) s2.

Section LoopProperties.
Context `{F64Laws} {S T D : Type}.
Implicit Type operation : S -> option (result (AggregateError D) T) * S.

(** A run that answered with a conflict. *)
Definition conflicted (r : option (result (AggregateError D) T)) : bool :=
  match r with Some r => is_conflict r | None => false end.

Lemma retry_loop_spec p draws operation n attempt s :
  policy_ok p -> 1 <= attempt -> attempt + Z.of_nat n = max_attempts p + 1 -> (0 < n)%nat ->
  (forall k lo hi, lo <= hi -> lo <= draws k lo hi <= hi)%Q ->
  exists rs r s' delays,
    retry_loop p draws operation n attempt s = ((fun r => (r, delays)) <$> r, s') /\
    runs operation s (rs ++ [r]) s' /\
    Forall (fun r => conflicted r = true) rs /\ (length rs < n)%nat /\
    (conflicted r = true -> length rs = (n - 1)%nat) /\
    length delays = length rs /\ Forall (fun d => 0 <= d <= max_backoff p) delays.
Proof.
  intros Hp. revert attempt s. induction n as [|n IH]; intros attempt s Ha Hn H0' Hd; [lia|].
  simpl. destruct (operation s) as [[r|] s1] eqn:Eo; cbn [and_then].
  2: { exists [], None, s1, []. simpl. split_and!; [done| |constructor|lia|done|done|constructor].
       econstructor; [done|constructor]. }
  destruct (is_conflict r && (attempt <? max_attempts p)) eqn:E.
  - apply andb_true_iff in E as [Er Elt]. zify_bool.
    destruct (backoff_total p (draws attempt) attempt Hp Ha (Hd attempt)) as (d & -> & Hdb).
    destruct (IH (attempt + 1) s1) as (rs & r' & s' & ds & Eq & Hr & Hc & Hl & He & Hds & Hf);
      [lia|lia|lia|done|]. cbn [and_then]. rewrite Eq.
    exists (Some r :: rs), r', s', (d :: ds). simpl. split_and!; [by destruct r'| | |lia| | |].
    + by econstructor.
    + by constructor.
    + intros Hr'. specialize (He Hr'). lia.
    + lia.
    + by constructor.
  - exists [], (Some r), s1, []. simpl. split_and!; [done| |constructor|lia| |done|constructor].
    + econstructor; [done|constructor].
    + intros Hc. rewrite Hc in E. simpl in E. zify_bool. lia.
Qed.

(** C28: conflict retry always ends, and panics only when the operation does: it runs
    the unchanged operation at most [max_attempts] times, stops at the first result
    that is not an optimistic conflict and reports exactly that result and
    state; a conflict is reported only after the last attempt.  Before each
    repetition it sleeps once, at most the configured maximum. *)
Theorem conflict_retry_is_bounded (p : AggregateConflictRetryPolicy)
    (draws : Z -> Q -> Q -> Q) operation (s : S) :
  policy_ok p ->
  (forall k lo hi, lo <= hi -> lo <= draws k lo hi <= hi)%Q ->
  exists rs r s' delays,
    retry_on_aggregate_conflict p draws operation s = ((fun r => (r, delays)) <$> r, s') /\
    runs operation s (rs ++ [r]) s' /\
    Forall (fun r => conflicted r = true) rs /\
    Z.of_nat (length (rs ++ [r])) <= max_attempts p /\
    (conflicted r = true -> Z.of_nat (length (rs ++ [r])) = max_attempts p) /\
    length delays = length rs /\ Forall (fun d => 0 <= d <= max_backoff p) delays.
Proof.
  intros Hp Hd. pose proof Hp as [Hm _].
  destruct (retry_loop_spec p draws operation (Z.to_nat (max_attempts p)) 1 s)
    as (rs & r & s' & ds & E & Hr & Hc & Hl & He & Hds & Hf); [done|lia|lia|lia|done|].
  exists rs, r, s', ds. rewrite length_app. simpl. split_and!; try done; [lia|].
  intros Hc'. specialize (He Hc'). lia.
Qed.
End LoopProperties.

(** The reported command outcome is faithful: executing a command returns
    success exactly when the last run of the framework did, a domain error
    exactly when that run rejected the command with it, a conflict only when
    every allowed run conflicted, and panics exactly when that run did; storage
    failures, whose commit outcome is unknown, are never repeated. *)
Theorem command_outcome_is_faithful `{F64Laws} {S C D : Type} (p : AggregateConflictRetryPolicy)
    (draws : Z -> Q -> Q -> Q)
    (build : list NewTask -> rstr -> C -> S -> option (result (AggregateError D) unit) * S)
    (aggregate_id : rstr) (c : C) (tasks : list NewTask) (s : S) :
  policy_ok p ->
  (forall k lo hi, lo <= hi -> lo <= draws k lo hi <= hi)%Q ->
  exists rs r s' delays,
    execute p draws build aggregate_id c tasks s
      = ((fun r => (map_err map_aggregate_error r, delays)) <$> r, s') /\
    runs (build tasks aggregate_id c) s (rs ++ [r]) s' /\
    Forall (fun r => r = Some (Err AggregateConflict)) rs /\
    (map_err map_aggregate_error <$> r = Some (Ok tt) <-> r = Some (Ok tt)) /\
    (forall e, map_err map_aggregate_error <$> r = Some (Err (Domain e)) <-> r = Some (Err (UserError e))) /\
    (map_err map_aggregate_error <$> r = Some (Err Conflict) ->
       r = Some (Err AggregateConflict) /\ Z.of_nat (length rs) + 1 = max_attempts p).
Proof.
  intros Hp Hd. pose proof Hp as [Hm _].
  destruct (retry_loop_spec p draws (build tasks aggregate_id c) (Z.to_nat (max_attempts p)) 1 s)
    as (rs & r & s' & ds & E & Hr & Hc & Hl & He & Hds & Hf); [done|lia|lia|lia|done|].
  exists rs, r, s', ds. unfold execute, retry_on_aggregate_conflict. rewrite E.
  split_and!; [by destruct r|done| | | |].
  - apply (Forall_impl _ _ _ Hc). intros [[|[]]|]; by simpl.
  - by destruct r as [[[]|[]]|].
  - intros e. destruct r as [[[]|[]]|]; naive_solver.
  - intros Hr'. assert (r = Some (Err AggregateConflict)) as -> by by destruct r as [[[]|[]]|].
    split; [done|]. specialize (He eq_refl). lia.
Qed.

(** ** Examples: the default policy over a framework that conflicts [n] times *)

Definition ex_policy : AggregateConflictRetryPolicy := {|
  max_attempts := 3; initial_backoff := Duration.from_millis 5;
  max_backoff := Duration.from_millis 50; jitter_ratio := 2 # 10 |}.
Definition ex_draws (k : Z) (lo hi : Q) : Q := hi.
Definition ex_operation (n : nat) : option (result (AggregateError unit) unit) * nat :=
  match n with O => (Some (Ok tt), O) | Datatypes.S n => (Some (Err AggregateConflict), n) end.

Lemma ex_policy_ok : policy_ok ex_policy.
Proof.
  apply (policy_new_ok 3 (Duration.from_millis 5) (Duration.from_millis 50) (Finite (2 # 10)));
    by vm_compute.
Qed.

Lemma ex_draws_ok k lo hi : (lo <= hi -> lo <= ex_draws k lo hi <= hi)%Q.
Proof. unfold ex_draws. intros. split; lra. Qed.

(** Two conflicts and then success, with the longest delays of 6 and 12 ms;
    a third conflict is reported. *)
Lemma conflict_retry_is_bounded_witness :
  (exists delays, @retry_on_aggregate_conflict binary64 nat unit unit ex_policy ex_draws
     ex_operation 2%nat = (Some (Ok tt, delays), O) /\
     delays = [Duration.from_millis 6; Duration.from_millis 12]) /\
  (exists rs r s' delays, @retry_on_aggregate_conflict binary64 nat unit unit ex_policy
     ex_draws ex_operation 3%nat = ((fun r => (r, delays)) <$> r, s') /\ runs ex_operation 3%nat (rs ++ [r]) s').
Proof.
  split; [eexists; split; vm_compute; reflexivity|].
  destruct (@conflict_retry_is_bounded binary64 binary64_laws nat unit unit ex_policy ex_draws
    ex_operation 3%nat ex_policy_ok ex_draws_ok) as (rs & r & s' & ds & E & Hr & _).
  exists rs, r, s', ds. split; [exact E|exact Hr].
Defined.

Lemma command_outcome_is_faithful_witness :
  exists rs r s' delays,
    @execute binary64 nat unit unit ex_policy ex_draws (fun _ _ _ => ex_operation) (§"a") tt [] 5%nat
      = ((fun r => (map_err map_aggregate_error r, delays)) <$> r, s') /\
    Forall (fun r : option (result (AggregateError unit) unit) => r = Some (Err AggregateConflict)) rs.
Proof.
  destruct (@command_outcome_is_faithful binary64 binary64_laws nat unit unit ex_policy ex_draws
    (fun _ _ _ => ex_operation) (§"a") tt [] 5%nat ex_policy_ok ex_draws_ok)
    as (rs & r & s' & ds & E & _ & Hf & _).
  exists rs, r, s', ds. split; [exact E|exact Hf].
Defined.
