(* ===== verification/TaskQueue.v ===== *)
(** * The PostgreSQL task queue

    [cqrs-runtime/src/postgres/task_queue]: claiming, settling and recovering
    tasks as transactions over the outbox table, and the operator's restart
    statement [sql/requeue-failed-outbox.sql].

    Clock readings, generated tokens, locks held by other sessions and
    faults of the connection are inputs of each transaction.  [RETURNING]
    lists rows in no particular order; here it is the order of selection. *)

From S2P Require Import Prelude DomainValues FloatTime Binary64 TaskData Database EventRepository.
From stdpp Require Import sorting.
#[local] Open Scope Z_scope.

(** ** Transactions *)

(** Where a transaction's connection fails, if it does; [CommitUnknown] is a
    commit that took effect and whose reply was lost. *)
Inductive tx_fault := NoFault | BeginFails | StatementFails | CommitFails | CommitUnknown.

Definition storage_error : TaskProcessingError := Unavailable.

(** [begin_queue_transaction] *)
Definition begin_queue_transaction (f : tx_fault) : result TaskProcessingError unit :=
  match f with BeginFails => Err storage_error | _ => Ok tt end.

(** Run a transaction body between begin and commit: an error rolls back. *)
Definition in_transaction {A} (f : tx_fault) (d : db)
    (body : result TaskProcessingError (A * db)) : result TaskProcessingError A * db :=
  match begin_queue_transaction f, body with
  | Err e, _ => (Err e, d)
  | Ok _, Err e => (Err e, d)
  | Ok _, Ok (a, d') =>
    match f with
    | CommitFails => (Err storage_error, d)
    | CommitUnknown => (Err storage_error, d')
    | _ => (Ok a, d')
    end
  end.

(** A statement on the connection. *)
Definition statement (f : tx_fault) : result TaskProcessingError unit :=
  match f with StatementFails => Err storage_error | _ => Ok tt end.

(** The conversion to [f64] is exact below [2^53] ms. *)
Definition milliseconds (duration : Duration.t) (invalid : QueueRequestError) :
    result TaskProcessingError Z :=
  if Duration.as_millis duration <=? i64_MAX then Ok (Duration.as_millis duration)
  else Err (InvalidRequest invalid).

Definition i64_limit (limit : Z) : result TaskProcessingError Z :=
  if limit <=? i64_MAX then Ok limit else Err (InvalidRequest InvalidLimit).

(** A computed [timestamptz]: PostgreSQL refuses one out of its range. *)
Definition timestamp (t : Z) : result TaskProcessingError Z :=
  if t <? TIMESTAMP_END then Ok t else Err storage_error.

(** An UPDATE of one row: the new row must satisfy the constraints. *)
Definition update_row (o : gmap Uuid outbox_row) (id : Uuid) (r : outbox_row) :
    result TaskProcessingError (gmap Uuid outbox_row) :=
  if outbox_check r then Ok (<[id := r]> o) else Err storage_error.

(** [ORDER BY t, id LIMIT n FOR UPDATE SKIP LOCKED] over the selected rows. *)
Definition key_le (a b : Z * Uuid) : Prop :=
  a.1 < b.1 \/ a.1 = b.1 /\ (a.2 <= b.2)%N.

#[export] Instance key_le_dec a b : Decision (key_le a b).
Proof. unfold key_le. apply _. Defined.

Definition select_rows (o : gmap Uuid outbox_row) (keep : Uuid -> outbox_row -> bool)
    (key : outbox_row -> Z) : list (Z * Uuid) :=
  merge_sort key_le
    ((fun ir => (key ir.2, ir.1)) <$> filter (fun ir => keep ir.1 ir.2 = true) (map_to_list o)).

Definition select_for_update (o : gmap Uuid outbox_row) (keep : Uuid -> outbox_row -> bool)
    (key : outbox_row -> Z) (limit : Z) : list Uuid :=
  snd <$> take (Z.to_nat limit) (select_rows o keep key).

(** ** Claim *)

Record claim_env := {
  ce_instant : Instant.t;         (* [Instant::now()] before the request *)
  ce_now : Z;                     (* [statement_timestamp()] *)
  ce_clock : Uuid -> Z;           (* [clock_timestamp()] at each row's update *)
  ce_token : Uuid -> Uuid;        (* [gen_random_uuid()] for each row *)
  ce_locked : Uuid -> bool;       (* rows other sessions hold locked *)
  ce_fault : tx_fault;
}.

Definition ready (env : claim_env) (format : TaskFormat) (id : Uuid) (r : outbox_row) : bool :=
  bool_decide (ob_status r = st_pending)
  && bool_decide (ob_task_type r = task_type format)
  && (ob_task_version r =? task_version format)
  && (ob_available_at r <=? ce_now env) && negb (ce_locked env id).

Definition claimed_row (env : claim_env) (owner : rstr) (lease_ms : Z) (id : Uuid) (r : outbox_row) :
    outbox_row := {|
  ob_aggregate_type := ob_aggregate_type r; ob_aggregate_id := ob_aggregate_id r;
  ob_aggregate_sequence := ob_aggregate_sequence r;
  ob_task_type := ob_task_type r; ob_task_version := ob_task_version r;
  ob_payload := ob_payload r; ob_metadata := ob_metadata r;
  ob_status := st_processing; ob_created_at := ob_created_at r;
  ob_available_at := ob_available_at r; ob_finished_at := ob_finished_at r;
  ob_attempts := ob_attempts r + 1; ob_max_attempts := ob_max_attempts r;
  ob_last_error := ob_last_error r; ob_locked_by := Some owner;
  ob_lock_token := Some (ce_token env id);
  ob_locked_until := Some (ce_clock env id + lease_ms * NANOS_PER_MILLI);
|}.

Record ClaimRow := {
  cr_id : Uuid; cr_payload : Value; cr_metadata : Value; cr_attempts : Z; cr_lock_token : Uuid;
}.

Definition into_claimed_task (self : ClaimRow) (format : TaskFormat) (lease_deadline : Instant.t) :
    result TaskProcessingError LeasedTask :=
  delivery ← map_err (fun _ => InvalidDelivery)
    (attempt_new (cr_id self) format (cr_payload self) (cr_metadata self) (cr_attempts self));
  Ok {| lt_attempt := delivery;
        lt_lease := {| lock_token := cr_lock_token self; lease_deadline := lease_deadline |} |}.

(** The UPDATE of the selected rows, returning them. *)
Fixpoint claim_rows (env : claim_env) (owner : rstr) (lease_ms : Z) (ids : list Uuid)
    (o : gmap Uuid outbox_row) : result TaskProcessingError (list ClaimRow * gmap Uuid outbox_row) :=
  match ids with
  | [] => Ok ([], o)
  | id :: ids =>
    match o !! id with
    | None => claim_rows env owner lease_ms ids o
    | Some r =>
      let r' := claimed_row env owner lease_ms id r in
      _ ← timestamp (ce_clock env id + lease_ms * NANOS_PER_MILLI);
      o ← update_row o id r';
      '(rows, o) ← claim_rows env owner lease_ms ids o;
      Ok ({| cr_id := id; cr_payload := ob_payload r'; cr_metadata := ob_metadata r';
             cr_attempts := ob_attempts r'; cr_lock_token := ce_token env id |} :: rows, o)
    end
  end.

Definition claim (env : claim_env) (format : TaskFormat) (owner : rstr) (limit : Z)
    (lease_duration : Duration.t) (d : db) : result TaskProcessingError (list LeasedTask) * db :=
  if Duration.as_millis lease_duration =? 0 then (Err (InvalidRequest InvalidLeaseDuration), d)
  else match Instant.checked_add (ce_instant env) lease_duration with
  | None => (Err (InvalidRequest InvalidLeaseDuration), d)
  | Some lease_deadline =>
    match i64_limit limit with
    | Err e => (Err e, d)
    | Ok limit =>
      in_transaction (ce_fault env) d (
        lease_ms ← milliseconds lease_duration InvalidLeaseDuration;
        _ ← statement (ce_fault env);
        let ids := select_for_update (outbox d) (ready env format) ob_available_at limit in
        '(rows, o) ← claim_rows env owner lease_ms ids (outbox d);
        tasks ← collect ((fun row => into_claimed_task row format lease_deadline) <$> rows);
        Ok (tasks, set_outbox d o))
    end
  end.

(** ** Settlement *)

Record SettlementParameters := {
  sp_status : status;
  sp_delay : Duration.t;
  sp_last_error : option rstr;
  sp_failure_cause : option TaskFailureCause;
}.

Definition settlement_parameters (request : SettlementRequest) : SettlementParameters :=
  match request with
  | Completed => {| sp_status := st_completed; sp_delay := 0; sp_last_error := None;
                    sp_failure_cause := None |}
  | Retry delay reason => {| sp_status := st_pending; sp_delay := delay;
                             sp_last_error := Some reason;
                             sp_failure_cause := Some AttemptLimitReached |}
  | Failed reason => {| sp_status := st_failed; sp_delay := 0; sp_last_error := Some reason;
                        sp_failure_cause := Some PermanentRejection |}
  end.

Definition settlement_result (delivery : TaskAttempt) (status : option rstr)
    (failure_cause : option TaskFailureCause) : result TaskProcessingError SettlementResult :=
  match status with
  | None => Ok OwnershipLost
  | Some s =>
    if bool_decide (s = §"completed") then Ok SettledCompleted
    else if bool_decide (s = §"pending") then Ok RetryScheduled
    else if bool_decide (s = §"failed") then
      cause ← ok_or InvalidDelivery failure_cause;
      Ok (SettledFailed {| tf_id := at_id delivery; tf_format := at_format delivery;
                           tf_attempt := at_number delivery; tf_cause := cause |})
    else Err InvalidDelivery
  end.

Record settle_env := {
  se_now : Z;         (* [statement_timestamp()] *)
  se_clock : Z;       (* [clock_timestamp()] once the row is locked *)
  se_fault : tx_fault;
}.

(** The CTE [owned] and the outer expiry test. *)
Definition owned (env : settle_env) (token : Uuid) (r : outbox_row) : bool :=
  bool_decide (ob_lock_token r = Some token) && bool_decide (ob_status r = st_processing)
  && match ob_locked_until r with Some until => se_clock env <? until | None => false end.

Definition settled_row (now : Z) (status : status) (delay_ms : Z) (last_error : option rstr)
    (r : outbox_row) : outbox_row :=
  let exhausted := ob_max_attempts r <=? ob_attempts r in
  let retry := bool_decide (status = st_pending) in {|
  ob_aggregate_type := ob_aggregate_type r; ob_aggregate_id := ob_aggregate_id r;
  ob_aggregate_sequence := ob_aggregate_sequence r;
  ob_task_type := ob_task_type r; ob_task_version := ob_task_version r;
  ob_payload := ob_payload r; ob_metadata := ob_metadata r;
  ob_status := if retry && exhausted then st_failed else status;
  ob_created_at := ob_created_at r;
  ob_available_at := if retry && negb exhausted then now + delay_ms * NANOS_PER_MILLI
                     else ob_available_at r;
  ob_finished_at := if negb retry || exhausted then Some now else None;
  ob_attempts := ob_attempts r; ob_max_attempts := ob_max_attempts r;
  ob_last_error := last_error; ob_locked_by := None; ob_lock_token := None;
  ob_locked_until := None;
|}.

Definition settle (env : settle_env) (task : LeasedTask) (request : SettlementRequest) (d : db) :
    result TaskProcessingError SettlementResult * db :=
  let parameters := settlement_parameters request in
  let '(row, d') := in_transaction (se_fault env) d (
    delay_ms ← milliseconds (sp_delay parameters) InvalidRetryDelay;
    _ ← statement (se_fault env);
    let id := at_id (lt_attempt task) in
    match outbox d !! id with
    | Some r =>
      if owned env (lock_token (lt_lease task)) r then
        let r' := settled_row (se_now env) (sp_status parameters) delay_ms
                    (take 2048 <$> sp_last_error parameters) r in
        _ ← (if bool_decide (sp_status parameters = st_pending) && (ob_attempts r <? ob_max_attempts r)
             then timestamp (se_now env + delay_ms * NANOS_PER_MILLI) else Ok (ob_available_at r));
        o ← update_row (outbox d) id r';
        Ok (Some (status_text (ob_status r')), set_outbox d o)
      else Ok (None, d)
    | None => Ok (None, d)
    end) in
  (status ← row; settlement_result (lt_attempt task) status (sp_failure_cause parameters), d').

(** ** Recovery *)

Record recover_env := {
  re_now : Z;                 (* [statement_timestamp()] of the SELECT *)
  re_update : Uuid -> Z;      (* [statement_timestamp()] of each UPDATE *)
  re_jitter : Uuid -> Q;      (* the draw of each [redelivery_backoff] *)
  re_locked : Uuid -> bool;
  re_fault : tx_fault;
}.

Definition expired (env : recover_env) (id : Uuid) (r : outbox_row) : bool :=
  bool_decide (ob_status r = st_processing)
  && match ob_locked_until r with Some until => until <=? re_now env | None => false end
  && negb (re_locked env id).

Definition recovered_row (now delay_ms : Z) (r : outbox_row) : outbox_row :=
  let exhausted := ob_max_attempts r <=? ob_attempts r in {|
  ob_aggregate_type := ob_aggregate_type r; ob_aggregate_id := ob_aggregate_id r;
  ob_aggregate_sequence := ob_aggregate_sequence r;
  ob_task_type := ob_task_type r; ob_task_version := ob_task_version r;
  ob_payload := ob_payload r; ob_metadata := ob_metadata r;
  ob_status := if exhausted then st_failed else st_pending;
  ob_created_at := ob_created_at r;
  ob_available_at := now + delay_ms * NANOS_PER_MILLI;
  ob_finished_at := if exhausted then Some now else None;
  ob_attempts := ob_attempts r; ob_max_attempts := ob_max_attempts r;
  ob_last_error := Some (§"worker lease expired"); ob_locked_by := None; ob_lock_token := None;
  ob_locked_until := None;
|}.

Definition into_failure (id : Uuid) (r : outbox_row) : result TaskProcessingError TaskFailure :=
  format ← map_err (fun _ => InvalidDelivery) (format_new (ob_task_type r) (ob_task_version r));
  Ok {| tf_id := id; tf_format := format; tf_attempt := ob_attempts r; tf_cause := LeaseExpired |}.

Section Recovery.
Context `{F64Rounding}.

(** The loop over the selected rows; [None] is a panic of the backoff. *)
Fixpoint recover_rows (env : recover_env) (ids : list Uuid) (o : gmap Uuid outbox_row) :
    option (result TaskProcessingError (list TaskFailure * gmap Uuid outbox_row)) :=
  match ids with
  | [] => Some (Ok ([], o))
  | id :: ids =>
    match o !! id with
    | None => recover_rows env ids o
    | Some r =>
      delay ← redelivery_backoff (ob_attempts r) (re_jitter env id);
      match (delay_ms ← milliseconds delay InvalidRetryDelay;
             _ ← timestamp (re_update env id + delay_ms * NANOS_PER_MILLI);
             o ← update_row o id (recovered_row (re_update env id) delay_ms r);
             failed ← (if ob_max_attempts r <=? ob_attempts r
                       then f ← into_failure id r; Ok [f] else Ok []);
             Ok (failed, o)) with
      | Err e => Some (Err e)
      | Ok (failed, o) =>
        rest ← recover_rows env ids o;
        Some ('(fs, o) ← rest; Ok (failed ++ fs, o))
      end
    end
  end.

Definition recover_expired (env : recover_env) (limit : Z) (d : db) :
    option (result TaskProcessingError LeaseRecoveryReport * db) :=
  match (_ ← begin_queue_transaction (re_fault env);
         limit ← i64_limit limit; _ ← statement (re_fault env); Ok limit) with
  | Err e => Some (in_transaction (re_fault env) d (Err e))
  | Ok limit =>
    let ids := select_for_update (outbox d) (expired env) (fun r => default 0 (ob_locked_until r)) limit in
    body ← recover_rows env ids (outbox d);
    Some (in_transaction (re_fault env) d (
      '(failed, o) ← body;
      Ok (report_new (Z.of_nat (length ids) - Z.of_nat (length failed)) failed, set_outbox d o)))
  end.
End Recovery.

(** ** Operator restart *)

Definition requeue_failed (now : Z) (id : Uuid) (d : db) : db :=
  match outbox d !! id with
  | Some r =>
    if bool_decide (ob_status r = st_failed) then
      set_outbox d (<[id := {|
        ob_aggregate_type := ob_aggregate_type r; ob_aggregate_id := ob_aggregate_id r;
        ob_aggregate_sequence := ob_aggregate_sequence r;
        ob_task_type := ob_task_type r; ob_task_version := ob_task_version r;
        ob_payload := ob_payload r; ob_metadata := ob_metadata r;
        ob_status := st_pending; ob_created_at := ob_created_at r; ob_available_at := now;
        ob_finished_at := None; ob_attempts := 0; ob_max_attempts := ob_max_attempts r;
        ob_last_error := None; ob_locked_by := None; ob_lock_token := None;
        ob_locked_until := None |}]> (outbox d))
    else d
  | None => d
  end.

(** ** Selection *)

#[export] Instance key_le_total : Total key_le.
Proof. intros [a i] [b j]. unfold key_le; simpl. lia. Qed.
#[export] Instance key_le_trans : Transitive key_le.
Proof. intros [a i] [b j] [c k]. unfold key_le; simpl. lia. Qed.

Lemma select_rows_perm o keep key :
  select_rows o keep key ≡ₚ
  (fun ir => (key ir.2, ir.1)) <$> filter (fun ir => keep ir.1 ir.2 = true) (map_to_list o).
Proof. apply merge_sort_Permutation. Qed.

Lemma elem_of_select_rows o keep key k i :
  (k, i) ∈ select_rows o keep key <->
  exists r, o !! i = Some r /\ keep i r = true /\ k = key r.
Proof.
  rewrite select_rows_perm, list_elem_of_fmap. split.
  - intros ([j r] & [= -> ->] & [Hk Hm]%list_elem_of_filter).
    apply elem_of_map_to_list in Hm. eauto.
  - intros (r & Hr & Hk & ->). exists (i, r). split; [done|].
    by apply list_elem_of_filter; split; [|apply elem_of_map_to_list].
Qed.

Lemma select_rows_NoDup o keep key : NoDup (select_rows o keep key).*2.
Proof.
  rewrite select_rows_perm, <- list_fmap_compose.
  apply (NoDup_fmap_2_strong _); [|apply NoDup_filter, NoDup_map_to_list].
  intros [i r] [j r'] [_ H1]%list_elem_of_filter [_ H2]%list_elem_of_filter; simpl; intros ->.
  apply elem_of_map_to_list in H1, H2. by simplify_eq.
Qed.

Lemma select_NoDup o keep key n : NoDup (select_for_update o keep key n).
Proof.
  unfold select_for_update. eapply sublist_NoDup; [apply select_rows_NoDup|].
  apply fmap_sublist, sublist_take.
Qed.

Lemma select_sound o keep key n i :
  i ∈ select_for_update o keep key n -> exists r, o !! i = Some r /\ keep i r = true.
Proof.
  unfold select_for_update. intros ([k j] & -> & Hin%elem_of_take)%list_elem_of_fmap.
  destruct Hin as (m & Hin & _). apply list_elem_of_lookup_2, elem_of_select_rows in Hin.
  naive_solver.
Qed.

(** A kept row that was left out comes after every selected one, and is left
    out only when the limit is reached. *)
Lemma select_priority o keep key n i r :
  0 <= n -> o !! i = Some r -> keep i r = true -> i ∉ select_for_update o keep key n ->
  Z.of_nat (length (select_for_update o keep key n)) = n /\
  forall j r', j ∈ select_for_update o keep key n -> o !! j = Some r' ->
    key_le (key r', j) (key r, i).
Proof.
  intros Hn Hi Hk. unfold select_for_update. rewrite length_fmap.
  assert (Hin : (key r, i) ∈ select_rows o keep key) by (apply elem_of_select_rows; eauto).
  assert (Hs : StronglySorted key_le (select_rows o keep key)).
  { apply Sorted_StronglySorted; [apply _|apply Sorted_merge_sort; apply _]. }
  rewrite <- (take_drop (Z.to_nat n) (select_rows o keep key)) in Hin, Hs.
  intros Hout. apply elem_of_app in Hin as [Hin|Hin].
  { destruct Hout. apply list_elem_of_fmap. by eexists (_, _). }
  split.
  - rewrite length_take. apply list_elem_of_lookup in Hin as [m Hm].
    apply lookup_lt_Some in Hm. rewrite length_drop in Hm. lia.
  - intros j r' Hj Hr'. apply list_elem_of_fmap in Hj as ([k j'] & -> & Hj).
    assert (Hkj : k = key r').
    { pose proof Hj as Hj'. apply elem_of_take in Hj' as (m & Hm & _).
      apply list_elem_of_lookup_2, elem_of_select_rows in Hm as (r'' & ? & _ & ->). by simplify_eq/=. }
    subst k. simpl. by eapply StronglySorted_app_1_elem_of.
Qed.

(** ** Rows *)

(** Everything about a task that no queue operation changes. *)
Definition same_task (r r' : outbox_row) : Prop :=
  ob_aggregate_type r' = ob_aggregate_type r /\ ob_aggregate_id r' = ob_aggregate_id r /\
  ob_aggregate_sequence r' = ob_aggregate_sequence r /\ ob_task_type r' = ob_task_type r /\
  ob_task_version r' = ob_task_version r /\ ob_payload r' = ob_payload r /\
  ob_metadata r' = ob_metadata r /\ ob_created_at r' = ob_created_at r /\
  ob_max_attempts r' = ob_max_attempts r.

Ltac row_ok :=
  repeat match goal with
  | H : outbox_check _ = true |- _ => apply outbox_check_spec in H
  | |- outbox_check _ = true => apply outbox_check_spec
  end;
  unfold outbox_row_ok, lock_shape in *; simpl in *.

Lemma claimed_row_ok env owner ms id r :
  outbox_check r = true -> ob_status r = st_pending ->
  outbox_check (claimed_row env owner ms id r) = true.
Proof.
  intros Hr Hs. row_ok. rewrite Hs in *.
  destruct Hr as (?&?&?&?&?&?&?&?&?&Hf&Hp). specialize (Hp eq_refl).
  split_and!; try done; try lia; try (by eexists).
  split; [by intros [|]|]. intros Hsome. by apply Hf in Hsome as [|].
Qed.

Lemma settled_row_ok now status ms err r :
  outbox_check r = true -> status <> st_processing ->
  outbox_check (settled_row now status ms err r) = true.
Proof.
  intros Hr Hs. row_ok. destruct Hr as (?&?&?&?&?&?&?&?&?&Hf&Hp).
  destruct (Z.leb_spec (ob_max_attempts r) (ob_attempts r)); case_bool_decide; simpl;
    destruct status; try done; split_and!; try done; try lia; naive_solver.
Qed.

Lemma recovered_row_ok now ms r :
  outbox_check r = true -> outbox_check (recovered_row now ms r) = true.
Proof.
  intros Hr. row_ok. destruct Hr as (?&?&?&?&?&?&?&?&?&Hf&Hp).
  destruct (Z.leb_spec (ob_max_attempts r) (ob_attempts r)); simpl;
    split_and!; try done; try lia; naive_solver.
Qed.
#[export] Hint Resolve claimed_row_ok settled_row_ok recovered_row_ok : ams.

Lemma update_row_ok o id r : outbox_check r = true -> update_row o id r = Ok (<[id := r]> o).
Proof. unfold update_row. by intros ->. Qed.

(** ** What each transaction does *)

Lemma in_transaction_cases {A} f d (body : result TaskProcessingError (A * db)) res d' :
  in_transaction f d body = (res, d') ->
  d' = d /\ is_ok res = false \/ exists a, body = Ok (a, d') /\ (res = Ok a \/ is_ok res = false).
Proof.
  unfold in_transaction. intros H.
  destruct f; simpl in H; repeat case_match; simplify_eq; eauto 10.
Qed.

Definition claim_row_of (env : claim_env) (id : Uuid) (r : outbox_row) : ClaimRow := {|
  cr_id := id; cr_payload := ob_payload r; cr_metadata := ob_metadata r;
  cr_attempts := ob_attempts r + 1; cr_lock_token := ce_token env id |}.

(** The lease of a claim ends within the range of the column. *)
Definition lease_fits (env : claim_env) (ms : Z) (id : Uuid) : Prop :=
  ce_clock env id + ms * NANOS_PER_MILLI < TIMESTAMP_END.

#[export] Instance lease_fits_dec env ms id : Decision (lease_fits env ms id).
Proof. unfold lease_fits. apply _. Defined.

Lemma timestamp_ok t : t < TIMESTAMP_END -> timestamp t = Ok t.
Proof. intros. unfold timestamp. by rewrite (proj2 (Z.ltb_lt _ _)). Qed.
Lemma timestamp_err t : ~ t < TIMESTAMP_END -> timestamp t = Err storage_error.
Proof. intros. unfold timestamp. by rewrite (proj2 (Z.ltb_ge _ _)) by lia. Qed.

Lemma claim_rows_spec env owner ms ids o :
  NoDup ids -> Forall (lease_fits env ms) ids ->
  Forall (fun id => exists r, o !! id = Some r /\ outbox_check r = true /\
                              ob_status r = st_pending) ids ->
  exists rows o', claim_rows env owner ms ids o = Ok (rows, o') /\
    Forall2 (fun id row => exists r, o !! id = Some r /\ row = claim_row_of env id r) ids rows /\
    forall i, o' !! i = if decide (i ∈ ids) then claimed_row env owner ms i <$> o !! i else o !! i.
Proof.
  intros Hn Hfit. revert o. induction Hn as [|id ids Hid Hn IH]; intros o Hf.
  { exists [], o. split_and!; [done|constructor|]. intros i. by rewrite decide_False by set_solver. }
  inversion Hf as [|? ? (r & Hr & Hc & Hp) Hf']; subst. simpl. rewrite Hr.
  apply Forall_cons in Hfit as [Hfit Hfits].
  rewrite timestamp_ok, update_row_ok by auto with ams. simpl.
  destruct (IH Hfits (<[id:=claimed_row env owner ms id r]> o)) as (rows & o' & -> & Hrows & Ho').
  { rewrite Forall_forall in Hf' |- *. intros j Hj. rewrite lookup_insert_ne by (intros ->; done). auto. }
  simpl. eexists _, _. split_and!; [done| |].
  - constructor; [by exists r|]. eapply Forall2_impl_in; [|done].
    intros j row Hj (r' & Hr' & ->). rewrite lookup_insert_ne in Hr' by (intros ->; done). eauto.
  - intros i. rewrite Ho'. destruct (decide (i = id)) as [->|Hne].
    + rewrite decide_False by done. rewrite decide_True by set_solver.
      by rewrite lookup_insert_eq, Hr.
    + rewrite lookup_insert_ne by done.
      destruct (decide (i ∈ ids)); [rewrite decide_True by set_solver|rewrite decide_False by set_solver];
        done.
Qed.

Lemma claim_rows_overflow env owner ms ids o :
  NoDup ids -> ~ Forall (lease_fits env ms) ids ->
  Forall (fun id => exists r, o !! id = Some r /\ outbox_check r = true /\
                              ob_status r = st_pending) ids ->
  claim_rows env owner ms ids o = Err storage_error.
Proof.
  intros Hn. revert o. induction Hn as [|id ids Hid Hn IH]; intros o Hfit Hf.
  { by destruct Hfit. }
  inversion Hf as [|? ? (r & Hr & Hc & Hp) Hf']; subst. simpl. rewrite Hr.
  destruct (decide (lease_fits env ms id)) as [Hid'|Hid']; [|by rewrite timestamp_err].
  rewrite timestamp_ok, update_row_ok by auto with ams. simpl.
  rewrite IH; [done| |].
  - intros Hfs. apply Hfit. by constructor.
  - rewrite Forall_forall in Hf' |- *. intros j Hj. rewrite lookup_insert_ne by (intros ->; done). auto.
Qed.

Definition leased_task_of (env : claim_env) (format : TaskFormat) (deadline : Instant.t)
    (id : Uuid) (r : outbox_row) : LeasedTask := {|
  lt_attempt := {| at_id := id; at_format := format; at_payload := ob_payload r;
                   at_metadata := ob_metadata r; at_number := ob_attempts r + 1 |};
  lt_lease := {| lock_token := ce_token env id; lease_deadline := deadline |} |}.

Lemma claim_rows_tasks env format deadline (o : gmap Uuid outbox_row) ids rows :
  Forall2 (fun id row => exists r, o !! id = Some r /\ row = claim_row_of env id r) ids rows ->
  Forall (fun id => exists r, o !! id = Some r /\ outbox_check r = true) ids ->
  exists tasks,
    collect ((fun row => into_claimed_task row format deadline) <$> rows) = Ok tasks /\
    Forall2 (fun id t => exists r, o !! id = Some r /\ t = leased_task_of env format deadline id r)
      ids tasks.
Proof.
  intros H. induction H as [|id row ids rows (r & Hr & ->) H IH]; intros Hf.
  { by exists []. }
  inversion Hf as [|? ? (r' & Hr' & Hc) Hf']; simplify_eq.
  destruct (IH Hf') as (tasks & Ht & Hts).
  exists (leased_task_of env format deadline id r :: tasks). split; [|constructor; eauto].
  cbn [fmap list_fmap collect].
  assert (into_claimed_task (claim_row_of env id r) format deadline
          = Ok (leased_task_of env format deadline id r)) as ->.
  { apply outbox_check_spec in Hc as (?&?&?&?&?&?&_). unfold into_claimed_task.
    by rewrite (proj2 (attempt_new_ok _ _ _ _ _ _)) by (split_and!; [reflexivity|done|done|simpl; lia]). }
  simpl. by rewrite Ht.
Qed.

(** The requests a claim accepts. *)
Definition claim_request_ok (env : claim_env) (limit : Z) (lease : Duration.t) : Prop :=
  Duration.as_millis lease <> 0 /\ Duration.as_millis lease <= i64_MAX /\
  ce_instant env + lease <= INSTANT_MAX /\ limit <= i64_MAX.

Lemma claim_request_refused env format owner limit lease d :
  ~ claim_request_ok env limit lease ->
  exists e, claim env format owner limit lease d = (Err e, d) /\
    (ce_fault env <> BeginFails -> exists q, e = InvalidRequest q).
Proof.
  intros Hn. unfold claim, i64_limit, milliseconds, Instant.checked_add, claim_request_ok in *.
  destruct (Z.eqb_spec (Duration.as_millis lease) 0); [eauto|].
  destruct (checked INSTANT_MAX (ce_instant env + lease)) eqn:E; [|eauto].
  apply checked_Some in E as [-> ?].
  destruct (Z.leb_spec limit i64_MAX); [|eauto].
  destruct (Z.leb_spec (Duration.as_millis lease) i64_MAX); [exfalso; auto|].
  unfold in_transaction, begin_queue_transaction. simpl.
  destruct (ce_fault env); eexists; (split; [done|]); naive_solver.
Qed.

Lemma ready_pending env format id r : ready env format id r = true -> ob_status r = st_pending.
Proof. unfold ready. intros. by zify_bool. Qed.

Lemma selected_pending env format limit d :
  outbox_ok d ->
  Forall (fun id => exists r, outbox d !! id = Some r /\ outbox_check r = true /\
                              ob_status r = st_pending)
    (select_for_update (outbox d) (ready env format) ob_available_at limit).
Proof.
  intros Hok. apply Forall_forall. intros i (r & Hr & Hk)%select_sound. exists r.
  split_and!; [done|by apply (Hok i)|by eapply ready_pending].
Qed.

(** A lease that would end after the last representable moment fails. *)
Lemma claim_overflows env format owner limit lease d :
  outbox_ok d ->
  ~ Forall (lease_fits env (Duration.as_millis lease))
      (select_for_update (outbox d) (ready env format) ob_available_at limit) ->
  exists e, claim env format owner limit lease d = (Err e, d).
Proof.
  intros Hok Hfit. unfold claim. destruct (_ =? 0); [eauto|]. destruct (Instant.checked_add _ _); [|eauto].
  unfold i64_limit. destruct (limit <=? i64_MAX); [|eauto].
  unfold milliseconds. destruct (_ <=? i64_MAX); cbn [mbind result_bind].
  - rewrite claim_rows_overflow by (try apply select_NoDup; by try apply selected_pending).
    destruct (ce_fault env); simpl; eauto.
  - destruct (ce_fault env); simpl; eauto.
Qed.

(** The transaction of a valid claim, before any fault of its connection. *)
Lemma claim_body env format owner limit lease d :
  outbox_ok d -> claim_request_ok env limit lease ->
  Forall (lease_fits env (Duration.as_millis lease))
    (select_for_update (outbox d) (ready env format) ob_available_at limit) ->
  exists tasks d',
    claim env format owner limit lease d
    = in_transaction (ce_fault env) d (_ ← statement (ce_fault env); Ok (tasks, d')) /\
    Forall2 (fun id t => exists r, outbox d !! id = Some r /\
               t = leased_task_of env format (ce_instant env + lease) id r)
      (select_for_update (outbox d) (ready env format) ob_available_at limit) tasks /\
    events d' = events d /\ snapshots d' = snapshots d /\
    forall i, outbox d' !! i =
      if decide (i ∈ select_for_update (outbox d) (ready env format) ob_available_at limit)
      then claimed_row env owner (Duration.as_millis lease) i <$> outbox d !! i else outbox d !! i.
Proof.
  intros Hok (Hms0 & Hms & Hi & Hl) Hfit. unfold claim, i64_limit, milliseconds, Instant.checked_add.
  rewrite (proj2 (Z.eqb_neq _ _)) by lia. rewrite checked_le by done.
  rewrite (proj2 (Z.leb_le _ _)) by lia. rewrite (proj2 (Z.leb_le _ _)) by lia. cbn [mbind result_bind].
  pose proof (selected_pending env format limit d Hok) as Hids.
  set (ids := select_for_update (outbox d) (ready env format) ob_available_at limit) in *.
  destruct (claim_rows_spec env owner (Duration.as_millis lease) ids (outbox d)) as (rows & o' & Hrun & Hrows & Ho');
    [apply select_NoDup|done|done|].
  destruct (claim_rows_tasks env format (ce_instant env + lease) (outbox d) ids rows) as (tasks & Ht & Hts);
    [done|eapply Forall_impl; [done|]; naive_solver|].
  exists tasks, (set_outbox d o'). split_and!; try done. f_equal.
  destruct (statement (ce_fault env)); cbn [mbind result_bind]; [|done].
  rewrite Hrun. cbn [mbind result_bind]. by rewrite Ht.
Qed.

(** Under any fault and for any request a claim leaves the tables alone or
    claims the selected rows. *)
Lemma claim_effect env format owner limit lease d :
  outbox_ok d ->
  (claim env format owner limit lease d).2 = d \/
  let d' := (claim env format owner limit lease d).2 in
  events d' = events d /\ snapshots d' = snapshots d /\
  forall i, outbox d' !! i =
    if decide (i ∈ select_for_update (outbox d) (ready env format) ob_available_at limit)
    then claimed_row env owner (Duration.as_millis lease) i <$> outbox d !! i else outbox d !! i.
Proof.
  intros Hok. destruct (decide (claim_request_ok env limit lease)) as [Hreq|Hreq].
  2:{ destruct (claim_request_refused env format owner limit lease d Hreq) as (e & -> & _). by left. }
  destruct (decide (Forall (lease_fits env (Duration.as_millis lease))
    (select_for_update (outbox d) (ready env format) ob_available_at limit))) as [Hfit|Hfit].
  2:{ destruct (claim_overflows env format owner limit lease d Hok Hfit) as (e & ->). by left. }
  destruct (claim_body env format owner limit lease d Hok Hreq Hfit) as (tasks & d' & -> & _ & He & Hs & Ho).
  destruct (in_transaction _ _ _) as [res d''] eqn:Et; simpl.
  apply in_transaction_cases in Et as [[-> _]|(a & Hb & _)]; [by left|right].
  by destruct (statement _); simplify_eq/=.
Qed.

(** What a claim returns was ready. *)
Lemma claim_returns env format owner limit lease d tasks d' :
  outbox_ok d -> claim env format owner limit lease d = (Ok tasks, d') ->
  claim_request_ok env limit lease /\
  forall lt, lt ∈ tasks -> exists id r, outbox d !! id = Some r /\ ready env format id r = true /\
    lt = leased_task_of env format (ce_instant env + lease) id r.
Proof.
  intros Hok Hc. destruct (decide (claim_request_ok env limit lease)) as [Hreq|Hreq].
  2:{ destruct (claim_request_refused env format owner limit lease d Hreq) as (e & He & _). congruence. }
  destruct (decide (Forall (lease_fits env (Duration.as_millis lease))
    (select_for_update (outbox d) (ready env format) ob_available_at limit))) as [Hfit|Hfit].
  2:{ destruct (claim_overflows env format owner limit lease d Hok Hfit) as (e & He). congruence. }
  destruct (claim_body env format owner limit lease d Hok Hreq Hfit) as (ts & d1 & He & Hf & _).
  rewrite He in Hc. apply in_transaction_cases in Hc as [[_ ?]|(a & Hb & [Ha|?])]; [done| |done].
  destruct (statement _); simplify_eq/=. split; [done|]. intros lt Hlt.
  apply list_elem_of_lookup in Hlt as [k Hk]. destruct (Forall2_lookup_r _ _ _ _ _ Hf Hk) as (id & Hid & r & Hr & ->).
  apply list_elem_of_lookup_2, select_sound in Hid as (r' & Hr' & Hready). simplify_eq.
  by exists id, r'.
Qed.

(** A row is held under a token at a moment: it is being processed, the token
    is the stored one, and the stored deadline is still ahead. *)
Definition held (now : Z) (token : Uuid) (r : outbox_row) : Prop :=
  ob_status r = st_processing /\ ob_lock_token r = Some token /\
  from_option (fun until => now < until) False (ob_locked_until r).

#[export] Instance held_decision now token r : Decision (held now token r).
Proof. unfold held. destruct (ob_locked_until r); simpl; solve_decision. Defined.

(** The row a lease may settle now. *)
Definition current_lease (env : settle_env) (task : LeasedTask) (d : db) : option outbox_row :=
  r ← outbox d !! at_id (lt_attempt task);
  if decide (held (se_clock env) (lock_token (lt_lease task)) r) then Some r else None.

Lemma owned_held env token r : owned env token r = bool_decide (held (se_clock env) token r).
Proof.
  apply eq_bool_prop_intro. rewrite bool_decide_spec. unfold owned, held.
  rewrite !andb_True, !bool_decide_spec. destruct (ob_locked_until r); simpl.
  - rewrite Is_true_true, Z.ltb_lt. tauto.
  - tauto.
Qed.

(** The guard of the statement, read as the specification states it. *)
Lemma current_lease_guard env task d :
  current_lease env task d =
  r ← outbox d !! at_id (lt_attempt task);
  if owned env (lock_token (lt_lease task)) r then Some r else None.
Proof.
  unfold current_lease. destruct (outbox d !! _) as [r|]; simpl; [|done].
  rewrite owned_held. by case_decide; case_bool_decide.
Qed.

(** The requests storage can represent: a retry is due within the range of
    [timestamptz]. *)
Definition settle_request_ok (env : settle_env) (request : SettlementRequest) : Prop :=
  match request with
  | Retry delay _ => Duration.as_millis delay <= i64_MAX /\
      se_now env + Duration.as_millis delay * NANOS_PER_MILLI < TIMESTAMP_END
  | _ => True
  end.

Definition request_delay_ms (request : SettlementRequest) : Z :=
  match request with Retry delay _ => Duration.as_millis delay | _ => 0 end.

(** The row a settlement leaves. *)
Definition settled_by (env : settle_env) (request : SettlementRequest) (r : outbox_row) : outbox_row :=
  settled_row (se_now env) (sp_status (settlement_parameters request)) (request_delay_ms request)
    (take 2048 <$> sp_last_error (settlement_parameters request)) r.

(** The outcome reported for it. *)
Definition outcome_of (task : LeasedTask) (request : SettlementRequest) (r : outbox_row) :
    SettlementResult :=
  let failed cause := SettledFailed {|
    tf_id := at_id (lt_attempt task); tf_format := at_format (lt_attempt task);
    tf_attempt := at_number (lt_attempt task); tf_cause := cause |} in
  match request with
  | Completed => SettledCompleted
  | Retry _ _ => if ob_attempts r <? ob_max_attempts r then RetryScheduled
                 else failed AttemptLimitReached
  | Failed _ => failed PermanentRejection
  end.

Lemma request_milliseconds env request :
  settle_request_ok env request ->
  milliseconds (sp_delay (settlement_parameters request)) InvalidRetryDelay
  = Ok (request_delay_ms request).
Proof.
  unfold milliseconds. destruct request; simpl; intros H; [done| |done].
  by rewrite (proj2 (Z.leb_le _ _)) by apply H.
Qed.

Lemma outcome_reported task request r env :
  settlement_result (lt_attempt task) (Some (status_text (ob_status (settled_by env request r))))
    (sp_failure_cause (settlement_parameters request)) = Ok (outcome_of task request r).
Proof.
  unfold outcome_of. destruct request; [done| |done]. simpl.
  destruct (Z.leb_spec (ob_max_attempts r) (ob_attempts r)); simpl.
  - by rewrite (proj2 (Z.ltb_ge _ _)).
  - by rewrite (proj2 (Z.ltb_lt _ _)).
Qed.

Lemma settlement_result_lost delivery st cause :
  settlement_result delivery st cause = Ok OwnershipLost -> st = None.
Proof.
  destruct st as [s|]; [|done]. unfold settlement_result. repeat case_bool_decide; try done.
  by destruct cause.
Qed.

Lemma settle_current env task request d r :
  outbox_ok d -> settle_request_ok env request -> se_fault env = NoFault ->
  current_lease env task d = Some r ->
  settle env task request d
  = (Ok (outcome_of task request r),
     set_outbox d (<[at_id (lt_attempt task) := settled_by env request r]> (outbox d))).
Proof.
  intros Hok Hreq Hf Hc. rewrite current_lease_guard in Hc.
  destruct (outbox d !! _) as [r'|] eqn:Er; simpl in Hc; [|done].
  destruct (owned env _ r') eqn:Eo; simplify_eq. unfold settle.
  rewrite Hf, Er, Eo, (request_milliseconds env) by done. cbn [mbind result_bind statement].
  assert (Hts : exists t, (if bool_decide (sp_status (settlement_parameters request) = st_pending)
      && (ob_attempts r <? ob_max_attempts r)
    then timestamp (se_now env + request_delay_ms request * NANOS_PER_MILLI)
    else Ok (ob_available_at r)) = Ok t).
  { destruct request; simpl; eauto. destruct (_ <? _); eauto. eexists. apply timestamp_ok, Hreq. }
  destruct Hts as [ts ->]. cbn [mbind result_bind].
  fold (settled_by env request r). rewrite update_row_ok.
  - cbn [mbind result_bind in_transaction begin_queue_transaction]. by rewrite outcome_reported.
  - apply settled_row_ok; [by apply (Hok (at_id (lt_attempt task)))|by destruct request].
Qed.

Lemma settle_not_current env task request d :
  settle_request_ok env request -> se_fault env = NoFault -> current_lease env task d = None ->
  settle env task request d = (Ok OwnershipLost, d).
Proof.
  intros Hreq Hf Hc. rewrite current_lease_guard in Hc. unfold settle. rewrite Hf.
  rewrite (request_milliseconds env) by done. simpl.
  destruct (outbox d !! _) as [r'|] eqn:Er; simpl in Hc; [|done].
  by destruct (owned env _ r').
Qed.

(** The body of the transaction, when no statement fails. *)
Lemma settle_body env task request d row d1 :
  (delay_ms ← milliseconds (sp_delay (settlement_parameters request)) InvalidRetryDelay;
   _ ← statement (se_fault env);
   match outbox d !! at_id (lt_attempt task) with
   | Some r =>
     if owned env (lock_token (lt_lease task)) r then
       let r' := settled_row (se_now env) (sp_status (settlement_parameters request)) delay_ms
                   (take 2048 <$> sp_last_error (settlement_parameters request)) r in
       _ ← (if bool_decide (sp_status (settlement_parameters request) = st_pending)
               && (ob_attempts r <? ob_max_attempts r)
            then timestamp (se_now env + delay_ms * NANOS_PER_MILLI) else Ok (ob_available_at r));
       o ← update_row (outbox d) (at_id (lt_attempt task)) r';
       Ok (Some (status_text (ob_status r')), set_outbox d o)
     else Ok (None, d)
   | None => Ok (None, d)
   end) = Ok (row, d1) ->
  row = None /\ d1 = d \/
  exists r, current_lease env task d = Some r /\ outbox_check (settled_by env request r) = true /\
    row = Some (status_text (ob_status (settled_by env request r))) /\
    d1 = set_outbox d (<[at_id (lt_attempt task) := settled_by env request r]> (outbox d)).
Proof.
  intros Hb. destruct (milliseconds _ _) as [ms|] eqn:Em; [|done].
  assert (ms = request_delay_ms request) as ->.
  { clear Hb. unfold milliseconds in Em. case_match; simplify_eq. by destruct request. }
  destruct (statement _); [|done]. cbn [mbind result_bind] in Hb. rewrite current_lease_guard.
  destruct (outbox d !! _) as [r|]; [|left; by simplify_eq]. cbn [mbind option_bind].
  destruct (owned env _ r); [|left; by simplify_eq].
  destruct (if _ && _ then _ else _) as [ts|] in Hb; cbn [mbind result_bind] in Hb; [|done].
  fold (settled_by env request r) in Hb. unfold update_row in Hb.
  destruct (outbox_check (settled_by env request r)) eqn:Ec; [|done].
  right. exists r. cbn [mbind result_bind] in Hb. simplify_eq. by split_and!.
Qed.

(** Under any fault the tables are unchanged or settled. *)
Lemma settle_effect env task request d res d' :
  settle env task request d = (res, d') ->
  d' = d \/ exists r, current_lease env task d = Some r /\
    outbox_check (settled_by env request r) = true /\
    d' = set_outbox d (<[at_id (lt_attempt task) := settled_by env request r]> (outbox d)).
Proof.
  unfold settle. destruct (in_transaction _ _ _) as [row d1] eqn:Et. intros [= _ <-].
  apply in_transaction_cases in Et as [[-> _]|(a & Hb & _)]; [auto|].
  apply settle_body in Hb as [[_ ->]|(r & ? & ? & _ & ->)]; eauto.
Qed.

(** An answer is what the table says. *)
Lemma settle_answer env task request d x d' :
  settle env task request d = (Ok x, d') ->
  x = OwnershipLost \/ exists r, current_lease env task d = Some r /\ x = outcome_of task request r.
Proof.
  unfold settle. destruct (in_transaction _ _ _) as [row d1] eqn:Et. intros [= Hx _].
  apply in_transaction_cases in Et as [[_ Hrow]|(a & Hb & Hrow)]; [by destruct row|].
  destruct Hrow as [->|Hrow]; [|by destruct row].
  apply settle_body in Hb as [[-> _]|(r & ? & _ & -> & _)].
  - left. by injection Hx as <-.
  - right. exists r. split; [done|]. cbn [mbind result_bind] in Hx. rewrite outcome_reported in Hx. by simplify_eq.
Qed.

(** *** Recovery *)

Definition failure_of (o : gmap Uuid outbox_row) (id : Uuid) : option TaskFailure :=
  r ← o !! id;
  if ob_max_attempts r <=? ob_attempts r then
    Some {| tf_id := id; tf_format := mk_TaskFormat (ob_task_type r) (ob_task_version r);
            tf_attempt := ob_attempts r; tf_cause := LeaseExpired |}
  else None.

Section RecoverySpec.
Context `{F64Laws}.

Lemma into_failure_ok id r : outbox_check r = true -> into_failure id r = Ok
  {| tf_id := id; tf_format := mk_TaskFormat (ob_task_type r) (ob_task_version r);
     tf_attempt := ob_attempts r; tf_cause := LeaseExpired |}.
Proof.
  intros (? & ? & ? & _)%outbox_check_spec. unfold into_failure.
  by rewrite (proj2 (format_new_ok _ _ (mk_TaskFormat (ob_task_type r) (ob_task_version r)))).
Qed.

Lemma backoff_milliseconds attempt j :
  jitter_in_range j ->
  exists delay ms, redelivery_backoff attempt j = Some delay /\
    milliseconds delay InvalidRetryDelay = Ok ms /\ 4000 <= ms <= 300000.
Proof.
  intros Hj. destruct (redelivery_backoff_bounds attempt j Hj) as (delay & Hd & Hb & _).
  exists delay, (Duration.as_millis delay). split; [done|].
  unfold milliseconds, Duration.as_millis, Duration.from_secs, NANOS_PER_MILLI, NANOS_PER_SEC in *.
  assert (4000 <= delay / 1000000 <= 300000).
  { split; [apply Z.div_le_lower_bound; lia|apply Z.div_le_upper_bound; lia]. }
  rewrite (proj2 (Z.leb_le _ _)); [done|unfold i64_MAX; lia].
Qed.

(** The latest redelivery is due within the range of the column. *)
Definition redelivery_fits (env : recover_env) : Prop :=
  forall id, re_update env id + 300000 * NANOS_PER_MILLI < TIMESTAMP_END.

Lemma recover_rows_spec env ids o :
  (forall id, jitter_in_range (re_jitter env id)) -> NoDup ids ->
  Forall (fun id => exists r, o !! id = Some r /\ outbox_check r = true) ids ->
  (exists e, recover_rows env ids o = Some (Err e) /\ ~ redelivery_fits env) \/
  exists o', recover_rows env ids o = Some (Ok (omap (failure_of o) ids, o')) /\
    (forall i, i ∉ ids -> o' !! i = o !! i) /\
    (forall i, i ∈ ids -> exists r ms, o !! i = Some r /\ 4000 <= ms <= 300000 /\
       o' !! i = Some (recovered_row (re_update env i) ms r)).
Proof.
  intros Hj Hn. revert o. induction Hn as [|id ids Hid Hn IH]; intros o Hf.
  { right. exists o. split_and!; [done..|set_solver]. }
  inversion Hf as [|? ? (r & Hr & Hc) Hf']; subst.
  destruct (backoff_milliseconds (ob_attempts r) (re_jitter env id) (Hj id)) as (dl & ms & Hd & Hms & Hb).
  set (row := recovered_row (re_update env id) ms r).
  destruct (decide (re_update env id + ms * NANOS_PER_MILLI < TIMESTAMP_END)) as [Hts|Hts].
  2:{ left. exists storage_error. simpl. rewrite Hr, Hd. simpl. rewrite Hms. simpl.
      rewrite timestamp_err by done. split; [done|]. intros Hfit. specialize (Hfit id).
      unfold NANOS_PER_MILLI in *. lia. }
  assert (Hstep : recover_rows env (id :: ids) o =
    rest ← recover_rows env ids (<[id := row]> o);
    Some ('(fs, o1) ← rest; Ok (option_list (failure_of o id) ++ fs, o1))).
  { simpl. rewrite Hr, Hd. simpl. rewrite Hms. simpl.
    rewrite timestamp_ok by done. simpl. rewrite update_row_ok by (by apply recovered_row_ok). simpl.
    unfold failure_of. rewrite Hr. simpl.
    destruct (ob_max_attempts r <=? ob_attempts r); simpl; [by rewrite into_failure_ok|done]. }
  rewrite Hstep.
  destruct (IH (<[id := row]> o)) as [(e & -> & Hfit)|(o' & Hrun & Hout & Hin)].
  { rewrite Forall_forall in Hf' |- *. intros j Hj'. rewrite lookup_insert_ne by (intros ->; done). auto. }
  { left. by exists e. }
  right.
  assert (Hom : omap (failure_of (<[id := row]> o)) ids = omap (failure_of o) ids).
  { apply list_omap_ext, Forall_Forall2_diag, Forall_forall. intros j Hj'. unfold failure_of.
    by rewrite lookup_insert_ne by (intros ->; done). }
  rewrite Hom in Hrun.
  exists o'. split_and!.
  - rewrite Hrun. simpl. by destruct (failure_of o id).
  - intros i Hi. apply not_elem_of_cons in Hi as [Hne Hi]. rewrite Hout by done.
    by rewrite lookup_insert_ne.
  - intros i [->|Hi]%elem_of_cons.
    + exists r, ms. split_and!; try done; [lia..|]. rewrite Hout by done. by rewrite lookup_insert_eq.
    + destruct (Hin i Hi) as (r' & ms' & Hr' & ? & ?).
      rewrite lookup_insert_ne in Hr' by (intros ->; done). eauto 10.
Qed.

Definition expired_ids (env : recover_env) (limit : Z) (d : db) : list Uuid :=
  select_for_update (outbox d) (expired env) (fun r => default 0 (ob_locked_until r)) limit.

Lemma recover_body env limit d :
  (forall id, jitter_in_range (re_jitter env id)) -> outbox_ok d -> 0 <= limit <= i64_MAX ->
  (exists e, recover_expired env limit d = Some (Err e, d) /\
     (re_fault env = NoFault -> ~ redelivery_fits env)) \/
  exists d',
    recover_expired env limit d = Some (in_transaction (re_fault env) d
      (_ ← statement (re_fault env);
       Ok (report_new (Z.of_nat (length (expired_ids env limit d))
                       - Z.of_nat (length (omap (failure_of (outbox d)) (expired_ids env limit d))))
             (omap (failure_of (outbox d)) (expired_ids env limit d)), d'))) /\
    events d' = events d /\ snapshots d' = snapshots d /\
    (forall i, i ∉ expired_ids env limit d -> outbox d' !! i = outbox d !! i) /\
    (forall i, i ∈ expired_ids env limit d -> exists r ms, outbox d !! i = Some r /\
       4000 <= ms <= 300000 /\ outbox d' !! i = Some (recovered_row (re_update env i) ms r)).
Proof.
  intros Hj Hok Hl.
  destruct (recover_rows_spec env (expired_ids env limit d) (outbox d))
    as [(e & Hrun & Hfit)|(o' & Hrun & Hout & Hin)]; [done|apply select_NoDup| | |].
  { apply Forall_forall. intros i (r & Hr & _)%select_sound. exists r.
    split; [done|]. by apply (Hok i). }
  { left. unfold recover_expired, i64_limit. rewrite (proj2 (Z.leb_le _ _)) by lia.
    destruct (re_fault env); simpl; fold (expired_ids env limit d); rewrite ?Hrun; simpl; by eexists. }
  right. exists (set_outbox d o'). split_and!; try done.
  unfold recover_expired, i64_limit. rewrite (proj2 (Z.leb_le _ _)) by lia.
  fold (expired_ids env limit d).
  destruct (re_fault env); simpl; try done; fold (expired_ids env limit d); by rewrite Hrun.
Qed.

Lemma recover_effect env limit d res :
  (forall id, jitter_in_range (re_jitter env id)) -> outbox_ok d -> 0 <= limit ->
  recover_expired env limit d = Some res ->
  res.2 = d \/
  events res.2 = events d /\ snapshots res.2 = snapshots d /\
  (forall i, i ∉ expired_ids env limit d -> outbox res.2 !! i = outbox d !! i) /\
  (forall i, i ∈ expired_ids env limit d -> exists r ms, outbox d !! i = Some r /\
     outbox res.2 !! i = Some (recovered_row (re_update env i) ms r)).
Proof.
  intros Hj Hok Hl Hres. destruct (decide (limit <= i64_MAX)) as [Hl'|Hl'].
  2:{ unfold recover_expired, i64_limit in Hres. rewrite (proj2 (Z.leb_gt _ _)) in Hres by lia.
      destruct (re_fault env); simplify_eq/=; by left. }
  destruct (recover_body env limit d Hj Hok (conj Hl Hl')) as [(e & Hb & _)|(d' & Hb & He & Hs & Hout & Hin)];
    rewrite Hb in Hres; simplify_eq; [by left|].
  destruct (in_transaction _ _ _) as [res d''] eqn:Et; simpl.
  apply in_transaction_cases in Et as [[-> _]|(a & Ha & _)]; [by left|right].
  destruct (statement _); simplify_eq/=. split_and!; [done..|].
  intros i Hi. destruct (Hin i Hi) as (r & ms & ? & _ & ?). by exists r, ms.
Qed.
End RecoverySpec.

(** ** The life of a task

    What may happen to one task, whatever the table operation: publication,
    delivery under a new token, release of the delivery, operator restart. *)

Inductive task_change (issued issued' : gset Uuid) : option outbox_row -> option outbox_row -> Prop :=
| tc_same o : task_change issued issued' o o
| tc_published r :
  ob_status r = st_pending -> ob_attempts r = 0 -> ob_lock_token r = None ->
  task_change issued issued' None (Some r)
| tc_claimed r r' t :
  same_task r r' -> ob_status r = st_pending -> ob_status r' = st_processing ->
  ob_attempts r' = ob_attempts r + 1 -> ob_lock_token r' = Some t ->
  t ∉ issued -> t ∈ issued' ->
  task_change issued issued' (Some r) (Some r')
| tc_released r r' :
  same_task r r' -> ob_status r = st_processing -> ob_status r' <> st_processing ->
  ob_attempts r' = ob_attempts r -> ob_lock_token r' = None ->
  (ob_status r' = st_pending -> ob_attempts r < ob_max_attempts r) ->
  task_change issued issued' (Some r) (Some r')
| tc_restarted r r' :
  same_task r r' -> ob_status r = st_failed -> ob_status r' = st_pending ->
  ob_attempts r' = 0 -> ob_lock_token r' = None ->
  task_change issued issued' (Some r) (Some r').

(** The tables with the tokens generated so far. *)
Record qstate := mk_qstate { q_db : db; q_issued : gset Uuid }.

(** Generated tokens are new, and differ between rows. *)
Definition fresh_tokens (env : claim_env) (s : qstate) : Prop :=
  (forall i, ce_token env i ∉ q_issued s) /\ Inj (=) (=) (ce_token env).

Definition issue (env : claim_env) (s : qstate) : gset Uuid :=
  q_issued s ∪ set_map (ce_token env) (dom (outbox (q_db s))).

Section Steps.
Context `{F64Laws}.

(** Transactions in any order, by any number of processes, with any faults. *)
Inductive queue_step (s : qstate) : qstate -> Prop :=
| step_publish r l now ty es snapshot :
  Forall built (repo_tasks r) -> Forall (fun e => 0 < se_sequence e) es ->
  queue_step s (mk_qstate (snd (persist_command r l now ty es snapshot (q_db s))) (q_issued s))
| step_claim env format owner limit lease :
  0 <= limit -> fresh_tokens env s ->
  queue_step s (mk_qstate (snd (claim env format owner limit lease (q_db s))) (issue env s))
| step_settle env task request :
  queue_step s (mk_qstate (snd (settle env task request (q_db s))) (q_issued s))
| step_recover env limit res :
  0 <= limit -> (forall id, jitter_in_range (re_jitter env id)) ->
  recover_expired env limit (q_db s) = Some res ->
  queue_step s (mk_qstate (snd res) (q_issued s))
| step_requeue now id :
  queue_step s (mk_qstate (requeue_failed now id (q_db s)) (q_issued s)).

Lemma settled_by_same env request r : same_task r (settled_by env request r).
Proof. done. Qed.

Lemma requeue_row_ok r now : outbox_check r = true -> outbox_check {|
    ob_aggregate_type := ob_aggregate_type r; ob_aggregate_id := ob_aggregate_id r;
    ob_aggregate_sequence := ob_aggregate_sequence r;
    ob_task_type := ob_task_type r; ob_task_version := ob_task_version r;
    ob_payload := ob_payload r; ob_metadata := ob_metadata r;
    ob_status := st_pending; ob_created_at := ob_created_at r; ob_available_at := now;
    ob_finished_at := None; ob_attempts := 0; ob_max_attempts := ob_max_attempts r;
    ob_last_error := None; ob_locked_by := None; ob_lock_token := None;
    ob_locked_until := None |} = true.
Proof.
  intros Hr. row_ok. destruct Hr as (?&?&?&?&?&?&?&?&?&Hf&Hp).
  split_and!; try done; try lia. split; [by intros [|]|by intros [? ?]].
Qed.

(** A change of the table seen row by row, with the constraints kept. *)
Definition table_change (issued issued' : gset Uuid) (d d' : db) : Prop :=
  outbox_ok d' /\ forall i, task_change issued issued' (outbox d !! i) (outbox d' !! i).

Lemma table_same issued issued' d d' :
  outbox_ok d -> outbox d' = outbox d -> table_change issued issued' d d'.
Proof. intros Hok Ho. split; [by unfold outbox_ok; rewrite Ho|]. intros i. rewrite Ho. constructor. Qed.

Lemma table_update issued issued' d d' id r' :
  outbox_ok d -> outbox_check r' = true -> outbox d' = <[id := r']> (outbox d) ->
  task_change issued issued' (outbox d !! id) (Some r') -> table_change issued issued' d d'.
Proof.
  intros Hok Hr' Ho Hc. split.
  - intros i r. rewrite Ho. intros [[<- <-]|[? ?]]%lookup_insert_Some; [done|by apply (Hok i)].
  - intros i. rewrite Ho. destruct (decide (i = id)) as [->|].
    + by rewrite lookup_insert_eq.
    + rewrite lookup_insert_ne by done. constructor.
Qed.

Lemma claim_change env format owner limit lease s :
  outbox_ok (q_db s) -> 0 <= limit -> fresh_tokens env s ->
  table_change (q_issued s) (issue env s) (q_db s) (snd (claim env format owner limit lease (q_db s))).
Proof.
  intros Hok Hl [Hfr _]. set (d := q_db s) in *.
  destruct (claim_effect env format owner limit lease d Hok) as [->|(_ & _ & Ho)]; [by apply table_same|].
  split.
  - intros i r. rewrite Ho. case_decide as Hi; [|by apply (Hok i)].
    intros (r0 & Hr0 & ->)%fmap_Some. apply select_sound in Hi as (r1 & Hr1 & Hk).
    simplify_eq. apply claimed_row_ok; [by apply (Hok i)|by eapply ready_pending].
  - intros i. rewrite Ho. case_decide as Hi; [|constructor].
    apply select_sound in Hi as (r & Hr & Hk). rewrite Hr. simpl.
    eapply (tc_claimed _ _ _ _ (ce_token env i)); try done.
    + by eapply ready_pending.
    + unfold issue. apply elem_of_union_r, elem_of_map_2. by apply elem_of_dom_2 in Hr.
Qed.

Lemma settle_change issued env task request d :
  outbox_ok d -> table_change issued issued d (snd (settle env task request d)).
Proof.
  intros Hok. destruct (settle env task request d) as [res d'] eqn:Es. simpl.
  apply settle_effect in Es as [->|(r & Hc & Hck & ->)]; [by apply table_same|].
  unfold current_lease in Hc. destruct (outbox d !! _) as [r0|] eqn:Er; simplify_eq/=.
  case_decide as Eo; simplify_eq. destruct Eo as (Est & Etok & _).
  eapply table_update; [done|exact Hck|done|]. rewrite Er.
  apply tc_released; try done; unfold settled_by, settled_row; simpl.
  - destruct request; simpl; try done. by destruct (_ <=? _).
  - destruct request; simpl; try done. destruct (Z.leb_spec (ob_max_attempts r) (ob_attempts r)); [done|lia].
Qed.

Lemma recover_change issued env limit d res :
  outbox_ok d -> 0 <= limit -> (forall id, jitter_in_range (re_jitter env id)) ->
  recover_expired env limit d = Some res -> table_change issued issued d (snd res).
Proof.
  intros Hok Hl Hj Hres.
  destruct (recover_effect env limit d res Hj Hok Hl Hres) as [->|(_ & _ & Hout & Hin)]; [by apply table_same|].
  split.
  - intros i r Hr. destruct (decide (i ∈ expired_ids env limit d)) as [Hi|Hi].
    + destruct (Hin i Hi) as (r0 & ms & Hr0 & Hr'). rewrite Hr' in Hr. simplify_eq.
      apply recovered_row_ok. by apply (Hok i).
    + rewrite Hout in Hr by done. by apply (Hok i).
  - intros i. destruct (decide (i ∈ expired_ids env limit d)) as [Hi|Hi]; [|rewrite Hout by done; constructor].
    destruct (Hin i Hi) as (r0 & ms & Hr0 & ->).
    apply select_sound in Hi as (r1 & Hr1 & Hk). simplify_eq. rewrite Hr1.
    unfold expired in Hk. zify_bool. apply tc_released; try done; simpl.
    + by destruct (_ <=? _).
    + destruct (Z.leb_spec (ob_max_attempts r1) (ob_attempts r1)); [done|lia].
Qed.

Lemma publish_change issued r l now ty es snapshot d :
  outbox_ok d -> Forall built (repo_tasks r) -> Forall (fun e => 0 < se_sequence e) es ->
  table_change issued issued d (snd (persist_command r l now ty es snapshot d)).
Proof.
  intros Hok Hb Hs. pose proof (persist_command_effect r l now ty es snapshot d) as He.
  destruct (persist_command r l now ty es snapshot d) as [res d'] eqn:Ep. simpl in *.
  destruct He as [->|(e & -> & Hc)]; [by apply table_same|].
  inversion Hs as [|? ? He _]; subst. split.
  - by eapply committed_outbox_ok.
  - destruct Hc as (_ & _ & _ & Hin & Hout & _). intros i.
    destruct (decide (i ∈ (nt_id <$> repo_tasks r))) as [Hi|Hi].
    + apply list_elem_of_fmap in Hi as (t & -> & Ht). destruct (Hin t Ht) as (-> & _ & ->). by constructor.
    + rewrite Hout by done. constructor.
Qed.

Lemma requeue_change issued now id d :
  outbox_ok d -> table_change issued issued d (requeue_failed now id d).
Proof.
  intros Hok. unfold requeue_failed. destruct (outbox d !! id) as [r|] eqn:Er; [|by apply table_same].
  case_bool_decide; [|by apply table_same].
  eapply table_update; [done|apply requeue_row_ok; by apply (Hok id)|done|].
  rewrite Er. by apply tc_restarted.
Qed.

Lemma step_change s s' :
  outbox_ok (q_db s) -> queue_step s s' ->
  table_change (q_issued s) (q_issued s') (q_db s) (q_db s').
Proof.
  intros Hok Hs. inversion Hs; subst; simpl;
    eauto using publish_change, claim_change, settle_change, recover_change, requeue_change.
Qed.

(** Every stored lease token was issued. *)
Definition queue_inv (s : qstate) : Prop :=
  outbox_ok (q_db s) /\
  forall i r t, outbox (q_db s) !! i = Some r -> ob_lock_token r = Some t -> t ∈ q_issued s.

Lemma issued_grows s s' : queue_step s s' -> q_issued s ⊆ q_issued s'.
Proof. inversion 1; subst; simpl; [done| |done..]. unfold issue. set_solver. Qed.

Lemma queue_inv_preserved : preserves queue_step queue_inv.
Proof.
  intros s s' [Hok Ht] Hstep. pose proof (step_change s s' Hok Hstep) as [Hok' Hc].
  pose proof (issued_grows s s' Hstep) as Hg. split; [done|].
  intros i r t Hr Hrt. specialize (Hc i). rewrite Hr in Hc.
  inversion Hc; simplify_eq; try congruence; eauto.
Qed.
End Steps.

(** ** Properties *)

(** C13: every transaction of the queue, and every publication and restart,
    in any interleaving and with any connection faults, moves each task only
    along its lifecycle (published, claimed under a token never issued
    before, released, restarted) without touching its identity, payload and
    attempt limit; the constraints of the table hold throughout, so no
    task is ever delivered more often than its limit allows. *)
Theorem queue_refines_task_lifecycle `{F64Laws} (s0 s s' : qstate) :
  queue_inv s0 -> rtc queue_step s0 s -> queue_step s s' ->
  queue_inv s' /\
  (forall i, task_change (q_issued s) (q_issued s') (outbox (q_db s) !! i) (outbox (q_db s') !! i)) /\
  (forall i r, outbox (q_db s') !! i = Some r -> 0 <= ob_attempts r <= ob_max_attempts r).
Proof.
  intros Hi Hr Hs. pose proof (rtc_preserves _ _ _ _ queue_inv_preserved Hi Hr) as Hinv.
  pose proof (queue_inv_preserved s s' Hinv Hs) as Hinv'. destruct Hinv as [Hok _].
  split_and!; [done|apply (step_change s s' Hok Hs)|].
  intros i r Hir. destruct Hinv' as [Hok' _]. specialize (Hok' i r Hir).
  apply outbox_check_spec in Hok' as (_&_&_&_&_&?&_&?&_). lia.
Qed.

Section Stability.
Context `{F64Laws}.

(** A token that was issued and is not on a row never comes back. *)
Lemma stale_token_step s s' t :
  queue_inv s -> t ∈ q_issued s ->
  (forall i r, outbox (q_db s) !! i = Some r -> ob_lock_token r <> Some t) ->
  queue_step s s' ->
  t ∈ q_issued s' /\
  (forall i r, outbox (q_db s') !! i = Some r -> ob_lock_token r <> Some t).
Proof.
  intros [Hok _] Ht Hno Hs. split; [by apply (issued_grows s s')|].
  intros i r Hr Hrt. pose proof (step_change s s' Hok Hs) as [_ Hc]. specialize (Hc i).
  rewrite Hr in Hc. inversion Hc; simplify_eq; try congruence; naive_solver.
Qed.

Lemma stale_token_rtc s s' t :
  queue_inv s -> t ∈ q_issued s ->
  (forall i r, outbox (q_db s) !! i = Some r -> ob_lock_token r <> Some t) ->
  rtc queue_step s s' ->
  forall i r, outbox (q_db s') !! i = Some r -> ob_lock_token r <> Some t.
Proof.
  intros Hi Ht Hno Hr. induction Hr as [s|s s1 s' Hs Hr IH]; [done|].
  destruct (stale_token_step s s1 t Hi Ht Hno Hs) as [Ht1 Hno1].
  apply IH; [by apply (queue_inv_preserved s)|done|done].
Qed.
End Stability.

(** C21: fencing.  Once the lease a worker holds has ended (its task was
    settled, recovered or restarted, possibly delivered to another worker),
    no later settlement with that lease has any effect: whatever happens in
    between, it changes nothing, and when storage answers, the answer is that
    ownership was lost. *)
Theorem stale_lease_never_settles `{F64Laws} (s s' : qstate) (task : LeasedTask)
    (env : settle_env) (request : SettlementRequest) :
  queue_inv s -> lock_token (lt_lease task) ∈ q_issued s ->
  (forall i r, outbox (q_db s) !! i = Some r -> ob_lock_token r <> Some (lock_token (lt_lease task))) ->
  rtc queue_step s s' ->
  (settle env task request (q_db s')).2 = q_db s' /\
  (se_fault env = NoFault -> settle_request_ok env request ->
   (settle env task request (q_db s')).1 = Ok OwnershipLost).
Proof.
  intros Hi Ht Hno Hr. pose proof (stale_token_rtc s s' _ Hi Ht Hno Hr) as Hno'.
  assert (Hc : current_lease env task (q_db s') = None).
  { unfold current_lease. destruct (outbox (q_db s') !! _) as [r|] eqn:Er; simpl; [|done].
    rewrite decide_False; [done|]. intros (_ & Htok & _). by eapply Hno'. }
  split.
  - destruct (settle env task request (q_db s')) as [res d'] eqn:Es.
    apply settle_effect in Es as [->|(r & Hc' & _)]; [done|congruence].
  - intros Hf Hreq. by rewrite settle_not_current.
Qed.

(** C14: settlement decides by token and database time: with storage answering,
    and a retry due within the range of its timestamps, a lease that is current (the row is processing under its token and has not
    expired) settles exactly as requested, a retry of an exhausted task
    becoming a failure, and any other lease is told that ownership was lost and
    changes nothing.  The stored reason has at most 2048 characters. *)
Theorem settlement_is_fenced (env : settle_env) (task : LeasedTask) (request : SettlementRequest)
    (d : db) :
  outbox_ok d -> settle_request_ok env request -> se_fault env = NoFault ->
  match current_lease env task d with
  | None => settle env task request d = (Ok OwnershipLost, d)
  | Some r =>
    exists d', settle env task request d = (Ok (outcome_of task request r), d') /\
      is_applied (outcome_of task request r) = true /\
      outbox d' = <[at_id (lt_attempt task) := settled_by env request r]> (outbox d) /\
      (forall e, ob_last_error (settled_by env request r) = Some e -> (length e <= 2048)%nat) /\
      ob_status (settled_by env request r) =
        match outcome_of task request r with
        | SettledCompleted => st_completed | RetryScheduled => st_pending | _ => st_failed
        end
  end.
Proof.
  intros Hok Hreq Hf. destruct (current_lease env task d) as [r|] eqn:Hc;
    [|by apply settle_not_current].
  eexists. split; [by apply settle_current|]. split_and!; [|done| |].
  - destruct request; simpl; try done. by destruct (_ <? _).
  - intros e. destruct request; simpl; [done| |]; intros [= <-]; rewrite length_take; lia.
  - destruct request; simpl; try done. rewrite Z.leb_antisym. by destruct (_ <? _).
Qed.

(** Finished work stays finished: a completed task never changes again,
    and a failed one changes only by the operator's restart. *)
Theorem finished_tasks_are_stable `{F64Laws} (s s' : qstate) (i : Uuid) (r : outbox_row) :
  queue_inv s -> outbox (q_db s) !! i = Some r ->
  (ob_status r = st_completed -> rtc queue_step s s' -> outbox (q_db s') !! i = Some r) /\
  (ob_status r = st_failed -> queue_step s s' ->
   outbox (q_db s') !! i = Some r \/
   exists r', outbox (q_db s') !! i = Some r' /\ same_task r r' /\
     ob_status r' = st_pending /\ ob_attempts r' = 0).
Proof.
  intros Hi Hr. split.
  - intros Hc Hs. revert Hi Hr. induction Hs as [s|s s1 s' Hs Hr1 IH]; intros Hi Hr; [done|].
    apply IH; [by apply (queue_inv_preserved s)|].
    destruct Hi as [Hok _]. pose proof (step_change s s1 Hok Hs) as [_ Hch]. specialize (Hch i).
    rewrite Hr in Hch. inversion Hch; simplify_eq; congruence.
  - intros Hf Hs. destruct Hi as [Hok _]. pose proof (step_change s s' Hok Hs) as [_ Hch].
    specialize (Hch i). rewrite Hr in Hch. inversion Hch; simplify_eq; try congruence; eauto 10.
Qed.

(** Claiming.  A valid claim that storage answers, its leases ending within
    the range of timestamps, returns at most [limit]
    deliveries, each of a different task that was due, pending, of the asked
    format and not locked by others, with one more attempt, a token of its
    own and a deadline anchored at the request; exactly those rows become
    processing and every other row is untouched.  A ready task is left
    behind only if the limit was reached by tasks that became available no
    later. *)
Theorem claim_takes_ready_tasks (env : claim_env) (format : TaskFormat) (owner : rstr) (limit : Z)
    (lease : Duration.t) (d : db) :
  outbox_ok d -> 0 <= limit -> claim_request_ok env limit lease ->
  (forall id, lease_fits env (Duration.as_millis lease) id) -> ce_fault env = NoFault ->
  exists ids tasks d',
    claim env format owner limit lease d = (Ok tasks, d') /\
    NoDup ids /\ Z.of_nat (length tasks) <= limit /\
    Forall2 (fun id t => exists r, outbox d !! id = Some r /\ ready env format id r = true /\
       t = leased_task_of env format (ce_instant env + lease) id r) ids tasks /\
    (forall i, outbox d' !! i =
       if decide (i ∈ ids) then claimed_row env owner (Duration.as_millis lease) i <$> outbox d !! i
       else outbox d !! i) /\
    (forall i r, outbox d !! i = Some r -> ready env format i r = true -> i ∉ ids ->
       Z.of_nat (length tasks) = limit /\
       forall j r', j ∈ ids -> outbox d !! j = Some r' -> ob_available_at r' <= ob_available_at r).
Proof.
  intros Hok Hl Hreq Hfit Hf.
  destruct (claim_body env format owner limit lease d Hok Hreq ltac:(by apply Forall_forall)) as (tasks & d' & Hc & H2 & _ & _ & Ho).
  set (ids := select_for_update (outbox d) (ready env format) ob_available_at limit) in *.
  rewrite Hf in Hc. simpl in Hc. pose proof (Forall2_length _ _ _ H2) as Hlen.
  exists ids, tasks, d'. split_and!; [done|apply select_NoDup| | |done|].
  - rewrite <- Hlen. unfold ids, select_for_update. rewrite length_fmap, length_take. lia.
  - eapply Forall2_impl_in; [|done]. intros id t Hid (r & Hr & ->).
    apply select_sound in Hid as (r' & Hr' & Hk). simplify_eq. eauto.
  - intros i r Hr Hk Hi. rewrite <- Hlen.
    destruct (select_priority _ _ ob_available_at _ _ _ Hl Hr Hk Hi) as [Hn Hp].
    split; [done|]. intros j r' Hj Hr'. specialize (Hp j r' Hj Hr'). unfold key_le in Hp. simpl in Hp. lia.
Qed.

(** C27: recovery.  With storage answering and redeliveries due within the range
    of timestamps, recovery never panics; it takes at
    most [limit] expired, unlocked deliveries, returns each to the queue with a
    delay of 4 to 300 seconds or, when its attempts are spent, fails it; the
    report names exactly the failed ones and counts the rest, and no other task
    changes.  An expired delivery is left only if the limit was reached. *)
Theorem recovery_releases_expired `{F64Laws} (env : recover_env) (limit : Z) (d : db) :
  outbox_ok d -> 0 <= limit <= i64_MAX -> (forall id, jitter_in_range (re_jitter env id)) ->
  redelivery_fits env -> re_fault env = NoFault ->
  exists report d', recover_expired env limit d = Some (Ok report, d') /\
    processed_count report = Z.of_nat (length (expired_ids env limit d)) /\
    Z.of_nat (length (expired_ids env limit d)) <= limit /\
    (forall f, f ∈ failures report <-> exists i, i ∈ expired_ids env limit d /\
       failure_of (outbox d) i = Some f) /\
    (forall i, i ∉ expired_ids env limit d -> outbox d' !! i = outbox d !! i) /\
    (forall i, i ∈ expired_ids env limit d -> exists r ms, outbox d !! i = Some r /\
       expired env i r = true /\ 4000 <= ms <= 300000 /\
       outbox d' !! i = Some (recovered_row (re_update env i) ms r)) /\
    (forall i r, outbox d !! i = Some r -> expired env i r = true -> i ∉ expired_ids env limit d ->
       Z.of_nat (length (expired_ids env limit d)) = limit).
Proof.
  intros Hok Hl Hj Hfit Hf.
  destruct (recover_body env limit d Hj Hok Hl) as [(e & _ & Hn)|(d' & Hr & _ & _ & Hout & Hin)];
    [by destruct (Hn Hf)|].
  rewrite Hf in Hr. simpl in Hr. eexists _, d'. split; [exact Hr|].
  assert (Hlen : Z.of_nat (length (expired_ids env limit d)) <= limit).
  { unfold expired_ids, select_for_update. rewrite length_fmap, length_take. lia. }
  split_and!; [|done| |done| |].
  - unfold processed_count; simpl. lia.
  - intros f. simpl. by rewrite list_elem_of_omap.
  - intros i Hi. destruct (Hin i Hi) as (r & ms & Hr' & ? & ?).
    pose proof Hi as (r1 & Hr1 & Hk)%select_sound. simplify_eq. eauto 10.
  - intros i r Hr' Hk Hi.
    by destruct (select_priority _ _ (fun r => default 0 (ob_locked_until r)) _ _ _ (proj1 Hl) Hr' Hk Hi).
Qed.

(** ** Examples: two published tasks, one claimed at a time *)

Definition ex_db : db :=
  snd (persist_command ex_repo Healthy 0 (§"test") [ex_event (§"a") 1] None empty_db).
Definition ex_claim : claim_env := {|
  ce_instant := 0; ce_now := 10; ce_clock := fun _ => 20; ce_token := fun id => (id + 100)%N;
  ce_locked := fun _ => false; ce_fault := NoFault |}.
Definition ex_format : TaskFormat := mk_TaskFormat (§"test") 1.
Definition ex_lease : Duration.t := Duration.from_millis 1.
Definition ex_claimed : db := snd (claim ex_claim ex_format (§"w") 1 ex_lease ex_db).
Definition ex_leased : LeasedTask := {|
  lt_attempt := {| at_id := 1%N; at_format := ex_format; at_payload := JObject [];
                   at_metadata := JObject []; at_number := 1 |};
  lt_lease := {| lock_token := 101%N; lease_deadline := ex_lease |} |}.
Definition ex_settle : settle_env := {| se_now := 30; se_clock := 40; se_fault := NoFault |}.
Definition ex_recover : recover_env := {|
  re_now := 5000000; re_update := fun _ => 5000001; re_jitter := fun _ => 1%Q;
  re_locked := fun _ => false; re_fault := NoFault |}.

#[export] Instance outbox_ok_dec d : Decision (outbox_ok d).
Proof. unfold outbox_ok. apply _. Defined.

Lemma ex_db_ok : outbox_ok ex_db.
Proof. apply (bool_decide_unpack _). by vm_compute. Qed.
Lemma ex_claimed_ok : outbox_ok ex_claimed.
Proof. apply (bool_decide_unpack _). by vm_compute. Qed.

Lemma claim_takes_ready_tasks_witness :
  exists (ids : list Uuid) tasks d', claim ex_claim ex_format (§"w") 1 ex_lease ex_db = (Ok tasks, d') /\
    NoDup ids /\ Z.of_nat (length tasks) <= 1 /\ tasks = [ex_leased].
Proof.
  destruct (claim_takes_ready_tasks ex_claim ex_format (§"w") 1 ex_lease ex_db ex_db_ok
    ltac:(lia) ltac:(by vm_compute) ltac:(by intros id) eq_refl) as (ids & tasks & d' & Hc & Hn & Hl & _).
  exists ids, tasks, d'. split; [exact Hc|]. split; [exact Hn|]. split; [exact Hl|].
  assert (Hv : fst (claim ex_claim ex_format (§"w") 1 ex_lease ex_db) = Ok [ex_leased])
    by (vm_compute; reflexivity).
  rewrite Hc in Hv. by injection Hv as ->.
Defined.

Lemma settlement_is_fenced_witness :
  exists d', settle ex_settle ex_leased Completed ex_claimed = (Ok SettledCompleted, d') /\
    settle ex_settle ex_leased Completed ex_db = (Ok OwnershipLost, ex_db).
Proof.
  pose proof (settlement_is_fenced ex_settle ex_leased Completed ex_claimed ex_claimed_ok I eq_refl) as H1.
  pose proof (settlement_is_fenced ex_settle ex_leased Completed ex_db ex_db_ok I eq_refl) as H2.
  destruct (current_lease ex_settle ex_leased ex_claimed) eqn:E1; [|by vm_compute in E1].
  destruct (current_lease ex_settle ex_leased ex_db) eqn:E2; [by vm_compute in E2|].
  destruct H1 as (d' & H1 & _). exists d'. split; [exact H1|exact H2].
Defined.

Lemma recovery_releases_expired_witness :
  exists report d', @recover_expired binary64 ex_recover 32 ex_claimed = Some (Ok report, d') /\
    processed_count report = 1.
Proof.
  destruct (@recovery_releases_expired binary64 binary64_laws ex_recover 32 ex_claimed
    ex_claimed_ok ltac:(done) ltac:(done) ltac:(by intros id) eq_refl) as (report & d' & Hr & Hp & _).
  exists report, d'. split; [exact Hr|]. rewrite Hp. by vm_compute.
Defined.

(** The claimed database with its token, and a step that settles it. *)
Definition ex_state : qstate := mk_qstate ex_claimed {[ 101%N ]}.
Definition ex_settled : qstate :=
  mk_qstate (snd (settle ex_settle ex_leased Completed ex_claimed)) {[ 101%N ]}.

Lemma queue_inv_by_check s :
  outbox_ok (q_db s) ->
  bool_decide (map_Forall (fun _ r => match ob_lock_token r with
                 | Some t => bool_decide (t ∈ q_issued s) | None => true end = true)
                 (outbox (q_db s))) = true ->
  queue_inv s.
Proof.
  intros Hok Hb%bool_decide_eq_true. split; [done|]. intros i r t Hr Ht.
  specialize (Hb i r Hr). simpl in Hb. rewrite Ht in Hb. by zify_bool.
Qed.

Lemma ex_state_inv : queue_inv ex_state.
Proof. apply queue_inv_by_check; [exact ex_claimed_ok|by vm_compute]. Qed.
Lemma ex_settled_ok : outbox_ok (q_db ex_settled).
Proof. apply (bool_decide_unpack _). by vm_compute. Qed.
Lemma ex_settled_inv : queue_inv ex_settled.
Proof. apply queue_inv_by_check; [exact ex_settled_ok|by vm_compute]. Qed.

Lemma ex_step : @queue_step binary64 ex_state ex_settled.
Proof. exact (@step_settle binary64 ex_state ex_settle ex_leased Completed). Qed.

Lemma queue_refines_task_lifecycle_witness :
  queue_inv ex_settled /\
  forall i, task_change {[ 101%N ]} {[ 101%N ]} (outbox ex_claimed !! i) (outbox (q_db ex_settled) !! i).
Proof.
  destruct (@queue_refines_task_lifecycle binary64 binary64_laws ex_state ex_state ex_settled
    ex_state_inv (rtc_refl _ _) ex_step) as (Hi & Hc & _).
  split; [exact Hi|exact Hc].
Defined.

(** The settled lease is stale, and stays so after the recovery of other work. *)
Lemma stale_lease_never_settles_witness :
  (settle ex_settle ex_leased (Failed (§"late")) (q_db ex_settled)).2 = q_db ex_settled.
Proof.
  apply (@stale_lease_never_settles binary64 binary64_laws ex_settled ex_settled ex_leased ex_settle
    (Failed (§"late")) ex_settled_inv ltac:(by vm_compute)).
  - assert (Hb : bool_decide (map_Forall (fun _ r => ob_lock_token r <> Some 101%N)
      (outbox (q_db ex_settled))) = true) by by vm_compute.
    apply bool_decide_eq_true in Hb. exact Hb.
  - apply rtc_refl.
Defined.

Definition ex_done : outbox_row :=
  default (task_row 0 [] [] 1 (ex_task 1)) (outbox (q_db ex_settled) !! 1%N).

Lemma finished_tasks_are_stable_witness : outbox (q_db ex_settled) !! 1%N = Some ex_done.
Proof.
  assert (Hl : outbox (q_db ex_settled) !! 1%N = Some ex_done) by by vm_compute.
  destruct (@finished_tasks_are_stable binary64 binary64_laws ex_settled ex_settled 1%N ex_done
    ex_settled_inv Hl) as [Hc _].
  apply Hc; [by vm_compute|apply rtc_refl].
Defined.
