(* ===== verification/TaskHandling.v ===== *)
(** * Task handling

    [cqrs-runtime/src/task/handling]: handler errors, the adapter trait, the
    dispatcher that routes a delivery by its complete format, and the JSON
    adapter that decodes a payload for one typed handler.  Everything a handler
    may touch, its own mutable state included, is the world [W]; a handler that
    panics has no answer, but leaves what it had done. *)

From S2P Require Import Prelude DomainValues TaskData Database.
From stdpp Require Import pretty.
#[local] Open Scope Z_scope.

Inductive TaskHandlerError :=
| HandlerRetry (reason : rstr) (retry_after : option Duration.t)
| HandlerPermanent (reason : rstr).

(** The trait [TaskAdapter]; adapters are called one at a time. *)
Record TaskAdapter (W : Type) := {
  ad_formats : list TaskFormat;
  ad_invoke : TaskAttempt -> W -> option (result TaskHandlerError unit) * W;
}.
Arguments ad_formats {W} _.
Arguments ad_invoke {W} _ _ _.

(** ** The dispatcher *)

Inductive TaskDispatcherError :=
| EmptyDispatcher
| DuplicateFormat (f : TaskFormat)
| InvalidFormat (e : TaskFormatError).

Record TaskDispatcher (W : Type) := {
  adapters : list (TaskAdapter W);
  formats : list TaskFormat;
  routes : gmap TaskFormat nat;
}.
Arguments adapters {W} _.
Arguments formats {W} _.
Arguments routes {W} _.

(** The [flat_map] over the enumerated adapters. *)
Definition indexed_formats {W} (adapters : list (TaskAdapter W)) : list (nat * TaskFormat) :=
  imap pair adapters ≫= fun ia => (fun f => (ia.1, f)) <$> ad_formats ia.2.

(** The [try_fold]: later insertions of a known format are duplicates. *)
Fixpoint fold_routes (items : list (nat * TaskFormat)) (routes : gmap TaskFormat nat)
    (formats : list TaskFormat) : result TaskDispatcherError (gmap TaskFormat nat * list TaskFormat) :=
  match items with
  | [] => Ok (routes, formats)
  | (index, format) :: items =>
    match routes !! format with
    | Some _ => Err (DuplicateFormat format)
    | None => fold_routes items (<[format := index]> routes) (formats ++ [format])
    end
  end.

Definition try_new {W} (adapters : list (TaskAdapter W)) :
    result TaskDispatcherError (TaskDispatcher W) :=
  match adapters with
  | [] => Err EmptyDispatcher
  | _ =>
    '(routes, formats) ← fold_routes (indexed_formats adapters) ∅ [];
    match formats with
    | [] => Err EmptyDispatcher
    | _ => Ok {| adapters := adapters; formats := formats; routes := routes |}
    end
  end.

(** [None] is a panic: the adapter's, or that of an index out of bounds. *)
Definition dispatch {W} (self : TaskDispatcher W) (delivery : TaskAttempt) (w : W) :
    option (result TaskHandlerError unit) * W :=
  match routes self !! at_format delivery with
  | Some index =>
    match adapters self !! index with
    | Some adapter => ad_invoke adapter delivery w
    | None => (None, w)
    end
  | None => (Some (Err (HandlerPermanent (§"unsupported task format"))), w)
  end.

(** ** The JSON adapter *)

(** The trait [TaskHandler<P>]. *)
Definition TaskHandler (W P : Type) : Type :=
  P -> TaskAttempt -> W -> option (result TaskHandlerError unit) * W.

Definition safe_format (format : TaskFormat) : rstr :=
  safe_type (task_type format) ++ §" v" ++ lit (pretty (task_version format)).

Definition json_invoke {W P} `{TaskPayload P} (format : TaskFormat) (handler : TaskHandler W P)
    (delivery : TaskAttempt) (w : W) : option (result TaskHandlerError unit) * W :=
  if bool_decide (at_format delivery <> format) then
    (Some (Err (HandlerPermanent (§"unsupported task format for " ++ safe_format format))), w)
  else match from_value (at_payload delivery) with
  | None => (Some (Err (HandlerPermanent (§"invalid " ++ safe_format format ++ §" task payload"))), w)
  | Some payload => handler payload delivery w
  end.

Definition task_adapter {W P} `{TaskPayload P} (handler : TaskHandler W P) :
    result TaskFormatError (TaskAdapter W) :=
  format ← format_of P;
  Ok {| ad_formats := [format]; ad_invoke := json_invoke format handler |}.

(** ** Lemmas *)

Lemma fold_routes_spec items rs fs :
  (forall f, f ∈ fs <-> is_Some (rs !! f)) -> NoDup fs ->
  match fold_routes items rs fs with
  | Err e => exists f, e = DuplicateFormat f /\ ~ NoDup (fs ++ items.*2)
  | Ok (rs', fs') => fs' = fs ++ items.*2 /\ NoDup fs' /\
      (forall f i, rs' !! f = Some i <-> rs !! f = Some i \/ (i, f) ∈ items)
  end.
Proof.
  revert rs fs. induction items as [|[i f] items IH]; intros rs fs Hfs Hn; simpl.
  { rewrite app_nil_r. split_and!; [done..|]. intros. set_solver. }
  destruct (rs !! f) as [j|] eqn:Ef.
  { exists f. split; [done|]. intros (_ & Hd & _)%NoDup_app. apply (Hd f); [|set_solver].
    apply Hfs. by rewrite Ef. }
  assert (Hf : f ∉ fs) by (rewrite Hfs, Ef; by intros [? ?]).
  specialize (IH (<[f:=i]> rs) (fs ++ [f])). destruct (fold_routes _ _ _) as [[rs' fs']|e].
  - destruct IH as (-> & Hn' & Hr).
    + intros g. rewrite elem_of_app, list_elem_of_singleton, Hfs.
      destruct (decide (f = g)) as [->|]; [rewrite lookup_insert_eq|rewrite lookup_insert_ne by done];
        naive_solver.
    + apply NoDup_app. split_and!; [done|set_solver|apply NoDup_singleton].
    + rewrite <- (assoc_L (++)) in *. split_and!; [done|done|]. intros g j. rewrite Hr, elem_of_cons.
      destruct (decide (f = g)) as [->|Hne].
      * rewrite lookup_insert_eq, Ef. naive_solver.
      * rewrite lookup_insert_ne by done. naive_solver.
  - destruct IH as (g & -> & Hd).
    + intros g. rewrite elem_of_app, list_elem_of_singleton, Hfs.
      destruct (decide (f = g)) as [->|]; [rewrite lookup_insert_eq|rewrite lookup_insert_ne by done];
        naive_solver.
    + apply NoDup_app. split_and!; [done|set_solver|apply NoDup_singleton].
    + exists g. split; [done|]. by rewrite <- (assoc_L (++)) in Hd.
Qed.

Lemma indexed_formats_elem {W} (ads : list (TaskAdapter W)) i f :
  (i, f) ∈ indexed_formats ads <-> exists a, ads !! i = Some a /\ f ∈ ad_formats a.
Proof.
  unfold indexed_formats. rewrite list_elem_of_bind. split.
  - intros ([j a] & (g & [= -> ->] & Hg)%list_elem_of_fmap & (k & Hk)%list_elem_of_lookup).
    rewrite list_lookup_imap in Hk. destruct (ads !! k) eqn:E; simplify_eq/=. eauto.
  - intros (a & Ha & Hf). exists (i, a). split; [apply list_elem_of_fmap; eauto|].
    apply list_elem_of_lookup. exists i. by rewrite list_lookup_imap, Ha.
Qed.

Lemma indexed_formats_snd {W} (ads : list (TaskAdapter W)) :
  (indexed_formats ads).*2 = ads ≫= ad_formats.
Proof.
  assert (Hg : forall g : nat -> nat,
    (imap (fun i a => (g i, a)) ads ≫= fun ia => (fun f => (ia.1, f)) <$> ad_formats ia.2).*2
    = ads ≫= ad_formats); [|exact (Hg id)].
  induction ads as [|a ads IH]; intros g; [done|].
  rewrite imap_cons, !bind_cons, fmap_app. f_equal; [|apply (IH (g ∘ S))].
  rewrite <- list_fmap_compose. simpl. apply list_fmap_id.
Qed.

(** The routing table a dispatcher is built with. *)
Lemma try_new_spec {W} (ads : list (TaskAdapter W)) :
  match try_new ads with
  | Ok d => adapters d = ads /\ formats d = ads ≫= ad_formats /\ NoDup (formats d) /\ formats d <> [] /\
      (forall f i, routes d !! f = Some i <-> exists a, ads !! i = Some a /\ f ∈ ad_formats a)
  | Err EmptyDispatcher => ads ≫= ad_formats = []
  | Err (DuplicateFormat _) => ~ NoDup (ads ≫= ad_formats)
  | Err (InvalidFormat _) => False
  end.
Proof.
  unfold try_new. destruct ads as [|a0 ads0] eqn:Ea; [done|]. rewrite <- Ea. clear a0 ads0 Ea.
  pose proof (fold_routes_spec (indexed_formats ads) ∅ []) as Hs.
  destruct (fold_routes _ _ _) as [[rs fs]|e]; cbn [mbind result_bind].
  - destruct Hs as (-> & Hn & Hr).
    + intros f. rewrite lookup_empty. split; [set_solver|by intros [? ?]].
    + constructor.
    + rewrite indexed_formats_snd, app_nil_l in *.
      destruct (ads ≫= ad_formats) as [|f0 fs0] eqn:Ef; [done|]. cbn. split_and!; try done.
      intros f i. rewrite Hr, lookup_empty, indexed_formats_elem. naive_solver.
  - destruct Hs as (f & -> & Hd).
    + intros f. rewrite lookup_empty. split; [set_solver|by intros [? ?]].
    + constructor.
    + by rewrite indexed_formats_snd in Hd.
Qed.

(** Routing.  A dispatcher is built exactly when the adapters together
    support at least one format and no format twice; it polls the formats in
    adapter order.  A delivery then reaches exactly the one adapter that
    supports its complete format, type and version, and no other; an
    unsupported one is permanently rejected without running anything.  So the
    routing itself never panics. *)
Theorem dispatcher_routes_by_format {W} (ads : list (TaskAdapter W)) :
  match try_new ads with
  | Err _ => ads ≫= ad_formats = [] \/ ~ NoDup (ads ≫= ad_formats)
  | Ok d =>
    formats d = ads ≫= ad_formats /\ NoDup (formats d) /\ formats d <> [] /\
    forall delivery w,
      (at_format delivery ∈ formats d ->
       exists i a, ads !! i = Some a /\ at_format delivery ∈ ad_formats a /\
         dispatch d delivery w = ad_invoke a delivery w /\
         forall j b, ads !! j = Some b -> at_format delivery ∈ ad_formats b -> j = i) /\
      (at_format delivery ∉ formats d ->
       dispatch d delivery w = (Some (Err (HandlerPermanent (§"unsupported task format"))), w))
  end.
Proof.
  pose proof (try_new_spec ads) as Hs. destruct (try_new ads) as [d|[| |]]; [|by auto..|done].
  destruct Hs as (Ha & Hf & Hn & Hne & Hr). split_and!; [done..|]. intros delivery w. split.
  - rewrite Hf, list_elem_of_bind. intros (a & Hin & (i & Hi)%list_elem_of_lookup).
    assert (Hri : routes d !! at_format delivery = Some i) by (apply Hr; eauto).
    exists i, a. split_and!; [done|done| |].
    + unfold dispatch. by rewrite Hri, Ha, Hi.
    + intros j b Hj Hb. assert (Hrj : routes d !! at_format delivery = Some j) by (apply Hr; eauto).
      congruence.
  - intros Hni. unfold dispatch. destruct (routes d !! at_format delivery) as [i|] eqn:E; [|done].
    apply Hr in E as (a & Hi & Hin). destruct Hni. rewrite Hf. apply list_elem_of_bind.
    exists a. split; [done|]. apply list_elem_of_lookup. eauto.
Qed.

(** A dispatch panics only when the adapter of the delivery's format does. *)
Lemma dispatch_panics {W} (ads : list (TaskAdapter W)) d delivery w w' :
  try_new ads = Ok d -> dispatch d delivery w = (None, w') ->
  exists a, a ∈ ads /\ at_format delivery ∈ ad_formats a /\ ad_invoke a delivery w = (None, w').
Proof.
  intros Hd. pose proof (try_new_spec ads) as Hs. rewrite Hd in Hs. destruct Hs as (Ha & _ & _ & _ & Hr).
  unfold dispatch. destruct (routes d !! at_format delivery) as [i|] eqn:E; [|done].
  apply Hr in E as (a & Hi & Hf). rewrite Ha, Hi. intros Hp. exists a.
  split_and!; [by eapply list_elem_of_lookup_2|done..].
Qed.

(** What a payload type promises: it decodes what it encodes, for the values
    its fields can hold. *)
Class TaskPayloadLaws (P : Type) `{TaskPayload P} := {
  payload_ok : P -> Prop;
  payload_roundtrip (p : P) (v : Value) : payload_ok p -> to_value p = Some v -> from_value v = Some p;
}.

(** From publication to handler.  A task published for a payload, whenever
    it is delivered (any attempt number and metadata), reaches the typed
    handler with exactly that payload, and the handler's outcome is the
    delivery's outcome; a delivery of another format or an undecodable payload
    is permanently rejected and never reaches the handler. *)
Theorem published_payload_reaches_handler {W P} `{TaskPayloadLaws P} (handler : TaskHandler W P)
    (adapter : TaskAdapter W) (id : Uuid) (p : P) (t : NewTask) (attempt : TaskAttempt) (w : W) :
  payload_ok p -> task_adapter handler = Ok adapter -> new_task id p = Ok t ->
  (at_format attempt = nt_format t -> at_payload attempt = nt_payload t ->
   ad_invoke adapter attempt w = handler p attempt w) /\
  (at_format attempt <> nt_format t \/ from_value (P:=P) (at_payload attempt) = None ->
   exists reason, ad_invoke adapter attempt w = (Some (Err (HandlerPermanent reason)), w)).
Proof.
  unfold task_adapter. intros Hp Ha Ht. apply new_task_fields in Ht as (_ & Hf & Hv & _).
  rewrite Hf in Ha. simplify_eq/=. unfold json_invoke. split.
  - intros -> ->. rewrite bool_decide_eq_false_2 by naive_solver.
    by rewrite (payload_roundtrip p _ Hp Hv).
  - intros Hr. case_bool_decide; [eauto|]. destruct Hr as [ | -> ]; [done|]. eauto.
Qed.

(** ** Example: an empty object as payload *)

Definition ex_payload : TaskPayload unit := {|
  TASK_TYPE := §"ping"; TASK_VERSION := 1;
  to_value _ := Some (JObject []);
  from_value v := if is_object v then Some tt else None |}.

Definition ex_payload_laws : @TaskPayloadLaws unit ex_payload.
Proof. apply (Build_TaskPayloadLaws unit ex_payload (fun _ => True)). by intros [] v _ [= <-]. Defined.

Definition ex_handler : TaskHandler nat unit := fun _ _ n => (Some (Ok tt), S n).
Definition ex_attempt (v : Value) : TaskAttempt := {|
  at_id := 7%N; at_format := mk_TaskFormat (§"ping") 1; at_payload := v;
  at_metadata := JObject []; at_number := 2 |}.

Lemma published_payload_reaches_handler_witness :
  json_invoke (mk_TaskFormat (§"ping") 1) (H:=ex_payload) ex_handler (ex_attempt (JObject [])) 4%nat
  = (Some (Ok tt), 5%nat) /\
  exists reason, json_invoke (mk_TaskFormat (§"ping") 1) (H:=ex_payload) ex_handler
    (ex_attempt JNull) 4%nat = (Some (Err (HandlerPermanent reason)), 4%nat).
Proof.
  pose (t := {| nt_id := 7%N; nt_format := mk_TaskFormat (§"ping") 1; nt_payload := JObject [];
                nt_metadata := JObject []; nt_schedule := Now; nt_max_attempts := 10 |}).
  pose (a := {| ad_formats := [mk_TaskFormat (§"ping") 1];
                ad_invoke := json_invoke (mk_TaskFormat (§"ping") 1) (H:=ex_payload) ex_handler |}).
  pose proof (fun v => @published_payload_reaches_handler nat unit ex_payload ex_payload_laws ex_handler
    a 7%N tt t (ex_attempt v) 4%nat I eq_refl eq_refl) as Hp.
  split; [by apply (Hp (JObject []))|apply (Hp JNull); by right].
Defined.
