(* ===== verification/TaskExecutor.v ===== *)
(** * Task execution within the lease

    [cqrs-runtime/src/task/executor]: the execution plan computed from the
    remaining lease, the invocation of the handler under its deadline, and the
    settlement of its outcome within the storage budget.

    Clock readings and which branch of each [select!] wins are inputs.  The
    queue is known by the interface of [task/queue/port.rs]; panics are
    [None], next to what was done before. *)

From S2P Require Import Prelude DomainValues FloatTime Binary64 TaskData Database EventRepository.
From S2P Require Import TaskQueue TaskHandling.
#[local] Open Scope Z_scope.

(** ** The interface of the queue: [TaskQueue::settle] *)

Class TaskQueuePort (W : Type) := {
  queue_settle : LeasedTask -> SettlementRequest -> W ->
    result TaskProcessingError SettlementResult * W;
}.

(** What the port documents of a settlement that lost its ownership. *)
Class TaskQueueLaws (W : Type) `{TaskQueuePort W} := {
  settle_lost_unchanged task request w w' :
    queue_settle task request w = (Ok OwnershipLost, w') -> w' = w;
}.

(** [PostgresTaskQueue], in each environment, implements the port. *)
Definition postgres_port (env : settle_env) : TaskQueuePort db := {| queue_settle := settle env |}.

Lemma postgres_port_laws env : @TaskQueueLaws db (postgres_port env).
Proof.
  split. intros task request d d'. simpl. unfold settle.
  destruct (in_transaction _ _ _) as [row d1] eqn:Et. intros [= Hr <-].
  apply in_transaction_cases in Et as [[-> _]|(a & Hb & Ha)]; [done|].
  destruct (milliseconds _ _) as [ms|]; [|done]. destruct (statement _); [|done].
  cbn [mbind result_bind] in Hb.
  destruct (outbox d !! _) as [r|]; [|by simplify_eq]. destruct (owned env _ r); [|by simplify_eq].
  destruct (if _ && _ then _ else _) as [ts|] in Hb; cbn [mbind result_bind] in Hb; [|done].
  destruct (update_row _ _ _) as [o|]; [|done]. cbn [mbind result_bind] in Hb.
  destruct Ha as [->|Hf].
  - apply settlement_result_lost in Hr. congruence.
  - by destruct row.
Qed.

(** ** The plan *)

Inductive ExecutionPlan :=
| Run (handler_deadline settlement_deadline : Instant.t)
| RetryOnly (settlement_deadline : Instant.t)
| RecoverOnly.

Definition execution_plan (now lease_deadline : Instant.t) (handler_timeout storage_timeout : Duration.t) :
    result TaskProcessingError ExecutionPlan :=
  if Duration.is_zero handler_timeout then Err InvalidExecutionBudget
  else
    required ← ok_or InvalidExecutionBudget (Duration.checked_add handler_timeout storage_timeout);
    match Instant.checked_sub lease_deadline LEASE_SAFETY_MARGIN with
    | None => Ok RecoverOnly
    | Some settlement_deadline =>
      if settlement_deadline <=? now then Ok RecoverOnly
      else if Instant.duration_since settlement_deadline now <? required
      then Ok (RetryOnly settlement_deadline)
      else
        handler_deadline ← ok_or InvalidExecutionBudget (Instant.checked_add now handler_timeout);
        Ok (Run handler_deadline settlement_deadline)
    end.

Definition settlement_request (res : result TaskHandlerError unit) (fallback_delay : Duration.t) :
    SettlementRequest :=
  match res with
  | Ok _ => Completed
  | Err (HandlerPermanent reason) => Failed reason
  | Err (HandlerRetry reason retry_after) => Retry (default fallback_delay retry_after) reason
  end.

(** ** The executor *)

(** How the settlement's [select!] ends: the queue answers first, or the
    timer does, before or after the request took effect in storage. *)
Inductive settle_race := Answered | CancelledBefore | CancelledAfter.

(** One execution: the clock when planning and when settling, whether the
    handler's timer wins and what the cancelled handler had already done, the
    settlement's race, and the draw of the backoff. *)
Record exec_env (W : Type) := {
  ee_now : Instant.t;
  ee_handler_cut : option (W -> W);
  ee_settle_now : Instant.t;
  ee_race : settle_race;
  ee_jitter : Q;
}.
Arguments ee_now {W} _.
Arguments ee_handler_cut {W} _.
Arguments ee_settle_now {W} _.
Arguments ee_race {W} _.
Arguments ee_jitter {W} _.

Record DefaultTaskExecutor := { storage_timeout : Duration.t }.

Section Executor.
Context `{F64Rounding} {W : Type} `{TaskQueuePort W}.

(** When the timer of the settlement fires; [now + self.storage_timeout]
    panics when not representable. *)
Definition settle_deadline (self : DefaultTaskExecutor) (now settlement_deadline : Instant.t) :
    option Instant.t :=
  Z.min settlement_deadline <$> Instant.checked_add now (storage_timeout self).

Definition settle_before (self : DefaultTaskExecutor) (env : exec_env W) (task : LeasedTask)
    (outcome : SettlementRequest) (settlement_deadline : Instant.t) (w : W) :
    option (result TaskProcessingError SettlementResult) * W :=
  let now := ee_settle_now env in
  if settlement_deadline <=? now then (Some (Err LeaseBudgetExhausted), w)
  else
    and_then (settle_deadline self now settlement_deadline, w) (fun deadline w =>
    match ee_race env with
    | Answered => let '(r, w) := queue_settle task outcome w in (Some r, w)
    | CancelledBefore => (Some (Err TimedOut), w)
    | CancelledAfter => (Some (Err TimedOut), (queue_settle task outcome w).2)
    end).

Definition fallback_delay (env : exec_env W) (task : LeasedTask) (res : result TaskHandlerError unit) :
    option Duration.t :=
  match res with
  | Err (HandlerRetry _ None) => redelivery_backoff (at_number (lt_attempt task)) (ee_jitter env)
  | _ => Some 0
  end.

Definition execute_and_settle (self : DefaultTaskExecutor) (env : exec_env W)
    (dispatcher : TaskDispatcher W) (task : LeasedTask) (handler_timeout : Duration.t) (w : W) :
    option (result TaskProcessingError SettlementResult) * W :=
  match execution_plan (ee_now env) (lease_deadline (lt_lease task)) handler_timeout
          (storage_timeout self) with
  | Err e => (Some (Err e), w)
  | Ok RecoverOnly => (Some (Err LeaseBudgetExhausted), w)
  | Ok (RetryOnly settlement_deadline) =>
    and_then (redelivery_backoff (at_number (lt_attempt task)) (ee_jitter env), w) (fun delay w =>
    settle_before self env task
      (Retry delay (§"insufficient lease budget before handler execution")) settlement_deadline w)
  | Ok (Run handler_deadline settlement_deadline) =>
    and_then
      match ee_handler_cut env with
      | Some cut => (Some (Err (HandlerRetry (§"handler timed out") None)), cut w)
      | None => dispatch dispatcher (lt_attempt task) w
      end (fun res w =>
    and_then (fallback_delay env task res, w) (fun delay w =>
    settle_before self env task (settlement_request res delay) settlement_deadline w))
  end.
End Executor.

(** The trait [TaskExecutor], through which a worker executes its deliveries. *)
Record TaskExecutor (W : Type) := {
  te_storage_timeout : Duration.t;
  te_execute_and_settle : exec_env W -> TaskDispatcher W -> LeasedTask -> Duration.t -> W ->
    option (result TaskProcessingError SettlementResult) * W;
}.
Arguments te_storage_timeout {W} _.
Arguments te_execute_and_settle {W} _ _ _ _ _ _.

Definition default_executor `{F64Rounding} {W} `{TaskQueuePort W} (self : DefaultTaskExecutor) : TaskExecutor W := {|
  te_storage_timeout := storage_timeout self;
  te_execute_and_settle := execute_and_settle self |}.

(** ** Properties of the plan *)

(** What each plan means for the lease. *)
Definition plan_safe (now deadline : Instant.t) (handler storage : Duration.t)
    (plan : result TaskProcessingError ExecutionPlan) : Prop :=
  match plan with
  | Ok (Run hd sd) =>
    0 < handler /\ hd = now + handler /\ sd = deadline - LEASE_SAFETY_MARGIN /\
    hd + storage <= sd
  | Ok (RetryOnly sd) =>
    sd = deadline - LEASE_SAFETY_MARGIN /\ now < sd /\ sd < now + handler + storage
  | Ok RecoverOnly => deadline - LEASE_SAFETY_MARGIN <= now \/ deadline - LEASE_SAFETY_MARGIN < INSTANT_MIN
  | Err e => e = InvalidExecutionBudget /\ (handler = 0 \/ DURATION_MAX < handler + storage)
  end.

Lemma execution_plan_spec now deadline handler storage :
  Instant.valid now -> Instant.valid deadline -> 0 <= handler -> 0 <= storage ->
  plan_safe now deadline handler storage (execution_plan now deadline handler storage).
Proof.
  intros [Hn1 Hn2] [Hd1 Hd2] Hh Hs. unfold plan_safe, execution_plan, Duration.is_zero.
  destruct (Z.eqb_spec handler 0); [auto|].
  unfold Duration.checked_add. destruct (checked DURATION_MAX (handler + storage)) as [req|] eqn:Er; simpl.
  2:{ apply checked_None in Er. auto. }
  apply checked_Some in Er as [-> Hr].
  unfold Instant.checked_sub. destruct (Z.leb_spec INSTANT_MIN (deadline - LEASE_SAFETY_MARGIN)); simpl; [|auto].
  destruct (Z.leb_spec (deadline - LEASE_SAFETY_MARGIN) now); [auto|].
  unfold Instant.duration_since.
  destruct (Z.ltb_spec (Z.max 0 (deadline - LEASE_SAFETY_MARGIN - now)) (handler + storage)); [lia|].
  unfold Instant.checked_add. assert (0 <= LEASE_SAFETY_MARGIN) by done.
  rewrite checked_le by lia. simpl. lia.
Qed.

(** The execution plan spends the lease safely, for every clock value: the
    handler is started only when its full timeout, then the full storage
    budget, then the safety margin still fit before the lease ends; with less
    time, but before the margin, the task is only returned; otherwise it is
    left to recovery.  Invalid budgets are rejected, and a valid one never
    is. *)
Theorem execution_plan_is_safe (now deadline : Instant.t) (handler storage : Duration.t) :
  Instant.valid now -> Instant.valid deadline -> 0 <= handler -> 0 <= storage ->
  match execution_plan now deadline handler storage with
  | Ok (Run hd sd) =>
    0 < handler /\ hd = now + handler /\ sd = deadline - LEASE_SAFETY_MARGIN /\
    hd + storage <= sd
  | Ok (RetryOnly sd) =>
    sd = deadline - LEASE_SAFETY_MARGIN /\ now < sd /\ sd < now + handler + storage
  | Ok RecoverOnly => deadline - LEASE_SAFETY_MARGIN <= now \/ deadline - LEASE_SAFETY_MARGIN < INSTANT_MIN
  | Err e => e = InvalidExecutionBudget /\ (handler = 0 \/ DURATION_MAX < handler + storage)
  end.
Proof. apply execution_plan_spec. Qed.

(** ** Properties of the execution *)

Section Properties.
Context `{F64Laws} {W : Type} `{TaskQueuePort W}.

(** The settlement the executor requests for what happened to the handler. *)
Definition requested (task : LeasedTask) (res : result TaskHandlerError unit)
    (request : SettlementRequest) : Prop :=
  match res with
  | Ok _ => request = Completed
  | Err (HandlerPermanent reason) => request = Failed reason
  | Err (HandlerRetry reason (Some delay)) => request = Retry delay reason
  | Err (HandlerRetry reason None) => exists delay, request = Retry delay reason /\
      Duration.from_secs 4 <= delay <= Duration.from_secs 300
  end.

Lemma settle_before_cases self env task outcome sd w :
  ee_settle_now env + storage_timeout self <= INSTANT_MAX ->
  exists r w', settle_before self env task outcome sd w = (Some r, w') /\
    (w' = w \/ w' = (queue_settle task outcome w).2 /\ ee_settle_now env < sd) /\
    (is_ok r = true -> r = (queue_settle task outcome w).1 /\ w' = (queue_settle task outcome w).2) /\
    (sd <= ee_settle_now env -> r = Err LeaseBudgetExhausted /\ w' = w) /\
    (ee_settle_now env < sd -> ee_race env = Answered -> (r, w') = queue_settle task outcome w).
Proof.
  intros Hmax. unfold settle_before. destruct (Z.leb_spec sd (ee_settle_now env)).
  { eexists _, _. split; [done|]. split_and!; auto; [by intros|lia]. }
  unfold settle_deadline, Instant.checked_add. rewrite checked_le by done. simpl.
  destruct (ee_race env).
  - destruct (queue_settle task outcome w) as [r w'] eqn:E. exists r, w'. simpl. split_and!; auto; lia.
  - eexists _, _. split; [done|]. split_and!; auto; [by intros|lia|done].
  - eexists _, _. split; [done|]. split_and!; auto; [by intros|lia|done].
Qed.

(** Every outcome of one execution. *)
Lemma execution_cases (self : DefaultTaskExecutor) (env : exec_env W)
    (dispatcher : TaskDispatcher W) (adapters : list (TaskAdapter W)) (task : LeasedTask)
    (handler_timeout : Duration.t) (w : W) :
  try_new adapters = Ok dispatcher ->
  jitter_in_range (ee_jitter env) ->
  Instant.valid (ee_now env) -> Instant.valid (lease_deadline (lt_lease task)) ->
  0 <= handler_timeout -> 0 <= storage_timeout self ->
  ee_settle_now env + storage_timeout self <= INSTANT_MAX ->
  exists r w', execute_and_settle self env dispatcher task handler_timeout w = (r, w') /\
  match r with
  | None =>
    ee_handler_cut env = None /\
    ee_now env + handler_timeout + storage_timeout self + LEASE_SAFETY_MARGIN
      <= lease_deadline (lt_lease task) /\
    dispatch dispatcher (lt_attempt task) w = (None, w') /\
    exists a, a ∈ adapters /\ at_format (lt_attempt task) ∈ ad_formats a /\
      ad_invoke a (lt_attempt task) w = (None, w')
  | Some r =>
    is_ok r = false /\ w' = w \/
    (exists (w1 : W) (request : SettlementRequest) (ran : bool),
      (if ran then
         ee_now env + handler_timeout + storage_timeout self + LEASE_SAFETY_MARGIN
           <= lease_deadline (lt_lease task) /\
         exists res, requested task res request /\
           match ee_handler_cut env with
           | Some cut => res = Err (HandlerRetry (§"handler timed out") None) /\ w1 = cut w
           | None => dispatch dispatcher (lt_attempt task) w = (Some res, w1)
           end
       else w1 = w /\
         requested task (Err (HandlerRetry (§"insufficient lease budget before handler execution") None))
           request) /\
      (w' = w1 \/ w' = (queue_settle task request w1).2 /\
                  ee_settle_now env < lease_deadline (lt_lease task) - LEASE_SAFETY_MARGIN) /\
      (is_ok r = true -> (r, w') = queue_settle task request w1) /\
      (ee_settle_now env < lease_deadline (lt_lease task) - LEASE_SAFETY_MARGIN ->
       ee_race env = Answered -> (r, w') = queue_settle task request w1))
  end.
Proof.
  intros Hd Hj Hn Hl Hh Hs Hmax.
  pose proof (execution_plan_spec _ _ _ _ Hn Hl Hh Hs) as Hp. unfold plan_safe in Hp.
  destruct (redelivery_backoff_bounds (at_number (lt_attempt task)) (ee_jitter env) Hj)
    as (delay & Hdelay & Hdb & _).
  unfold execute_and_settle. destruct (execution_plan _ _ _ _) as [[hd sd|sd|]|e].
  - destruct Hp as (_ & -> & -> & Hfit). destruct (match ee_handler_cut env with Some _ => _ | None => _ end)
      as [[res|] w1] eqn:Erun; cbn [and_then].
    2:{ exists None, w1. split; [done|]. destruct (ee_handler_cut env); [done|].
        split_and!; [done|lia|done|]. by eapply dispatch_panics. }
    assert (Hres : match ee_handler_cut env with
      | Some cut => res = Err (HandlerRetry (§"handler timed out") None) /\ w1 = cut w
      | None => dispatch dispatcher (lt_attempt task) w = (Some res, w1)
      end) by (destruct (ee_handler_cut env); [by simplify_eq|done]).
    assert (Hfb : exists fb, fallback_delay env task res = Some fb /\
      requested task res (settlement_request res fb)).
    { unfold fallback_delay. destruct res as [|[reason [|]|]]; simpl; rewrite ?Hdelay; eauto 10. }
    destruct Hfb as (fb & -> & Hreq). cbn [and_then].
    destruct (settle_before_cases self env task (settlement_request res fb)
      (lease_deadline (lt_lease task) - LEASE_SAFETY_MARGIN) w1 Hmax) as (r & w' & -> & Hw & Hok & _ & Hans).
    exists (Some r), w'. split; [done|]. right. exists w1, (settlement_request res fb), true.
    split_and!; [lia|by exists res|done| |done].
    intros Hr. destruct (Hok Hr) as [-> ->]. by destruct (queue_settle _ _ _).
  - destruct Hp as (-> & Hnow & _). rewrite Hdelay. cbn [and_then].
    destruct (settle_before_cases self env task
      (Retry delay (§"insufficient lease budget before handler execution"))
      (lease_deadline (lt_lease task) - LEASE_SAFETY_MARGIN) w Hmax) as (r & w' & -> & Hw & Hok & _ & Hans).
    exists (Some r), w'. split; [done|]. right.
    exists w, (Retry delay (§"insufficient lease budget before handler execution")), false.
    split_and!; [done|by exists delay|done| |done].
    intros Hr. destruct (Hok Hr) as [-> ->]. by destruct (queue_settle _ _ _).
  - exists (Some (Err LeaseBudgetExhausted)), w. split; [done|]. by left.
  - exists (Some (Err e)), w. split; [done|]. by left.
Qed.

(** C26: one delivery.  Executing a task does one of three things: nothing at
    all (an invalid budget, or a lease too far spent); without running the
    handler, return the task for a retry; or run the handler, once, and only
    while its full budget fits the lease, then request exactly the settlement
    its outcome calls for (a timed-out handler being a retry).  Settlement is
    never requested once the safety margin has begun, and a settlement is
    reported only as the queue confirmed it.  An execution panics only when the
    handler of the delivery's format does, started within its budget; then
    nothing is settled. *)
Theorem execution_settles_handler_outcome (self : DefaultTaskExecutor) (env : exec_env W)
    (dispatcher : TaskDispatcher W) (adapters : list (TaskAdapter W)) (task : LeasedTask)
    (handler_timeout : Duration.t) (w : W) :
  try_new adapters = Ok dispatcher ->
  jitter_in_range (ee_jitter env) ->
  Instant.valid (ee_now env) -> Instant.valid (lease_deadline (lt_lease task)) ->
  0 <= handler_timeout -> 0 <= storage_timeout self ->
  ee_settle_now env + storage_timeout self <= INSTANT_MAX ->
  exists r w', execute_and_settle self env dispatcher task handler_timeout w = (r, w') /\
  match r with
  | None =>
    ee_handler_cut env = None /\
    ee_now env + handler_timeout + storage_timeout self + LEASE_SAFETY_MARGIN
      <= lease_deadline (lt_lease task) /\
    dispatch dispatcher (lt_attempt task) w = (None, w') /\
    exists a, a ∈ adapters /\ at_format (lt_attempt task) ∈ ad_formats a /\
      ad_invoke a (lt_attempt task) w = (None, w')
  | Some r =>
    is_ok r = false /\ w' = w \/
    (exists (w1 : W) (request : SettlementRequest) (ran : bool),
      (if ran then
         ee_now env + handler_timeout + storage_timeout self + LEASE_SAFETY_MARGIN
           <= lease_deadline (lt_lease task) /\
         exists res, requested task res request /\
           match ee_handler_cut env with
           | Some cut => res = Err (HandlerRetry (§"handler timed out") None) /\ w1 = cut w
           | None => dispatch dispatcher (lt_attempt task) w = (Some res, w1)
           end
       else w1 = w /\
         requested task (Err (HandlerRetry (§"insufficient lease budget before handler execution") None))
           request) /\
      (w' = w1 \/ w' = (queue_settle task request w1).2 /\
                  ee_settle_now env < lease_deadline (lt_lease task) - LEASE_SAFETY_MARGIN) /\
      (is_ok r = true -> (r, w') = queue_settle task request w1) /\
      (ee_settle_now env < lease_deadline (lt_lease task) - LEASE_SAFETY_MARGIN ->
       ee_race env = Answered -> (r, w') = queue_settle task request w1))
  end.
Proof. exact (execution_cases self env dispatcher adapters task handler_timeout w). Qed.
End Properties.

(** Over the PostgreSQL queue, a delivery whose handler succeeds in time is
    recorded: if the lease is still current in the database when storage
    answers before the safety margin, the task is completed, reported as such
    and unlocked, whatever else the handler changed. *)
Theorem successful_delivery_is_recorded `{F64Laws} (self : DefaultTaskExecutor) (env : exec_env db)
    (senv : settle_env) (dispatcher : TaskDispatcher db) (task : LeasedTask)
    (handler_timeout : Duration.t) (d d1 : db) (r : outbox_row) (hd sd : Instant.t) :
  execution_plan (ee_now env) (lease_deadline (lt_lease task)) handler_timeout (storage_timeout self)
    = Ok (Run hd sd) ->
  ee_handler_cut env = None -> dispatch dispatcher (lt_attempt task) d = (Some (Ok tt), d1) ->
  outbox_ok d1 -> se_fault senv = NoFault -> current_lease senv task d1 = Some r ->
  ee_settle_now env < sd -> ee_settle_now env + storage_timeout self <= INSTANT_MAX ->
  ee_race env = Answered ->
  exists d2, @execute_and_settle _ db (postgres_port senv) self env dispatcher task handler_timeout d
    = (Some (Ok SettledCompleted), d2) /\
    exists r', outbox d2 !! at_id (lt_attempt task) = Some r' /\ ob_status r' = st_completed /\
      ob_lock_token r' = None /\ ob_finished_at r' = Some (se_now senv).
Proof.
  intros Hp Hc Hd Hok Hf Hl Ht Hmax Hr. unfold execute_and_settle. rewrite Hp, Hc, Hd. simpl.
  unfold settle_before. rewrite (proj2 (Z.leb_gt _ _)) by done.
  unfold settle_deadline, Instant.checked_add. rewrite checked_le by done. simpl. rewrite Hr.
  rewrite (settle_current senv task Completed d1 r) by done. simpl.
  eexists. split; [done|]. eexists. split; [apply lookup_insert_eq|done].
Qed.

(** ** Examples: an executor with a storage budget of one second *)

Definition ex_executor : DefaultTaskExecutor := {| storage_timeout := Duration.from_secs 1 |}.
Definition ex_adapter : TaskAdapter db := {|
  ad_formats := [ex_format]; ad_invoke _ d := (Some (Ok tt), d) |}.
Definition ex_dispatcher : TaskDispatcher db := {|
  adapters := [ex_adapter]; formats := [ex_format]; routes := {[ ex_format := O ]} |}.
Definition ex_task_lease : LeasedTask := {|
  lt_attempt := lt_attempt ex_leased;
  lt_lease := {| lock_token := 101%N; lease_deadline := Duration.from_secs 60 |} |}.
Definition ex_exec : exec_env db := {|
  ee_now := 0; ee_handler_cut := None; ee_settle_now := 5; ee_race := Answered; ee_jitter := 1%Q |}.

Lemma execution_plan_is_safe_witness :
  match execution_plan 0 (Duration.from_secs 60) (Duration.from_secs 30) (Duration.from_secs 1) with
  | Ok (Run hd sd) => hd + Duration.from_secs 1 <= sd
  | _ => False
  end.
Proof.
  pose proof (execution_plan_is_safe 0 (Duration.from_secs 60) (Duration.from_secs 30)
    (Duration.from_secs 1) ltac:(done) ltac:(done) ltac:(done) ltac:(done)) as Hp.
  destruct (execution_plan _ _ _ _) as [[hd sd| |]|] eqn:E; vm_compute in E; try discriminate E.
  apply Hp.
Defined.

Lemma execution_settles_handler_outcome_witness :
  exists r w', @execute_and_settle binary64 db (postgres_port ex_settle) ex_executor ex_exec
    ex_dispatcher ex_task_lease (Duration.from_secs 30) ex_claimed = (Some r, w') /\
    (r, w') = settle ex_settle ex_task_lease Completed ex_claimed.
Proof.
  destruct (@execution_settles_handler_outcome binary64 binary64_laws db (postgres_port ex_settle)
    ex_executor ex_exec ex_dispatcher [ex_adapter] ex_task_lease (Duration.from_secs 30) ex_claimed
    ltac:(by vm_compute) ltac:(done) ltac:(done) ltac:(done) ltac:(done) ltac:(done) ltac:(done))
    as ([r|] & w' & E & Hr).
  - exists r, w'. split; [exact E|]. revert E. vm_compute. congruence.
  - by vm_compute in E.
Defined.

Lemma successful_delivery_is_recorded_witness :
  exists d2, @execute_and_settle binary64 db (postgres_port ex_settle) ex_executor ex_exec
    ex_dispatcher ex_task_lease (Duration.from_secs 30) ex_claimed = (Some (Ok SettledCompleted), d2).
Proof.
  destruct (current_lease ex_settle ex_task_lease ex_claimed) as [r|] eqn:El; [|by vm_compute in El].
  destruct (@successful_delivery_is_recorded binary64 binary64_laws ex_executor ex_exec ex_settle
    ex_dispatcher ex_task_lease (Duration.from_secs 30) ex_claimed ex_claimed r
    (Duration.from_secs 30) (Duration.from_secs 55)) as (d2 & E & _).
  - by vm_compute.
  - done.
  - by vm_compute.
  - exact ex_claimed_ok.
  - done.
  - exact El.
  - by vm_compute.
  - by vm_compute.
  - done.
  - exists d2. exact E.
Defined.
