(* ===== verification/RuntimeConfig.v ===== *)
(** * Configuration

    The checked settings of the runtime ([cqrs-runtime/src/env.rs],
    [task/queue/storage_config.rs], [runtime/worker_pool_config.rs],
    [runtime/config.rs], [postgres/task_queue/config.rs],
    [postgres/command_factory.rs]) and of the service
    ([account-managements-service/src/config.rs]). *)

From S2P Require Import Prelude TaskData FloatTime CommandRetry TaskExecutor.
#[local] Open Scope Z_scope.

(** ** Integers: [str::parse::<u64>] *)

Definition digit (c : N) : option Z :=
  if ((48 <=? c) && (c <=? 57))%N then Some (Z.of_N c - 48) else None.

Fixpoint parse_digits (acc : Z) (s : rstr) : option Z :=
  match s with
  | [] => Some acc
  | c :: s =>
    d ← digit c;
    acc ← checked u64_MAX (acc * 10);
    acc ← checked u64_MAX (acc + d);
    parse_digits acc s
  end.

Definition PLUS : N := 43.

Definition parse_u64 (s : rstr) : option Z :=
  match s with
  | [] => None
  | c :: rest =>
    if (c =? PLUS)%N then match rest with [] => None | _ => parse_digits 0 rest end
    else parse_digits 0 s
  end.

Abbreviation lookup_fn := (rstr -> option rstr).

(** [read_u64]; the error is the parse error. *)
Definition read_u64 (lookup : lookup_fn) (name : rstr) (default_ : Z) : result unit Z :=
  match lookup name with
  | None => Ok default_
  | Some value => ok_or tt (parse_u64 value)
  end.

(** ** Storage budget *)

Inductive TaskStorageConfigError := StorageInvalidEnvironmentValue | InvalidStorageTimeout.

Record TaskStorageConfig := { sc_storage_timeout : Duration.t }.

Definition storage_config_new (timeout : Duration.t) : result TaskStorageConfigError TaskStorageConfig :=
  if Duration.is_zero timeout || (i64_MAX <? Duration.as_millis timeout)
  then Err InvalidStorageTimeout
  else Ok {| sc_storage_timeout := timeout |}.

Definition DEFAULT_STORAGE_TIMEOUT_MS : Z := 6000.
Definition storage_config_default := storage_config_new (Duration.from_millis DEFAULT_STORAGE_TIMEOUT_MS).

Definition storage_config_from_lookup (lookup : lookup_fn) :
    result TaskStorageConfigError TaskStorageConfig :=
  millis ← map_err (fun _ => StorageInvalidEnvironmentValue)
    (read_u64 lookup (§"OUTBOX_STORAGE_TIMEOUT_MS") DEFAULT_STORAGE_TIMEOUT_MS);
  storage_config_new (Duration.from_millis millis).

(** ** Statement timeout of the PostgreSQL queue *)

Inductive PostgresTaskQueueConfigError := QueueInvalidEnvironmentValue | InvalidStatementTimeout.

Record PostgresTaskQueueConfig := { qc_statement_timeout : Duration.t }.

Definition queue_config_new (timeout : Duration.t) :
    result PostgresTaskQueueConfigError PostgresTaskQueueConfig :=
  if (Duration.as_millis timeout =? 0) || (i32_MAX <? Duration.as_millis timeout)
  then Err InvalidStatementTimeout
  else Ok {| qc_statement_timeout := timeout |}.

Definition DEFAULT_STATEMENT_TIMEOUT_MS : Z := 4000.
Definition queue_config_default := queue_config_new (Duration.from_millis DEFAULT_STATEMENT_TIMEOUT_MS).

Definition queue_config_from_lookup (lookup : lookup_fn) :
    result PostgresTaskQueueConfigError PostgresTaskQueueConfig :=
  millis ← map_err (fun _ => QueueInvalidEnvironmentValue)
    (read_u64 lookup (§"OUTBOX_POSTGRES_STATEMENT_TIMEOUT_MS") DEFAULT_STATEMENT_TIMEOUT_MS);
  queue_config_new (Duration.from_millis millis).

(** ** Worker pool *)

Definition MAX_QUEUE_CAPACITY : Z := Z.shiftr usize_MAX 3.

Inductive TaskWorkerPoolConfigError :=
| WorkerInvalidEnvironmentValue (name : rstr)
| InvalidConcurrency | InvalidQueueCapacity | InvalidPollInterval | InvalidHandlerTimeout
| WorkerInvalidLeaseDuration | WorkerInvalidStorageTimeout | LeaseBudgetOverflow | LeaseTooShort.

Record TaskWorkerPoolConfig := {
  concurrency : Z;
  queue_capacity : Z;
  poll_interval : Duration.t;
  handler_timeout : Duration.t;
  lease_duration : Duration.t;
}.

Definition worker_config_new (c q : Z) (poll handler lease : Duration.t) :
    result TaskWorkerPoolConfigError TaskWorkerPoolConfig :=
  if c =? 0 then Err InvalidConcurrency
  else if (q =? 0) || (MAX_QUEUE_CAPACITY <? q) then Err InvalidQueueCapacity
  else if Duration.is_zero poll || (i64_MAX <? Duration.as_millis poll) then Err InvalidPollInterval
  else if Duration.is_zero lease || (i64_MAX <? Duration.as_millis lease)
  then Err WorkerInvalidLeaseDuration
  else if Duration.is_zero handler || (lease <=? handler) then Err InvalidHandlerTimeout
  else Ok {| concurrency := c; queue_capacity := q; poll_interval := poll;
             handler_timeout := handler; lease_duration := lease |}.

Definition worker_config_default :=
  worker_config_new 128 128 (Duration.from_millis 1000) (Duration.from_secs 15) (Duration.from_secs 60).

(** On a 64-bit target [usize::try_from] of a [u64] always succeeds. *)
Definition worker_config_from_lookup (lookup : lookup_fn) :
    result TaskWorkerPoolConfigError TaskWorkerPoolConfig :=
  let read name d := map_err (fun _ => WorkerInvalidEnvironmentValue name) (read_u64 lookup name d) in
  c ← read (§"OUTBOX_WORKER_CONCURRENCY") 128;
  q ← read (§"OUTBOX_QUEUE_CAPACITY") 128;
  poll ← read (§"OUTBOX_POLL_INTERVAL_MS") 1000;
  handler ← read (§"OUTBOX_HANDLER_TIMEOUT_SECS") 15;
  lease ← read (§"OUTBOX_LEASE_SECS") 60;
  worker_config_new c q (Duration.from_millis poll) (Duration.from_secs handler) (Duration.from_secs lease).

Definition div_ceil (a b : Z) : Z := (a + b - 1) / b.

Definition validate_for_storage_timeout (self : TaskWorkerPoolConfig) (storage : Duration.t) :
    result TaskWorkerPoolConfigError unit :=
  if Duration.is_zero storage then Err WorkerInvalidStorageTimeout
  else
    let waves := div_ceil (queue_capacity self) (concurrency self) in
    invocation ← ok_or LeaseBudgetOverflow (Duration.checked_add (handler_timeout self) storage);
    queued_nanos ← ok_or LeaseBudgetOverflow (checked u128_MAX (Duration.as_nanos invocation * waves));
    queued_seconds ← ok_or LeaseBudgetOverflow (checked u64_MAX (queued_nanos / 1000000000));
    let queued := queued_seconds * NANOS_PER_SEC + queued_nanos mod 1000000000 in
    required ← ok_or LeaseBudgetOverflow (
      budget ← Duration.checked_mul storage 2;
      budget ← Duration.checked_add budget (handler_timeout self);
      budget ← Duration.checked_add budget LEASE_SAFETY_MARGIN;
      Duration.checked_add budget queued);
    if lease_duration self <=? required then Err LeaseTooShort else Ok tt.

(** ** The combined runtime configuration *)

Inductive TaskRuntimeConfigError :=
| StorageError (e : TaskStorageConfigError) | WorkerError (e : TaskWorkerPoolConfigError).

Record TaskRuntimeConfig := { rc_storage : TaskStorageConfig; rc_worker : TaskWorkerPoolConfig }.

Definition runtime_config_new (storage : TaskStorageConfig) (worker : TaskWorkerPoolConfig) :
    result TaskRuntimeConfigError TaskRuntimeConfig :=
  _ ← map_err WorkerError (validate_for_storage_timeout worker (sc_storage_timeout storage));
  Ok {| rc_storage := storage; rc_worker := worker |}.

Definition runtime_config_from_lookup (lookup : lookup_fn) :
    result TaskRuntimeConfigError TaskRuntimeConfig :=
  storage ← map_err StorageError (storage_config_from_lookup lookup);
  worker ← map_err WorkerError (worker_config_from_lookup lookup);
  runtime_config_new storage worker.

Definition runtime_config_default : result TaskRuntimeConfigError TaskRuntimeConfig :=
  storage ← map_err StorageError storage_config_default;
  worker ← map_err WorkerError worker_config_default;
  runtime_config_new storage worker.

(** ** Command execution *)

Inductive PostgresCommandConfigError := InvalidSnapshotInterval.

Record PostgresCommandConfig := {
  snapshot_interval : Z;
  conflict_retry : AggregateConflictRetryPolicy;
}.

Definition command_config_new (interval : Z) (retry : AggregateConflictRetryPolicy) :
    result PostgresCommandConfigError PostgresCommandConfig :=
  if interval =? 0 then Err InvalidSnapshotInterval
  else Ok {| snapshot_interval := interval; conflict_retry := retry |}.

(** [Default]; [None] would be the panic of an [expect]. *)
Definition command_config_default `{F64Rounding} : option PostgresCommandConfig :=
  match policy_default with
  | Ok retry => match command_config_new 25 retry with Ok config => Some config | Err _ => None end
  | Err _ => None
  end.

(** ** The service

    Connection options, socket addresses and log levels are parsed by the
    libraries; their parsers are parameters, whose errors are known by the text
    they would print. *)

Class ConfigParsers := {
  PgConnectOptions : Type;
  SocketAddr : Type;
  LevelFilter : Type;
  parse_database : rstr -> result rstr PgConnectOptions;
  parse_address : rstr -> result rstr SocketAddr;
  parse_level : rstr -> result rstr LevelFilter;
}.

Inductive VarError := NotPresent | NotUnicode (value : rstr).

Inductive ServiceConfigError :=
| Missing (name : rstr) | NonUnicode (name : rstr) (source : VarError) | DatabaseScheme
| DatabaseUrl (source : rstr) | BindAddress (source : rstr) | LoggingLevel (source : rstr)
| Tasks (e : TaskRuntimeConfigError) | PostgresQueue (e : PostgresTaskQueueConfigError).

Definition ENV_KEYS : list rstr :=
  [§"DATABASE_URL"; §"BIND_ADDRESS"; §"RUST_LOG"; §"OUTBOX_STORAGE_TIMEOUT_MS";
   §"OUTBOX_WORKER_CONCURRENCY"; §"OUTBOX_QUEUE_CAPACITY"; §"OUTBOX_POLL_INTERVAL_MS";
   §"OUTBOX_HANDLER_TIMEOUT_SECS"; §"OUTBOX_LEASE_SECS"; §"OUTBOX_POSTGRES_STATEMENT_TIMEOUT_MS"].

Definition to_ascii_lowercase (c : N) : N := (if (65 <=? c) && (c <=? 90) then c + 32 else c)%N.
Definition eq_ignore_ascii_case (a b : rstr) : bool :=
  bool_decide (to_ascii_lowercase <$> a = to_ascii_lowercase <$> b).

(** [str::split_once("://")]: the part before the first occurrence. *)
Fixpoint scheme_of (s : rstr) : option rstr :=
  match s with
  | [] => None
  | c :: s' => if bool_decide (take 3 s = §"://") then Some [] else cons c <$> scheme_of s'
  end.

Section Service.
Context `{ConfigParsers}.

Record LoggingConfig := { level_filter : LevelFilter }.

(** [LoggingInitError]: why no subscriber could be installed. *)
Record LoggingInitError := { init_source : rstr }.

Definition logging_from_lookup (lookup : lookup_fn) : result rstr LoggingConfig :=
  Build_LoggingConfig <$> parse_level (default (§"info") (lookup (§"RUST_LOG"))).

Record ServiceConfig := {
  svc_database : PgConnectOptions;
  svc_bind_address : SocketAddr;
  svc_logging : LoggingConfig;
  svc_task_runtime : TaskRuntimeConfig;
  svc_task_queue : PostgresTaskQueueConfig;
}.

Definition service_config_from_lookup (lookup : lookup_fn) : result ServiceConfigError ServiceConfig :=
  url ← ok_or (Missing (§"DATABASE_URL")) (lookup (§"DATABASE_URL"));
  _ ← ensure (match scheme_of url with
              | Some scheme => eq_ignore_ascii_case scheme (§"postgres")
                               || eq_ignore_ascii_case scheme (§"postgresql")
              | None => false
              end) DatabaseScheme;
  database ← map_err DatabaseUrl (parse_database url);
  address ← ok_or (Missing (§"BIND_ADDRESS")) (lookup (§"BIND_ADDRESS"));
  bind_address ← map_err BindAddress (parse_address address);
  logging ← map_err LoggingLevel (logging_from_lookup lookup);
  task_runtime ← map_err Tasks (runtime_config_from_lookup lookup);
  task_queue ← map_err PostgresQueue (queue_config_from_lookup lookup);
  Ok {| svc_database := database; svc_bind_address := bind_address; svc_logging := logging;
        svc_task_runtime := task_runtime; svc_task_queue := task_queue |}.

(** [from_environment]: a snapshot of the known keys, then the lookup. *)
Fixpoint read_settings (read : rstr -> result VarError rstr) (keys : list rstr)
    (settings : gmap rstr rstr) : result ServiceConfigError (gmap rstr rstr) :=
  match keys with
  | [] => Ok settings
  | name :: keys =>
    match read name with
    | Ok value => read_settings read keys (<[name := value]> settings)
    | Err NotPresent => read_settings read keys settings
    | Err source => Err (NonUnicode name source)
    end
  end.

Definition service_config_from_environment (read : rstr -> result VarError rstr) :
    result ServiceConfigError ServiceConfig :=
  settings ← read_settings read ENV_KEYS ∅;
  service_config_from_lookup (fun name => settings !! name).
End Service.

(** ** Integer parsing *)

Definition decimal (ds : list Z) : Z := foldl (fun a d => a * 10 + d) 0 ds.

Lemma foldl_decimal_mono ds a b :
  Forall (fun d => 0 <= d) ds -> 0 <= a <= b ->
  a <= foldl (fun a d => a * 10 + d) b ds.
Proof.
  intros Hd. revert a b. induction Hd as [|d ds Hd0 Hd IH]; intros a b Hab; simpl; [lia|].
  apply IH. lia.
Qed.

Lemma parse_digits_spec s acc n :
  0 <= acc <= u64_MAX ->
  parse_digits acc s = Some n <->
  exists ds, mapM digit s = Some ds /\ foldl (fun a d => a * 10 + d) acc ds = n /\ n <= u64_MAX.
Proof.
  revert acc. induction s as [|c s IH]; intros acc Ha; simpl.
  { split.
    - intros [= <-]. exists []. split_and!; [done|done|lia].
    - intros (ds & Hds & <- & _). injection Hds as <-. done. }
  destruct (digit c) as [d|] eqn:Ed; simpl; [|naive_solver].
  assert (Hd : 0 <= d <= 9).
  { unfold digit in Ed. case_match eqn:E; simplify_eq. apply andb_true_iff in E as [E1%N.leb_le E2%N.leb_le]. lia. }
  assert (Hds : forall ds, mapM digit s = Some ds -> Forall (fun d => 0 <= d) ds).
  { intros ds Hm. apply mapM_Some in Hm. clear -Hm. induction Hm as [|c d s ds Hc _ IH]; constructor; [|done].
    unfold digit in Hc. case_match eqn:E; simplify_eq. apply andb_true_iff in E as [E1%N.leb_le _]. lia. }
  destruct (checked u64_MAX (acc * 10)) as [m|] eqn:E1; simpl.
  - apply checked_Some in E1 as [-> H1].
    destruct (checked u64_MAX (acc * 10 + d)) as [k|] eqn:E2; simpl.
    + apply checked_Some in E2 as [-> H2]. rewrite IH by lia.
      destruct (mapM digit s) as [ds|]; simpl.
      * split; intros (ds0 & [= <-] & Hf & Hn); [by exists (d :: ds)|by exists ds].
      * split; by intros (ds0 & ? & _).
    + apply checked_None in E2. split; [done|]. intros (ds' & Hm & Hf & Hn).
      destruct (mapM digit s) as [ds|] eqn:Em; simplify_eq/=.
      pose proof (foldl_decimal_mono ds (acc * 10 + d) (acc * 10 + d) (Hds ds eq_refl) ltac:(lia)).
    injection Hm as <-. simpl in *. lia.
  - apply checked_None in E1. split; [done|]. intros (ds' & Hm & Hf & Hn).
    destruct (mapM digit s) as [ds|] eqn:Em; simplify_eq/=.
    pose proof (foldl_decimal_mono ds (acc * 10) (acc * 10 + d) (Hds ds eq_refl) ltac:(lia)).
    injection Hm as <-. simpl in *. lia.
Qed.

(** Integer settings mean what they say: a value is accepted exactly when
    it is an optional plus sign and a non-empty string of decimal digits whose
    number fits 64 bits, and then it is that number; anything else, blanks and
    minus signs included, is an error, never a default or a truncated
    value. *)
Theorem parse_u64_exact (s : rstr) (n : Z) :
  parse_u64 s = Some n <->
  exists body ds, (s = body \/ s = PLUS :: body) /\ body <> [] /\ mapM digit body = Some ds /\
    decimal ds = n /\ n <= u64_MAX.
Proof.
  assert (Hz : 0 <= 0 <= u64_MAX) by done.
  unfold parse_u64, decimal. destruct s as [|c rest].
  { split; [done|]. intros (body & ds & [<-|?] & Hne & _); done. }
  destruct (N.eqb_spec c PLUS) as [->|Hc].
  - destruct rest as [|c' rest].
    + split; [done|]. intros (body & ds & [<-|[= <-]] & Hne & Hm & _); [|done].
      by simpl in Hm.
    + rewrite (parse_digits_spec _ 0 n Hz). split.
      * intros (ds & ? & ? & ?). exists (c' :: rest), ds. split_and!; auto.
      * intros (body & ds & [<-|[= <-]] & Hne & Hm & ? & ?); [|eauto].
        by simpl in Hm.
  - rewrite (parse_digits_spec _ 0 n Hz). split.
    + intros (ds & ? & ? & ?). exists (c :: rest), ds. split_and!; auto.
    + intros (body & ds & [<-|[= ? ?]] & Hne & Hm & ? & ?); [eauto|congruence].
Qed.

(** ** The lease budget *)

(** What the constructor of the worker limits guarantees. *)
Definition worker_config_ok (c : TaskWorkerPoolConfig) : Prop :=
  0 < concurrency c /\ 0 < queue_capacity c <= MAX_QUEUE_CAPACITY /\
  0 < poll_interval c /\ 0 < handler_timeout c < lease_duration c /\
  Duration.as_millis (lease_duration c) <= i64_MAX.

Lemma worker_config_new_ok c q poll handler lease w :
  0 <= c -> 0 <= q -> 0 <= poll -> 0 <= handler -> 0 <= lease ->
  worker_config_new c q poll handler lease = Ok w -> worker_config_ok w.
Proof.
  intros. unfold worker_config_new, Duration.is_zero, worker_config_ok in *.
  repeat case_match; simplify_eq/=; zify_bool; lia.
Qed.

Definition waves (c : TaskWorkerPoolConfig) : Z := div_ceil (queue_capacity c) (concurrency c).

Definition required_lease (c : TaskWorkerPoolConfig) (storage : Duration.t) : Z :=
  2 * storage + handler_timeout c + LEASE_SAFETY_MARGIN + waves c * (handler_timeout c + storage).

Lemma waves_bounds c : worker_config_ok c ->
  1 <= waves c /\ queue_capacity c <= waves c * concurrency c /\
  waves c * concurrency c < queue_capacity c + concurrency c.
Proof.
  intros (Hc & Hq & _). unfold waves, div_ceil.
  pose proof (Z.div_mod (queue_capacity c + concurrency c - 1) (concurrency c) ltac:(lia)).
  pose proof (Z.mod_pos_bound (queue_capacity c + concurrency c - 1) (concurrency c) Hc). nia.
Qed.

Lemma as_millis_bound d : Duration.as_millis d <= i64_MAX -> d < 2 ^ 63 * NANOS_PER_MILLI.
Proof.
  unfold Duration.as_millis, NANOS_PER_MILLI, i64_MAX. intros Hd.
  pose proof (Z.div_mod d 1000000 ltac:(lia)). pose proof (Z.mod_pos_bound d 1000000 ltac:(lia)). lia.
Qed.

Lemma validate_iff c storage :
  worker_config_ok c -> 0 <= storage ->
  validate_for_storage_timeout c storage = Ok tt <->
  0 < storage /\ required_lease c storage < lease_duration c.
Proof.
  intros Hok Hs. pose proof (waves_bounds c Hok) as (Hw & _).
  destruct Hok as (Hc & Hq & Hp & Hh & Hl). apply as_millis_bound in Hl.
  assert (HM : 0 <= LEASE_SAFETY_MARGIN) by done.
  unfold validate_for_storage_timeout, required_lease, Duration.is_zero, Duration.as_nanos. fold (waves c).
  destruct (Z.eqb_spec storage 0); [split; [done|lia]|]. split.
  - unfold Duration.checked_add, Duration.checked_mul.
    destruct (checked DURATION_MAX (handler_timeout c + storage)) as [inv|] eqn:E1; simpl; [|done].
    apply checked_Some in E1 as [-> _].
    destruct (checked u128_MAX _) as [nanos|] eqn:E2; simpl; [|done]. apply checked_Some in E2 as [-> _].
    destruct (checked u64_MAX _) as [secs|] eqn:E3; simpl; [|done]. apply checked_Some in E3 as [-> _].
    set (nanos := (handler_timeout c + storage) * waves c).
    destruct (checked DURATION_MAX (storage * 2)) as [b1|] eqn:E4; simpl; [|done]. apply checked_Some in E4 as [-> _].
    destruct (checked DURATION_MAX (_ + handler_timeout c)) as [b2|] eqn:E5; simpl; [|done].
    apply checked_Some in E5 as [-> _].
    destruct (checked DURATION_MAX (_ + LEASE_SAFETY_MARGIN)) as [b3|] eqn:E6; simpl; [|done].
    apply checked_Some in E6 as [-> _].
    destruct (checked DURATION_MAX (_ + (_ + _))) as [b4|] eqn:E7; simpl; [|done].
    apply checked_Some in E7 as [-> _].
    pose proof (Z.div_mod nanos 1000000000 ltac:(lia)) as Hdm. unfold NANOS_PER_SEC.
    case_match eqn:El; [done|]. zify_bool. intros _. split; [lia|]. lia.
  - intros [Hs0 Hlt].
    set (nanos := (handler_timeout c + storage) * waves c).
    assert (Hn : 0 <= nanos /\ nanos < lease_duration c) by (unfold nanos; nia).
    assert (Hmax : lease_duration c <= 2 ^ 63 * 1000000) by (unfold NANOS_PER_MILLI in *; lia).
    assert (Hdm : nanos / 1000000000 * NANOS_PER_SEC + nanos mod 1000000000 = nanos).
    { pose proof (Z.div_mod nanos 1000000000 ltac:(lia)). unfold NANOS_PER_SEC. lia. }
    assert (Hdiv : nanos / 1000000000 <= u64_MAX).
    { apply Z.div_le_upper_bound; [lia|]. unfold u64_MAX. lia. }
    assert (Hsum : storage * 2 + handler_timeout c + LEASE_SAFETY_MARGIN + nanos < lease_duration c)
      by (unfold nanos; lia).
    assert (HD : 2 ^ 63 * 1000000 <= DURATION_MAX) by done.
    assert (HU : 2 ^ 63 * 1000000 <= u128_MAX) by done.
    unfold Duration.checked_add, Duration.checked_mul.
    rewrite (checked_le _ (handler_timeout c + storage)) by nia. simpl. fold nanos.
    rewrite (checked_le _ nanos) by lia. simpl. rewrite (checked_le _ (nanos / _)) by done. simpl.
    rewrite Hdm. rewrite (checked_le _ (storage * 2)) by lia. simpl.
    rewrite (checked_le _ (storage * 2 + _)) by lia. simpl.
    rewrite (checked_le _ (storage * 2 + _ + _)) by lia. simpl.
    rewrite (checked_le _ (storage * 2 + _ + _ + _)) by lia. simpl.
    rewrite (proj2 (Z.leb_gt _ _)) by lia. done.
Qed.

(** The lease check is exact: for every structurally valid worker
    configuration and storage timeout [S], validation succeeds if and only if
    the lease is longer than [2S + H + 5s + ceil(Q/C) (H+S)], computed without
    loss over the whole range of the settings; overflow can only reject. *)
Theorem lease_budget_is_exact (c q : Z) (poll handler lease storage : Duration.t)
    (w : TaskWorkerPoolConfig) :
  0 <= c -> 0 <= q -> 0 <= poll -> 0 <= handler -> 0 <= lease -> 0 <= storage ->
  worker_config_new c q poll handler lease = Ok w ->
  validate_for_storage_timeout w storage = Ok tt <->
  0 < storage /\
  2 * storage + handler + Duration.from_secs 5 + div_ceil q c * (handler + storage) < lease.
Proof.
  intros Hc Hq Hp Hh Hl Hs Hw. pose proof (worker_config_new_ok _ _ _ _ _ _ Hc Hq Hp Hh Hl Hw) as Hok.
  rewrite validate_iff by done. unfold required_lease, waves.
  unfold worker_config_new in Hw. repeat case_match; simplify_eq/=. done.
Qed.

(** The checked budget is enough: with a validated configuration, a
    delivery that was anchored at [anchor], was claimed within the storage
    budget and then waited behind at most [ceil(Q/C)] waves of invocation and
    settlement, still has its full execution budget when a worker takes it,
    so its handler is run. *)
Theorem queued_delivery_still_runs (w : TaskWorkerPoolConfig) (storage : Duration.t)
    (anchor now : Instant.t) :
  worker_config_ok w -> 0 <= storage -> validate_for_storage_timeout w storage = Ok tt ->
  Instant.valid now -> Instant.valid (anchor + lease_duration w) -> INSTANT_MIN <= anchor ->
  now <= anchor + storage + waves w * (handler_timeout w + storage) ->
  exists hd sd, execution_plan now (anchor + lease_duration w) (handler_timeout w) storage = Ok (Run hd sd) /\
    hd + storage <= sd /\ sd + LEASE_SAFETY_MARGIN = anchor + lease_duration w.
Proof.
  intros Hok Hs Hv Hn Hd Ha Hnow. apply validate_iff in Hv as [Hs0 Hb]; [|done|done].
  pose proof (waves_bounds w Hok) as (Hw1 & _).
  pose proof (execution_plan_spec now (anchor + lease_duration w) (handler_timeout w) storage Hn Hd) as Hp.
  destruct Hok as (_ & _ & _ & Hh & Hl). apply as_millis_bound in Hl.
  specialize (Hp ltac:(lia) Hs). unfold plan_safe in Hp. unfold required_lease in Hb.
  destruct (execution_plan _ _ _ _) as [[hd sd|sd|]|e].
  - exists hd, sd. split; [done|]. lia.
  - lia.
  - assert (0 <= waves w * (handler_timeout w + storage)) by nia. lia.
  - exfalso. assert (0 <= waves w * (handler_timeout w + storage)) by nia.
    assert (0 <= LEASE_SAFETY_MARGIN) by done.
    assert (2 ^ 63 * NANOS_PER_MILLI <= DURATION_MAX) by done. lia.
Qed.

(** ** Accepted configurations *)

Lemma parse_u64_nonneg s n : parse_u64 s = Some n -> 0 <= n.
Proof.
  assert (Hp : forall u a m, 0 <= a -> parse_digits a u = Some m -> 0 <= m).
  { induction u as [|c u IH]; intros a m Ha; simpl; [by intros [= <-]|].
    destruct (digit c) as [d|] eqn:Ed; simpl; [|done].
    destruct (checked _ (a * 10)) eqn:E1; simpl; [|done]. apply checked_Some in E1 as [-> _].
    destruct (checked _ (a * 10 + d)) eqn:E2; simpl; [|done]. apply checked_Some in E2 as [-> _].
    apply IH. unfold digit in Ed. case_match eqn:E; simplify_eq.
    apply andb_true_iff in E as [E%N.leb_le _]. lia. }
  unfold parse_u64. intros H. repeat case_match; simplify_eq; by eapply Hp, H.
Qed.

Lemma read_u64_nonneg lookup name d n : 0 <= d -> read_u64 lookup name d = Ok n -> 0 <= n.
Proof.
  unfold read_u64. intros Hd. case_match; [|by intros [= <-]].
  destruct (parse_u64 _) eqn:E; intros [= <-]. by eapply parse_u64_nonneg.
Qed.

Lemma from_millis_nonneg n : 0 <= n -> 0 <= Duration.from_millis n.
Proof. unfold Duration.from_millis, NANOS_PER_MILLI. lia. Qed.
Lemma from_secs_nonneg n : 0 <= n -> 0 <= Duration.from_secs n.
Proof. unfold Duration.from_secs, NANOS_PER_SEC. lia. Qed.
#[export] Hint Resolve from_millis_nonneg from_secs_nonneg : ams.

Lemma worker_config_from_lookup_ok lookup w :
  worker_config_from_lookup lookup = Ok w -> worker_config_ok w.
Proof.
  unfold worker_config_from_lookup. intros H.
  repeat match type of H with
  | (map_err _ (read_u64 lookup ?k ?d) ≫= _) = _ =>
    let E := fresh "E" in
    destruct (read_u64 lookup k d) as [?|] eqn:E; simpl in H; [|done];
    apply read_u64_nonneg in E; [|lia]
  end.
  eapply worker_config_new_ok, H; auto with ams.
Qed.

Lemma runtime_config_from_lookup_ok lookup rc :
  runtime_config_from_lookup lookup = Ok rc ->
  worker_config_ok (rc_worker rc) /\ 0 < sc_storage_timeout (rc_storage rc) /\
  validate_for_storage_timeout (rc_worker rc) (sc_storage_timeout (rc_storage rc)) = Ok tt.
Proof.
  unfold runtime_config_from_lookup, runtime_config_new. intros H.
  destruct (storage_config_from_lookup lookup) as [st|] eqn:Es; simpl in H; [|done].
  destruct (worker_config_from_lookup lookup) as [w|] eqn:Ew; simpl in H; [|done].
  destruct (validate_for_storage_timeout w _) as [[]|] eqn:Ev; simplify_eq/=.
  split_and!; [by eapply worker_config_from_lookup_ok| |done].
  unfold storage_config_from_lookup in Es.
  destruct (read_u64 _ _ _) as [ms|] eqn:Er; simplify_eq/=. apply read_u64_nonneg in Er; [|done].
  unfold storage_config_new, Duration.is_zero in Es. case_match eqn:E; simplify_eq/=. zify_bool.
  apply from_millis_nonneg in Er. lia.
Qed.

(** C36: a service that starts is safely configured: whatever the environment
    holds, an accepted configuration has positive worker, queue and polling
    limits, a lease that covers the whole budget of a queued delivery, and a
    statement timeout PostgreSQL can represent. *)
Theorem accepted_configuration_is_safe `{ConfigParsers} (read : rstr -> result VarError rstr)
    (cfg : ServiceConfig) :
  service_config_from_environment read = Ok cfg ->
  let w := rc_worker (svc_task_runtime cfg) in
  let storage := sc_storage_timeout (rc_storage (svc_task_runtime cfg)) in
  worker_config_ok w /\ 0 < storage /\
  2 * storage + handler_timeout w + LEASE_SAFETY_MARGIN
    + div_ceil (queue_capacity w) (concurrency w) * (handler_timeout w + storage) < lease_duration w /\
  1 <= Duration.as_millis (qc_statement_timeout (svc_task_queue cfg)) <= i32_MAX.
Proof.
  unfold service_config_from_environment. intros Hc.
  destruct (read_settings read ENV_KEYS ∅) as [settings|]; simpl in Hc; [|done].
  revert Hc. set (lk := fun name => settings !! name). unfold service_config_from_lookup. intros Hc.
  destruct (lk (§"DATABASE_URL")); simpl in Hc; [|done].
  destruct (ensure _ _); simpl in Hc; [|done].
  destruct (parse_database _); simpl in Hc; [|done].
  destruct (lk (§"BIND_ADDRESS")); simpl in Hc; [|done].
  destruct (parse_address _); simpl in Hc; [|done].
  destruct (logging_from_lookup _); simpl in Hc; [|done].
  destruct (runtime_config_from_lookup lk) as [rc|] eqn:Er; simpl in Hc; [|done].
  destruct (queue_config_from_lookup lk) as [qc|] eqn:Eq; simplify_eq/=.
  destruct (runtime_config_from_lookup_ok _ _ Er) as (Hw & Hs & Hv).
  apply validate_iff in Hv as [_ Hb]; [|done|lia]. split_and!; [apply Hw..|done|exact Hb| |];
    unfold queue_config_from_lookup in Eq;
    destruct (read_u64 _ _ _) as [ms|] eqn:Em; simplify_eq/=; apply read_u64_nonneg in Em; try done;
    unfold queue_config_new in Eq; case_match eqn:E; simplify_eq/=; zify_bool;
    pose proof (from_millis_nonneg ms Em); [|done].
  assert (0 <= Duration.as_millis (Duration.from_millis ms)); [|lia].
  unfold Duration.as_millis. by apply Z.div_pos.
Qed.

(** ** Examples *)

Definition ex_worker : TaskWorkerPoolConfig := {|
  concurrency := 128; queue_capacity := 128; poll_interval := Duration.from_millis 1000;
  handler_timeout := Duration.from_secs 15; lease_duration := Duration.from_secs 60 |}.

(** The default budget is exactly the bound of 53 seconds: 54 is enough. *)
Lemma lease_budget_is_exact_witness :
  2 * Duration.from_secs 6 + Duration.from_secs 15 + Duration.from_secs 5
    + div_ceil 128 128 * (Duration.from_secs 15 + Duration.from_secs 6) < Duration.from_secs 60.
Proof.
  apply (lease_budget_is_exact 128 128 (Duration.from_millis 1000) (Duration.from_secs 15)
    (Duration.from_secs 60) (Duration.from_secs 6) ex_worker); by vm_compute.
Defined.

Lemma queued_delivery_still_runs_witness :
  exists hd sd, execution_plan (Duration.from_secs 27) (0 + lease_duration ex_worker)
    (handler_timeout ex_worker) (Duration.from_secs 6) = Ok (Run hd sd).
Proof.
  destruct (queued_delivery_still_runs ex_worker (Duration.from_secs 6) 0 (Duration.from_secs 27))
    as (hd & sd & E & _); try by vm_compute.
  exists hd, sd. exact E.
Defined.

Definition ex_parsers : ConfigParsers := {|
  PgConnectOptions := rstr; SocketAddr := rstr; LevelFilter := rstr;
  parse_database := Ok; parse_address := Ok; parse_level := Ok |}.
Definition ex_environment (name : rstr) : result VarError rstr :=
  if bool_decide (name = §"DATABASE_URL") then Ok (§"postgres://localhost/service")
  else if bool_decide (name = §"BIND_ADDRESS") then Ok (§"127.0.0.1:0")
  else if bool_decide (name = §"OUTBOX_LEASE_SECS") then Ok (§"54")
  else Err NotPresent.

Lemma accepted_configuration_is_safe_witness :
  match @service_config_from_environment ex_parsers ex_environment with
  | Ok cfg => worker_config_ok (rc_worker (svc_task_runtime cfg))
  | Err _ => False
  end.
Proof.
  destruct (@service_config_from_environment ex_parsers ex_environment) as [cfg|] eqn:E;
    [|by vm_compute in E].
  by destruct (@accepted_configuration_is_safe ex_parsers ex_environment cfg E) as (Hw & _).
Defined.
