(* ===== verification/Supervisor.v ===== *)
(** * Polling, workers and their supervision

    [cqrs-runtime/src/runtime]: dispatcher preparation, the rotating poller,
    the worker loop, and the supervisor's admission into the bounded channel,
    as a machine whose events are the completions the [select!] loops wait
    for. *)

From S2P Require Import Prelude DomainValues FloatTime TaskData Database EventRepository.
From S2P Require Import TaskQueue TaskHandling TaskExecutor CommandRetry RuntimeConfig.
#[local] Open Scope Z_scope.

(** ** Preparation *)

Inductive WorkerSetupError :=
| Build (worker_index : Z) (source : TaskDispatcherError)
| FormatsMismatch (worker_index : Z).

Inductive TaskRuntimeError :=
| Configuration_ (e : TaskWorkerPoolConfigError)
| WorkerSetup (e : WorkerSetupError).

Section Preparation.
Context {W : Type}.

(** The factory's calls may differ: [factory k] is its [k]-th call. *)
Definition TaskDispatcherFactory : Type := nat -> result TaskDispatcherError (TaskDispatcher W).

Definition build_checked_dispatcher (built : result TaskDispatcherError (TaskDispatcher W))
    (fs : list TaskFormat) (worker_index : Z) : result WorkerSetupError (TaskDispatcher W) :=
  dispatcher ← map_err (Build worker_index) built;
  if bool_decide (formats dispatcher = fs) then Ok dispatcher
  else Err (FormatsMismatch worker_index).

(** The dispatchers of workers [0..C-1], in order, stopping at an error. *)
Definition startup_dispatchers (factory : TaskDispatcherFactory) (c : Z) :
    result WorkerSetupError (list (TaskDispatcher W)) :=
  first ← map_err (Build 0) (factory O);
  rest ← collect ((fun k => build_checked_dispatcher (factory k) (formats first) (Z.of_nat k))
                    <$> seq 1 (Z.to_nat (c - 1)));
  Ok (first :: rest).

Record TaskRuntime := {
  tr_executor : DefaultTaskExecutor;
  tr_config : TaskWorkerPoolConfig;
  tr_dispatchers : list (TaskDispatcher W);
}.

Definition prepare (factory : TaskDispatcherFactory) (config : TaskRuntimeConfig) :
    result WorkerSetupError TaskRuntime :=
  dispatchers ← startup_dispatchers factory (concurrency (rc_worker config));
  Ok {| tr_executor := {| storage_timeout := sc_storage_timeout (rc_storage config) |};
        tr_config := rc_worker config; tr_dispatchers := dispatchers |}.

(** The checks of [supervisor::run] before the engine starts; [None] is a
    shutdown requested before. *)
Definition run_startup (factory : TaskDispatcherFactory) (config : TaskWorkerPoolConfig)
    (executor : DefaultTaskExecutor) (cancelled : bool) :
    result TaskRuntimeError (option (list (TaskDispatcher W))) :=
  _ ← map_err Configuration_ (validate_for_storage_timeout config (storage_timeout executor));
  if cancelled then Ok None
  else dispatchers ← map_err WorkerSetup (startup_dispatchers factory (concurrency config));
       Ok (Some dispatchers).
End Preparation.

(** ** The poller *)

(** [TaskQueue::claim] of the port: one request for tasks of a format. *)
Class TaskClaimPort (W : Type) := {
  queue_claim : TaskFormat -> rstr -> Z -> Duration.t -> W ->
    result TaskProcessingError (list LeasedTask) * W;
}.

(** A queue honours the limit of a claim. *)
Class TaskClaimLaws (W : Type) `{TaskClaimPort W} := {
  claim_limit_honoured format owner limit lease w tasks w' : 0 <= limit ->
    queue_claim format owner limit lease w = (Ok tasks, w') -> Z.of_nat (length tasks) <= limit;
}.

Record Poller := {
  p_formats : list TaskFormat;
  next_format_start : Z;
  p_storage_timeout : Duration.t;
}.

Definition poller_new (fs : list TaskFormat) (storage : Duration.t) : Poller :=
  {| p_formats := fs; next_format_start := 0; p_storage_timeout := storage |}.

(** [start.wrapping_add(offset) % count] *)
Definition format_index (start : Z) (count offset : nat) : nat :=
  Z.to_nat (usize_wrapping_add start (Z.of_nat offset) mod Z.of_nat count).

Section Polling.
Context {W : Type} `{TaskClaimPort W}.

(** [timeout_at]: the answer, or a timeout before or after the claim took
    effect. *)
Definition timed_claim (race : settle_race) (format : TaskFormat) (owner : rstr) (limit : Z)
    (lease : Duration.t) (w : W) : result TaskProcessingError (list LeasedTask) * W :=
  match race with
  | Answered => queue_claim format owner limit lease w
  | CancelledBefore => (Err TimedOut, w)
  | CancelledAfter => (Err TimedOut, (queue_claim format owner limit lease w).2)
  end.

(** The loop over the offsets; [None] is an index out of bounds. *)
Fixpoint claim_formats (fs : list TaskFormat) (start : Z) (owner : rstr) (limit : Z)
    (lease : Duration.t) (races : nat -> settle_race) (offsets : list nat)
    (claimed : list LeasedTask) (w : W) :
    option (result TaskProcessingError (list LeasedTask) * W) :=
  match offsets with
  | [] => Some (Ok claimed, w)
  | offset :: offsets =>
    if Z.of_nat (length claimed) =? limit then Some (Ok claimed, w)
    else
      format ← fs !! format_index start (length fs) offset;
      let '(res, w) := timed_claim (races offset) format owner
                         (limit - Z.of_nat (length claimed)) lease w in
      match res with
      | Ok tasks => claim_formats fs start owner limit lease races offsets (claimed ++ tasks) w
      | Err e => Some (match claimed with [] => Err e | _ => Ok claimed end, w)
      end
  end.

(** [Poller::claim]; [now + storage_timeout] panics when not representable. *)
Definition poller_claim (self : Poller) (now : Instant.t) (owner : rstr) (limit : Z)
    (lease : Duration.t) (races : nat -> settle_race) (w : W) :
    option (result TaskProcessingError (list LeasedTask) * Poller * W) :=
  _ ← Instant.checked_add now (p_storage_timeout self);
  let start := next_format_start self in
  let self' := {| p_formats := p_formats self; next_format_start := usize_wrapping_add start 1;
                  p_storage_timeout := p_storage_timeout self |} in
  '(res, w) ← claim_formats (p_formats self) start owner limit lease races
               (seq 0 (length (p_formats self))) [] w;
  Some (res, self', w).

(** [Poller::recover_expired]: the queue's recovery within the storage budget. *)
Definition poller_recover (queue_recover : Z -> W -> result TaskProcessingError LeaseRecoveryReport * W)
    (race : settle_race) (limit : Z) (w : W) : result TaskProcessingError LeaseRecoveryReport * W :=
  match race with
  | Answered => queue_recover limit w
  | CancelledBefore => (Err TimedOut, w)
  | CancelledAfter => (Err TimedOut, (queue_recover limit w).2)
  end.
End Polling.

(** The batch [Poller::recover_expired] asks for. *)
Definition RECOVERY_BATCH_LIMIT : Z := 32.
Definition recovery_limit (config : TaskWorkerPoolConfig) : Z :=
  Z.min (concurrency config) RECOVERY_BATCH_LIMIT.

(** ** The pool

    The bounded channel, the state of each worker, the supervisor's own state
    with the limit of the claim in flight, and the shared token.  The lists
    record the deliveries sent to the channel, those whose execution began,
    those a stopping worker took without executing, and, of the executed ones,
    those that were settled or reported and those whose worker panicked or was
    aborted. *)

Inductive worker := Idle | Busy (task : LeasedTask) | Exited.

Inductive engine :=
| Looping
| Claiming (limit : Z)
| EngineDraining (r : result WorkerSetupError unit)
| EngineStopped (r : result WorkerSetupError unit).

Record pool := mk_pool {
  chan : list LeasedTask;
  workers : list worker;
  engine_of : engine;
  cancelled : bool;
  admitted : list LeasedTask;
  invoked : list LeasedTask;
  skipped : list LeasedTask;
  settled : list LeasedTask;
  lost : list LeasedTask;
}.

Inductive pool_event {W : Type} :=
| ShutdownRequested                    (* the token is cancelled by someone else *)
| LoopBreaks                           (* [shutdown.cancelled()] wins a [select!] *)
| ExitObserved (index : nat) (built : result TaskDispatcherError (TaskDispatcher W))
| ClaimStarts                          (* [limit] computed, [poller.claim] called *)
| ClaimReturns (tasks : list LeasedTask)
| ClaimFails
| WorkerReceives (index : nat)         (* [receiver.recv()] of an idle worker *)
| WorkerStops (index : nat)            (* [stop.cancelled()] of an idle worker *)
| WorkerSettles (index : nat)          (* [execute_and_settle] returned *)
| WorkerPanics (index : nat)
| DrainCompletes
| DrainTimesOut.
Arguments pool_event W : clear implicits.

Inductive outcome := Next (p : pool) | Panic | Disabled.

Definition with_engine (p : pool) (e : engine) : pool :=
  mk_pool (chan p) (workers p) e (cancelled p) (admitted p) (invoked p) (skipped p) (settled p) (lost p).
(** The end of the loop: [shutdown.cancel()], then [pool.drain()]. *)
Definition begin_drain (p : pool) (r : result WorkerSetupError unit) : pool :=
  mk_pool (chan p) (workers p) (EngineDraining r) true (admitted p) (invoked p) (skipped p) (settled p) (lost p).

Definition busy_task (w : worker) : option LeasedTask := match w with Busy t => Some t | _ => None end.
Definition running (p : pool) : list LeasedTask := omap busy_task (workers p).
Definition has_exited (w : worker) : bool := match w with Exited => true | _ => false end.

(** The loop of [run_task_worker]. *)
Definition worker_step {W} (p : pool) (ev : pool_event W) : outcome :=
  match ev with
  | WorkerReceives i =>
    match workers p !! i, chan p with
    | Some Idle, task :: rest =>
      if cancelled p then
        Next (mk_pool rest (<[i := Exited]> (workers p)) (engine_of p) true (admitted p) (invoked p)
                (skipped p ++ [task]) (settled p) (lost p))
      else Next (mk_pool rest (<[i := Busy task]> (workers p)) (engine_of p) false (admitted p)
                   (invoked p ++ [task]) (skipped p) (settled p) (lost p))
    | _, _ => Disabled
    end
  | WorkerStops i =>
    match workers p !! i with
    | Some Idle =>
      if cancelled p then
        Next (mk_pool (chan p) (<[i := Exited]> (workers p)) (engine_of p) true (admitted p) (invoked p)
                (skipped p) (settled p) (lost p))
      else Disabled
    | _ => Disabled
    end
  | WorkerSettles i =>
    match workers p !! i with
    | Some (Busy task) =>
      Next (mk_pool (chan p) (<[i := Idle]> (workers p)) (engine_of p) (cancelled p) (admitted p) (invoked p)
              (skipped p) (settled p ++ [task]) (lost p))
    | _ => Disabled
    end
  | WorkerPanics i =>
    match workers p !! i with
    | Some (Busy task) =>
      Next (mk_pool (chan p) (<[i := Exited]> (workers p)) (engine_of p) (cancelled p) (admitted p) (invoked p)
              (skipped p) (settled p) (lost p ++ [task]))
    | _ => Disabled
    end
  | _ => Disabled
  end.

(** [WorkerPool::drain]: all workers joined in time, or aborted. *)
Definition drain_step {W} (p : pool) (ev : pool_event W) : outcome :=
  match ev with
  | DrainCompletes =>
    match engine_of p with
    | EngineDraining r =>
      if forallb has_exited (workers p) then Next (with_engine p (EngineStopped r)) else Disabled
    | _ => Disabled
    end
  | DrainTimesOut =>
    match engine_of p with
    | EngineDraining r =>
      Next (mk_pool (chan p) ((fun _ => Exited) <$> workers p) (EngineStopped r) (cancelled p) (admitted p)
              (invoked p) (skipped p) (settled p) (lost p ++ running p))
    | _ => Disabled
    end
  | _ => Disabled
  end.

(** One event, for queue capacity [q] and the startup formats [fs]; those of
    the supervisor are the branches of the loop of [run_prepared]. *)
Definition pool_step {W} (q : Z) (fs : list TaskFormat) (p : pool) (ev : pool_event W) : outcome :=
  match ev with
  | ShutdownRequested =>
    Next (mk_pool (chan p) (workers p) (engine_of p) true (admitted p) (invoked p) (skipped p)
            (settled p) (lost p))
  | LoopBreaks =>
    match engine_of p with
    | Looping | Claiming _ => if cancelled p then Next (begin_drain p (Ok tt)) else Disabled
    | _ => Disabled
    end
  | ExitObserved i built =>
    match engine_of p, workers p !! i with
    | Looping, Some Exited =>
      match build_checked_dispatcher built fs (Z.of_nat i) with
      | Err e => Next (begin_drain p (Err e))
      | Ok _ =>
        if cancelled p then Next (begin_drain p (Ok tt))
        else Next (mk_pool (chan p) (<[i := Idle]> (workers p)) Looping false (admitted p) (invoked p)
                     (skipped p) (settled p) (lost p))
      end
    | _, _ => Disabled
    end
  | ClaimStarts =>
    match engine_of p with
    | Looping =>
      let limit := q - Z.of_nat (length (chan p)) in
      if cancelled p || (limit =? 0) then Disabled else Next (with_engine p (Claiming limit))
    | _ => Disabled
    end
  | ClaimReturns tasks =>
    match engine_of p with
    | Claiming limit =>
      if cancelled p then Next (begin_drain p (Ok tt))
      else if limit <? Z.of_nat (length tasks) then Panic
      else if q <? Z.of_nat (length (chan p ++ tasks)) then Panic
      else Next (mk_pool (chan p ++ tasks) (workers p) Looping false (admitted p ++ tasks) (invoked p)
                   (skipped p) (settled p) (lost p))
    | _ => Disabled
    end
  | ClaimFails =>
    match engine_of p with Claiming _ => Next (with_engine p Looping) | _ => Disabled end
  | WorkerReceives _ | WorkerStops _ | WorkerSettles _ | WorkerPanics _ => worker_step p ev
  | DrainCompletes | DrainTimesOut => drain_step p ev
  end.

Definition pool_start (c : Z) : pool :=
  mk_pool [] (replicate (Z.to_nat c) Idle) Looping false [] [] [] [] [].

(** The claims that can return: those the queue's limit allows. *)
Definition honest {W} (p : pool) (ev : pool_event W) : Prop :=
  match ev, engine_of p with
  | ClaimReturns tasks, Claiming limit => Z.of_nat (length tasks) <= limit
  | _, _ => True
  end.

Inductive pool_reach {W : Type} (q c : Z) (fs : list TaskFormat) : pool -> Prop :=
| reach_start : pool_reach q c fs (pool_start c)
| reach_step p (ev : pool_event W) p' :
    pool_reach q c fs p -> honest p ev -> pool_step q fs p ev = Next p' -> pool_reach q c fs p'.
Arguments pool_reach W q c fs p : clear implicits.

(** ** Lemmas *)

Lemma checked_dispatcher_ok {W} built fs k (d : TaskDispatcher W) :
  build_checked_dispatcher built fs k = Ok d -> built = Ok d /\ formats d = fs.
Proof.
  unfold build_checked_dispatcher. destruct built as [d'|]; simpl; [|done].
  case_bool_decide; [|done]. by intros [= <-].
Qed.

Lemma startup_dispatchers_ok {W} (factory : @TaskDispatcherFactory W) c ds :
  1 <= c -> startup_dispatchers factory c = Ok ds ->
  Z.of_nat (length ds) = c /\
  exists first, ds !! O = Some first /\
    forall k d, ds !! k = Some d -> factory k = Ok d /\ formats d = formats first.
Proof.
  intros Hc. unfold startup_dispatchers. destruct (factory O) as [first|] eqn:E0; simpl; [|done].
  destruct (collect _) as [rest|] eqn:Er; simpl; [|done]. intros [= <-].
  pose proof (collect_ok_length _ _ Er) as Hl. rewrite length_fmap, length_seq in Hl.
  apply collect_ok_Forall2 in Er. simpl. split; [lia|]. exists first. split; [done|].
  intros [|k] d Hd; simpl in Hd; [by simplify_eq|].
  destruct (Forall2_lookup_r _ _ _ _ _ Er Hd) as (m & Hm & Hb).
  rewrite list_lookup_fmap in Hm. apply fmap_Some in Hm as (j & [-> Hj]%lookup_seq & ->).
  by apply checked_dispatcher_ok in Hb.
Qed.

(** Preparation.  A prepared runtime holds exactly [C] dispatchers, the
    [k]-th made by the [k]-th call of the factory, all with the formats of the
    first in the same order, so every worker handles whatever the poller
    claims; any construction error or mismatch is reported with the worker it
    belongs to and nothing is prepared. *)
Theorem prepared_runtime_is_uniform {W} (factory : @TaskDispatcherFactory W) (config : TaskRuntimeConfig) :
  1 <= concurrency (rc_worker config) ->
  match prepare factory config with
  | Ok rt =>
    Z.of_nat (length (tr_dispatchers rt)) = concurrency (rc_worker config) /\
    tr_config rt = rc_worker config /\
    storage_timeout (tr_executor rt) = sc_storage_timeout (rc_storage config) /\
    exists first, tr_dispatchers rt !! O = Some first /\
      forall k d, tr_dispatchers rt !! k = Some d -> factory k = Ok d /\ formats d = formats first
  | Err (Build k e) => exists n, k = Z.of_nat n /\ factory n = Err e
  | Err (FormatsMismatch k) => exists n d first, k = Z.of_nat n /\ factory n = Ok d /\
      factory O = Ok first /\ formats d <> formats first
  end.
Proof.
  intros Hc. unfold prepare. destruct (startup_dispatchers factory _) as [ds|e] eqn:Es; simpl.
  - destruct (startup_dispatchers_ok _ _ _ Hc Es) as (Hl & first & H0 & Hk). split_and!; eauto.
  - unfold startup_dispatchers in Es. destruct (factory O) as [first|e0] eqn:E0; simplify_eq/=.
    2:{ exists O. done. }
    destruct (collect _) as [rest|e'] eqn:Er; simplify_eq/=.
    assert (Hex : exists k, build_checked_dispatcher (factory k) (formats first) (Z.of_nat k) = Err e).
    { clear -Er. revert Er. generalize (seq 1 (Z.to_nat (concurrency (rc_worker config) - 1))) as l.
      induction l as [|k l IH]; simpl; [done|].
      destruct (build_checked_dispatcher _ _ _) as [d|e'] eqn:Eb; simpl; [|intros [= ->]; eauto].
      destruct (collect _); simpl; [done|]. intros [= ->]. by apply IH. }
    destruct Hex as (k & Hb). unfold build_checked_dispatcher in Hb.
    destruct (factory k) as [d|ek] eqn:Ek; simplify_eq/=; [|eauto].
    case_bool_decide; simplify_eq. exists k, d, first. done.
Qed.

(** *** The poller *)

Section PollerProperties.
Context {W : Type} `{TaskClaimLaws W}.

Lemma timed_claim_limit race format owner limit lease w tasks w' :
  0 <= limit -> timed_claim race format owner limit lease w = (Ok tasks, w') ->
  Z.of_nat (length tasks) <= limit.
Proof. destruct race; simpl; intros; [by eapply claim_limit_honoured|done..]. Qed.

Lemma format_index_lt start count offset : (0 < count)%nat -> (format_index start count offset < count)%nat.
Proof.
  intros Hc. unfold format_index.
  pose proof (Z.mod_pos_bound (usize_wrapping_add start (Z.of_nat offset)) (Z.of_nat count) ltac:(lia)). lia.
Qed.

Lemma claim_formats_spec fs start owner limit lease races offsets claimed w :
  Z.of_nat (length claimed) <= limit -> Forall (fun o => (o < length fs)%nat) offsets ->
  exists res w', claim_formats fs start owner limit lease races offsets claimed w = Some (res, w') /\
    match res with
    | Ok tasks => Z.of_nat (length tasks) <= limit /\ exists more, tasks = claimed ++ more
    | Err _ => claimed = []
    end.
Proof.
  revert claimed w. induction offsets as [|o offsets IH]; intros claimed w Hl Ho; simpl.
  { eexists _, _. split; [done|]. split; [done|]. exists []. by rewrite app_nil_r. }
  inversion Ho as [|? ? Ho1 Ho2]; subst.
  destruct (Z.eqb_spec (Z.of_nat (length claimed)) limit) as [He|Hne].
  { eexists _, _. split; [done|]. split; [done|]. exists []. by rewrite app_nil_r. }
  destruct (lookup_lt_is_Some_2 fs (format_index start (length fs) o)) as [f ->].
  { apply format_index_lt. lia. }
  simpl. destruct (timed_claim _ _ _ _ _ _) as [[tasks|e] w1] eqn:Et.
  - apply timed_claim_limit in Et; [|lia].
    destruct (IH (claimed ++ tasks) w1) as (res & w' & Hrun & Hres); [rewrite length_app; lia|done|].
    exists res, w'. split; [done|]. destruct res as [all|].
    + destruct Hres as (Hall & more & ->). split; [done|]. exists (tasks ++ more). by rewrite (assoc_L (++)).
    + apply app_eq_nil in Hres as [-> ->]. done.
  - eexists _, _. split; [done|]. destruct claimed as [|t ts]; [done|]. split; [done|].
    exists []. by rewrite app_nil_r.
Qed.

Lemma claim_formats_err fs start owner limit lease races offsets claimed w e w' :
  claim_formats fs start owner limit lease races offsets claimed w = Some (Err e, w') -> claimed = [].
Proof.
  revert claimed w. induction offsets as [|o offsets IH]; intros claimed w; simpl; [done|].
  case_match; [done|]. destruct (fs !! _); simpl; [|done].
  destruct (timed_claim _ _ _ _ _ _) as [[tasks|e'] w1].
  - intros Hr%IH. by apply app_eq_nil in Hr as [-> _].
  - by destruct claimed.
Qed.

(** Polling.  A poll never panics and never returns more than the limit; an
    error is reported only when no task was claimed, so confirmed deliveries
    are never dropped by a later failure; and the start of the rotation moves
    on by one with every poll, whatever its outcome. *)
Theorem poll_keeps_confirmed_tasks (self : Poller) (now : Instant.t) (owner : rstr) (limit : Z)
    (lease : Duration.t) (races : nat -> settle_race) (w : W) :
  0 <= limit -> now + p_storage_timeout self <= INSTANT_MAX ->
  exists res self' w', poller_claim self now owner limit lease races w = Some (res, self', w') /\
    next_format_start self' = usize_wrapping_add (next_format_start self) 1 /\
    p_formats self' = p_formats self /\
    match res with
    | Ok tasks => Z.of_nat (length tasks) <= limit
    | Err e =>
      (* the failing claim was the first to answer with anything *)
      exists before o after, seq 0 (length (p_formats self)) = before ++ o :: after /\
        exists f w1 w2, p_formats self !! format_index (next_format_start self)
                          (length (p_formats self)) o = Some f /\
          claim_formats (p_formats self) (next_format_start self) owner limit lease races before [] w
            = Some (Ok [], w1) /\
          timed_claim (races o) f owner limit lease w1 = (Err e, w2)
    end.
Proof.
  intros Hl Hn. unfold poller_claim, Instant.checked_add. rewrite checked_le by done. simpl.
  set (fs := p_formats self). set (start := next_format_start self).
  destruct (claim_formats_spec fs start owner limit lease races (seq 0 (length fs)) [] w) as (res & w' & Hrun & Hres);
    [simpl; lia| |].
  { apply Forall_forall. intros o Ho%elem_of_seq. lia. }
  rewrite Hrun. simpl. eexists _, _, _. split; [done|]. split; [done|]. split; [done|].
  destruct res as [tasks|e]; [apply Hres|]. clear Hres Hn.
  assert (Hgen : forall offsets w, claim_formats fs start owner limit lease races offsets [] w = Some (Err e, w') ->
    exists before o after, offsets = before ++ o :: after /\
      exists f w1 w2, fs !! format_index start (length fs) o = Some f /\
        claim_formats fs start owner limit lease races before [] w = Some (Ok [], w1) /\
        timed_claim (races o) f owner limit lease w1 = (Err e, w2)); [|by apply Hgen].
  clear w Hrun. induction offsets as [|o offsets IH]; intros w; [done|].
  cbn [claim_formats length app]. rewrite Z.sub_0_r.
  destruct (Z.eqb_spec (Z.of_nat 0) limit) as [He|Hne]; [done|].
  destruct (fs !! _) as [f|] eqn:Ef; simpl; [|done].
  destruct (timed_claim (races o) f owner limit lease w) as [[tasks|e'] w1] eqn:Et.
  - destruct tasks as [|t ts].
    + intros (before & o' & after & -> & f' & w2 & w3 & Hf' & Hb & Ht)%IH.
      exists (o :: before), o', after. split; [done|]. exists f', w2, w3. split_and!; [done| |done].
      cbn [claim_formats length app]. rewrite (proj2 (Z.eqb_neq _ _)) by done. rewrite Ef. simpl.
      by rewrite Z.sub_0_r, Et.
    + by intros ?%claim_formats_err.
  - intros [= -> ->]. exists [], o, offsets. split; [done|]. exists f, w, w'. split_and!; done.
Qed.
End PollerProperties.

(** Rotation is fair.  The [k]-th poll asks for the formats in cyclic order
    starting at the [k mod n]-th, each exactly once, for every number of polls
    below the word size; so in [n] consecutive polls each format has the first
    claim on the capacity once. *)
Theorem poll_rotates_fairly (n : nat) (k : Z) :
  (0 < n)%nat -> 0 <= k -> k + Z.of_nat n <= 2 ^ 64 ->
  Nat.iter (Z.to_nat k) (fun start => usize_wrapping_add start 1)
    (next_format_start (poller_new [] 0)) = k /\
  (forall offset, (offset < n)%nat ->
     format_index k n offset = Z.to_nat ((k + Z.of_nat offset) mod Z.of_nat n)) /\
  (format_index k n <$> seq 0 n) ≡ₚ seq 0 n.
Proof.
  intros Hn Hk Hmax.
  assert (Hidx : forall offset, (offset < n)%nat ->
     format_index k n offset = Z.to_nat ((k + Z.of_nat offset) mod Z.of_nat n)).
  { intros offset Ho. unfold format_index, usize_wrapping_add.
    by rewrite (Z.mod_small (k + Z.of_nat offset)) by lia. }
  split_and!; [|done|].
  - assert (Hit : forall m, (Z.of_nat m < 2 ^ 64) ->
      Nat.iter m (fun start => usize_wrapping_add start 1) 0 = Z.of_nat m).
    { induction m as [|m IH]; intros Hm; [done|]. simpl Nat.iter. rewrite IH by lia.
      unfold usize_wrapping_add. rewrite Z.mod_small by lia. lia. }
    simpl. rewrite Hit by lia. lia.
  - symmetry. apply submseteq_length_Permutation; [|by rewrite length_fmap].
    apply NoDup_submseteq; [apply NoDup_seq|]. intros x Hx%elem_of_seq.
    apply list_elem_of_fmap. exists (Z.to_nat ((Z.of_nat x - k) mod Z.of_nat n)).
    pose proof (Z.mod_pos_bound (Z.of_nat x - k) (Z.of_nat n) ltac:(lia)) as Hb.
    split; [|apply elem_of_seq; lia]. rewrite Hidx by lia.
    rewrite Z2Nat.id by lia. rewrite Zplus_mod_idemp_r.
    replace (k + (Z.of_nat x - k)) with (Z.of_nat x) by lia. rewrite Z.mod_small by lia. lia.
Qed.

(** *** The pool *)

Lemma running_insert p i w t :
  workers p !! i = Some w ->
  omap busy_task (<[i := t]> (workers p)) ++ option_list (busy_task w)
  ≡ₚ option_list (busy_task t) ++ running p.
Proof.
  unfold running. intros Hi. rewrite insert_take_drop by (by eapply lookup_lt_Some).
  rewrite <- (take_drop_middle (workers p) i w Hi) at 3. rewrite !omap_app. simpl.
  destruct (busy_task w), (busy_task t); simpl; solve_Permutation.
Qed.

(** Capacity, order and conservation of the admitted deliveries. *)
Record pool_inv (q c : Z) (p : pool) : Prop := {
  pi_workers : Z.of_nat (length (workers p)) = c;
  pi_capacity : Z.of_nat (length (chan p)) <= q;
  pi_claim l : engine_of p = Claiming l -> 0 < l /\ Z.of_nat (length (chan p)) + l <= q;
  pi_fifo : admitted p = invoked p ++ skipped p ++ chan p;
  pi_skipped : cancelled p = false -> skipped p = [];
  pi_invoked : invoked p ≡ₚ settled p ++ running p ++ lost p;
  pi_draining r : engine_of p = EngineDraining r -> cancelled p = true;
  pi_stopped r : engine_of p = EngineStopped r ->
    cancelled p = true /\ Forall (fun w => w = Exited) (workers p);
}.
(** A worker that changes without starting or ending an execution. *)
Lemma running_same p i w t :
  workers p !! i = Some w -> busy_task w = None -> busy_task t = None ->
  omap busy_task (<[i := t]> (workers p)) ≡ₚ running p.
Proof.
  intros Hi Hw Ht. pose proof (running_insert p i w t Hi) as Hr. rewrite Hw, Ht in Hr. simpl in Hr.
  by rewrite app_nil_r in Hr.
Qed.

Lemma running_begins p i task :
  workers p !! i = Some Idle -> omap busy_task (<[i := Busy task]> (workers p)) ≡ₚ task :: running p.
Proof.
  intros Hi. pose proof (running_insert p i Idle (Busy task) Hi) as Hr. simpl in Hr.
  by rewrite app_nil_r in Hr.
Qed.

Lemma running_ends p i task t :
  workers p !! i = Some (Busy task) -> busy_task t = None ->
  running p ≡ₚ task :: omap busy_task (<[i := t]> (workers p)).
Proof.
  intros Hi Ht. pose proof (running_insert p i (Busy task) t Hi) as Hr. rewrite Ht in Hr. simpl in Hr.
  rewrite <- Hr. by rewrite Permutation_app_comm.
Qed.

Lemma exited_none (l : list worker) : omap busy_task ((fun _ => Exited) <$> l) = [].
Proof. by induction l. Qed.

(** An active worker means the supervisor has not stopped. *)
Lemma active_not_stopped q c p i w r :
  pool_inv q c p -> workers p !! i = Some w -> w <> Exited -> engine_of p <> EngineStopped r.
Proof.
  intros Hi Hw Hne He. destruct (pi_stopped _ _ _ Hi r He) as [_ Hf].
  by apply (Forall_lookup_1 _ _ _ _ Hf) in Hw.
Qed.

Lemma begin_drain_inv q c p r : pool_inv q c p -> pool_inv q c (begin_drain p r).
Proof. intros []. by constructor. Qed.

(** The workers' own events. *)
Lemma worker_event_inv {W} q c fs p (ev : pool_event W) p' :
  pool_inv q c p -> pool_step q fs p ev = Next p' ->
  match ev with WorkerReceives _ | WorkerStops _ | WorkerSettles _ | WorkerPanics _ => True | _ => False end ->
  pool_inv q c p'.
Proof.
  intros Hi Hp Hev. pose proof (fun i w r => active_not_stopped q c p i w r Hi) as Hact.
  destruct Hi as [H1 H2 H3 H4 H5 H6 H7 H8].
  destruct ev as [| | | | | |i|i|i|i| |]; try done; simpl in Hp;
    destruct (workers p !! i) as [[|task|]|] eqn:Ei; try discriminate Hp.
  - destruct (chan p) as [|task rest] eqn:Ech; [done|]. destruct (cancelled p) eqn:Ec; injection Hp as <-;
      constructor; simpl in *; rewrite ?length_insert; try done; try lia.
    + intros l Hl. specialize (H3 l Hl). lia.
    + rewrite H4. by rewrite <- !(assoc_L (++)).
    + unfold running; simpl. rewrite (running_same p i Idle) by done. done.
    + intros r Hr. by destruct (Hact i Idle r).
    + intros l Hl. specialize (H3 l Hl). lia.
    + rewrite H4, (H5 eq_refl). by rewrite <- !(assoc_L (++)).
    + unfold running; simpl. rewrite (running_begins p i task) by done. rewrite H6. solve_Permutation.
    + intros r Hr. by destruct (Hact i Idle r).
  - destruct (cancelled p) eqn:Ec; [|done]. injection Hp as <-.
    constructor; simpl in *; rewrite ?length_insert; try done.
    + unfold running; simpl. rewrite (running_same p i Idle) by done. done.
    + intros r Hr. by destruct (Hact i Idle r).
  - injection Hp as <-. constructor; simpl in *; rewrite ?length_insert; try done.
    + unfold running; simpl. rewrite H6. unfold running at 1. rewrite (running_ends p i task Idle) by done.
      solve_Permutation.
    + intros r Hr. by destruct (Hact i (Busy task) r).
  - injection Hp as <-. constructor; simpl in *; rewrite ?length_insert; try done.
    + unfold running; simpl. rewrite H6. unfold running at 1. rewrite (running_ends p i task Exited) by done.
      solve_Permutation.
    + intros r Hr. by destruct (Hact i (Busy task) r).
Qed.

Lemma pool_inv_step {W} q c fs p (ev : pool_event W) p' :
  pool_inv q c p -> honest p ev -> pool_step q fs p ev = Next p' -> pool_inv q c p'.
Proof.
  intros Hi Hh Hp.
  destruct ev as [| |i built| |tasks| |i|i|i|i| |];
    try exact (worker_event_inv q c fs p _ p' Hi Hp I); simpl in Hp.
  - injection Hp as <-. destruct Hi. constructor; simpl; try done. intros r Hr. by destruct (pi_stopped0 r Hr).
  - destruct (engine_of p); try done; destruct (cancelled p); try done; injection Hp as <-;
      by apply begin_drain_inv.
  - destruct (engine_of p) eqn:Ee; try done. destruct (workers p !! i) as [[| |]|] eqn:Ei; try done.
    destruct (build_checked_dispatcher _ _ _) as [d|e]; [|injection Hp as <-; by apply begin_drain_inv].
    destruct (cancelled p) eqn:Ec; injection Hp as <-; [by apply begin_drain_inv|].
    destruct Hi. constructor; simpl; rewrite ?length_insert; try done.
    + intros _. by apply pi_skipped0.
    + unfold running; simpl. rewrite (running_same p i Exited) by done. done.
  - destruct (engine_of p) eqn:Ee; try done.
    destruct (cancelled p || (q - Z.of_nat (length (chan p)) =? 0)) eqn:Ec; [done|].
    injection Hp as <-. zify_bool. destruct Hi. constructor; simpl; try done. intros l [= <-]. lia.
  - simpl in Hh. destruct (engine_of p) as [|limit| |] eqn:Ee; try done.
    destruct (pi_claim _ _ _ Hi limit Ee). destruct (cancelled p) eqn:Ec.
    { injection Hp as <-. by apply begin_drain_inv. }
    rewrite length_app in Hp. rewrite (proj2 (Z.ltb_ge limit _)) in Hp by lia.
    rewrite (proj2 (Z.ltb_ge q _)) in Hp by lia. injection Hp as <-.
    destruct Hi. constructor; simpl; rewrite ?length_app; try done; [lia| |].
    + rewrite pi_fifo0, (pi_skipped0 Ec). by rewrite !app_nil_l, (assoc_L (++)).
    + intros _. by apply pi_skipped0.
  - destruct (engine_of p) eqn:Ee; try done. injection Hp as <-. destruct Hi. by constructor.
  - destruct (engine_of p) as [| |r|] eqn:Ee; try done.
    destruct (forallb has_exited (workers p)) eqn:Ef; [|done]. injection Hp as <-.
    pose proof (pi_draining _ _ _ Hi r Ee) as Hc. destruct Hi. constructor; simpl; try done.
    intros _ _. split; [done|]. apply Forall_forall. intros w Hw.
    rewrite forallb_forall in Ef. apply list_elem_of_In, Ef in Hw. by destruct w.
  - destruct (engine_of p) as [| |r|] eqn:Ee; try done. injection Hp as <-.
    pose proof (pi_draining _ _ _ Hi r Ee) as Hc. destruct Hi.
    constructor; simpl; rewrite ?length_fmap; try done.
    + unfold running at 1; simpl. rewrite exited_none, pi_invoked0. solve_Permutation.
    + intros _ _. split; [done|]. apply Forall_fmap, Forall_true. done.
Qed.

Lemma pool_reach_inv {W} q c fs p : 0 <= q -> 0 <= c -> pool_reach W q c fs p -> pool_inv q c p.
Proof.
  intros Hq Hc. induction 1 as [|p ev p' _ IH Hh Hp]; [|by eapply pool_inv_step].
  constructor; simpl; try done; [rewrite length_replicate; lia|].
  unfold running; simpl. generalize (Z.to_nat c) as n. by induction n.
Qed.

(** C31: admission is bounded and no delivery is lost by the pool.  In every
    state the supervisor can reach, through panics, restarts and shutdown, at
    most [Q] claimed deliveries wait and at most [C] run; none of its
    assertions can fail; every admitted delivery is, in order of admission,
    executed once, or taken unexecuted by a stopping worker, or still waiting;
    and every executed one was settled, is running, or is accounted for as
    interrupted with its worker. *)
Theorem admission_is_bounded {W} (q c : Z) (fs : list TaskFormat) (p : pool) :
  0 < q -> 0 < c -> pool_reach W q c fs p ->
  Z.of_nat (length (chan p)) <= q /\ Z.of_nat (length (running p)) <= c /\
  admitted p = invoked p ++ skipped p ++ chan p /\
  (cancelled p = false -> skipped p = []) /\
  invoked p ≡ₚ settled p ++ running p ++ lost p /\
  (forall ev : pool_event W, honest p ev -> pool_step q fs p ev <> Panic).
Proof.
  intros Hq Hc Hr. pose proof (pool_reach_inv q c fs p ltac:(lia) ltac:(lia) Hr) as Hi.
  split_and!; try apply Hi.
  - rewrite <- (pi_workers _ _ _ Hi). unfold running. clear.
    induction (workers p) as [|[] l IH]; cbn in *; lia.
  - intros ev Hh. destruct ev; simpl in *; try (by repeat case_match).
    destruct (engine_of p) as [|limit| |] eqn:Ee; try done. destruct (pi_claim _ _ _ Hi limit Ee).
    destruct (cancelled p); [done|]. rewrite length_app.
    rewrite (proj2 (Z.ltb_ge _ _)) by lia. rewrite (proj2 (Z.ltb_ge _ _)) by lia. done.
Qed.

(** C32: shutdown.  Once the token is cancelled it stays so: nothing more is
    claimed, admitted or begun, no worker is restarted, and running deliveries
    are left to finish until the drain deadline; the drain can always end, and
    when the supervisor has stopped it reports the result it began draining
    with and no worker is left.  A worker that cannot be rebuilt cancels the
    token and is that result. *)
Theorem shutdown_stops_admission {W} (q c : Z) (fs : list TaskFormat) (p p' : pool) (ev : pool_event W) :
  0 < q -> 0 < c -> pool_reach W q c fs p -> honest p ev -> pool_step q fs p ev = Next p' ->
  (cancelled p = true ->
     cancelled p' = true /\ admitted p' = admitted p /\ invoked p' = invoked p /\
     (forall i t, workers p' !! i = Some (Busy t) -> workers p !! i = Some (Busy t)) /\
     (forall i, workers p !! i = Some Exited -> workers p' !! i = Some Exited)) /\
  (forall r, engine_of p = EngineDraining r ->
     exists p1, pool_step q fs p (DrainTimesOut (W:=W)) = Next p1 /\ engine_of p1 = EngineStopped r) /\
  (forall r, engine_of p' = EngineStopped r ->
     Forall (fun w => w = Exited) (workers p') /\
     (engine_of p = EngineDraining r \/ engine_of p = EngineStopped r)) /\
  (forall e, engine_of p' = EngineDraining (Err e) -> engine_of p <> EngineDraining (Err e) ->
     cancelled p' = true /\ exists i built, workers p !! i = Some Exited /\
       build_checked_dispatcher (W:=W) built fs (Z.of_nat i) = Err e).
Proof.
  intros Hq Hc Hr Hh Hp. pose proof (pool_reach_inv q c fs p ltac:(lia) ltac:(lia) Hr) as Hi.
  pose proof (pool_inv_step q c fs p ev p' Hi Hh Hp) as Hi'. split_and!.
  - intros Hcan. clear Hi Hi' Hr Hh.
    destruct ev; simpl in Hp; rewrite ?Hcan in Hp; simpl in Hp; repeat case_match; simplify_eq/=;
      split_and!; try done; intros j.
    all: try (intros t; rewrite list_lookup_insert_Some; naive_solver).
    all: try (intros Hj; rewrite list_lookup_insert_ne; [done|congruence]).
    all: rewrite list_lookup_fmap; destruct (workers p !! j); naive_solver.
  - intros r Hd. simpl. rewrite Hd. by eexists.
  - intros r Hst. split; [by apply (pi_stopped _ _ _ Hi' r)|].
    clear Hi Hi' Hr Hh. destruct ev; simpl in Hp; repeat case_match; simplify_eq/=; auto; congruence.
  - intros e Hd Hne. split; [by apply (pi_draining _ _ _ Hi' (Err e))|].
    clear Hi Hi' Hr Hh. destruct ev; simpl in Hp; repeat case_match; simplify_eq/=; first [congruence|eauto].
Qed.

(** ** The PostgreSQL queue implements the claiming port *)

Definition postgres_claim_port (env : claim_env) : TaskClaimPort db :=
  {| queue_claim format owner limit lease d := claim env format owner limit lease d |}.

Lemma select_length o keep key limit :
  0 <= limit -> Z.of_nat (length (select_for_update o keep key limit)) <= limit.
Proof. intros. unfold select_for_update. rewrite length_fmap, length_take. lia. Qed.

Lemma claim_rows_length env owner ms ids o rows o' :
  claim_rows env owner ms ids o = Ok (rows, o') -> (length rows <= length ids)%nat.
Proof.
  revert o rows o'. induction ids as [|i ids IH]; intros o rows o'; simpl; [by intros [= <- _]|].
  destruct (o !! i) as [r|]; [|intros H%IH; lia].
  destruct (timestamp _); simpl; [|done]. destruct (update_row _ _ _) as [o1|]; simpl; [|done].
  destruct (claim_rows _ _ _ _ o1) as [[rows1 o2]|] eqn:E; simpl; [|done].
  intros [= <- _]. simpl. apply IH in E. lia.
Qed.

Lemma postgres_claim_laws env : @TaskClaimLaws db (postgres_claim_port env).
Proof.
  split. intros format owner limit lease d tasks d' Hl. simpl. unfold claim.
  case_match; [done|]. destruct (Instant.checked_add _ _) as [deadline|]; [|done].
  unfold i64_limit. destruct (limit <=? i64_MAX); [|done]. intros Hc.
  apply in_transaction_cases in Hc as [[_ ?]|(x & Hb & [[= <-]|?])]; [done| |done].
  destruct (milliseconds _ _); [|done]. destruct (statement _); [|done]. cbn [mbind result_bind] in Hb.
  destruct (claim_rows _ _ _ _ _) as [[rows o]|] eqn:Er; [|done]. cbn [mbind result_bind] in Hb.
  destruct (collect _) as [ts|] eqn:Ec; [|done]. cbn [mbind result_bind] in Hb. simplify_eq.
  apply collect_ok_length in Ec. rewrite length_fmap in Ec. apply claim_rows_length in Er.
  pose proof (select_length (outbox d) (ready env format) ob_available_at limit Hl). lia.
Qed.

(** ** Examples *)

Definition ex_leased2 : LeasedTask := {|
  lt_attempt := lt_attempt ex_leased; lt_lease := {| lock_token := 102%N; lease_deadline := 0 |} |}.

(** Two deliveries arrive; the single worker takes the first. *)
Definition ex_pool : pool :=
  mk_pool [ex_leased2] [Busy ex_leased] Looping false [ex_leased; ex_leased2] [ex_leased] [] [] [].

Lemma ex_pool_reach : pool_reach db 2 1 [ex_format] ex_pool.
Proof.
  pose (p1 := mk_pool [] [Idle] (Claiming 2) false [] [] [] [] []).
  pose (p2 := mk_pool [ex_leased; ex_leased2] [Idle] Looping false [ex_leased; ex_leased2] [] [] [] []).
  assert (H1 : pool_reach db 2 1 [ex_format] p1)
    by (by apply (reach_step 2 1 _ (pool_start 1) ClaimStarts); [apply reach_start|..]).
  assert (H2 : pool_reach db 2 1 [ex_format] p2)
    by (by apply (reach_step 2 1 _ p1 (ClaimReturns [ex_leased; ex_leased2]))).
  by apply (reach_step 2 1 _ p2 (WorkerReceives 0)).
Qed.

Lemma admission_is_bounded_witness :
  Z.of_nat (length (chan ex_pool)) <= 2 /\ Z.of_nat (length (running ex_pool)) <= 1.
Proof.
  destruct (admission_is_bounded 2 1 [ex_format] ex_pool ltac:(done) ltac:(done) ex_pool_reach) as (H1 & H2 & _).
  exact (conj H1 H2).
Defined.

Definition ex_stopping : pool :=
  mk_pool (chan ex_pool) (workers ex_pool) Looping true (admitted ex_pool) (invoked ex_pool) [] [] [].
Lemma ex_stopping_reach : pool_reach db 2 1 [ex_format] ex_stopping.
Proof. by apply (reach_step 2 1 _ ex_pool ShutdownRequested); [apply ex_pool_reach|..]. Qed.

Lemma shutdown_stops_admission_witness :
  exists p', pool_step 2 [ex_format] ex_stopping (WorkerSettles (W:=db) 0) = Next p' /\
    invoked p' = invoked ex_stopping.
Proof.
  eexists. split; [reflexivity|].
  apply (shutdown_stops_admission 2 1 [ex_format] ex_stopping _ (WorkerSettles (W:=db) 0)
    ltac:(done) ltac:(done) ex_stopping_reach I eq_refl). reflexivity.
Defined.

Lemma poll_rotates_fairly_witness : (format_index 5 3 <$> seq 0 3) ≡ₚ seq 0 3.
Proof. apply (poll_rotates_fairly 3 5); lia. Defined.

Definition ex_poller : Poller := poller_new [ex_format] (Duration.from_secs 1).

Lemma poll_keeps_confirmed_tasks_witness :
  exists res self' d', @poller_claim db (postgres_claim_port ex_claim) ex_poller 0 (§"w") 2 ex_lease
    (fun _ => Answered) ex_db = Some (res, self', d').
Proof.
  destruct (@poll_keeps_confirmed_tasks db (postgres_claim_port ex_claim) (postgres_claim_laws ex_claim)
    ex_poller 0 (§"w") 2 ex_lease (fun _ => Answered) ex_db ltac:(lia) ltac:(by vm_compute))
    as (res & self' & d' & E & _).
  exists res, self', d'. exact E.
Defined.

Definition ex_runtime_config : TaskRuntimeConfig :=
  {| rc_storage := {| sc_storage_timeout := Duration.from_secs 6 |}; rc_worker := ex_worker |}.

Lemma prepared_runtime_is_uniform_witness :
  match prepare (fun _ => Ok ex_dispatcher) ex_runtime_config with
  | Ok rt => Z.of_nat (length (tr_dispatchers rt)) = 128
  | Err _ => False
  end.
Proof.
  pose proof (prepared_runtime_is_uniform (fun _ => Ok ex_dispatcher) ex_runtime_config ltac:(done)) as Hp.
  destruct (prepare _ _) as [rt|[k e|k]] eqn:E.
  - exact (proj1 Hp).
  - exfalso. destruct Hp as (n & _ & Hn). discriminate Hn.
  - exfalso. destruct Hp as (n & d & first & _ & [= <-] & [= <-] & Hne). by apply Hne.
Defined.
