(* ===== verification/WorkerPool.v ===== *)
(** * The worker pool

    [cqrs-runtime/src/runtime/worker_pool.rs] and the loop of
    [runtime/supervisor.rs] that drives it, on the structures the code keeps:
    the [JoinSet] of worker tasks by their Tokio IDs, the map from IDs to worker
    indices, the channel with its closed flag and the stored wake-up of the
    [Notify].  [Supervisor] describes the same loop by worker index; here that
    description is shown to be implemented, so its bounds hold of the code's own
    structures.

    Tokio is known by its documented behaviour: a [JoinSet] holds a task until
    it is joined, any ended task may be joined next, a spawned task has an ID no
    task of the set has, [abort] ends a task, and [notify_one] stores at most one
    wake-up, which the next [notified] takes. *)

From S2P Require Import Prelude DomainValues FloatTime TaskData Database EventRepository.
From S2P Require Import TaskQueue TaskHandling TaskExecutor CommandRetry RuntimeConfig Supervisor.
#[local] Open Scope Z_scope.

Abbreviation Id := N.

(** How a Tokio task ends. *)
Inductive ending := Returned | Panicked | Aborted.
#[export] Instance ending_eq_dec : EqDecision ending.
Proof. solve_decision. Defined.

(** Where the loop of [run_task_worker] is. *)
Inductive worker_state := Receiving | Executing (task : LeasedTask) | Ended (how : ending).

(** [WorkerExit] *)
Record WorkerExit := {
  we_index : nat;
  we_tokio_task_id : Id;
  we_panicked : bool;
  we_cancelled : bool;
}.

Definition ended (s : worker_state) : bool := match s with Ended _ => true | _ => false end.

(** An awaited step: not ready, a panic, or its result. *)
Inductive polled (A : Type) := Pending | Panics | Ready (a : A).
Arguments Pending {A}.
Arguments Panics {A}.
Arguments Ready {A} a.

Section Pool.
Context {W : Type}.

(** A worker task owns its index and its dispatcher. *)
Record WorkerTask := {
  wt_index : nat;
  wt_dispatcher : TaskDispatcher W;
  wt_state : worker_state;
}.

(** [WorkerPool], without the handles it shares with the supervisor. *)
Record WorkerPool := {
  wp_workers : gmap Id WorkerTask;
  wp_worker_indices : gmap Id nat;
}.

(** [WorkerPool::new] *)
Definition worker_pool_new : WorkerPool := {| wp_workers := ∅; wp_worker_indices := ∅ |}.

(** [WorkerPool::spawn]; [id] is the ID Tokio gives the task. *)
Definition spawn (self : WorkerPool) (id : Id) (index : nat) (dispatcher : TaskDispatcher W) : WorkerPool := {|
  wp_workers := <[id := {| wt_index := index; wt_dispatcher := dispatcher; wt_state := Receiving |}]>
                  (wp_workers self);
  wp_worker_indices := <[id := index]> (wp_worker_indices self) |}.

(** [JoinSet::join_next_with_id] when [id] is the ended task it finds. *)
Definition join_next (workers : gmap Id WorkerTask) (id : Id) : option (ending * gmap Id WorkerTask) :=
  t ← workers !! id;
  match wt_state t with Ended how => Some (how, delete id workers) | _ => None end.

(** [WorkerPool::next_exit] *)
Definition next_exit (self : WorkerPool) (id : Id) : polled (WorkerExit * WorkerPool) :=
  match join_next (wp_workers self) id with
  | None => Pending
  | Some (how, workers) =>
    match wp_worker_indices self !! id with
    | None => Panics
    | Some index =>
      Ready ({| we_index := index; we_tokio_task_id := id;
                we_panicked := bool_decide (how = Panicked); we_cancelled := bool_decide (how = Aborted) |},
             {| wp_workers := workers; wp_worker_indices := delete id (wp_worker_indices self) |})
    end
  end.

(** ** The loop of [run_prepared] *)

Inductive phase :=
| Selecting                                    (* in the outer [select!] *)
| Recovering                                   (* in the tick's [select!] *)
| Polling                                      (* about to compute [limit] *)
| Claiming_ (limit : Z)
| Draining (r : result WorkerSetupError unit)  (* in [WorkerPool::drain] *)
| Finished (r : result WorkerSetupError unit).

(** [claimed_all] records that the last poll took everything it had room for;
    nothing in the code depends on it. *)
Record supervisor := mk_supervisor {
  s_pool : WorkerPool;
  s_queue : list LeasedTask;
  s_closed : bool;
  s_permit : bool;
  s_stop : bool;
  s_phase : phase;
  claimed_all : bool;
}.

Inductive sup_event :=
| StopRequested
| BreakTaken
| ExitTaken (id new_id : Id) (built : result TaskDispatcherError (TaskDispatcher W))
| TickFired
| RecoveryReturned
| NotifiedTaken
| LimitComputed
| ClaimReturned (tasks : list LeasedTask)
| ClaimFailed
| StopSeen (id : Id)
| Received (id : Id)
| ReceiveFailed (id : Id)
| Settled (id : Id)
| TaskPanicked (id : Id)
| Joined (id : Id)
| AllJoined
| DrainTimedOut.

Inductive sup_outcome := SNext (s : supervisor) | SPanic | SDisabled.

Definition with_phase (s : supervisor) (ph : phase) : supervisor :=
  mk_supervisor (s_pool s) (s_queue s) (s_closed s) (s_permit s) (s_stop s) ph (claimed_all s).

(** After the loop: [shutdown.cancel()], then the start of [drain], which
    cancels and closes the channel. *)
Definition leave_loop (s : supervisor) (r : result WorkerSetupError unit) : supervisor :=
  mk_supervisor (s_pool s) (s_queue s) true (s_permit s) true (Draining r) (claimed_all s).

(** The state of one worker task changes. *)
Definition set_state (self : WorkerPool) (id : Id) (st : worker_state) : WorkerPool := {|
  wp_workers := alter (fun t => {| wt_index := wt_index t; wt_dispatcher := wt_dispatcher t; wt_state := st |})
                  id (wp_workers self);
  wp_worker_indices := wp_worker_indices self |}.
Definition with_state (s : supervisor) (id : Id) (st : worker_state) : supervisor :=
  mk_supervisor (set_state (s_pool s) id st) (s_queue s) (s_closed s) (s_permit s) (s_stop s) (s_phase s)
    (claimed_all s).
Definition state_at (s : supervisor) (id : Id) : option worker_state :=
  wt_state <$> wp_workers (s_pool s) !! id.

(** The loop of one worker task. *)
Definition task_step (s : supervisor) (ev : sup_event) : sup_outcome :=
  match ev with
  | StopSeen id =>
    match state_at s id with
    | Some Receiving => if s_stop s then SNext (with_state s id (Ended Returned)) else SDisabled
    | _ => SDisabled
    end
  | Received id =>
    match state_at s id, s_queue s with
    | Some Receiving, task :: rest =>
      let s := mk_supervisor (s_pool s) rest (s_closed s) true (s_stop s) (s_phase s) (claimed_all s) in
      SNext (with_state s id (if s_stop s then Ended Returned else Executing task))
    | _, _ => SDisabled
    end
  | ReceiveFailed id =>
    match state_at s id, s_queue s with
    | Some Receiving, [] => if s_closed s then SNext (with_state s id (Ended Returned)) else SDisabled
    | _, _ => SDisabled
    end
  | Settled id =>
    match state_at s id with Some (Executing _) => SNext (with_state s id Receiving) | _ => SDisabled end
  | TaskPanicked id =>
    match state_at s id with Some (Executing _) => SNext (with_state s id (Ended Panicked)) | _ => SDisabled end
  | _ => SDisabled
  end.

(** [WorkerPool::drain] after closing the channel: tasks are joined until none
    is left or the time is over; then [shutdown] aborts and joins the rest. *)
Definition drain_tasks (s : supervisor) (ev : sup_event) : sup_outcome :=
  match s_phase s with
  | Draining r =>
    match ev with
    | Joined id =>
      match join_next (wp_workers (s_pool s)) id with
      | Some (_, workers) =>
        SNext (mk_supervisor {| wp_workers := workers; wp_worker_indices := wp_worker_indices (s_pool s) |}
                 (s_queue s) (s_closed s) (s_permit s) (s_stop s) (Draining r) (claimed_all s))
      | None => SDisabled
      end
    | AllJoined =>
      if decide (wp_workers (s_pool s) = ∅) then SNext (with_phase s (Finished r)) else SDisabled
    | DrainTimedOut =>
      SNext (mk_supervisor {| wp_workers := ∅; wp_worker_indices := wp_worker_indices (s_pool s) |}
               (s_queue s) (s_closed s) (s_permit s) (s_stop s) (Finished r) (claimed_all s))
    | _ => SDisabled
    end
  | _ => SDisabled
  end.

(** The branches of the [select!] loops; [q] is the queue capacity and [fs] the
    formats of the startup dispatchers. *)
Definition loop_step (q : Z) (fs : list TaskFormat) (s : supervisor) (ev : sup_event) : sup_outcome :=
  match ev, s_phase s with
  | BreakTaken, (Selecting | Recovering | Claiming_ _) =>
    if s_stop s then SNext (leave_loop s (Ok tt)) else SDisabled
  | ExitTaken id new_id built, Selecting =>
    match next_exit (s_pool s) id with
    | Pending => SDisabled
    | Panics => SPanic
    | Ready (exit, pool) =>
      let s := mk_supervisor pool (s_queue s) (s_closed s) (s_permit s) (s_stop s) Selecting (claimed_all s) in
      match build_checked_dispatcher built fs (Z.of_nat (we_index exit)) with
      | Err e => SNext (leave_loop s (Err e))
      | Ok dispatcher =>
        if s_stop s then SNext (leave_loop s (Ok tt))
        else SNext (mk_supervisor (spawn pool new_id (we_index exit) dispatcher) (s_queue s) (s_closed s)
                      (s_permit s) (s_stop s) Polling (claimed_all s))
      end
    end
  | TickFired, Selecting => SNext (if s_stop s then leave_loop s (Ok tt) else with_phase s Recovering)
  | RecoveryReturned, Recovering => SNext (with_phase s Polling)
  | NotifiedTaken, Selecting =>
    if s_permit s
    then SNext (mk_supervisor (s_pool s) (s_queue s) (s_closed s) false (s_stop s) Polling (claimed_all s))
    else SDisabled
  | LimitComputed, Polling =>
    let limit := q - Z.of_nat (length (s_queue s)) in
    SNext (if limit =? 0
           then mk_supervisor (s_pool s) (s_queue s) (s_closed s) (s_permit s) (s_stop s) Selecting true
           else if s_stop s then leave_loop s (Ok tt) else with_phase s (Claiming_ limit))
  | ClaimReturned tasks, Claiming_ limit =>
    if s_stop s then SNext (leave_loop s (Ok tt))
    else if limit <? Z.of_nat (length tasks) then SPanic
    else if s_closed s || (q <? Z.of_nat (length (s_queue s ++ tasks))) then SPanic
    else SNext (mk_supervisor (s_pool s) (s_queue s ++ tasks) (s_closed s) (s_permit s) (s_stop s) Selecting
                  (Z.of_nat (length tasks) =? limit))
  | ClaimFailed, Claiming_ _ =>
    SNext (mk_supervisor (s_pool s) (s_queue s) (s_closed s) (s_permit s) (s_stop s) Selecting false)
  | _, _ => SDisabled
  end.

Definition run_step (q : Z) (fs : list TaskFormat) (s : supervisor) (ev : sup_event) : sup_outcome :=
  match ev with
  | StopRequested =>
    SNext (mk_supervisor (s_pool s) (s_queue s) (s_closed s) (s_permit s) true (s_phase s) (claimed_all s))
  | StopSeen _ | Received _ | ReceiveFailed _ | Settled _ | TaskPanicked _ => task_step s ev
  | Joined _ | AllJoined | DrainTimedOut => drain_tasks s ev
  | _ => loop_step q fs s ev
  end.

(** [for (index, dispatcher) in dispatchers.into_iter().enumerate()] *)
Fixpoint spawn_all (pool : WorkerPool) (index : nat) (ids : list Id) (ds : list (TaskDispatcher W)) :
    WorkerPool :=
  match ids, ds with
  | id :: ids, d :: ds => spawn_all (spawn pool id index d) (S index) ids ds
  | _, _ => pool
  end.

Definition sup_start (ids : list Id) (ds : list (TaskDispatcher W)) : supervisor :=
  mk_supervisor (spawn_all worker_pool_new 0 ids ds) [] false false false Selecting false.

(** What Tokio and the queue promise about an event. *)
Definition sup_honest (s : supervisor) (ev : sup_event) : Prop :=
  match ev with
  | ExitTaken id new_id _ => new_id ∉ dom (delete id (wp_workers (s_pool s)))
  | ClaimReturned tasks =>
    match s_phase s with Claiming_ limit => Z.of_nat (length tasks) <= limit | _ => True end
  | _ => True
  end.
#[export] Instance sup_honest_dec s ev : Decision (sup_honest s ev).
Proof. destruct ev; simpl; try apply _. destruct (s_phase s); apply _. Defined.

(** The states of a run that started [ds] under the IDs [ids]. *)
Inductive sup_reach (q : Z) (fs : list TaskFormat) (ids : list Id) (ds : list (TaskDispatcher W)) :
    supervisor -> Prop :=
| sup_begin : sup_reach q fs ids ds (sup_start ids ds)
| sup_continue s ev s' :
    sup_reach q fs ids ds s -> sup_honest s ev -> run_step q fs s ev = SNext s' ->
    sup_reach q fs ids ds s'.
End Pool.
Arguments WorkerTask W : clear implicits.
Arguments WorkerPool W : clear implicits.
Arguments supervisor W : clear implicits.
Arguments sup_event W : clear implicits.
Arguments sup_outcome W : clear implicits.

(** ** Worker tasks by index *)

Definition view (s : worker_state) : worker :=
  match s with Receiving => Idle | Executing task => Busy task | Ended _ => Exited end.

Section Refinement.
Context {W : Type}.
Implicit Types (ts : gmap Id (WorkerTask W)) (ws : list worker).

(** The tasks [ts] are the workers [ws]: at most one task per worker, in the
    state of that worker, and every worker that has not exited has a task. *)
Record tasks_show ts ws : Prop := {
  ts_state id t : ts !! id = Some t -> ws !! wt_index t = Some (view (wt_state t));
  ts_alone id id' t t' : ts !! id = Some t -> ts !! id' = Some t' -> wt_index t = wt_index t' -> id = id';
  ts_present i w : ws !! i = Some w -> w <> Exited -> exists id t, ts !! id = Some t /\ wt_index t = i;
}.

Lemma show_set ts ws id t st :
  tasks_show ts ws -> ts !! id = Some t ->
  tasks_show (alter (fun t => {| wt_index := wt_index t; wt_dispatcher := wt_dispatcher t; wt_state := st |}) id ts)
    (<[wt_index t := view st]> ws).
Proof.
  intros Hs Ht. assert (Hlt : (wt_index t < length ws)%nat) by (eapply lookup_lt_Some, (ts_state _ _ Hs), Ht).
  split.
  - intros id' t'. rewrite lookup_alter_Some. intros [(-> & t0 & Ht0 & ->)|(Hne & Ht')].
    + simplify_eq/=. by rewrite list_lookup_insert_eq.
    + rewrite list_lookup_insert_ne; [by eapply ts_state|]. intros Heq. by apply Hne, (ts_alone _ _ Hs _ _ t t').
  - intros i1 i2 t1 t2. rewrite !lookup_alter_Some.
    intros [(-> & t0 & Ht0 & ->)|(Hne & Ht1)] [(-> & t0' & Ht0' & ->)|(Hne' & Ht2)]; simpl; intros Heq; try done;
      by eapply (ts_alone _ _ Hs).
  - intros i w [(<- & <- & _)|(Hne & Hw)]%list_lookup_insert_Some Hx.
    + eexists id, _. by rewrite lookup_alter_eq, Ht.
    + destruct (ts_present _ _ Hs i w Hw Hx) as (id' & t' & Ht' & <-). exists id', t'.
      rewrite lookup_alter_ne; [done|]. intros <-. by simplify_eq.
Qed.

Lemma show_join ts ws id t how :
  tasks_show ts ws -> ts !! id = Some t -> wt_state t = Ended how ->
  tasks_show (delete id ts) ws /\ ws !! wt_index t = Some Exited /\
  forall id' t', delete id ts !! id' = Some t' -> wt_index t' <> wt_index t.
Proof.
  intros Hs Ht Hst. pose proof (ts_state _ _ Hs id t Ht) as Hv. rewrite Hst in Hv. simpl in Hv. split_and!.
  - split.
    + intros id' t' [_ ?]%lookup_delete_Some. by eapply ts_state.
    + intros i1 i2 t1 t2 [_ ?]%lookup_delete_Some [_ ?]%lookup_delete_Some. by eapply ts_alone.
    + intros i w Hw Hx. destruct (ts_present _ _ Hs i w Hw Hx) as (id' & t' & Ht' & <-).
      exists id', t'. rewrite lookup_delete_ne; [done|]. intros <-. by simplify_eq.
  - done.
  - intros id' t' [Hne Ht']%lookup_delete_Some Heq. by apply Hne, (ts_alone _ _ Hs _ _ t t').
Qed.

Lemma show_spawn ts ws id i d :
  tasks_show ts ws -> ts !! id = None -> (i < length ws)%nat ->
  (forall id' t', ts !! id' = Some t' -> wt_index t' <> i) ->
  tasks_show (<[id := {| wt_index := i; wt_dispatcher := d; wt_state := Receiving |}]> ts) (<[i := Idle]> ws).
Proof.
  intros Hs Hid Hi Hno. split.
  - intros id' t' [(<- & <-)|(Hne & Ht')]%lookup_insert_Some; simpl.
    + by rewrite list_lookup_insert_eq.
    + rewrite list_lookup_insert_ne; [by eapply ts_state|]. intros Heq. by apply (Hno id' t').
  - intros i1 i2 t1 t2 [(<- & <-)|(? & H1)]%lookup_insert_Some [(<- & <-)|(? & H2)]%lookup_insert_Some Heq; simpl in *.
    + done.
    + by destruct (Hno _ _ H2).
    + by destruct (Hno _ _ H1).
    + by eapply (ts_alone _ _ Hs).
  - intros j w [(<- & <- & _)|(Hne & Hw)]%list_lookup_insert_Some Hx.
    + eexists id, _. by rewrite lookup_insert_eq.
    + destruct (ts_present _ _ Hs j w Hw Hx) as (id' & t' & Ht' & <-). exists id', t'.
      rewrite lookup_insert_ne; [done|]. intros <-. by simplify_eq.
Qed.

Lemma show_none ws : tasks_show ∅ ((fun _ => Exited) <$> ws).
Proof.
  split; [by intros id t; rewrite lookup_empty..|].
  intros i w. rewrite list_lookup_fmap. by destruct (ws !! i); intros [= <-].
Qed.

Lemma no_tasks_exited ws : tasks_show ∅ ws -> forallb has_exited ws = true.
Proof.
  intros Hs. apply forallb_forall. intros w [i Hi]%list_elem_of_In%list_elem_of_lookup.
  destruct w as [|t|]; [..|done].
  all: destruct (ts_present _ _ Hs i _ Hi ltac:(done)) as (id & t' & Ht & _); by rewrite lookup_empty in Ht.
Qed.

(** ** The representation *)

Definition phase_shows (ph : phase) (e : engine) : Prop :=
  match ph with
  | Selecting | Recovering | Polling => e = Looping
  | Claiming_ limit => e = Claiming limit
  | Draining r => e = EngineDraining r
  | Finished r => e = EngineStopped r
  end.
Definition in_loop (ph : phase) : bool :=
  match ph with Draining _ | Finished _ => false | _ => true end.

Record sup_shows (fs : list TaskFormat) (s : supervisor W) (p : pool) : Prop := {
  ss_chan : chan p = s_queue s;
  ss_stop : cancelled p = s_stop s;
  ss_phase : phase_shows (s_phase s) (engine_of p);
  ss_tasks : tasks_show (wp_workers (s_pool s)) (workers p);
  ss_formats id t : wp_workers (s_pool s) !! id = Some t -> formats (wt_dispatcher t) = fs;
  ss_index id t : wp_workers (s_pool s) !! id = Some t -> wp_worker_indices (s_pool s) !! id = Some (wt_index t);
  ss_only : in_loop (s_phase s) = true ->
    dom (wp_worker_indices (s_pool s)) = dom (wp_workers (s_pool s)) /\ s_closed s = false;
  ss_left : in_loop (s_phase s) = false -> s_closed s = true /\ s_stop s = true;
  ss_finished r : s_phase s = Finished r -> wp_workers (s_pool s) = ∅;
}.

(** A step to [s'] is a step of the pool [p], or none. *)
Definition matched (q : Z) (fs : list TaskFormat) (p : pool) (s' : supervisor W) : Prop :=
  exists p', (p' = p \/ exists ev : pool_event W, honest p ev /\ pool_step q fs p ev = Next p') /\
    sup_shows fs s' p'.

Lemma matched_by q fs p p' s' (ev : pool_event W) :
  honest p ev -> pool_step q fs p ev = Next p' -> sup_shows fs s' p' -> matched q fs p s'.
Proof. intros. exists p'. eauto. Qed.
Lemma matched_none q fs p s' : sup_shows fs s' p -> matched q fs p s'.
Proof. intros. exists p. auto. Qed.

Lemma state_at_inv (s : supervisor W) id st :
  state_at s id = Some st -> exists t, wp_workers (s_pool s) !! id = Some t /\ wt_state t = st.
Proof. unfold state_at. by intros (t & ? & ->)%fmap_Some; eauto. Qed.

(** Replacing the state of one task, the queue and the wake-up. *)
Lemma shows_with_state fs (s s2 : supervisor W) p p' id t st :
  sup_shows fs s p -> wp_workers (s_pool s) !! id = Some t ->
  s_pool s2 = s_pool s -> s_closed s2 = s_closed s -> s_stop s2 = s_stop s -> s_phase s2 = s_phase s ->
  chan p' = s_queue s2 -> cancelled p' = s_stop s -> engine_of p' = engine_of p ->
  workers p' = <[wt_index t := view st]> (workers p) -> sup_shows fs (with_state s2 id st) p'.
Proof.
  intros Hs Ht E1 E2 E3 E4 Hc Hst He Hw. destruct Hs as [H1 H2 H3 H4 H5 H6 H7 H8 H9].
  split; simpl; rewrite ?E1, ?E2, ?E3, ?E4; try done.
  - by rewrite He.
  - rewrite Hw. by apply show_set.
  - intros id' t' [(-> & t0 & ? & ->)|(_ & ?)]%lookup_alter_Some; simpl; eauto.
  - intros id' t' [(-> & t0 & ? & ->)|(_ & ?)]%lookup_alter_Some; simpl; eauto.
  - intros Hl. rewrite dom_alter_L. by apply H7.
  - intros r Hr. rewrite (H9 r Hr), lookup_empty in Ht. done.
Qed.

Lemma closed_stop fs (s : supervisor W) p : sup_shows fs s p -> s_closed s = true -> s_stop s = true.
Proof.
  intros Hs Hc. destruct (in_loop (s_phase s)) eqn:El; [|by apply Hs].
  destruct (ss_only _ _ _ Hs El) as [_ ?]. congruence.
Qed.

Lemma task_step_matched q fs s p (ev : sup_event W) s' :
  sup_shows fs s p -> task_step s ev = SNext s' -> matched q fs p s'.
Proof.
  intros Hs Hstep. pose proof (ss_stop _ _ _ Hs) as Hstop. pose proof (ss_chan _ _ _ Hs) as Hchan.
  pose proof (closed_stop _ _ _ Hs) as Hclosed.
  destruct ev; simpl in Hstep; try done;
    destruct (state_at s id) as [[|task|]|] eqn:Est; try done;
    apply state_at_inv in Est as (t & Hid & Hst); pose proof (ts_state _ _ (ss_tasks _ _ _ Hs) _ _ Hid) as Hv;
    rewrite Hst in Hv; simpl in Hv.
  - destruct (s_stop s) eqn:Eg; [|done]. injection Hstep as <-.
    eapply (matched_by _ _ _ _ _ (WorkerStops (wt_index t))); [done|simpl; by rewrite Hv, Hstop|].
    by eapply (shows_with_state _ s).
  - destruct (s_queue s) as [|task rest] eqn:Eq; [done|]. injection Hstep as <-.
    destruct (s_stop s) eqn:Eg;
      (eapply (matched_by _ _ _ _ _ (WorkerReceives (wt_index t))); [done|simpl; by rewrite Hv, Hchan, Hstop|]);
      by eapply (shows_with_state _ s).
  - destruct (s_queue s) eqn:Eq; [|done]. destruct (s_closed s) eqn:Ecl; [|done]. injection Hstep as <-.
    specialize (Hclosed eq_refl).
    eapply (matched_by _ _ _ _ _ (WorkerStops (wt_index t))); [done|simpl; by rewrite Hv, Hstop, Hclosed|].
    eapply (shows_with_state _ s); try done. simpl. congruence.
  - injection Hstep as <-.
    eapply (matched_by _ _ _ _ _ (WorkerSettles (wt_index t))); [done|simpl; by rewrite Hv|].
    by eapply (shows_with_state _ s).
  - injection Hstep as <-.
    eapply (matched_by _ _ _ _ _ (WorkerPanics (wt_index t))); [done|simpl; by rewrite Hv|].
    by eapply (shows_with_state _ s).
Qed.

Lemma join_next_inv (ts : gmap Id (WorkerTask W)) id how ts' :
  join_next ts id = Some (how, ts') ->
  exists t, ts !! id = Some t /\ wt_state t = Ended how /\ ts' = delete id ts.
Proof.
  unfold join_next. destruct (ts !! id) as [t|]; simpl; [|done].
  destruct (wt_state t) eqn:E; try done. intros [= <- <-]. eauto.
Qed.

Lemma drain_tasks_matched q fs s p (ev : sup_event W) s' :
  sup_shows fs s p -> drain_tasks s ev = SNext s' -> matched q fs p s'.
Proof.
  intros Hs Hstep. unfold drain_tasks in Hstep. destruct (s_phase s) as [| | | |r|] eqn:Eph; try done.
  pose proof (ss_phase _ _ _ Hs) as Hph. rewrite Eph in Hph. simpl in Hph.
  pose proof (ss_tasks _ _ _ Hs) as Ht.
  destruct ev; try done.
  - destruct (join_next _ id) as [[how ts]|] eqn:Ej; [|done]. injection Hstep as <-. apply matched_none.
    apply join_next_inv in Ej as (t & Hid & Hst & ->).
    destruct (show_join _ _ _ _ _ Ht Hid Hst) as (Ht' & _).
    destruct Hs as [H1 H2 H3 H4 H5 H6 H7 H8 H9]. rewrite Eph in *. split; simpl; try done.
    + intros id' t' [_ ?]%lookup_delete_Some. eauto.
    + intros id' t' [_ ?]%lookup_delete_Some. eauto.
  - case_decide as He; [|done]. injection Hstep as <-. rewrite He in Ht.
    eapply (matched_by _ _ _ _ _ DrainCompletes); [done|simpl; by rewrite Hph, (no_tasks_exited _ Ht)|].
    destruct Hs as [H1 H2 H3 H4 H5 H6 H7 H8 H9]. rewrite Eph in *. by split.
  - injection Hstep as <-.
    eapply (matched_by _ _ _ _ _ DrainTimesOut); [done|simpl; by rewrite Hph|].
    destruct Hs as [H1 H2 H3 H4 H5 H6 H7 H8 H9]. rewrite Eph in *. split; simpl; try done.
    apply show_none.
Qed.

(** Leaving the loop. *)
Lemma shows_leave fs (s : supervisor W) p r :
  sup_shows fs s p -> sup_shows fs (leave_loop s r) (begin_drain p r).
Proof. intros [H1 H2 H3 H4 H5 H6 H7 H8 H9]. by split. Qed.

Lemma shows_phase fs (s : supervisor W) p ph permit all :
  sup_shows fs s p -> in_loop (s_phase s) = true -> in_loop ph = true -> phase_shows ph (engine_of p) ->
  sup_shows fs (mk_supervisor (s_pool s) (s_queue s) (s_closed s) permit (s_stop s) ph all) p.
Proof.
  intros [H1 H2 H3 H4 H5 H6 H7 H8 H9] Hl Hl' Hph. split; simpl; try done.
  - intros _. by apply H7.
  - by rewrite Hl'.
  - by intros r ->.
Qed.

(** The exit of a worker: its task is joined and forgotten, its index known. *)
Lemma next_exit_shows fs (s : supervisor W) p id :
  sup_shows fs s p -> in_loop (s_phase s) = true ->
  match next_exit (s_pool s) id with
  | Pending => True
  | Panics => False
  | Ready (exit, pool) =>
    workers p !! we_index exit = Some Exited /\
    sup_shows fs (mk_supervisor pool (s_queue s) (s_closed s) (s_permit s) (s_stop s) (s_phase s) (claimed_all s)) p /\
    wp_workers pool = delete id (wp_workers (s_pool s)) /\
    (forall id' t', wp_workers pool !! id' = Some t' -> wt_index t' <> we_index exit)
  end.
Proof.
  intros Hs Hl. unfold next_exit. destruct (join_next _ id) as [[how ts]|] eqn:Ej; [|done].
  apply join_next_inv in Ej as (t & Hid & Hst & ->). rewrite (ss_index _ _ _ Hs id t Hid). simpl.
  destruct (show_join _ _ _ _ _ (ss_tasks _ _ _ Hs) Hid Hst) as (Ht' & Hx & Hno).
  split_and!; [done| |done|done].
  destruct Hs as [H1 H2 H3 H4 H5 H6 H7 H8 H9]. split; simpl; try done.
  - intros id' t' [_ ?]%lookup_delete_Some. eauto.
  - intros id' t' [Hne Ht2]%lookup_delete_Some. rewrite lookup_delete_ne by done. eauto.
  - intros _. destruct (H7 Hl) as [Hd ?]. by rewrite !dom_delete_L, Hd.
  - intros r Hr. by rewrite Hr in Hl.
Qed.

Lemma shows_spawn fs (s : supervisor W) p id i d all :
  sup_shows fs s p -> s_phase s = Selecting -> s_stop s = false -> workers p !! i = Some Exited ->
  wp_workers (s_pool s) !! id = None ->
  (forall id' t', wp_workers (s_pool s) !! id' = Some t' -> wt_index t' <> i) -> formats d = fs ->
  sup_shows fs (mk_supervisor (spawn (s_pool s) id i d) (s_queue s) (s_closed s) (s_permit s) (s_stop s)
      Polling all)
    (mk_pool (chan p) (<[i := Idle]> (workers p)) Looping false (admitted p) (invoked p) (skipped p)
       (settled p) (lost p)).
Proof.
  intros Hs Eph Eg Hx Hid Hno Hf. destruct Hs as [H1 H2 H3 H4 H5 H6 H7 H8 H9]. rewrite Eph in *.
  split; simpl; try done.
  - apply show_spawn; [done|done|by eapply lookup_lt_Some|done].
  - intros id' t' [(<- & <-)|(_ & ?)]%lookup_insert_Some; simpl; eauto.
  - intros id' t' [(<- & <-)|(Hne & ?)]%lookup_insert_Some; simpl; [by rewrite lookup_insert_eq|].
    rewrite lookup_insert_ne by done. eauto.
  - intros _. destruct (H7 eq_refl) as [Hd ?]. by rewrite !dom_insert_L, Hd.
Qed.

Lemma exit_matched q fs s p id new_id built s' :
  sup_shows fs s p -> sup_honest s (ExitTaken id new_id built) -> s_phase s = Selecting ->
  loop_step q fs s (ExitTaken id new_id built) = SNext s' -> matched q fs p s'.
Proof.
  intros Hs Hh Eph Hstep. simpl in Hstep, Hh. rewrite Eph in Hstep.
  pose proof (ss_phase _ _ _ Hs) as Hph. rewrite Eph in Hph. simpl in Hph.
  pose proof (next_exit_shows fs s p id Hs) as Hx. rewrite Eph in Hx. specialize (Hx eq_refl).
  destruct (next_exit (s_pool s) id) as [| |[exit pool]]; [done..|].
  destruct Hx as (Hex & Hs2 & Hpool & Hno). pose proof (ss_stop _ _ _ Hs) as Hstop.
  destruct (build_checked_dispatcher built fs _) as [d|e] eqn:Eb.
  - destruct (s_stop s) eqn:Eg; injection Hstep as <-;
      (eapply (matched_by _ _ _ _ _ (ExitObserved (we_index exit) built));
        [done|simpl; by rewrite Hph, Hex, Eb, Hstop|]).
    + by apply shows_leave.
    + apply checked_dispatcher_ok in Eb as [_ Hf].
      apply (shows_spawn fs _ p new_id (we_index exit) d (claimed_all s) Hs2); try done.
      simpl. rewrite Hpool. by apply not_elem_of_dom.
  - injection Hstep as <-.
    eapply (matched_by _ _ _ _ _ (ExitObserved (we_index exit) built)); [done|simpl; by rewrite Hph, Hex, Eb|].
    by apply shows_leave.
Qed.

Lemma break_matched q fs s p :
  sup_shows fs s p -> engine_of p = Looping \/ (exists l, engine_of p = Claiming l) -> s_stop s = true ->
  matched q fs p (leave_loop s (Ok tt)).
Proof.
  intros Hs He Hg. eapply (matched_by _ _ _ (begin_drain p (Ok tt)) _ LoopBreaks); [done| |by apply shows_leave].
  simpl. rewrite (ss_stop _ _ _ Hs), Hg. by destruct He as [->|[l ->]].
Qed.

Lemma claim_matched q fs s p tasks s' :
  sup_shows fs s p -> sup_honest s (ClaimReturned tasks) ->
  loop_step q fs s (ClaimReturned tasks) = SNext s' -> matched q fs p s'.
Proof.
  intros Hs Hh Hstep. simpl in Hstep, Hh. destruct (s_phase s) as [| | |limit| |] eqn:Eph; try done.
  pose proof (ss_phase _ _ _ Hs) as Hph. rewrite Eph in Hph. simpl in Hph.
  destruct (s_stop s) eqn:Eg.
  - injection Hstep as <-. apply break_matched; [done|eauto|done].
  - destruct (Z.ltb_spec limit (Z.of_nat (length tasks))) as [|Hl]; [done|].
    destruct (s_closed s) eqn:Ecl; [done|]. simpl in Hstep.
    destruct (q <? Z.of_nat (length (s_queue s ++ tasks))) eqn:Eq; [done|]. injection Hstep as <-.
    eapply (matched_by _ _ _ _ _ (ClaimReturns tasks)).
    + simpl. by rewrite Hph.
    + simpl. by rewrite Hph, (ss_stop _ _ _ Hs), Eg, (proj2 (Z.ltb_ge _ _)), (ss_chan _ _ _ Hs), Eq by done.
    + destruct Hs as [H1 H2 H3 H4 H5 H6 H7 H8 H9]. rewrite Eph in *. split; simpl; try done.
      intros _. split; [by apply H7|done].
Qed.

Lemma loop_step_matched q fs s p (ev : sup_event W) s' :
  sup_shows fs s p -> sup_honest s ev -> loop_step q fs s ev = SNext s' -> matched q fs p s'.
Proof.
  intros Hs Hh Hstep. pose proof (ss_phase _ _ _ Hs) as Hph. pose proof (ss_stop _ _ _ Hs) as Hstop.
  destruct ev; try (by simpl in Hstep; destruct (s_phase s)).
  - simpl in Hstep. destruct (s_phase s) eqn:Eph; try done; simpl in Hph;
      (destruct (s_stop s) eqn:Eg; [|done]); injection Hstep as <-; apply break_matched; eauto.
  - destruct (s_phase s) eqn:Eph; try (by simpl in Hstep; rewrite Eph in Hstep). by eapply exit_matched.
  - simpl in Hstep. destruct (s_phase s) eqn:Eph; try done. simpl in Hph. destruct (s_stop s) eqn:Eg; injection Hstep as <-.
    + apply break_matched; eauto.
    + apply matched_none, shows_phase; by rewrite ?Eph.
  - simpl in Hstep. destruct (s_phase s) eqn:Eph; try done. injection Hstep as <-.
    apply matched_none, shows_phase; by rewrite ?Eph.
  - simpl in Hstep. destruct (s_phase s) eqn:Eph; try done. destruct (s_permit s); [|done]. injection Hstep as <-.
    apply matched_none, shows_phase; by rewrite ?Eph.
  - simpl in Hstep. destruct (s_phase s) eqn:Eph; try done. injection Hstep as <-. simpl in Hph.
    destruct (q - _ =? 0) eqn:El; [apply matched_none, shows_phase; by rewrite ?Eph|].
    destruct (s_stop s) eqn:Eg; [apply break_matched; eauto|].
    eapply (matched_by _ _ _ _ _ ClaimStarts); [done|simpl; by rewrite Hph, (ss_chan _ _ _ Hs), El, Hstop|].
    destruct Hs as [H1 H2 H3 H4 H5 H6 H7 H8 H9]. rewrite Eph in *. split; simpl; try done.
  - by eapply claim_matched.
  - simpl in Hstep. destruct (s_phase s) eqn:Eph; try done. injection Hstep as <-. simpl in Hph.
    eapply (matched_by _ _ _ _ _ ClaimFails); [done|simpl; by rewrite Hph|].
    destruct Hs as [H1 H2 H3 H4 H5 H6 H7 H8 H9]. rewrite Eph in *. by split.
Qed.

Lemma run_step_matched q fs s p (ev : sup_event W) s' :
  sup_shows fs s p -> sup_honest s ev -> run_step q fs s ev = SNext s' -> matched q fs p s'.
Proof.
  intros Hs Hh Hstep. destruct ev;
    try exact (loop_step_matched q fs s p _ s' Hs Hh Hstep);
    try exact (task_step_matched q fs s p _ s' Hs Hstep);
    try exact (drain_tasks_matched q fs s p _ s' Hs Hstep).
  injection Hstep as <-.
  eapply (matched_by _ _ _ _ _ ShutdownRequested); [done|done|].
  destruct Hs as [H1 H2 H3 H4 H5 H6 H7 H8 H9]. split; simpl; try done.
  intros Hl. split; [by apply H8|done].
Qed.

(** *** The start *)

Lemma spawn_all_shows fs ids ds wp i n ws :
  tasks_show (wp_workers wp) ws -> length ids = length ds -> NoDup ids ->
  (forall id, id ∈ ids -> wp_workers wp !! id = None) -> (i + length ds = length ws)%nat ->
  (forall id t, wp_workers wp !! id = Some t -> (wt_index t < i)%nat /\ formats (wt_dispatcher t) = fs /\
     wp_worker_indices wp !! id = Some (wt_index t)) ->
  dom (wp_worker_indices wp) = dom (wp_workers wp) -> Forall (fun d => formats d = fs) ds ->
  ws = replicate i Idle ++ replicate n Exited ->
  let wp' := spawn_all wp i ids ds in
  tasks_show (wp_workers wp') (replicate (length ws) Idle) /\
  (forall id t, wp_workers wp' !! id = Some t -> formats (wt_dispatcher t) = fs /\
     wp_worker_indices wp' !! id = Some (wt_index t)) /\
  dom (wp_worker_indices wp') = dom (wp_workers wp').
Proof.
  revert ids wp i n ws. induction ds as [|d ds IH]; intros [|id ids] wp i n ws Hs Hlen Hnd Hfree Hi Hin Hdom Hf ->;
    try done; simpl in *.
  - rewrite length_app, !length_replicate in *. assert (n = O) as -> by lia. rewrite app_nil_r in Hs.
    rewrite Nat.add_0_r. split_and!; [done| |done]. intros id t Ht. by destruct (Hin id t Ht) as (_ & ? & ?).
  - apply NoDup_cons in Hnd as [Hid Hnd]. apply Forall_cons in Hf as [Hd Hf].
    rewrite length_app, !length_replicate in *. destruct n as [|n]; [lia|].
    assert (Hws : <[i := Idle]> (replicate i Idle ++ replicate (S n) Exited)
      = replicate (S i) Idle ++ replicate n Exited).
    { rewrite insert_app_r_alt by (rewrite length_replicate; lia).
      rewrite length_replicate, Nat.sub_diag, (replicate_S_end i), <- (assoc_L (++)). done. }
    replace (i + S n)%nat with (length (replicate (S i) Idle ++ replicate n Exited))
      by (rewrite length_app, !length_replicate; lia).
    apply (IH ids (spawn wp id i d) (S i) n); try done.
    + rewrite <- Hws. simpl. apply show_spawn; [done|apply Hfree, list_elem_of_here|rewrite length_app; simpl; rewrite !length_replicate; lia|].
      intros id' t' Ht'. destruct (Hin id' t' Ht'). lia.
    + lia.
    + intros id' Hid'. simpl. rewrite lookup_insert_ne by (by intros <-). by apply Hfree, list_elem_of_further.
    + rewrite length_app, !length_replicate. lia.
    + intros id' t'. simpl. intros [(<- & <-)|(Hne & Ht')]%lookup_insert_Some; simpl.
      * rewrite lookup_insert_eq. split_and!; [lia|done|done].
      * rewrite lookup_insert_ne by done. destruct (Hin id' t' Ht') as (? & ? & ?). split_and!; [lia|done|done].
    + simpl. by rewrite !dom_insert_L, Hdom.
Qed.

Lemma start_shows fs ids ds :
  length ids = length ds -> NoDup ids -> Forall (fun d => formats d = fs) ds ->
  sup_shows fs (sup_start ids ds) (pool_start (Z.of_nat (length ds))).
Proof.
  intros Hlen Hnd Hf.
  destruct (spawn_all_shows fs ids ds worker_pool_new 0 (length ds) (replicate (length ds) Exited))
    as (Ht & Hin & Hdom); try done.
  - rewrite <- (fmap_replicate (fun _ => Exited) _ Exited). apply show_none.
  - simpl. by rewrite length_replicate.
  - rewrite length_replicate in Ht. split; simpl; try done.
    + by rewrite Nat2Z.id.
    + intros id t Hid. by apply (Hin id).
    + intros id t Hid. by apply (Hin id).
Qed.

(** The pool started with the dispatchers [ds], all of the formats [fs]. *)
Definition started (q : Z) (fs : list TaskFormat) (ids : list Id) (ds : list (TaskDispatcher W)) : Prop :=
  0 < q /\ ds <> [] /\ length ids = length ds /\ NoDup ids /\ Forall (fun d => formats d = fs) ds.

Lemma reach_shows q fs ids ds s :
  started q fs ids ds -> sup_reach q fs ids ds s ->
  exists p, pool_reach W q (Z.of_nat (length ds)) fs p /\ sup_shows fs s p.
Proof.
  intros (_ & _ & Hlen & Hnd & Hf). induction 1 as [|s ev s' _ (p & Hp & Hs) Hh Hstep].
  - eexists. split; [apply reach_start|by apply start_shows].
  - destruct (run_step_matched q fs s p ev s' Hs Hh Hstep) as (p' & [->|(ev' & Hh' & Hp')] & Hs'); [eauto|].
    exists p'. split; [by eapply reach_step|done].
Qed.

Lemma started_inv q fs ids ds p :
  started q fs ids ds -> pool_reach W q (Z.of_nat (length ds)) fs p -> pool_inv q (Z.of_nat (length ds)) p.
Proof. intros (Hq & _) Hp. eapply pool_reach_inv; [lia|lia|done]. Qed.

Lemma run_step_safe q c fs s p (ev : sup_event W) :
  sup_shows fs s p -> pool_inv q c p -> sup_honest s ev -> run_step q fs s ev <> SPanic.
Proof.
  intros Hs Hi Hh. destruct ev; simpl in *; try (repeat case_match; by intros).
  - destruct (s_phase s) eqn:Eph; try done. pose proof (next_exit_shows fs s p id Hs) as Hx.
    rewrite Eph in Hx. specialize (Hx eq_refl). destruct (next_exit _ _) as [| |[exit pool]]; try done.
    by repeat case_match.
  - pose proof (ss_phase _ _ _ Hs) as Hph. destruct (s_phase s) as [| | |limit| |] eqn:Eph; try done.
    destruct (s_stop s); [done|]. simpl in Hph.
    destruct (pi_claim _ _ _ Hi limit Hph). rewrite (ss_chan _ _ _ Hs) in *.
    destruct (ss_only _ _ _ Hs) as [_ ->]; [by rewrite Eph|]. rewrite length_app. simpl.
    rewrite !(proj2 (Z.ltb_ge _ _)) by lia. done.
  - unfold drain_tasks. by repeat case_match.
  - unfold drain_tasks. by repeat case_match.
  - unfold drain_tasks. by repeat case_match.
Qed.

(** C29: the worker pool implements the supervision of [Supervisor].  On the
    structures the code keeps, tasks by their IDs with the map to indices, a
    closing channel and stored wake-ups, every reachable state is one of the
    pool by worker index, every step is a step of it or invisible to it, and no
    step panics: not the lookup of an exited worker's index, nor the assertions
    on a claimed batch. *)
Theorem worker_pool_refines_supervision q fs ids ds s :
  started q fs ids ds -> sup_reach q fs ids ds s ->
  exists p, pool_reach W q (Z.of_nat (length ds)) fs p /\ sup_shows fs s p /\
    forall ev, sup_honest s ev -> run_step q fs s ev <> SPanic /\
      forall s', run_step q fs s ev = SNext s' -> exists p', sup_shows fs s' p' /\
        (p' = p \/ exists ev' : pool_event W, honest p ev' /\ pool_step q fs p ev' = Next p').
Proof.
  intros Hst Hr. destruct (reach_shows q fs ids ds s Hst Hr) as (p & Hp & Hs). exists p. split_and!; [done..|].
  intros ev Hh. split; [by eapply run_step_safe, Hh; [|by eapply started_inv]|]. intros s' Hstep.
  destruct (run_step_matched q fs s p ev s' Hs Hh Hstep) as (p' & ? & ?). eauto.
Qed.

(** Tasks with distinct indices below [n] are at most [n]. *)
Lemma tasks_show_size ts ws : tasks_show ts ws -> (size ts <= length ws)%nat.
Proof.
  intros Hs. rewrite <- length_map_to_list, <- (length_fmap (fun kt => wt_index kt.2)), <- (length_seq (length ws) 0).
  apply submseteq_length, NoDup_submseteq.
  - apply NoDup_fmap_2_strong; [|apply NoDup_map_to_list].
    intros [i1 t1] [i2 t2] H1%elem_of_map_to_list H2%elem_of_map_to_list Heq. simpl in Heq.
    assert (i1 = i2) as <- by (by eapply (ts_alone _ _ Hs)). congruence.
  - intros i ([id t] & -> & Ht%elem_of_map_to_list)%list_elem_of_fmap. simpl.
    apply elem_of_seq. pose proof (ts_state _ _ Hs id t Ht) as Hl%lookup_lt_Some. lia.
Qed.

(** Every worker has a task while the loop runs. *)
Definition staffed (n : nat) (s : supervisor W) : Prop :=
  in_loop (s_phase s) = true ->
  forall i, (i < n)%nat -> exists id t, wp_workers (s_pool s) !! id = Some t /\ wt_index t = i.

Lemma staffed_same n (s s' : supervisor W) :
  staffed n s -> wp_workers (s_pool s') = wp_workers (s_pool s) ->
  (in_loop (s_phase s') = true -> in_loop (s_phase s) = true) -> staffed n s'.
Proof. intros Hf He Hl Hl'. rewrite He. by apply Hf, Hl. Qed.

Lemma staffed_with_state n (s s2 : supervisor W) id st :
  staffed n s -> s_pool s2 = s_pool s -> s_phase s2 = s_phase s -> staffed n (with_state s2 id st).
Proof.
  intros Hf E1 E2 Hl i Hi. simpl in *. rewrite E1. rewrite E2 in Hl.
  destruct (Hf Hl i Hi) as (id' & t & Ht & <-).
  destruct (decide (id = id')) as [->|]; [|by exists id', t; rewrite lookup_alter_ne].
  eexists id', _. by rewrite lookup_alter_eq, Ht.
Qed.

Lemma staffed_exit q fs n s id new_id built s' :
  staffed n s -> sup_honest s (ExitTaken id new_id built) ->
  (forall t, wp_workers (s_pool s) !! id = Some t -> wp_worker_indices (s_pool s) !! id = Some (wt_index t)) ->
  loop_step q fs s (ExitTaken id new_id built) = SNext s' -> staffed n s'.
Proof.
  intros Hf Hh Hix Hstep. simpl in Hstep. destruct (s_phase s) eqn:Eph; try done.
  unfold next_exit in Hstep. destruct (join_next _ id) as [[how ts]|] eqn:Ej; [|done].
  apply join_next_inv in Ej as (t & Hid & Hst & ->). rewrite (Hix t Hid) in Hstep. simpl in Hstep.
  destruct (build_checked_dispatcher _ _ _); [|by injection Hstep as <-].
  destruct (s_stop s); injection Hstep as <-; [done|]. intros _ i Hi. simpl.
  unfold staffed in Hf. rewrite Eph in Hf. destruct (Hf eq_refl i Hi) as (id' & t' & Ht' & <-).
  destruct (decide (id' = id)) as [->|Hne].
  - simplify_eq. eexists new_id, _. by rewrite lookup_insert_eq.
  - exists id', t'. rewrite lookup_insert_ne; [by rewrite lookup_delete_ne|]. intros <-.
    simpl in Hh. apply Hh, elem_of_dom. exists t'. by rewrite lookup_delete_ne.
Qed.

Lemma staffed_step q fs n s p (ev : sup_event W) s' :
  sup_shows fs s p -> staffed n s -> sup_honest s ev -> run_step q fs s ev = SNext s' -> staffed n s'.
Proof.
  intros Hs Hf Hh Hstep. destruct ev.
  3:{ apply (staffed_exit q fs n s id new_id built); [done|done| |done]. intros t. apply (ss_index fs s p Hs). }
  all: simpl in Hstep; unfold drain_tasks in Hstep; repeat case_match; simplify_eq;
    first [done | by eapply (staffed_with_state n s)
          | apply (staffed_same n s); [done|done|]; simpl; intros;
            first [done | match goal with E : s_phase _ = _ |- _ => by rewrite E end]].
Qed.

Lemma reach_full q fs ids ds s : started q fs ids ds -> sup_reach q fs ids ds s -> staffed (length ds) s.
Proof.
  intros Hst. induction 1 as [|s ev s' Hr IH Hh Hstep].
  - destruct Hst as (_ & _ & Hlen & Hnd & Hf). intros _ i Hi.
    destruct (ts_present _ _ (ss_tasks _ _ _ (start_shows fs ids ds Hlen Hnd Hf)) i Idle) as (id & t & ? & ?);
      [|done|eauto]. simpl. apply lookup_replicate. by rewrite Nat2Z.id.
  - destruct (reach_shows q fs ids ds s Hst Hr) as (p & _ & Hs). by eapply staffed_step.
Qed.

(** What the pool's structures hold.  At most [Q] deliveries wait and there
    are at most as many worker tasks as startup dispatchers, no two with the
    same index, each with a dispatcher for the startup formats and its index
    registered; while the loop runs every worker has its task and the index map
    no other entry; when the supervisor has finished no task is left. *)
Theorem worker_tasks_are_owned q fs ids ds s :
  started q fs ids ds -> sup_reach q fs ids ds s ->
  Z.of_nat (length (s_queue s)) <= q /\
  (size (wp_workers (s_pool s)) <= length ds)%nat /\
  (forall id t, wp_workers (s_pool s) !! id = Some t ->
     (wt_index t < length ds)%nat /\ formats (wt_dispatcher t) = fs /\
     wp_worker_indices (s_pool s) !! id = Some (wt_index t) /\
     forall id' t', wp_workers (s_pool s) !! id' = Some t' -> wt_index t' = wt_index t -> id' = id) /\
  (in_loop (s_phase s) = true ->
     dom (wp_worker_indices (s_pool s)) = dom (wp_workers (s_pool s)) /\
     forall i, (i < length ds)%nat -> exists id t, wp_workers (s_pool s) !! id = Some t /\ wt_index t = i) /\
  (forall r, s_phase s = Finished r -> wp_workers (s_pool s) = ∅).
Proof.
  intros Hst Hr. destruct (reach_shows q fs ids ds s Hst Hr) as (p & Hp & Hs).
  pose proof (started_inv q fs ids ds p Hst Hp) as Hi. pose proof (ss_tasks _ _ _ Hs) as Ht.
  pose proof (pi_workers _ _ _ Hi) as Hw. split_and!.
  - rewrite <- (ss_chan _ _ _ Hs). apply Hi.
  - pose proof (tasks_show_size _ _ Ht). lia.
  - intros id t Hid. pose proof (ts_state _ _ Ht id t Hid) as Hl%lookup_lt_Some. split_and!.
    + lia.
    + by eapply ss_formats.
    + by eapply ss_index.
    + intros id' t' Hid' Heq. by eapply (ts_alone _ _ Ht).
  - intros Hl. split; [by apply Hs|]. by eapply reach_full.
  - apply Hs.
Qed.

(** Free room is known: a supervisor that waits without a stored wake-up, after
    a poll that took all it had room for, has a full queue. *)
Definition room_known (q : Z) (s : supervisor W) : Prop :=
  s_permit s = false ->
  (s_phase s = Selecting -> claimed_all s = true -> Z.of_nat (length (s_queue s)) = q) /\
  (forall l, s_phase s = Claiming_ l -> l = q - Z.of_nat (length (s_queue s))).

Lemma room_known_step q fs s (ev : sup_event W) s' :
  room_known q s -> run_step q fs s ev = SNext s' -> room_known q s'.
Proof.
  intros Hr Hstep Hp. destruct ev; simpl in Hstep; unfold drain_tasks in Hstep; repeat case_match; simplify_eq/=;
    try (destruct (Hr Hp) as [? ?]; zify_bool; split; intros; simplify_eq/=; auto; lia);
    try (zify_bool; split; intros; simplify_eq/=; auto; lia).
  destruct (Hr Hp) as [_ Hc]. specialize (Hc _ H). split; [|done]. intros _ Hall. zify_bool.
  rewrite length_app. lia.
Qed.

(** C30: no wake-up is lost.  Whenever the supervisor waits although its queue
    has room, and its last poll took everything it had room for, the wake-up a
    worker stored when it took a delivery is still there: taking it leads to a
    claim for exactly the free room. *)
Theorem capacity_wakes_supervisor q fs ids ds s :
  started q fs ids ds -> sup_reach q fs ids ds s ->
  s_phase s = Selecting -> s_stop s = false -> claimed_all s = true -> Z.of_nat (length (s_queue s)) < q ->
  exists s1 s2, run_step q fs s NotifiedTaken = SNext s1 /\ run_step q fs s1 LimitComputed = SNext s2 /\
    s_phase s2 = Claiming_ (q - Z.of_nat (length (s_queue s))) /\ s_queue s2 = s_queue s.
Proof.
  intros Hst Hr Eph Eg Hall Hroom.
  assert (Hk : room_known q s).
  { clear Eph Eg Hall Hroom. induction Hr as [|s ev s' Hr IH Hh Hstep]; [|by eapply room_known_step].
    intros _. by split. }
  destruct (s_permit s) eqn:Ep; [|destruct (Hk Ep) as [Hfull _]; specialize (Hfull Eph Hall); lia].
  eexists _, _. simpl. rewrite Eph, Ep. split; [done|]. simpl. rewrite (proj2 (Z.eqb_neq _ _)) by lia.
  rewrite Eg. done.
Qed.
End Refinement.

(** ** Examples *)

(** One worker; a delivery is claimed, taken, and its worker panics; the exit is
    observed and the worker restarted under another ID. *)
Module PoolExample.
Definition ids : list Id := [7%N].
Definition ds : list (TaskDispatcher db) := [ex_dispatcher].
Definition fs : list TaskFormat := formats ex_dispatcher.
Definition events : list (sup_event db) :=
  [TickFired; RecoveryReturned; LimitComputed; ClaimReturned [ex_leased]; Received 7%N; TaskPanicked 7%N;
   ExitTaken 7%N 8%N (Ok ex_dispatcher); LimitComputed; ClaimFailed].
Fixpoint run (s : supervisor db) (evs : list (sup_event db)) : option (supervisor db) :=
  match evs with
  | [] => Some s
  | ev :: evs =>
    if decide (sup_honest s ev) then match run_step 1 fs s ev with SNext s => run s evs | _ => None end
    else None
  end.

Lemma started_ex : started 1 fs ids ds.
Proof.
  split_and!; [done|done|done|by apply NoDup_singleton|]. constructor; [done|by apply Forall_nil].
Qed.
Lemma run_reach evs s s' :
  sup_reach 1 fs ids ds s -> run s evs = Some s' -> sup_reach 1 fs ids ds s'.
Proof.
  revert s. induction evs as [|ev evs IH]; intros s Hr Hrun; simpl in Hrun; [by simplify_eq|].
  case_decide as Hh; [|done]. destruct (run_step 1 fs s ev) as [s1| |] eqn:E; try done.
  apply (IH s1); [|done]. by eapply sup_continue.
Qed.

(** Restarted and waiting: the worker has its task under the new ID. *)
Definition restarted : supervisor db :=
  mk_supervisor {| wp_workers := {[ 8%N := {| wt_index := 0; wt_dispatcher := ex_dispatcher; wt_state := Receiving |} ]};
                   wp_worker_indices := {[ 8%N := O ]} |} [] false true false Selecting false.
Lemma restarted_reach : sup_reach 1 fs ids ds restarted.
Proof. apply (run_reach events (sup_start ids ds)); [apply sup_begin|by vm_compute]. Qed.

Lemma worker_pool_refines_supervision_witness :
  exists p, pool_reach db 1 1 fs p /\ sup_shows fs restarted p.
Proof.
  destruct (worker_pool_refines_supervision 1 fs ids ds restarted started_ex restarted_reach)
    as (p & Hp & Hs & _). by exists p.
Defined.

Lemma worker_tasks_are_owned_witness : wp_worker_indices (s_pool restarted) !! 8%N = Some O.
Proof.
  destruct (worker_tasks_are_owned 1 fs ids ds restarted started_ex restarted_reach) as (_ & _ & Ht & _).
  by destruct (Ht 8%N _ (lookup_singleton_eq _ _)) as (_ & _ & ? & _).
Defined.

(** The single worker has just taken what the last poll claimed. *)
Definition taken : supervisor db :=
  mk_supervisor {| wp_workers := {[ 7%N := {| wt_index := 0; wt_dispatcher := ex_dispatcher;
                                              wt_state := Executing ex_leased |} ]};
                   wp_worker_indices := {[ 7%N := O ]} |} [] false true false Selecting true.
Lemma taken_reach : sup_reach 1 fs ids ds taken.
Proof. apply (run_reach (take 5 events) (sup_start ids ds)); [apply sup_begin|by vm_compute]. Qed.
Lemma capacity_wakes_supervisor_witness :
  exists s1 s2, run_step 1 fs taken NotifiedTaken = SNext s1 /\ run_step 1 fs s1 LimitComputed = SNext s2 /\
    s_phase s2 = Claiming_ 1 /\ s_queue s2 = [].
Proof.
  apply (capacity_wakes_supervisor 1 fs ids ds taken started_ex taken_reach); done.
Defined.
End PoolExample.
