(* ===== verification/Application.v ===== *)
(** * The application layer

    [account-managements-service/src/application] and the adapters of
    [infrastructure] it is wired with: the use cases of the e-mail reservation,
    the registration service, the versioned task payloads with their JSON
    form, the task handlers, the CQRS gateways' choice of aggregate, the
    console sender, and the dispatcher the service starts with.

    Generated values (account IDs, codes, tokens, task IDs) and clock readings
    are arguments; the world [W] is whatever the gateways and the sender act
    on.  A gateway may panic, and so may everything that calls it: [None]. *)

From S2P Require Import Prelude DomainValues EmailReservation UserAccount FloatTime TaskData.
From S2P Require Import Database CommandRetry TaskHandling.
From stdpp Require Import pretty.
#[local] Open Scope Z_scope.

(** ** JSON of the payloads

    [serde] reads a struct from an object by field name, ignoring unknown
    fields, or from an array of exactly its fields. *)

Definition struct_fields (names : list rstr) (v : Value) : option (list Value) :=
  match v with
  | JObject _ => mapM (fun name => json_get name v) names
  | JArray l => if (length l =? length names)%nat then Some l else None
  | _ => None
  end.

Definition as_string (v : Value) : option rstr := match v with JString s => Some s | _ => None end.
Definition as_u32 (v : Value) : option Z :=
  match v with
  | JNumber n => if (0 <=? n) && (n <=? u32_MAX) then Some n else None
  | _ => None
  end.

(** The text form of dates and times is [chrono]'s. *)
Class ChronoCrate := {
  date_to_string : NaiveDate -> rstr;
  date_from_string : rstr -> option NaiveDate;
  time_to_string : DateTime -> rstr;
  time_from_string : rstr -> option DateTime;
}.
Class ChronoLaws `{ChronoCrate} := {
  date_roundtrip d : date_from_string (date_to_string d) = Some d;
  time_roundtrip t : time_from_string (time_to_string t) = Some t;
}.

Section Payloads.
Context `{UuidCrate, EmailCrate, ChronoCrate}.

Definition email_to_json (e : Email) : Value := JString (email_as_str e).
Definition email_of_json (v : Value) : option Email := s ← as_string v; result_ok (email_parse s).
Definition id_to_json (i : UserAccountId) : Value := JString (account_id_to_string i).
Definition id_of_json (v : Value) : option UserAccountId := s ← as_string v; account_id_from_str s.

Definition profile_to_json (p : RegistrationProfile) : Value :=
  JObject [(§"first_name", JString (first_name p)); (§"last_name", JString (last_name p));
           (§"date_of_birth", JString (date_to_string (date_of_birth p)));
           (§"validation_date", JString (date_to_string (validation_date p)))].
Definition profile_of_json (v : Value) : option RegistrationProfile :=
  fields ← struct_fields [§"first_name"; §"last_name"; §"date_of_birth"; §"validation_date"] v;
  match fields with
  | [f; l; b; d] =>
    f ← as_string f; l ← as_string l;
    b ← as_string b; b ← date_from_string b;
    d ← as_string d; d ← date_from_string d;
    Some {| first_name := f; last_name := l; date_of_birth := b; validation_date := d |}
  | _ => None
  end.

Record SendVerificationCodeTaskV1 := {
  sv_email : Email; sv_account_id : UserAccountId; sv_verification_code : Z;
}.
Record CreateAccountTaskV1 := {
  ct_email : Email; ct_account_id : UserAccountId; ct_profile : RegistrationProfile;
}.
Record RecordAccountCreatedTaskV1 := {
  rt_email : Email; rt_account_id : UserAccountId; rt_profile : RegistrationProfile;
  rt_created_at : DateTime;
}.

#[export] Instance send_payload : TaskPayload SendVerificationCodeTaskV1 := {|
  TASK_TYPE := §"send_verification_code"; TASK_VERSION := 1;
  to_value p := Some (JObject [(§"email", email_to_json (sv_email p));
                               (§"account_id", id_to_json (sv_account_id p));
                               (§"verification_code", JNumber (sv_verification_code p))]);
  from_value v :=
    fields ← struct_fields [§"email"; §"account_id"; §"verification_code"] v;
    match fields with
    | [e; i; c] =>
      e ← email_of_json e; i ← id_of_json i; c ← as_u32 c;
      Some {| sv_email := e; sv_account_id := i; sv_verification_code := c |}
    | _ => None
    end |}.

#[export] Instance create_payload : TaskPayload CreateAccountTaskV1 := {|
  TASK_TYPE := §"create_account"; TASK_VERSION := 1;
  to_value p := Some (JObject [(§"email", email_to_json (ct_email p));
                               (§"account_id", id_to_json (ct_account_id p));
                               (§"profile", profile_to_json (ct_profile p))]);
  from_value v :=
    fields ← struct_fields [§"email"; §"account_id"; §"profile"] v;
    match fields with
    | [e; i; p] =>
      e ← email_of_json e; i ← id_of_json i; p ← profile_of_json p;
      Some {| ct_email := e; ct_account_id := i; ct_profile := p |}
    | _ => None
    end |}.

#[export] Instance record_payload : TaskPayload RecordAccountCreatedTaskV1 := {|
  TASK_TYPE := §"record_account_created"; TASK_VERSION := 1;
  to_value p := Some (JObject [(§"email", email_to_json (rt_email p));
                               (§"account_id", id_to_json (rt_account_id p));
                               (§"profile", profile_to_json (rt_profile p));
                               (§"created_at", JString (time_to_string (rt_created_at p)))]);
  from_value v :=
    fields ← struct_fields [§"email"; §"account_id"; §"profile"; §"created_at"] v;
    match fields with
    | [e; i; p; t] =>
      e ← email_of_json e; i ← id_of_json i; p ← profile_of_json p;
      t ← as_string t; t ← time_from_string t;
      Some {| rt_email := e; rt_account_id := i; rt_profile := p; rt_created_at := t |}
    | _ => None
    end |}.
End Payloads.

(** ** Gateways *)

Class EmailReservationGateway (W : Type) := {
  email_execute_with_outbox : EmailReservationCommand -> list NewTask -> W ->
    option (result (CommandGatewayError EmailReservationError) unit) * W;
}.
Class UserAccountGateway (W : Type) := {
  account_execute_with_outbox : UserAccountCommand -> list NewTask -> W ->
    option (result (CommandGatewayError UserAccountError) unit) * W;
}.

(** [CqrsEmailReservationGateway::execute] *)
Definition email_execute {W} `{EmailReservationGateway W} (command : EmailReservationCommand) (w : W) :
    option (result (CommandGatewayError EmailReservationError) unit) * W :=
  email_execute_with_outbox command [] w.

(** The stream each command goes to. *)
Definition email_aggregate_id (command : EmailReservationCommand) : rstr :=
  match command with
  | ReserveEmail email _ _ | RequestVerificationCode email _ _ | VerifyEmail email _ _ _
  | SubmitRegistrationProfile email _ _ _ | RecordAccountCreated email _ _ _ => email_to_string email
  end.
Definition account_aggregate_id `{UuidCrate} (command : UserAccountCommand) : rstr :=
  match command with CreateAccount account_id _ _ _ _ _ _ => account_id_to_string account_id end.

(** ** E-mail reservation use cases *)

Inductive EmailReservationServiceError :=
| SvcAlreadyReserved | SvcNotReserved | SvcNotCurrentAccountId | SvcAlreadyVerified
| SvcAccountCreationStarted | SvcInvalidVerificationCode | SvcConflict | SvcUnavailable
| SvcUnexpectedDomainRejection (e : EmailReservationError).

Record ReservedEmail := { re_email : Email; re_account_id : UserAccountId }.
Record VerifiedEmail := {
  ve_email : Email; ve_account_id : UserAccountId; ve_account_creation_token : rstr;
}.

(** What the generator of registration material returns in one use case, with
    the task's [Uuid::new_v4()]. *)
Record material := {
  m_account_id : UserAccountId; m_verification_code : Z; m_account_creation_token : rstr;
  m_task_id : Uuid;
}.

(** One use of the operating system's randomness through [uuid], [rand] and
    [base64]; ranges are half open. *)
Record RandomSource := {
  new_v4 : Uuid;
  random_half_open : Z -> Z -> Z;
  random_bytes : list N;
  url_safe_no_pad : list N -> rstr;
}.
Definition random_source_ok (r : RandomSource) : Prop :=
  forall lo hi, lo < hi -> lo <= random_half_open r lo hi < hi.

(** [RandomRegistrationMaterialGenerator] *)
Definition verification_code (r : RandomSource) : Z := random_half_open r 1000000 10000000.
Definition generate (r : RandomSource) (task_id : Uuid) : material := {|
  m_account_id := from_uuid (new_v4 r); m_verification_code := verification_code r;
  m_account_creation_token := url_safe_no_pad r (random_bytes r); m_task_id := task_id |}.

(** [hex::encode(Sha256::digest(..))] *)
Class TokenDigest := { digest : rstr -> rstr }.

Definition reserve_error (error : CommandGatewayError EmailReservationError) : EmailReservationServiceError :=
  match error with
  | Domain AlreadyReserved => SvcAlreadyReserved
  | Conflict => SvcConflict
  | Domain error => SvcUnexpectedDomainRejection error
  | GatewayUnavailable => SvcUnavailable
  end.

Definition request_code_error (error : CommandGatewayError EmailReservationError) :
    EmailReservationServiceError :=
  match error with
  | Domain AccountIdUnchanged | Conflict => SvcConflict
  | Domain NotReserved => SvcNotReserved
  | Domain AccountCreationStarted => SvcAccountCreationStarted
  | Domain error => SvcUnexpectedDomainRejection error
  | GatewayUnavailable => SvcUnavailable
  end.

Definition confirm_error (error : CommandGatewayError EmailReservationError) : EmailReservationServiceError :=
  match error with
  | Domain NotReserved => SvcNotReserved
  | Domain NotCurrentAccountId => SvcNotCurrentAccountId
  | Domain AlreadyVerified => SvcAlreadyVerified
  | Domain AccountCreationStarted => SvcAccountCreationStarted
  | Domain InvalidVerificationCode => SvcInvalidVerificationCode
  | Domain error => SvcUnexpectedDomainRejection error
  | Conflict => SvcConflict
  | GatewayUnavailable => SvcUnavailable
  end.

Section UseCases.
Context `{UuidCrate, EmailCrate, ChronoCrate, TokenDigest} {W : Type} `{EmailReservationGateway W, UserAccountGateway W}.

(** [use_cases::reserve_email::execute] *)
Definition reserve_email (m : material) (email : Email) (w : W) :
    option (result EmailReservationServiceError ReservedEmail) * W :=
  match new_task (m_task_id m) {| sv_email := email; sv_account_id := m_account_id m;
                                  sv_verification_code := m_verification_code m |} with
  | Err _ => (Some (Err SvcUnavailable), w)
  | Ok task =>
    map_answer (fun res =>
        _ ← map_err reserve_error res;
        Ok {| re_email := email; re_account_id := m_account_id m |})
      (email_execute_with_outbox
         (ReserveEmail email (m_account_id m) (m_verification_code m)) [task] w)
  end.

(** [use_cases::request_new_verification_code::execute] *)
Definition request_new_verification_code (m : material) (email : Email) (w : W) :
    option (result EmailReservationServiceError unit) * W :=
  match new_task (m_task_id m) {| sv_email := email; sv_account_id := m_account_id m;
                                  sv_verification_code := m_verification_code m |} with
  | Err _ => (Some (Err SvcUnavailable), w)
  | Ok task =>
    map_answer (map_err request_code_error)
      (email_execute_with_outbox
         (RequestVerificationCode email (m_account_id m) (m_verification_code m)) [task] w)
  end.

(** [use_cases::confirm_email::execute] *)
Definition confirm_email (m : material) (email : Email) (account_id : UserAccountId) (code : Z) (w : W) :
    option (result EmailReservationServiceError VerifiedEmail) * W :=
  if negb ((1000000 <=? code) && (code <=? 9999999)) then (Some (Err SvcInvalidVerificationCode), w)
  else
    let token := m_account_creation_token m in
    map_answer (fun res =>
        _ ← map_err confirm_error res;
        Ok {| ve_email := email; ve_account_id := account_id; ve_account_creation_token := token |})
      (email_execute (VerifyEmail email account_id code (digest token)) w).

(** ** The registration service *)

(** The trait [RegistrationClock]: the time of a moment. *)
Definition RegistrationClock (W : Type) : Type := W -> DateTime.

Record ProfileSubmission := {
  ps_email : Email; ps_account_id : UserAccountId; ps_account_creation_token : rstr;
  ps_first_name : rstr; ps_last_name : rstr; ps_date_of_birth : NaiveDate;
}.
Record AcceptedSubmission := { as_email : Email; as_account_id : UserAccountId }.
Inductive SubmissionError := SubDomain (e : EmailReservationError) | SubConflict | SubUnavailable.
Inductive ContinuationError := ContRetry | ContPermanent.

Definition submit_profile (now : DateTime) (task_id : Uuid) (s : ProfileSubmission) (w : W) :
    option (result SubmissionError AcceptedSubmission) * W :=
  let profile := profile_new (ps_first_name s) (ps_last_name s) (ps_date_of_birth s) (date_naive now) in
  let command := SubmitRegistrationProfile (ps_email s) (ps_account_id s)
                   (digest (ps_account_creation_token s)) profile in
  match new_task task_id {| ct_email := ps_email s; ct_account_id := ps_account_id s;
                            ct_profile := profile |} with
  | Err _ => (Some (Err SubUnavailable), w)
  | Ok task =>
    map_answer (fun res =>
        match res with
        | Ok _ => Ok {| as_email := ps_email s; as_account_id := ps_account_id s |}
        | Err Conflict => Err SubConflict
        | Err GatewayUnavailable => Err SubUnavailable
        | Err (Domain error) => Err (SubDomain error)
        end)
      (email_execute_with_outbox command [task] w)
  end.

Definition create_account (now : DateTime) (task_id : Uuid) (task : CreateAccountTaskV1) (w : W) :
    option (result ContinuationError unit) * W :=
  let created_at := now in
  match new_task task_id {| rt_email := ct_email task; rt_account_id := ct_account_id task;
                            rt_profile := ct_profile task; rt_created_at := created_at |} with
  | Err _ => (Some (Err ContPermanent), w)
  | Ok completion =>
    let command := CreateAccount (ct_account_id task) (ct_email task) (first_name (ct_profile task))
      (last_name (ct_profile task)) (date_of_birth (ct_profile task))
      (validation_date (ct_profile task)) created_at in
    map_answer (fun res =>
        match res with
        | Ok _ | Err (Domain AlreadyCreated) => Ok tt
        | Err Conflict | Err GatewayUnavailable => Err ContRetry
        | Err (Domain _) => Err ContPermanent
        end)
      (account_execute_with_outbox command [completion] w)
  end.

Definition record_account_created (task : RecordAccountCreatedTaskV1) (w : W) :
    option (result ContinuationError unit) * W :=
  let command := RecordAccountCreated (rt_email task) (rt_account_id task) (rt_profile task)
                   (rt_created_at task) in
  map_answer (fun res =>
      match res with
      | Ok _ | Err (Domain AccountCreationAlreadyCompleted) => Ok tt
      | Err Conflict | Err GatewayUnavailable => Err ContRetry
      | Err (Domain _) => Err ContPermanent
      end)
    (email_execute command w).

(** ** Task handlers *)

Definition delivery_error (error : ContinuationError) : TaskHandlerError :=
  match error with
  | ContRetry => HandlerRetry (§"registration continuation temporarily unavailable") None
  | ContPermanent => HandlerPermanent (§"registration continuation data does not match")
  end.

Record VerificationCodeDelivery := {
  vd_email : Email; vd_account_id : UserAccountId; vd_verification_code : Z;
}.
Definition delivery_from (task : SendVerificationCodeTaskV1) : VerificationCodeDelivery := {|
  vd_email := sv_email task; vd_account_id := sv_account_id task;
  vd_verification_code := sv_verification_code task |}.

Definition VerificationCodeSender : Type :=
  VerificationCodeDelivery -> TaskAttempt -> W -> option (result TaskHandlerError unit) * W.

Definition send_verification_code_handle (sender : VerificationCodeSender) :
    TaskHandler W SendVerificationCodeTaskV1 := fun payload delivery w =>
  if negb ((1000000 <=? sv_verification_code payload) && (sv_verification_code payload <=? 9999999))
  then (Some (Err (HandlerPermanent (§"invalid verification code"))), w)
  else sender (delivery_from payload) delivery w.

(** Each handler reads the clock and draws a task ID when it runs. *)
Definition create_account_handle (now : RegistrationClock W) (fresh : W -> Uuid) :
    TaskHandler W CreateAccountTaskV1 := fun payload _ w =>
  map_answer (map_err delivery_error) (create_account (now w) (fresh w) payload w).

Definition record_account_created_handle : TaskHandler W RecordAccountCreatedTaskV1 :=
  fun payload _ w => map_answer (map_err delivery_error) (record_account_created payload w).

(** ** The console sender *)

(** [io::Write]: whether each call succeeds, and what it leaves. *)
Record Writer := { write_line : rstr -> W -> bool * W; flush : W -> bool * W }.

Definition console_line (message : VerificationCodeDelivery) (delivery : TaskAttempt) : rstr :=
  §"Verification code " ++ lit (pretty (vd_verification_code message))
  ++ §" for account_id " ++ account_id_to_string (vd_account_id message)
  ++ §" sent to " ++ email_to_string (vd_email message)
  ++ §"; task_id=" ++ uuid_to_string (at_id delivery)
  ++ §"; attempt=" ++ lit (pretty (at_number delivery)) ++ [10%N].

Definition console_send (writer : Writer) : VerificationCodeSender := fun message delivery w =>
  let failed := HandlerRetry (§"console write failed") None in
  let '(ok, w) := write_line writer (console_line message delivery) w in
  if ok then let '(ok, w) := flush writer w in (Some (if ok then Ok tt else Err failed), w)
  else (Some (Err failed), w).

(** ** Wiring: the dispatcher of every worker *)

Definition application_dispatcher (writer : Writer) (now : RegistrationClock W) (fresh : W -> Uuid) :
    result TaskDispatcherError (TaskDispatcher W) :=
  send ← map_err InvalidFormat (task_adapter (send_verification_code_handle (console_send writer)));
  create ← map_err InvalidFormat (task_adapter (create_account_handle now fresh));
  record ← map_err InvalidFormat (task_adapter record_account_created_handle);
  try_new [send; create; record].
End UseCases.

(** ** The services the HTTP handlers call

    The traits [EmailReservationService] and [RegistrationService]; the material
    an implementation draws, its clock and the ID of its task are arguments. *)

Class EmailReservationService (W : Type) := {
  svc_reserve : material -> Email -> W ->
    option (result EmailReservationServiceError ReservedEmail) * W;
  svc_request_new_verification_code : material -> Email -> W ->
    option (result EmailReservationServiceError unit) * W;
  svc_confirm_email : material -> Email -> UserAccountId -> Z -> W ->
    option (result EmailReservationServiceError VerifiedEmail) * W;
}.

Class RegistrationService (W : Type) := {
  svc_submit_profile : DateTime -> Uuid -> ProfileSubmission -> W ->
    option (result SubmissionError AcceptedSubmission) * W;
  svc_create_account : DateTime -> Uuid -> CreateAccountTaskV1 -> W ->
    option (result ContinuationError unit) * W;
  svc_record_account_created : RecordAccountCreatedTaskV1 -> W ->
    option (result ContinuationError unit) * W;
}.

Section Services.
Context `{UuidCrate, EmailCrate, ChronoCrate, TokenDigest} {W : Type} `{EmailReservationGateway W, UserAccountGateway W}.

(** [DefaultEmailReservationService]: each operation is its use case. *)
Definition email_reservation_service : EmailReservationService W := {|
  svc_reserve := reserve_email;
  svc_request_new_verification_code := request_new_verification_code;
  svc_confirm_email := confirm_email |}.

(** [DefaultRegistrationService] *)
Definition registration_service : RegistrationService W := {|
  svc_submit_profile := submit_profile;
  svc_create_account := create_account;
  svc_record_account_created := record_account_created |}.
End Services.

(** ** Round trips *)

(** The addresses [Email::parse] produces. *)
Definition email_valid `{EmailCrate} (e : Email) : Prop := email_parse (email_as_str e) = Ok e.

Lemma email_parse_valid `{EmailLaws} s e : email_parse s = Ok e -> email_valid e.
Proof. apply email_parse_canonical. Qed.

Section RoundTrips.
Context `{UuidLaws, EmailLaws, ChronoLaws}.

Lemma email_json_roundtrip e : email_valid e -> email_of_json (email_to_json e) = Some e.
Proof. unfold email_valid, email_of_json. simpl. by intros ->. Qed.

Lemma id_json_roundtrip i : id_of_json (id_to_json i) = Some i.
Proof.
  unfold id_of_json, account_id_from_str, id_to_json, account_id_to_string. simpl.
  rewrite uuid_parse_to_string. by destruct i.
Qed.

Lemma profile_json_roundtrip p : profile_of_json (profile_to_json p) = Some p.
Proof.
  unfold profile_of_json, profile_to_json. simpl. rewrite !date_roundtrip. by destruct p.
Qed.

Lemma u32_json_roundtrip n : 0 <= n <= u32_MAX -> as_u32 (JNumber n) = Some n.
Proof. intros [? ?]. simpl. by rewrite !(proj2 (Z.leb_le _ _)). Qed.

Definition send_ok (p : SendVerificationCodeTaskV1) : Prop :=
  email_valid (sv_email p) /\ 0 <= sv_verification_code p <= u32_MAX.

Lemma send_fields e i c :
  struct_fields [§"email"; §"account_id"; §"verification_code"]
    (JObject [(§"email", e); (§"account_id", i); (§"verification_code", c)]) = Some [e; i; c].
Proof. reflexivity. Qed.
Lemma create_fields e i p :
  struct_fields [§"email"; §"account_id"; §"profile"]
    (JObject [(§"email", e); (§"account_id", i); (§"profile", p)]) = Some [e; i; p].
Proof. reflexivity. Qed.
Lemma record_fields e i p t :
  struct_fields [§"email"; §"account_id"; §"profile"; §"created_at"]
    (JObject [(§"email", e); (§"account_id", i); (§"profile", p); (§"created_at", t)])
  = Some [e; i; p; t].
Proof. reflexivity. Qed.

Lemma send_roundtrip s v : send_ok s -> to_value s = Some v -> from_value v = Some s.
Proof.
  destruct s as [e i c]. intros [He Hc].
  unfold to_value, from_value, send_payload. intros [= <-]. rewrite send_fields.
  cbn [mbind option_bind sv_email sv_account_id sv_verification_code] in *.
  by rewrite email_json_roundtrip, id_json_roundtrip, u32_json_roundtrip by done.
Qed.

Lemma create_roundtrip c v :
  email_valid (ct_email c) -> to_value c = Some v -> from_value v = Some c.
Proof.
  destruct c as [e i p]. intros He.
  unfold to_value, from_value, create_payload. intros [= <-]. rewrite create_fields.
  cbn [mbind option_bind ct_email ct_account_id ct_profile] in *.
  by rewrite email_json_roundtrip, id_json_roundtrip, profile_json_roundtrip by done.
Qed.

Lemma record_roundtrip r v :
  email_valid (rt_email r) -> to_value r = Some v -> from_value v = Some r.
Proof.
  destruct r as [e i p t]. intros He.
  unfold to_value, from_value, record_payload. intros [= <-]. rewrite record_fields.
  cbn [mbind option_bind rt_email rt_account_id rt_profile rt_created_at] in *.
  rewrite email_json_roundtrip, id_json_roundtrip, profile_json_roundtrip by done.
  simpl. by rewrite time_roundtrip.
Qed.

#[export] Instance send_laws : TaskPayloadLaws SendVerificationCodeTaskV1 :=
  {| payload_ok := send_ok; payload_roundtrip := send_roundtrip |}.
#[export] Instance create_laws : TaskPayloadLaws CreateAccountTaskV1 :=
  {| payload_ok c := email_valid (ct_email c); payload_roundtrip := create_roundtrip |}.
#[export] Instance record_laws : TaskPayloadLaws RecordAccountCreatedTaskV1 :=
  {| payload_ok r := email_valid (rt_email r); payload_roundtrip := record_roundtrip |}.

(** Nothing is lost on the way through storage: the address, account ID,
    code, profile and creation time of every task payload survive encoding to
    JSON and decoding by the handler unchanged. *)
Theorem payloads_round_trip (s : SendVerificationCodeTaskV1) (c : CreateAccountTaskV1)
    (r : RecordAccountCreatedTaskV1) :
  (email_valid (sv_email s) -> 0 <= sv_verification_code s <= u32_MAX ->
   (to_value s ≫= from_value) = Some s) /\
  (email_valid (ct_email c) -> (to_value c ≫= from_value) = Some c) /\
  (email_valid (rt_email r) -> (to_value r ≫= from_value) = Some r).
Proof.
  split_and!; intros He; [intros Hc|..].
  - exact (send_roundtrip s _ (conj He Hc) eq_refl).
  - exact (create_roundtrip c _ He eq_refl).
  - exact (record_roundtrip r _ He eq_refl).
Qed.
End RoundTrips.

(** ** Routing *)

Section Routing.
Context `{UuidLaws, EmailLaws, ChronoLaws, TokenDigest} {W : Type}
  `{EmailReservationGateway W, UserAccountGateway W}.

(** The delivery of a stored task: any attempt number and metadata. *)
Definition delivers (a : TaskAttempt) (t : NewTask) : Prop :=
  at_format a = nt_format t /\ at_payload a = nt_payload t.

Lemma json_invoke_delivers {P} `{TaskPayloadLaws P} (handler : TaskHandler W P) id (p : P) t a f w :
  payload_ok p -> new_task id p = Ok t -> delivers a t -> format_of P = Ok f ->
  json_invoke f handler a w = handler p a w.
Proof.
  intros Hp Ht [Hf Hv] Hff. apply new_task_fields in Ht as (_ & Hft & Hvt & _).
  rewrite Hft in Hff. simplify_eq. unfold json_invoke.
  rewrite bool_decide_eq_false_2 by naive_solver.
  by rewrite Hv, (payload_roundtrip p _ Hp Hvt).
Qed.

Definition send_format := mk_TaskFormat (§"send_verification_code") 1.
Definition create_format := mk_TaskFormat (§"create_account") 1.
Definition record_format := mk_TaskFormat (§"record_account_created") 1.

Definition application_adapters (writer : Writer (W:=W)) (now : W -> DateTime) (fresh : W -> Uuid) :
    list (TaskAdapter W) :=
  [{| ad_formats := [send_format];
      ad_invoke := json_invoke send_format (send_verification_code_handle (console_send writer)) |};
   {| ad_formats := [create_format];
      ad_invoke := json_invoke create_format (create_account_handle now fresh) |};
   {| ad_formats := [record_format];
      ad_invoke := json_invoke record_format record_account_created_handle |}].

Lemma send_format_of : format_of SendVerificationCodeTaskV1 = Ok send_format.
Proof. reflexivity. Qed.
Lemma create_format_of : format_of CreateAccountTaskV1 = Ok create_format.
Proof. reflexivity. Qed.
Lemma record_format_of : format_of RecordAccountCreatedTaskV1 = Ok record_format.
Proof. reflexivity. Qed.

Lemma application_dispatcher_adapters writer now fresh :
  application_dispatcher writer now fresh = try_new (application_adapters writer now fresh).
Proof.
  unfold application_dispatcher, task_adapter.
  by rewrite send_format_of, create_format_of, record_format_of.
Qed.

Lemma application_dispatcher_built writer now fresh :
  exists d, application_dispatcher writer now fresh = Ok d /\
    adapters d = application_adapters writer now fresh /\
    formats d = [send_format; create_format; record_format] /\
    routes d !! send_format = Some 0%nat /\ routes d !! create_format = Some 1%nat /\
    routes d !! record_format = Some 2%nat.
Proof.
  pose proof (application_dispatcher_adapters writer now fresh) as Hd.
  pose proof (try_new_spec (application_adapters writer now fresh)) as Hs.
  rewrite <- Hd in Hs. destruct (application_dispatcher writer now fresh) as [d|[| |]]; [|done| |done].
  - destruct Hs as (Ha & Hf & _ & _ & Hr). exists d. split_and!; [done|done|by rewrite Hf|..];
      apply Hr; eexists; (split; [reflexivity|by apply list_elem_of_singleton]).
  - destruct Hs. apply (bool_decide_unpack (NoDup [send_format; create_format; record_format])).
    by vm_compute.
Qed.

Lemma adapter_dispatch {P} `{TaskPayloadLaws P} (handler : TaskHandler W P) d i f id (p : P) t a w :
  routes d !! f = Some i ->
  adapters d !! i = Some {| ad_formats := [f]; ad_invoke := json_invoke f handler |} ->
  format_of P = Ok f -> payload_ok p -> new_task id p = Ok t -> delivers a t ->
  dispatch d a w = handler p a w.
Proof.
  intros Hr Ha Hf Hp Ht Hd. pose proof (new_task_fields _ _ _ Ht) as (_ & Hft & _).
  assert (Hfa : at_format a = f) by (destruct Hd; congruence).
  unfold dispatch. rewrite Hfa, Hr, Ha. simpl. by rewrite (json_invoke_delivers _ id p t).
Qed.

Lemma dispatch_published writer now fresh d id t a w :
  application_dispatcher writer now fresh = Ok d -> delivers a t ->
  (forall p : SendVerificationCodeTaskV1, send_ok p -> new_task id p = Ok t ->
     dispatch d a w = send_verification_code_handle (console_send writer) p a w) /\
  (forall p : CreateAccountTaskV1, email_valid (ct_email p) -> new_task id p = Ok t ->
     dispatch d a w = create_account_handle now fresh p a w) /\
  (forall p : RecordAccountCreatedTaskV1, email_valid (rt_email p) -> new_task id p = Ok t ->
     dispatch d a w = record_account_created_handle p a w).
Proof.
  destruct (application_dispatcher_built writer now fresh) as (d' & Hd & Ha & Hf & Hr0 & Hr1 & Hr2).
  intros Hd' Hdel. assert (d' = d) as -> by congruence. split_and!; intros p Hp Ht.
  - eapply adapter_dispatch; [exact Hr0|by rewrite Ha|..]; eauto using send_format_of.
  - eapply adapter_dispatch; [exact Hr1|by rewrite Ha|..]; eauto using create_format_of.
  - eapply adapter_dispatch; [exact Hr2|by rewrite Ha|..]; eauto using record_format_of.
Qed.

(** Every task the application publishes has a handler: the dispatcher is
    always built, for the three formats in this order, and a delivered task
    runs the handler of its kind on the very payload that was published. *)
Theorem application_handles_its_tasks (writer : Writer (W:=W)) (now : W -> DateTime) (fresh : W -> Uuid) :
  exists d, application_dispatcher writer now fresh = Ok d /\
    formats d = [send_format; create_format; record_format] /\
    forall id t a w, delivers a t ->
      (forall p : SendVerificationCodeTaskV1, send_ok p -> new_task id p = Ok t ->
         dispatch d a w = send_verification_code_handle (console_send writer) p a w) /\
      (forall p : CreateAccountTaskV1, email_valid (ct_email p) -> new_task id p = Ok t ->
         dispatch d a w = create_account_handle now fresh p a w) /\
      (forall p : RecordAccountCreatedTaskV1, email_valid (rt_email p) -> new_task id p = Ok t ->
         dispatch d a w = record_account_created_handle p a w).
Proof.
  destruct (application_dispatcher_built writer now fresh) as (d & Hd & _ & Hf & _).
  exists d. split_and!; [done..|]. intros id t a w Hdel. by apply dispatch_published.
Qed.
End Routing.

(** ** Example crates, for the witnesses

    An identifier is its own one-character text, dates and times are a sign
    and a magnitude, addresses are lowercased over ASCII and need an at sign. *)

#[export] Instance ex_uuids : UuidCrate := {|
  uuid_to_string u := [u];
  uuid_parse_str s := match s with [u] => Some u | _ => None end |}.
#[export] Instance ex_uuid_laws : UuidLaws.
Proof. by constructor. Defined.

Definition ex_z_to_string (d : Z) : rstr := [if d <? 0 then 45%N else 43%N; Z.abs_N d].
Definition ex_z_from_string (s : rstr) : option Z :=
  match s with
  | [45%N; n] => Some (- Z.of_N n)
  | [_; n] => Some (Z.of_N n)
  | _ => None
  end.
Lemma ex_z_roundtrip d : ex_z_from_string (ex_z_to_string d) = Some d.
Proof. unfold ex_z_to_string. destruct (Z.ltb_spec d 0); simpl; f_equal; lia. Qed.

#[export] Instance ex_chrono : ChronoCrate := {|
  date_to_string := ex_z_to_string; date_from_string := ex_z_from_string;
  time_to_string := ex_z_to_string; time_from_string := ex_z_from_string |}.
#[export] Instance ex_chrono_laws : ChronoLaws.
Proof. constructor; apply ex_z_roundtrip. Defined.

Definition ascii_lower (c : N) : N := if ((65 <=? c) && (c <=? 90))%N then (c + 32)%N else c.

Lemma ascii_lower_cases c : (65 <= c <= 90 /\ ascii_lower c = c + 32)%N \/ ascii_lower c = c.
Proof.
  unfold ascii_lower. destruct (N.leb_spec 65 c), (N.leb_spec c 90); simpl; auto.
Qed.

Lemma ascii_upper_not_blank c : (65 <= c <= 122)%N -> is_whitespace c = false.
Proof.
  intros Hc. unfold is_whitespace. rewrite !orb_false_iff, !andb_false_iff, !N.eqb_neq, !N.leb_gt.
  lia.
Qed.

Lemma ascii_lower_blank c : is_whitespace (ascii_lower c) = is_whitespace c.
Proof.
  destruct (ascii_lower_cases c) as [[? ->]| ->]; [|done].
  by rewrite !ascii_upper_not_blank by lia.
Qed.

Lemma trim_start_map f s :
  (forall c, is_whitespace (f c) = is_whitespace c) -> trim_start (f <$> s) = f <$> trim_start s.
Proof. intros Hf. induction s as [|c s IH]; [done|]. simpl. rewrite Hf. by case_match. Qed.

Lemma trim_map f s :
  (forall c, is_whitespace (f c) = is_whitespace c) -> trim (f <$> s) = f <$> trim s.
Proof.
  intros Hf. unfold trim, trim_end. rewrite trim_start_map by done.
  by rewrite <- fmap_reverse, trim_start_map, fmap_reverse.
Qed.

#[export] Instance ex_emails : EmailCrate := {|
  to_lowercase s := ascii_lower <$> s;
  parse_with_options s := if bool_decide (64%N ∈ s) then Some s else None |}.
#[export] Instance ex_email_laws : EmailLaws.
Proof.
  constructor; simpl.
  - intros s. rewrite <- list_fmap_compose. apply list_fmap_ext. intros i c _. simpl.
    destruct (ascii_lower_cases c) as [[? Hl]|Hl]; rewrite Hl; [|done].
    destruct (ascii_lower_cases (c + 32)); lia.
  - intros s. by rewrite trim_map, trim_idemp by apply ascii_lower_blank.
  - intros s (c & Hc & Hin)%list_elem_of_fmap. unfold dquote in *.
    destruct (ascii_lower_cases c) as [[??]|Hl]; [lia|]. by rewrite Hc, Hl.
  - intros s e. case_bool_decide; by intros [= <-].
Defined.
#[export] Instance ex_digest : TokenDigest := {| digest s := 35%N :: s |}.

Lemma ex_email_valid : email_valid ex_email.
Proof. by vm_compute. Qed.

Lemma payloads_round_trip_witness :
  (to_value {| sv_email := ex_email; sv_account_id := ex_id; sv_verification_code := 1234567 |}
     ≫= from_value) =
  Some {| sv_email := ex_email; sv_account_id := ex_id; sv_verification_code := 1234567 |}.
Proof.
  apply (payloads_round_trip
    {| sv_email := ex_email; sv_account_id := ex_id; sv_verification_code := 1234567 |}
    {| ct_email := ex_email; ct_account_id := ex_id; ct_profile := ex_profile |}
    {| rt_email := ex_email; rt_account_id := ex_id; rt_profile := ex_profile; rt_created_at := 42 |});
    [apply ex_email_valid|done].
Defined.

(** Gateways that are never available, and a console that accepts everything. *)
Definition ex_email_gateway : EmailReservationGateway unit :=
  {| email_execute_with_outbox _ _ w := (Some (Err GatewayUnavailable), w) |}.
Definition ex_account_gateway : UserAccountGateway unit :=
  {| account_execute_with_outbox _ _ w := (Some (Err GatewayUnavailable), w) |}.
Definition ex_writer : Writer (W:=unit) := {| write_line _ w := (true, w); flush w := (true, w) |}.

Lemma application_handles_its_tasks_witness :
  exists d, @application_dispatcher ex_uuids ex_emails ex_chrono unit ex_email_gateway ex_account_gateway
      ex_writer (fun _ => 0) (fun _ => 1%N) = Ok d /\
    formats d = [send_format; create_format; record_format].
Proof.
  destruct (@application_handles_its_tasks ex_uuids ex_uuid_laws ex_emails ex_chrono ex_chrono_laws unit
    ex_email_gateway ex_account_gateway ex_writer (fun _ => 0) (fun _ => 1%N)) as (d & Hd & Hf & _).
  exists d. exact (conj Hd Hf).
Defined.
