(* ===== verification/System.v ===== *)
(** * The registration system

    The two aggregates, the outbox and the task handlers working together:
    use cases run and published tasks are delivered, any number of times, in
    any order, while the command gateways commit, reject, conflict, fail, panic,
    or commit and lose the reply.  What a gateway promises is an interface
    ([EmailGatewayLaws], [AccountGatewayLaws]) on what the service can observe
    of its world, the streams and the published tasks; the retrying executor
    implements it over any framework run that does. *)

From S2P Require Import Prelude DomainValues EmailReservation UserAccount FloatTime Binary64 TaskData.
From S2P Require Import Database CommandRetry TaskHandling Application.
#[local] Open Scope Z_scope.

(** ** What the service observes *)

Record world := mk_world {
  reservations : gmap rstr (list EmailReservationEvent);
  accounts : gmap rstr (list UserAccountEvent);
  published : list NewTask;
}.

Definition empty_world : world := mk_world ∅ ∅ [].
Definition stream (w : world) (key : rstr) : list EmailReservationEvent :=
  stdpp.option.default [] (reservations w !! key).
Definition account_stream (w : world) (key : rstr) : list UserAccountEvent :=
  stdpp.option.default [] (accounts w !! key).

(** The state a stream leads to; a stream that panics on replay has none. *)
Definition state_of (w : world) (email : Email) : option EmailReservation :=
  EmailReservation.replay (stream w (email_to_string email)).

(** One command handled at the end of its stream, the events and the tasks
    committed together. *)
Definition email_decision (w : world) (c : EmailReservationCommand) :
    option (result EmailReservationError (list EmailReservationEvent)) :=
  s ← EmailReservation.replay (stream w (email_aggregate_id c)); EmailReservation.handle s c.
Definition email_commit (w : world) (c : EmailReservationCommand)
    (es : list EmailReservationEvent) (tasks : list NewTask) : world :=
  let key := email_aggregate_id c in
  mk_world (<[key := stream w key ++ es]> (reservations w)) (accounts w) (published w ++ tasks).

Section Accounts.
Context `{UuidCrate}.
Definition account_decision (w : world) (c : UserAccountCommand) :
    result UserAccountError (list UserAccountEvent) :=
  UserAccount.handle (UserAccount.replay (account_stream w (account_aggregate_id c))) c.
Definition account_commit (w : world) (c : UserAccountCommand)
    (es : list UserAccountEvent) (tasks : list NewTask) : world :=
  let key := account_aggregate_id c in
  mk_world (reservations w) (<[key := account_stream w key ++ es]> (accounts w)) (published w ++ tasks).
End Accounts.

(** ** What a gateway promises *)

(** The outcomes of one command: [decision] is what the aggregate says, [commit]
    the world with its events and the tasks.  A failure may hide a commit; a panic
    comes before one. *)
Inductive outcome {D E : Type} (w : world) (decision : option (result D (list E)))
    (commit : list E -> world) : option (result (CommandGatewayError D) unit) -> world -> Prop :=
| out_committed es : decision = Some (Ok es) -> outcome w decision commit (Some (Ok tt)) (commit es)
| out_rejected e : decision = Some (Err e) -> outcome w decision commit (Some (Err (Domain e))) w
| out_conflict : outcome w decision commit (Some (Err Conflict)) w
| out_failed : outcome w decision commit (Some (Err GatewayUnavailable)) w
| out_lost es : decision = Some (Ok es) ->
    outcome w decision commit (Some (Err GatewayUnavailable)) (commit es)
| out_panicked : outcome w decision commit None w.

Section Interfaces.
Context `{UuidCrate} {W : Type} (view : W -> world).

Class EmailGatewayLaws `{EmailReservationGateway W} := email_outcome c tasks w r w' :
  email_execute_with_outbox c tasks w = (r, w') ->
  outcome (view w) (email_decision (view w) c)
    (fun es => email_commit (view w) c es tasks) r (view w').

Class AccountGatewayLaws `{UserAccountGateway W} := account_outcome c tasks w r w' :
  account_execute_with_outbox c tasks w = (r, w') ->
  outcome (view w) (Some (account_decision (view w) c))
    (fun es => account_commit (view w) c es tasks) r (view w').
End Interfaces.

(** *** The retrying executor implements it *)

(** One run of the framework: the same outcomes before the errors are mapped. *)
Inductive framework_outcome {D E : Type} (w : world) (decision : option (result D (list E)))
    (commit : list E -> world) : option (result (AggregateError D) unit) -> world -> Prop :=
| fw_committed es : decision = Some (Ok es) -> framework_outcome w decision commit (Some (Ok tt)) (commit es)
| fw_rejected e : decision = Some (Err e) ->
    framework_outcome w decision commit (Some (Err (UserError e))) w
| fw_conflict : framework_outcome w decision commit (Some (Err AggregateConflict)) w
| fw_failed err : err = DatabaseConnectionError \/ err = DeserializationError \/ err = UnexpectedError ->
    framework_outcome w decision commit (Some (Err err)) w
| fw_lost err es : err = DatabaseConnectionError \/ err = DeserializationError \/ err = UnexpectedError ->
    decision = Some (Ok es) -> framework_outcome w decision commit (Some (Err err)) (commit es)
| fw_panicked : framework_outcome w decision commit None w.

Section Retrying.
Context `{F64Laws} {W D E C : Type} (view : W -> world)
  (decide_command : world -> C -> option (result D (list E)))
  (commit : world -> C -> list E -> list NewTask -> world)
  (aggregate_id : C -> rstr)
  (policy : AggregateConflictRetryPolicy) (draws : Z -> Q -> Q -> Q)
  (build_framework : list NewTask -> rstr -> C -> W -> option (result (AggregateError D) unit) * W).

(** [CqrsEmailReservationGateway] and [CqrsUserAccountGateway] call the
    executor, and panic when it does. *)
Definition gateway_execute (c : C) (tasks : list NewTask) (w : W) :
    option (result (CommandGatewayError D) unit) * W :=
  map_answer fst (CommandRetry.execute policy draws build_framework (aggregate_id c) c tasks w).

Hypothesis policy_valid : policy_ok policy.
Hypothesis draws_in_range : forall k lo hi, (lo <= hi -> lo <= draws k lo hi <= hi)%Q.
Hypothesis framework_laws : forall tasks c w r w',
  build_framework tasks (aggregate_id c) c w = (r, w') ->
  framework_outcome (view w) (decide_command (view w) c)
    (fun es => commit (view w) c es tasks) r (view w').

Lemma runs_conflicts c tasks w rs r w' :
  runs (build_framework tasks (aggregate_id c) c) w (rs ++ [r]) w' ->
  Forall (fun r => conflicted r = true) rs ->
  framework_outcome (view w) (decide_command (view w) c)
    (fun es => commit (view w) c es tasks) r (view w').
Proof.
  revert w. induction rs as [|r0 rs IH]; intros w Hr Hc; inversion Hr as [|? ? w1 ? ? Ho Hr1]; subst.
  - inversion Hr1; subst. by apply framework_laws.
  - inversion Hc as [|? ? Hc0 Hcs]; subst. apply framework_laws in Ho.
    assert (view w1 = view w) as <-; [|by apply IH].
    inversion Ho; subst; try done; naive_solver.
Qed.

Lemma gateway_execute_outcome c tasks w :
  exists r w', gateway_execute c tasks w = (r, w') /\
    outcome (view w) (decide_command (view w) c) (fun es => commit (view w) c es tasks) r (view w').
Proof.
  pose proof policy_valid as [Hm _].
  destruct (retry_loop_spec policy draws (build_framework tasks (aggregate_id c) c)
    (Z.to_nat (max_attempts policy)) 1 w)
    as (rs & r & w' & ds & E' & Hr & Hc & _); [done|lia|lia|lia|done|].
  exists (map_err map_aggregate_error <$> r), w'. split.
  - unfold gateway_execute, CommandRetry.execute, retry_on_aggregate_conflict. rewrite E'. by destruct r.
  - apply runs_conflicts in Hr; [|done]. destruct Hr; destruct_or?; subst;
      first [by apply (out_committed _ _ (fun es => commit (view w) c es tasks))|by apply out_rejected|apply out_conflict|apply out_failed
            |by apply (out_lost _ _ (fun es => commit (view w) c es tasks))|apply out_panicked].
Qed.
End Retrying.

(** ** The committed steps

    What the committed commands of the application can be, with the tasks they
    publish. *)

Section Steps.
Context `{UuidLaws, EmailLaws, ChronoLaws}.

(** The account IDs a stream has issued; a generated ID is fresh when no
    stream has issued it. *)
Definition issues (es : list EmailReservationEvent) (id : UserAccountId) : Prop :=
  exists e code, e ∈ es /\ issued e = Some (id, code).
Definition fresh_id (w : world) (id : UserAccountId) : Prop :=
  forall key, ~ issues (stream w key) id.

(** The registration an address has settled on: profile accepted for this
    account ID, account creation started. *)
Definition registered (w : world) (email : Email) (id : UserAccountId) (p : RegistrationProfile) : Prop :=
  exists s, state_of w email = Some s /\ started (phase s) = true /\
    EmailReservation.account_id s = Some id /\ accepted_profile (phase s) = Some p.

Definition account_event (email : Email) (id : UserAccountId) (p : RegistrationProfile) (t : DateTime) :
    UserAccountEvent :=
  UserAccount.AccountCreated id email (first_name p) (last_name p) (date_of_birth p) (validation_date p) t.

Definition send_task (email : Email) (id : UserAccountId) (code : Z) (t : NewTask) : Prop :=
  exists tid, new_task tid {| sv_email := email; sv_account_id := id; sv_verification_code := code |} = Ok t.
Definition create_task (email : Email) (id : UserAccountId) (p : RegistrationProfile) (t : NewTask) : Prop :=
  exists tid, new_task tid {| ct_email := email; ct_account_id := id; ct_profile := p |} = Ok t.
Definition record_task (email : Email) (id : UserAccountId) (p : RegistrationProfile) (at_ : DateTime)
    (t : NewTask) : Prop :=
  exists tid, new_task tid
    {| rt_email := email; rt_account_id := id; rt_profile := p; rt_created_at := at_ |} = Ok t.

(** The tasks an e-mail command is executed with, and where it comes from. *)
Definition email_origin (w : world) (c : EmailReservationCommand) (tasks : list NewTask) : Prop :=
  match c with
  | ReserveEmail em id code | RequestVerificationCode em id code =>
    email_valid em /\ fresh_id w id /\ exists t, tasks = [t] /\ send_task em id code t
  | VerifyEmail em id code digest => tasks = []
  | SubmitRegistrationProfile em id digest p =>
    email_valid em /\ profile_normalize p = p /\ exists t, tasks = [t] /\ create_task em id p t
  | RecordAccountCreated em id p at_ =>
    email_valid em /\ tasks = [] /\ exists t, t ∈ published w /\ record_task em id p at_ t
  end.
Definition account_origin (w : world) (c : UserAccountCommand) (tasks : list NewTask) : Prop :=
  match c with
  | CreateAccount id em f l dob vd at_ =>
    exists p t t', f = first_name p /\ l = last_name p /\ dob = date_of_birth p /\
      vd = validation_date p /\ email_valid em /\ t ∈ published w /\ create_task em id p t /\
      tasks = [t'] /\ record_task em id p at_ t'
  end.

Inductive wstep (w : world) : world -> Prop :=
| ws_email c es tasks :
    email_decision w c = Some (Ok es) -> email_origin w c tasks -> wstep w (email_commit w c es tasks)
| ws_account c es tasks :
    account_decision w c = Ok es -> account_origin w c tasks -> wstep w (account_commit w c es tasks).

(** ** The invariant *)

(** What a published task stands for. *)
Definition task_meaning (w : world) (t : NewTask) : Prop :=
  (exists em id code, send_task em id code t /\ email_valid em /\ 1000000 <= code <= 9999999) \/
  (exists em id p, create_task em id p t /\ email_valid em /\ registered w em id p) \/
  (exists em id p at_, record_task em id p at_ t /\ email_valid em /\ registered w em id p /\
     account_stream w (account_id_to_string id) = [account_event em id p at_]).

(** The address an event is about. *)
Definition event_email (e : EmailReservationEvent) : Email :=
  match e with
  | EmailReserved em _ _ | VerificationCodeRequested em _ _ | VerificationRestarted em _ _
  | EmailVerified em _ _ | RegistrationProfileAccepted em _ _ _ | AccountCreationCompleted em _ _ => em
  end.

Record sys_inv (w : world) : Prop := {
  inv_streams key : exists s, EmailReservation.history (stream w key) s;
  inv_ids key key' id : issues (stream w key) id -> issues (stream w key') id -> key = key';
  inv_tasks t : t ∈ published w -> task_meaning w t;
  (** An account belongs to a registration, under its own ID, and its
      completion has been published. *)
  inv_accounts key : account_stream w key = [] \/
    exists em id p at_ t, key = account_id_to_string id /\
      account_stream w key = [account_event em id p at_] /\ registered w em id p /\
      t ∈ published w /\ record_task em id p at_ t;
  inv_creating em id dg p : state_of w em = Some (mk_EmailReservation (CreatingAccount id dg p)) ->
    exists t, t ∈ published w /\ create_task em id p t;
  inv_completed em id dg p at_ :
    state_of w em = Some (mk_EmailReservation (EmailReservation.AccountCreated id dg p at_)) ->
    account_stream w (account_id_to_string id) = [account_event em id p at_];
  (** A stream holds events of its own address. *)
  inv_addresses key e : e ∈ stream w key -> key = email_to_string (event_email e);
}.

Lemma state_history w em :
  sys_inv w -> exists s, state_of w em = Some s /\
    EmailReservation.history (stream w (email_to_string em)) s.
Proof.
  intros Hi. destruct (inv_streams w Hi (email_to_string em)) as [s Hs].
  exists s. split; [|done]. by apply history_replay.
Qed.

Lemma issues_app es e id :
  issues (es ++ [e]) id <-> issues es id \/ fst <$> issued e = Some id.
Proof.
  unfold issues. setoid_rewrite elem_of_app. setoid_rewrite list_elem_of_singleton. split.
  - intros (e' & code & [He| ->] & Hi); [left; eauto|right; by rewrite Hi].
  - intros [(e' & code & He & Hi)|Hi]; [eauto 6|].
    destruct (issued e) as [[id' code]|] eqn:E; simplify_eq/=. eauto 6.
Qed.

Lemma registered_valid w em id p : sys_inv w -> registered w em id p -> profile_valid p.
Proof.
  intros Hi (s & Hs & Hst & _ & Hp). destruct (state_history w em Hi) as (s' & Hs' & Hh).
  rewrite Hs in Hs'. simplify_eq. apply history_phase_inv in Hh.
  destruct s' as [[]]; simplify_eq/=; naive_solver.
Qed.

(** The account ID of every reservation was issued by its own stream. *)
Lemma last_issued_issues es id code : last_issued es = Some (id, code) -> issues es id.
Proof.
  unfold last_issued. intros (e & He & Hi)%last_Some_elem_of%list_elem_of_omap. by exists e, code.
Qed.

Lemma registered_issues w em id p :
  sys_inv w -> registered w em id p -> issues (stream w (email_to_string em)) id.
Proof.
  intros Hi (s & Hs & Hst & Hid & _). destruct (state_history w em Hi) as (s' & Hs' & Hh).
  rewrite Hs in Hs'. simplify_eq. apply history_phase_inv in Hh.
  assert (Hl : fst <$> last_issued (stream w (email_to_string em)) = Some id).
  { unfold EmailReservation.account_id in Hid.
    destruct s' as [[]]; simpl in *; try done; destruct_and?; by simplify_eq. }
  destruct (last_issued _) as [[id' code]|] eqn:E; simplify_eq/=. by eapply last_issued_issues.
Qed.

Lemma registered_functional w em id p id' p' :
  registered w em id p -> registered w em id' p' -> id = id' /\ p = p'.
Proof. intros (s & Hs & _ & Hi & Hp) (s' & Hs' & _ & Hi' & Hp'). split; congruence. Qed.

Lemma email_of_key em em' : email_to_string em = email_to_string em' -> em = em'.
Proof. destruct em, em'. by intros [= ->]. Qed.

(** Two registrations with one account ID are the same registration. *)
Lemma registered_owner w em em' id p p' :
  sys_inv w -> registered w em id p -> registered w em' id p' -> em = em' /\ p = p'.
Proof.
  intros Hi Hr Hr'.
  assert (em = em') as <-.
  { apply email_of_key, (inv_ids w Hi _ _ id); by eapply registered_issues. }
  split; [done|]. by eapply registered_functional.
Qed.

Definition created_email (a : UserAccountEvent) : Email :=
  match a with UserAccount.AccountCreated _ em _ _ _ _ _ => em end.

(** An account is the only event of its stream, and its address's. *)
Lemma account_alone w key a :
  sys_inv w -> a ∈ account_stream w key ->
  exists id p at_, account_stream w key = [a] /\ a = account_event (created_email a) id p at_ /\
    key = account_id_to_string id /\ registered w (created_email a) id p.
Proof.
  intros Hi Ha. destruct (inv_accounts _ Hi key) as [Hn|(em & id & p & at_ & t & Hk & He & Hr & _)].
  - rewrite Hn in Ha. by apply not_elem_of_nil in Ha.
  - rewrite He in Ha. apply list_elem_of_singleton in Ha as ->. by exists id, p, at_.
Qed.

Lemma accounts_unique w key key' a a' :
  sys_inv w -> a ∈ account_stream w key -> a' ∈ account_stream w key' ->
  created_email a = created_email a' -> key = key' /\ a = a'.
Proof.
  intros Hi Ha Ha' Hem. destruct (account_alone w key a Hi Ha) as (id & p & at_ & Hs & _ & Hk & Hr).
  destruct (account_alone w key' a' Hi Ha') as (id' & p' & at' & Hs' & _ & Hk' & Hr').
  rewrite Hem in Hr. destruct (registered_functional _ _ _ _ _ _ Hr Hr') as [-> _].
  assert (key = key') as -> by congruence. split; [done|]. congruence.
Qed.

(** ** Preservation *)

Lemma stream_commit w c es tasks key :
  stream (email_commit w c es tasks) key =
  if decide (key = email_aggregate_id c) then stream w key ++ es else stream w key.
Proof.
  unfold stream, email_commit. simpl. case_decide as Hk.
  - subst. by rewrite lookup_insert_eq.
  - by rewrite lookup_insert_ne.
Qed.

Lemma account_stream_commit w c es tasks key :
  account_stream (account_commit w c es tasks) key =
  if decide (key = account_aggregate_id c) then account_stream w key ++ es else account_stream w key.
Proof.
  unfold account_stream, account_commit. simpl. case_decide as Hk.
  - subst. by rewrite lookup_insert_eq.
  - by rewrite lookup_insert_ne.
Qed.

(** The e-mail address a command is about. *)
Definition command_email (c : EmailReservationCommand) : Email :=
  match c with
  | ReserveEmail em _ _ | RequestVerificationCode em _ _ | VerifyEmail em _ _ _
  | SubmitRegistrationProfile em _ _ _ | RecordAccountCreated em _ _ _ => em
  end.
Lemma aggregate_id_email c : email_aggregate_id c = email_to_string (command_email c).
Proof. by destruct c. Qed.

(** A committed e-mail command takes one transition of its stream's state and
    leaves every other stream alone. *)
Lemma email_commit_step w c es tasks :
  sys_inv w -> email_decision w c = Some (Ok es) ->
  exists s e s', es = [e] /\ state_of w (command_email c) = Some s /\
    EmailReservation.history (stream w (email_aggregate_id c)) s /\
    lifecycle (phase s) c e (phase s') /\
    state_of (email_commit w c es tasks) (command_email c) = Some s' /\
    EmailReservation.history (stream w (email_aggregate_id c) ++ [e]) s'.
Proof.
  intros Hi Hd. destruct (state_history w (command_email c) Hi) as (s & Hs & Hh).
  unfold email_decision in Hd. rewrite aggregate_id_email in *. unfold state_of in *.
  rewrite Hs in Hd. simpl in Hd. apply accepts_lifecycle in Hd as (e & s' & -> & Ha & Hl).
  assert (Hh' : EmailReservation.history
    (stream w (email_to_string (command_email c)) ++ [e]) s').
  { econstructor; [exact Hh|]. by apply step_to_lifecycle. }
  exists s, e, s'. split_and!; try done.
  rewrite stream_commit, aggregate_id_email, decide_True by done. by apply history_replay.
Qed.

Lemma state_commit_other w c es tasks em :
  em <> command_email c -> state_of (email_commit w c es tasks) em = state_of w em.
Proof.
  intros Hne. unfold state_of. rewrite stream_commit, aggregate_id_email.
  rewrite decide_False; [done|]. by intros ?%email_of_key.
Qed.

(** Registrations are for ever. *)
Lemma registered_commit w c es tasks em id p :
  sys_inv w -> email_decision w c = Some (Ok es) ->
  registered w em id p -> registered (email_commit w c es tasks) em id p.
Proof.
  intros Hi Hd (s & Hs & Hst & Hid & Hp).
  destruct (decide (em = command_email c)) as [->|Hne].
  - destruct (email_commit_step w c es tasks Hi Hd) as (s0 & e & s' & _ & Hs0 & _ & Hl & Hs' & _).
    assert (s0 = s) as -> by congruence. exists s'.
    destruct (started_step s s') as (Hst' & -> & ->); [|done|by auto].
    exists c, e. by apply step_to_lifecycle.
  - exists s. by rewrite state_commit_other.
Qed.

Lemma task_meaning_mono w w' t :
  (forall em id p, registered w em id p -> registered w' em id p) ->
  (forall key a, account_stream w key = [a] -> account_stream w' key = [a]) ->
  task_meaning w t -> task_meaning w' t.
Proof.
  intros Hr Ha [(em & id & code & ?)|[(em & id & p & ? & ? & ?)|(em & id & p & at_ & ? & ? & ? & ?)]].
  - left. by exists em, id, code.
  - right; left. exists em, id, p. auto.
  - right; right. exists em, id, p, at_. auto.
Qed.

(** A task stands for one payload. *)
Lemma task_payload {P} `{TaskPayloadLaws P} tid tid' (p p' : P) t :
  payload_ok p -> payload_ok p' -> new_task tid p = Ok t -> new_task tid' p' = Ok t -> p = p'.
Proof.
  intros Hp Hp' (_ & _ & Hv & _)%new_task_fields (_ & _ & Hv' & _)%new_task_fields.
  apply (payload_roundtrip p _ Hp) in Hv. apply (payload_roundtrip p' _ Hp') in Hv'. congruence.
Qed.

Lemma task_format {P} `{TaskPayload P} tid (p : P) t : new_task tid p = Ok t -> format_of P = Ok (nt_format t).
Proof. by intros (_ & Hf & _)%new_task_fields. Qed.

Lemma create_task_meaning w em id p t :
  email_valid em -> create_task em id p t -> task_meaning w t -> registered w em id p.
Proof.
  intros He [tid Ht]. pose proof (task_format _ _ _ Ht) as Hf.
  intros [(? & ? & ? & [? Ht'] & _)|[(em' & id' & p' & [tid' Ht'] & He' & Hr)|(? & ? & ? & ? & [? Ht'] & _)]].
  - apply task_format in Ht'. rewrite <- Hf in Ht'. discriminate Ht'.
  - by pose proof (task_payload (P:=CreateAccountTaskV1) _ _
      {| ct_email := em; ct_account_id := id; ct_profile := p |}
      {| ct_email := em'; ct_account_id := id'; ct_profile := p' |} _ He He' Ht Ht') as [= -> -> ->].
  - apply task_format in Ht'. rewrite <- Hf in Ht'. discriminate Ht'.
Qed.

Lemma record_task_meaning w em id p at_ t :
  email_valid em -> record_task em id p at_ t -> task_meaning w t ->
  registered w em id p /\ account_stream w (account_id_to_string id) = [account_event em id p at_].
Proof.
  intros He [tid Ht]. pose proof (task_format _ _ _ Ht) as Hf.
  intros [(? & ? & ? & [? Ht'] & _)|[(? & ? & ? & [? Ht'] & _)|(em' & id' & p' & at' & [tid' Ht'] & He' & Hr & Ha)]].
  - apply task_format in Ht'. rewrite <- Hf in Ht'. discriminate Ht'.
  - apply task_format in Ht'. rewrite <- Hf in Ht'. discriminate Ht'.
  - by pose proof (task_payload (P:=RecordAccountCreatedTaskV1) _ _
      {| rt_email := em; rt_account_id := id; rt_profile := p; rt_created_at := at_ |}
      {| rt_email := em'; rt_account_id := id'; rt_profile := p'; rt_created_at := at' |} _ He He' Ht Ht')
      as [= -> -> -> ->].
Qed.

(** *** E-mail commands *)

Section EmailCommand.
Context (w : world) (c : EmailReservationCommand) (e : EmailReservationEvent) (tasks : list NewTask)
  (s s' : EmailReservation) (Hinv : sys_inv w)
  (Hdec : email_decision w c = Some (Ok [e])) (Horigin : email_origin w c tasks)
  (Hs : state_of w (command_email c) = Some s) (Hl : lifecycle (phase s) c e (phase s'))
  (Hs' : state_of (email_commit w c [e] tasks) (command_email c) = Some s')
  (Hh' : EmailReservation.history (stream w (email_aggregate_id c) ++ [e]) s').

Lemma email_new_issue id key :
  issues (stream (email_commit w c [e] tasks) key) id ->
  issues (stream w key) id \/ key = email_aggregate_id c /\ fresh_id w id.
Proof.
  rewrite stream_commit. case_decide as Hk; [|by left].
  rewrite issues_app. intros [Ho|Hn]; [by left|right]. split; [done|].
  destruct Hl; simplify_eq/=; naive_solver.
Qed.

Lemma email_new_task t : t ∈ tasks -> task_meaning (email_commit w c [e] tasks) t.
Proof.
  intros Ht. remember (phase s') as ph' eqn:Hph. destruct Hl; simpl in Horigin; simplify_eq/=.
  1-3: destruct Horigin as (Hem & _ & t' & -> & Hst); apply list_elem_of_singleton in Ht as ->;
    left; eauto 8.
  - by apply not_elem_of_nil in Ht.
  - destruct Horigin as (Hem & Hp & t' & -> & Hst). apply list_elem_of_singleton in Ht as ->.
    right; left. exists em, id, p. split_and!; [done..|]. exists s'.
    unfold EmailReservation.account_id. rewrite <- Hph, Hp in *. done.
  - destruct Horigin as (_ & -> & _). by apply not_elem_of_nil in Ht.
Qed.

Lemma email_new_creating id dg p :
  s' = mk_EmailReservation (CreatingAccount id dg p) ->
  exists t, t ∈ published w ++ tasks /\ create_task (command_email c) id p t.
Proof.
  intros E. rewrite E in Hl. inversion Hl; subst. simpl in Horigin.
  destruct Horigin as (_ & Hp & t & -> & Ht). rewrite Hp. exists t. split; [|done].
  apply elem_of_app. right. by apply list_elem_of_singleton.
Qed.

Lemma email_new_completed id dg p at_ :
  s' = mk_EmailReservation (EmailReservation.AccountCreated id dg p at_) ->
  account_stream w (account_id_to_string id) = [account_event (command_email c) id p at_].
Proof.
  intros E. rewrite E in Hl. inversion Hl; subst. simpl in Horigin.
  destruct Horigin as (Hem & _ & t & Ht & Hr).
  by apply (record_task_meaning w em id p at_ t Hem Hr), (inv_tasks w Hinv).
Qed.

Lemma email_command_preserves : sys_inv (email_commit w c [e] tasks).
Proof.
  assert (Hreg := fun em id p => registered_commit w c [e] tasks em id p Hinv Hdec).
  constructor.
  - intros key. rewrite stream_commit. case_decide as Hk; [subst; eauto|by apply inv_streams].
  - intros key key' id [Ho|[-> Hf]]%email_new_issue [Ho'|[-> Hf']]%email_new_issue.
    + by eapply (inv_ids w Hinv).
    + by destruct (Hf' key).
    + by destruct (Hf key').
    + done.
  - intros t [Ht|Ht]%elem_of_app; [|by apply email_new_task].
    apply (task_meaning_mono w); [done|done|by apply (inv_tasks w Hinv)].
  - intros key. destruct (inv_accounts w Hinv key) as [?|(em & id & p & at_ & t & ? & ? & ? & ? & ?)].
    + by left.
    + right. exists em, id, p, at_, t. split_and!; auto. apply elem_of_app; auto.
  - intros em id dg p Hst. destruct (decide (em = command_email c)) as [->|Hne].
    + rewrite Hs' in Hst. apply (email_new_creating id dg p). congruence.
    + rewrite state_commit_other in Hst by done.
      destruct (inv_creating w Hinv _ _ _ _ Hst) as (t & ? & ?). exists t.
      split; [apply elem_of_app; auto|done].
  - intros em id dg p at_ Hst. destruct (decide (em = command_email c)) as [->|Hne].
    + rewrite Hs' in Hst. apply (email_new_completed id dg p at_). congruence.
    + rewrite state_commit_other in Hst by done. by apply (inv_completed w Hinv _ _ _ _ _ Hst).
  - intros key e0. rewrite stream_commit. case_decide as Hk; [|by apply inv_addresses].
    intros [He0| ->%list_elem_of_singleton]%elem_of_app; [by apply (inv_addresses w Hinv)|].
    rewrite Hk. by destruct Hl.
Qed.
End EmailCommand.

(** *** Account commands *)

Section AccountCommand.
Context (w : world) (id : UserAccountId) (em : Email) (p : RegistrationProfile) (at_ : DateTime)
  (Hinv : sys_inv w) (Hreg : registered w em id p).

Let c := CreateAccount id em (first_name p) (last_name p) (date_of_birth p) (validation_date p) at_.

(** Either the account does not exist and is created as asked, or it is
    exactly the one asked for. *)
Lemma account_decision_cases :
  (account_stream w (account_id_to_string id) = [] /\
   account_decision w c = Ok [account_event em id p at_]) \/
  (exists at', account_stream w (account_id_to_string id) = [account_event em id p at'] /\
   account_decision w c = Err AlreadyCreated).
Proof.
  pose proof (registered_valid w em id p Hinv Hreg) as Hv.
  pose proof (proj1 Hv) as Hn. unfold profile_normalize, profile_new in Hn.
  assert (Hf : trim (first_name p) = first_name p /\ trim (last_name p) = last_name p).
  { destruct p; simpl in *. by injection Hn as -> ->. }
  destruct Hf as [Hf1 Hf2]. unfold account_decision.
  change (account_aggregate_id c) with (account_id_to_string id).
  destruct (inv_accounts w Hinv (account_id_to_string id))
    as [Ha|(em' & id' & p' & at' & t' & Hk & Ha & Hr' & _)]; rewrite Ha.
  - left. split; [done|]. apply (handle_absent UserAccount.default); [done|].
    unfold account_event. rewrite Hf1, Hf2. split; [|done].
    unfold profile_new. rewrite Hf1, Hf2. by destruct p.
  - right. exists at'.
    assert (id' = id) as -> by (destruct id, id'; f_equal; symmetry; by apply uuid_to_string_inj).
    destruct (registered_owner w em em' id p p' Hinv Hreg Hr') as [<- <-]. split; [done|].
    rewrite (handle_existing (UserAccount.replay [account_event em id p at']) {| ca_account_id := id; ca_email := em;
      ca_first_name := first_name p; ca_last_name := last_name p;
      ca_date_of_birth := date_of_birth p; ca_validation_date := validation_date p;
      ca_created_at := at' |}) by done.
    rewrite decide_True; [done|]. simpl. unfold recorded, profile_new. simpl. by rewrite Hf1, Hf2.
Qed.

Lemma account_command_preserves t :
  email_valid em -> record_task em id p at_ t ->
  account_stream w (account_id_to_string id) = [] ->
  sys_inv (account_commit w c [account_event em id p at_] [t]).
Proof.
  intros Hem Ht Hnone. set (w' := account_commit _ _ _ _).
  assert (Hst : forall key a, account_stream w key = [a] -> account_stream w' key = [a]).
  { intros key a Ha. unfold w'. rewrite account_stream_commit. case_decide as Hk; [|done].
    simpl in Hk. by rewrite Hk, Hnone in Ha. }
  assert (Hnew : account_stream w' (account_id_to_string id) = [account_event em id p at_]).
  { unfold w'. rewrite account_stream_commit. simpl. by rewrite decide_True, Hnone. }
  assert (Hp : forall t', t' ∈ published w -> t' ∈ published w').
  { intros. apply elem_of_app. by left. }
  constructor.
  - apply (inv_streams w Hinv).
  - apply (inv_ids w Hinv).
  - intros t' [Ht'| ->%list_elem_of_singleton]%elem_of_app.
    + apply (task_meaning_mono w); [done|done|by apply (inv_tasks w Hinv)].
    + right; right. by exists em, id, p, at_.
  - intros key. unfold w' at 1 2. rewrite account_stream_commit. case_decide as Hk.
    + right. exists em, id, p, at_, t. simpl in Hk. subst key. rewrite Hnone.
      split_and!; try done. apply elem_of_app. right. by apply list_elem_of_singleton.
    + destruct (inv_accounts w Hinv key) as [?|(em' & id' & p' & at' & t' & ? & ? & ? & ? & ?)];
        [by left|]. right. exists em', id', p', at', t'. split_and!; auto.
  - intros em' id' dg p' Hc. destruct (inv_creating w Hinv em' id' dg p' Hc) as (t' & ? & ?). eauto.
  - intros em' id' dg p' at' Hc. apply Hst. by apply (inv_completed w Hinv em' id' dg p' at').
  - apply (inv_addresses w Hinv).
Qed.
End AccountCommand.

Lemma wstep_preserves : preserves wstep sys_inv.
Proof.
  intros w w' Hi Hstep. destruct Hstep as [c es tasks Hd Ho|c es tasks Hd Ho].
  - destruct (email_commit_step w c es tasks Hi Hd) as (s & e & s' & -> & Hs & _ & Hl & Hs' & Hh').
    by eapply email_command_preserves.
  - destruct c as [id em f l dob vd at_].
    destruct Ho as (p & t & t' & -> & -> & -> & -> & Hem & Ht & Hc & -> & Hr).
    pose proof (create_task_meaning w em id p t Hem Hc (inv_tasks w Hi t Ht)) as Hreg.
    destruct (account_decision_cases w id em p at_ Hi Hreg) as [[Hn Hd']|(at' & _ & Hd')];
      rewrite Hd' in Hd; simplify_eq. by apply account_command_preserves.
Qed.

Lemma sys_inv_empty : sys_inv empty_world.
Proof.
  constructor; try (intros; left; done).
  - intros key. exists EmailReservation.default. constructor.
  - intros key key' id (e & code & He & _). by apply not_elem_of_nil in He.
  - intros t Ht. by apply not_elem_of_nil in Ht.
  - done.
  - done.
  - intros key e He. by apply not_elem_of_nil in He.
Qed.
End Steps.

(** ** The running system *)

Section Running.
Context `{UuidLaws, EmailLaws, ChronoLaws, TokenDigest} {W : Type} (view : W -> world)
  `{EmailReservationGateway W, UserAccountGateway W}
  `{!EmailGatewayLaws view, !AccountGatewayLaws view}.
Context (writer : Writer (W:=W)) (now : W -> DateTime) (fresh : W -> Uuid).

(** Writing to the console changes no stream and no task. *)
Class WriterLaws := {
  write_line_view s w : view (write_line writer s w).2 = view w;
  flush_view w : view (flush writer w).2 = view w;
}.
Context `{!WriterLaws}.

(** A step is a use case, a delivery of a published task, or anything else that
    leaves the streams and tasks alone (time, console, queue bookkeeping).
    Generated account IDs are fresh: they are random version 4 UUIDs. *)
Inductive sys_step (w : W) : W -> Prop :=
| sys_env w' : view w' = view w -> sys_step w w'
| sys_reserve m em r w' :
    email_valid em -> fresh_id (view w) (m_account_id m) -> reserve_email m em w = (r, w') -> sys_step w w'
| sys_request m em r w' :
    email_valid em -> fresh_id (view w) (m_account_id m) ->
    request_new_verification_code m em w = (r, w') -> sys_step w w'
| sys_confirm m em id code r w' : confirm_email m em id code w = (r, w') -> sys_step w w'
| sys_submit t tid s r w' :
    email_valid (ps_email s) -> submit_profile t tid s w = (r, w') -> sys_step w w'
| sys_deliver d a t r w' :
    application_dispatcher writer now fresh = Ok d -> t ∈ published (view w) -> delivers a t ->
    dispatch d a w = (r, w') -> sys_step w w'.

Definition reachable (w : W) : Prop := exists w0, view w0 = empty_world /\ rtc sys_step w0 w.

(** *** Each step is a committed command, or none *)

Definition refines (w w' : W) : Prop := view w' = view w \/ wstep (view w) (view w').

Lemma email_execute_refines c tasks w r w' :
  email_execute_with_outbox c tasks w = (r, w') -> email_origin (view w) c tasks -> refines w w'.
Proof.
  intros He%(email_outcome view) Ho. unfold refines.
  inversion He; subst; auto; right; by apply ws_email.
Qed.

Lemma send_new_task tid (p : SendVerificationCodeTaskV1) : exists t, new_task tid p = Ok t.
Proof. eexists. reflexivity. Qed.
Lemma create_new_task tid (p : CreateAccountTaskV1) : exists t, new_task tid p = Ok t.
Proof. eexists. reflexivity. Qed.
Lemma record_new_task tid (p : RecordAccountCreatedTaskV1) : exists t, new_task tid p = Ok t.
Proof. eexists. reflexivity. Qed.

Lemma reserve_refines m em w r w' :
  email_valid em -> fresh_id (view w) (m_account_id m) -> reserve_email m em w = (r, w') -> refines w w'.
Proof.
  intros He Hf. unfold reserve_email.
  destruct (send_new_task (m_task_id m) {| sv_email := em; sv_account_id := m_account_id m;
    sv_verification_code := m_verification_code m |}) as [t Ht]. rewrite Ht.
  destruct (email_execute_with_outbox _ _ _) as [r1 w1] eqn:E. intros [= _ <-].
  apply email_execute_refines in E; [done|]. split_and!; [done..|]. exists t. split; [done|].
  by exists (m_task_id m).
Qed.

Lemma request_refines m em w r w' :
  email_valid em -> fresh_id (view w) (m_account_id m) ->
  request_new_verification_code m em w = (r, w') -> refines w w'.
Proof.
  intros He Hf. unfold request_new_verification_code.
  destruct (send_new_task (m_task_id m) {| sv_email := em; sv_account_id := m_account_id m;
    sv_verification_code := m_verification_code m |}) as [t Ht]. rewrite Ht.
  destruct (email_execute_with_outbox _ _ _) as [r1 w1] eqn:E. intros [= _ <-].
  apply email_execute_refines in E; [done|]. split_and!; [done..|]. exists t. split; [done|].
  by exists (m_task_id m).
Qed.

Lemma confirm_refines m em id code w r w' : confirm_email m em id code w = (r, w') -> refines w w'.
Proof.
  unfold confirm_email, email_execute. destruct (negb _); [intros [= _ <-]; by left|].
  destruct (email_execute_with_outbox _ _ _) as [r1 w1] eqn:E. intros [= _ <-].
  by apply email_execute_refines in E.
Qed.

Lemma submit_refines t tid s w r w' :
  email_valid (ps_email s) -> submit_profile t tid s w = (r, w') -> refines w w'.
Proof.
  intros He. unfold submit_profile.
  set (p := profile_new _ _ _ _).
  destruct (create_new_task tid {| ct_email := ps_email s; ct_account_id := ps_account_id s;
    ct_profile := p |}) as [t' Ht]. rewrite Ht.
  destruct (email_execute_with_outbox _ _ _) as [r1 w1] eqn:E. intros [= _ <-].
  apply email_execute_refines in E; [done|]. split_and!; [done| |].
  - apply profile_normalize_idemp with (p := {| first_name := ps_first_name s;
      last_name := ps_last_name s; date_of_birth := ps_date_of_birth s; validation_date := date_naive t |}).
  - exists t'. split; [done|]. by exists tid.
Qed.

(** *** Deliveries *)

(** A handler's answer to a published task: done, or try again. *)
Definition accepted (r : result TaskHandlerError unit) : Prop :=
  r = Ok tt \/ exists reason after, r = Err (HandlerRetry reason after).

(** A delivery is answered, or panics without having changed anything. *)
Definition delivered (w : W) (r : option (result TaskHandlerError unit)) (w' : W) : Prop :=
  match r with Some res => accepted res | None => view w' = view w end.

(** The gateways answer in this world: they commit or reject, without a
    conflict, without losing the connection and without a panic. *)
Definition answered {D} (r : option (result (CommandGatewayError D) unit)) : Prop :=
  r <> Some (Err Conflict) /\ r <> Some (Err GatewayUnavailable) /\ r <> None.
Definition gateways_answer (w : W) : Prop :=
  (forall c tasks, answered (email_execute_with_outbox c tasks w).1) /\
  (forall c tasks, answered (account_execute_with_outbox c tasks w).1).

Lemma email_answered c tasks w r w' :
  email_execute_with_outbox c tasks w = (r, w') -> gateways_answer w -> answered r.
Proof. intros E [Hg _]. specialize (Hg c tasks). by rewrite E in Hg. Qed.
Lemma account_answered c tasks w r w' :
  account_execute_with_outbox c tasks w = (r, w') -> gateways_answer w -> answered r.
Proof. intros E [_ Hg]. specialize (Hg c tasks). by rewrite E in Hg. Qed.

Lemma send_delivery (p : SendVerificationCodeTaskV1) a w r w' :
  1000000 <= sv_verification_code p <= 9999999 ->
  send_verification_code_handle (console_send writer) p a w = (r, w') ->
  delivered w r w' /\ view w' = view w.
Proof.
  intros Hc. unfold send_verification_code_handle, console_send.
  rewrite (proj2 (Z.leb_le _ _)), (proj2 (Z.leb_le _ _)) by lia. simpl.
  set (line := console_line _ _). pose proof (write_line_view line w) as Hw.
  destruct (write_line writer line w) as [ok1 w1]. simpl in Hw.
  destruct ok1; [|intros [= <- <-]; split; [right; by eauto|done]].
  pose proof (flush_view w1) as Hf. destruct (flush writer w1) as [ok2 w2]. simpl in Hf.
  intros [= <- <-]. rewrite Hf. split; [|done]. destruct ok2; [by left|right; by eauto].
Qed.

(** Creating the account of a registration: it exists afterwards unless the
    gateway has to be asked again, and it is never rejected. *)
Lemma create_delivery id em p a w r w' :
  sys_inv (view w) -> email_valid em -> registered (view w) em id p ->
  (exists t, t ∈ published (view w) /\ create_task em id p t) ->
  create_account_handle now fresh {| ct_email := em; ct_account_id := id; ct_profile := p |} a w = (r, w') ->
  delivered w r w' /\ (gateways_answer w -> r = Some (Ok tt)) /\ refines w w' /\
  (r = Some (Ok tt) -> exists at_, account_stream (view w') (account_id_to_string id) = [account_event em id p at_]) /\
  (account_stream (view w) (account_id_to_string id) <> [] -> view w' = view w).
Proof.
  intros Hi He Hr (t & Ht & Hct). unfold create_account_handle, create_account. cbn [ct_email ct_account_id ct_profile].
  destruct (record_new_task (fresh w) {| rt_email := em; rt_account_id := id; rt_profile := p;
    rt_created_at := now w |}) as [t' Ht']. rewrite Ht'.
  destruct (account_execute_with_outbox _ _ _) as [r1 w1] eqn:E. intros [= <- <-].
  pose proof (account_answered _ _ _ _ _ E) as Hans.
  apply (account_outcome view) in E.
  assert (Hor : account_origin (view w) (CreateAccount id em (first_name p) (last_name p)
    (date_of_birth p) (validation_date p) (now w)) [t']).
  { exists p, t, t'. split_and!; try done. by exists (fresh w). }
  unfold refines.
  destruct (account_decision_cases (view w) id em p (now w) Hi Hr) as [[Hn Hd]|(at' & Ha & Hd)];
    rewrite Hd in E.
  - assert (Hnew : account_stream (account_commit (view w) (CreateAccount id em (first_name p)
      (last_name p) (date_of_birth p) (validation_date p) (now w)) [account_event em id p (now w)] [t'])
      (account_id_to_string id) = [account_event em id p (now w)]).
    { rewrite account_stream_commit. simpl. by rewrite decide_True, Hn. }
    assert (Hst := ws_account (view w) _ _ _ Hd Hor).
    inversion E; simplify_eq/=; split_and!; eauto; try done; first [by left|by right; eauto|by intros (? & ? & ?)%Hans].
  - inversion E; simplify_eq/=; split_and!; eauto; intros; try done;
      first [by left|by right; eauto|by destruct Hans as (? & ? & ?)].
Qed.

Lemma record_accepted id dg p em at_ :
  EmailReservation.handle (mk_EmailReservation (CreatingAccount id dg p))
    (RecordAccountCreated em id p at_) = Some (Ok [AccountCreationCompleted em id at_]).
Proof. exact (proj1 (lifecycle_accepts _ _ _ _ (lc_complete em id dg p at_))). Qed.
Lemma record_repeated id dg p em at_ :
  EmailReservation.handle (mk_EmailReservation (EmailReservation.AccountCreated id dg p at_))
    (RecordAccountCreated em id p at_) = Some (Err AccountCreationAlreadyCompleted).
Proof.
  unfold EmailReservation.handle, handle_record_account_created. cbn [phase]. by rewrite decide_True.
Qed.

Lemma record_delivery id em p at_ a w r w' :
  sys_inv (view w) -> email_valid em -> registered (view w) em id p ->
  (exists t, t ∈ published (view w) /\ record_task em id p at_ t) ->
  account_stream (view w) (account_id_to_string id) = [account_event em id p at_] ->
  record_account_created_handle {| rt_email := em; rt_account_id := id; rt_profile := p;
    rt_created_at := at_ |} a w = (r, w') ->
  delivered w r w' /\ (gateways_answer w -> r = Some (Ok tt)) /\ refines w w' /\
  (r = Some (Ok tt) -> exists dg, state_of (view w') em =
     Some (mk_EmailReservation (EmailReservation.AccountCreated id dg p at_))) /\
  ((exists dg t, state_of (view w) em =
     Some (mk_EmailReservation (EmailReservation.AccountCreated id dg p t))) -> view w' = view w).
Proof.
  intros Hi He Hr Ht Ha. unfold record_account_created_handle, record_account_created, email_execute.
  cbn [rt_email rt_account_id rt_profile rt_created_at].
  set (c := RecordAccountCreated em id p at_).
  destruct (email_execute_with_outbox _ _ _) as [r1 w1] eqn:E. intros [= <- <-].
  assert (Hor : email_origin (view w) c []) by by split_and!.
  pose proof (email_execute_refines _ _ _ _ _ E Hor) as Href.
  pose proof (email_answered _ _ _ _ _ E) as Hans.
  apply (email_outcome view) in E. destruct Hr as (s & Hs & Hst & Hid & Hp).
  unfold email_decision in E. change (email_aggregate_id c) with (email_to_string em) in E.
  fold (state_of (view w) em) in E. rewrite Hs in E. cbn [mbind option_bind] in E.
  unfold EmailReservation.account_id in Hid. subst c.
  destruct s as [[| | |id' dg p'|id' dg p' t']]; try discriminate Hst;
    injection Hid as ->; injection Hp as ->.
  - rewrite record_accepted in E.
    assert (Hsc : state_of (email_commit (view w) (RecordAccountCreated em id p at_)
      [AccountCreationCompleted em id at_] []) em =
      Some (mk_EmailReservation (EmailReservation.AccountCreated id dg p at_))).
    { unfold state_of in *. rewrite stream_commit. simpl. rewrite decide_True by done.
      by rewrite replay_snoc, Hs. }
    inversion E; simplify_eq/=; split_and!; eauto; try done;
      first [by left|by right; eauto|by intros (? & ? & ?)%Hans|intros (? & ? & ?); simplify_eq].
  - pose proof (inv_completed _ Hi _ _ _ _ _ Hs) as Ha'. rewrite Ha in Ha'.
    injection Ha' as <-. rewrite record_repeated in E.
    inversion E; simplify_eq/=; split_and!; eauto; try done;
      first [by left|by right; eauto|by intros (? & ? & ?)%Hans].
Qed.

Lemma delivery_accepted d a t w r w' :
  sys_inv (view w) -> application_dispatcher writer now fresh = Ok d ->
  t ∈ published (view w) -> delivers a t -> dispatch d a w = (r, w') ->
  delivered w r w' /\ refines w w'.
Proof.
  intros Hi Hd Ht Ha Hr.
  destruct (inv_tasks _ Hi t Ht) as [(em & id & code & [tid Hs] & He & Hc)
    |[(em & id & p & [tid Hs] & He & Hreg)|(em & id & p & at_ & [tid Hs] & He & Hreg & Hac)]];
    destruct (dispatch_published writer now fresh d tid t a w Hd Ha) as (Hps & Hpc & Hpr).
  - rewrite (Hps {| sv_email := em; sv_account_id := id; sv_verification_code := code |}) in Hr;
      [|split; [done|unfold u32_MAX; simpl; lia]|done].
    apply send_delivery in Hr as [? Hv]; [by split; [|left]|done].
  - rewrite (Hpc {| ct_email := em; ct_account_id := id; ct_profile := p |} He Hs) in Hr.
    apply create_delivery in Hr as (? & _ & ? & _); [done..|].
    exists t. split; [done|by exists tid].
  - rewrite (Hpr {| rt_email := em; rt_account_id := id; rt_profile := p; rt_created_at := at_ |} He Hs) in Hr.
    apply record_delivery in Hr as (? & _ & ? & _); [done..| |done].
    exists t. split; [done|by exists tid].
Qed.

Lemma sys_step_refines w w' : sys_inv (view w) -> sys_step w w' -> refines w w'.
Proof.
  intros Hi [w1 Hv|m em r w1 ? ? Hr|m em r w1 ? ? Hr|m em id code r w1 Hr|t tid s r w1 ? Hr
            |d a t r w1 Hd Ht Ha Hr].
  - by left.
  - by eapply reserve_refines.
  - by eapply request_refines.
  - by eapply confirm_refines.
  - by eapply submit_refines.
  - by eapply delivery_accepted.
Qed.

Lemma refines_inv w w' : refines w w' -> sys_inv (view w) -> sys_inv (view w').
Proof. intros [->|Hs] Hi; [done|]. by eapply wstep_preserves. Qed.

Lemma reachable_inv w : reachable w -> sys_inv (view w).
Proof.
  intros (w0 & Hw & Hr). apply (rtc_preserves sys_step (fun w => sys_inv (view w)) w0 w); [|by rewrite Hw; apply sys_inv_empty|done].
  intros w1 w2 Hi Hs. eapply refines_inv; [by apply sys_step_refines|done].
Qed.


(** C1: at most one account per e-mail address, ever, however use cases,
    deliveries, repeated deliveries, conflicts, failures and lost replies
    interleave; every account is backed by its address: verified under that
    account ID, with exactly the profile that was accepted; and a reservation
    that reports a completed registration tells the truth: the account exists
    under its ID, for this address, with the accepted profile and exactly the
    recorded creation time. *)
Theorem one_account_per_email w :
  reachable w ->
  (forall key key' a a', a ∈ account_stream (view w) key -> a' ∈ account_stream (view w) key' ->
     created_email a = created_email a' -> key = key' /\ a = a') /\
  (forall key a, a ∈ account_stream (view w) key ->
     exists id p at_ em' dg, a = account_event (created_email a) id p at_ /\ profile_valid p /\
       key = account_id_to_string id /\ registered (view w) (created_email a) id p /\
       EmailVerified em' id dg ∈ stream (view w) (email_to_string (created_email a))) /\
  (forall em id dg p at_,
     state_of (view w) em = Some (mk_EmailReservation (EmailReservation.AccountCreated id dg p at_)) ->
     account_stream (view w) (account_id_to_string id) = [account_event em id p at_]).
Proof.
  intros Hi%reachable_inv.
  split_and!; [intros key key' a a'; by apply accounts_unique| |intros; by eapply inv_completed].
  - intros key a Ha. destruct (account_alone _ key a Hi Ha) as (id & p & at_ & _ & He & Hk & Hr).
    pose proof (registered_valid _ _ _ _ Hi Hr) as Hv.
    pose proof Hr as (s & Hs & Hst & Hid & Hp).
    destruct (state_history _ (created_email a) Hi) as (s' & Hs' & Hh).
    assert (s' = s) as -> by congruence. apply history_phase_inv in Hh.
    unfold EmailReservation.account_id in Hid.
    destruct s as [[]]; try discriminate Hst; simpl in Hh; destruct Hh as [[em' Hver] _];
      injection Hid as ->; by exists id, p, at_, em', consumed_token_digest.
Qed.

(** C9: delivering a published task, the first time or again, at any moment, is
    never permanently rejected: every answer is success or a request to try
    again, so that no registration is lost to a rejected continuation; a handler
    that panics instead has changed no stream and published nothing. *)
Theorem published_tasks_are_never_rejected w d t a :
  reachable w -> application_dispatcher writer now fresh = Ok d ->
  t ∈ published (view w) -> delivers a t ->
  exists r w', dispatch d a w = (r, w') /\
    match r with Some res => accepted res | None => view w' = view w end.
Proof.
  intros Hi%reachable_inv Hd Ht Ha.
  destruct (dispatch d a w) as [r w'] eqn:Hr. exists r, w'. split; [done|].
  exact (proj1 (delivery_accepted d a t w r w' Hi Hd Ht Ha Hr)).
Qed.

(** The two continuations of a registration, as deliveries. *)
Lemma create_dispatch d em id p t a w :
  sys_inv (view w) -> application_dispatcher writer now fresh = Ok d -> email_valid em ->
  registered (view w) em id p -> t ∈ published (view w) -> create_task em id p t -> delivers a t ->
  exists r w', dispatch d a w = (r, w') /\ delivered w r w' /\
    (gateways_answer w -> r = Some (Ok tt)) /\ refines w w' /\
    (r = Some (Ok tt) -> exists at_, account_stream (view w') (account_id_to_string id) = [account_event em id p at_]) /\
    (account_stream (view w) (account_id_to_string id) <> [] -> view w' = view w).
Proof.
  intros Hi Hd He Hreg Ht [tid Hs] Ha.
  destruct (dispatch_published writer now fresh d tid t a w Hd Ha) as (_ & Hpc & _).
  rewrite (Hpc {| ct_email := em; ct_account_id := id; ct_profile := p |} He Hs).
  destruct (create_account_handle now fresh _ a w) as [r w'] eqn:E. exists r, w'. split; [done|].
  eapply create_delivery; try done. exists t. split; [done|by exists tid].
Qed.

Lemma record_dispatch d em id p at_ t a w :
  sys_inv (view w) -> application_dispatcher writer now fresh = Ok d -> email_valid em ->
  t ∈ published (view w) -> record_task em id p at_ t -> delivers a t ->
  exists r w', dispatch d a w = (r, w') /\ delivered w r w' /\
    (gateways_answer w -> r = Some (Ok tt)) /\ refines w w' /\
    (r = Some (Ok tt) -> exists dg, state_of (view w') em =
       Some (mk_EmailReservation (EmailReservation.AccountCreated id dg p at_))) /\
    ((exists dg t, state_of (view w) em =
       Some (mk_EmailReservation (EmailReservation.AccountCreated id dg p t))) -> view w' = view w).
Proof.
  intros Hi Hd He Ht Hrt Ha.
  destruct (record_task_meaning _ _ _ _ _ _ He Hrt (inv_tasks _ Hi t Ht)) as [Hreg Hac].
  pose proof Hrt as [tid Hs].
  destruct (dispatch_published writer now fresh d tid t a w Hd Ha) as (_ & _ & Hpr).
  rewrite (Hpr {| rt_email := em; rt_account_id := id; rt_profile := p; rt_created_at := at_ |} He Hs).
  destruct (record_account_created_handle _ a w) as [r w'] eqn:E. exists r, w'. split; [done|].
  eapply record_delivery; try done. by exists t.
Qed.

(** Nothing is taken back: published tasks, accounts and completions stay. *)
Lemma wstep_keeps w w' :
  sys_inv w -> wstep w w' ->
  (forall t, t ∈ published w -> t ∈ published w') /\
  (forall key a, account_stream w key = [a] -> account_stream w' key = [a]) /\
  (forall em id dg p at_, state_of w em = Some (mk_EmailReservation (EmailReservation.AccountCreated id dg p at_)) ->
     state_of w' em = state_of w em).
Proof.
  intros Hi [c es tasks Hd Ho|c es tasks Hd Ho].
  - split_and!; [intros t Ht; apply elem_of_app; by left|done|].
    intros em id dg p at_ Hst. destruct (decide (em = command_email c)) as [->|Hne];
      [|by apply state_commit_other].
    destruct (email_commit_step w c es tasks Hi Hd) as (s & e & s' & _ & Hs & _ & Hl & _).
    rewrite Hst in Hs. injection Hs as <-. inversion Hl.
  - split_and!; [intros t Ht; apply elem_of_app; by left| |done].
    intros key a Ha. rewrite account_stream_commit. case_decide as Hk; [|done]. exfalso.
    apply handle_created_inv in Hd as [Hn _]. rewrite <- Hk, Ha in Hn. by destruct a.
Qed.

Lemma steps_keep w w' :
  rtc sys_step w w' -> sys_inv (view w) -> sys_inv (view w') /\
  (forall t, t ∈ published (view w) -> t ∈ published (view w')) /\
  (forall key a, account_stream (view w) key = [a] -> account_stream (view w') key = [a]) /\
  (forall em id dg p at_, state_of (view w) em =
       Some (mk_EmailReservation (EmailReservation.AccountCreated id dg p at_)) ->
     state_of (view w') em = state_of (view w) em).
Proof.
  induction 1 as [w|w1 w2 w3 Hs _ IH]; [done|]. intros Hi1.
  pose proof (sys_step_refines _ _ Hi1 Hs) as Href.
  destruct (IH (refines_inv _ _ Href Hi1)) as (Hi3 & Hp & Ha & Hst).
  destruct Href as [Hv|Hw]; [by rewrite Hv in *|].
  destruct (wstep_keeps _ _ Hi1 Hw) as (Hp' & Ha' & Hst').
  split_and!; [done|by auto|by auto|]. intros em id dg p at_ Hc.
  pose proof (Hst' _ _ _ _ _ Hc) as E. rewrite <- E. eapply Hst. by rewrite E.
Qed.

(** An accepted registration can always be completed from the tasks that
    are already published: a delivery of the pending creation task succeeds as
    soon as the gateways answer, and then the account is in place and the
    completion task published; a delivery of that one succeeds as soon as the
    gateways answer, and then the reservation is completed with exactly that
    account.  Every other delivery asks to be repeated.  Delays, repetitions and other traffic in between do
    not matter, since both tasks stay published and nothing undoes a step. *)
Theorem registration_completes w d em id dg p :
  reachable w -> application_dispatcher writer now fresh = Ok d -> email_valid em ->
  state_of (view w) em = Some (mk_EmailReservation (CreatingAccount id dg p)) ->
  exists t, t ∈ published (view w) /\
    forall a, delivers a t -> exists r w1, dispatch d a w = (r, w1) /\ delivered w r w1 /\
      (gateways_answer w -> r = Some (Ok tt)) /\
      (r = Some (Ok tt) -> exists at_ t1, t1 ∈ published (view w1) /\
         account_stream (view w1) (account_id_to_string id) = [account_event em id p at_] /\
         forall w2 a1, rtc sys_step w1 w2 -> delivers a1 t1 ->
           exists r1 w3, dispatch d a1 w2 = (r1, w3) /\ delivered w2 r1 w3 /\
             (gateways_answer w2 -> r1 = Some (Ok tt)) /\
             (r1 = Some (Ok tt) -> exists dg', state_of (view w3) em =
                Some (mk_EmailReservation (EmailReservation.AccountCreated id dg' p at_)))).
Proof.
  intros Hi%reachable_inv Hd He Hst. destruct (inv_creating _ Hi _ _ _ _ Hst) as (t & Ht & Hct).
  exists t. split; [done|]. intros a Ha.
  assert (Hreg : registered (view w) em id p) by (eexists; by split_and!).
  destruct (create_dispatch d em id p t a w Hi Hd He Hreg Ht Hct Ha) as (r & w1 & Hr & Hacc & Hans & Href & Hok & _).
  exists r, w1. split_and!; [done..|]. intros [at_ Hac]%Hok.
  pose proof (refines_inv _ _ Href Hi) as Hi1.
  destruct (inv_accounts _ Hi1 (account_id_to_string id))
    as [Hn|(em' & id' & p' & at' & t1 & _ & Hac' & _ & Ht1 & Hrt)]; [by rewrite Hac in Hn|].
  assert (Heq : account_event em id p at_ = account_event em' id' p' at') by congruence.
  assert (em' = em /\ id' = id /\ p' = p /\ at' = at_) as (-> & -> & -> & ->).
  { destruct p, p'. unfold account_event in Heq. simpl in Heq. by injection Heq as -> -> -> -> -> -> ->. }
  exists at_, t1. split_and!; [done..|]. intros w2 a1 Hrtc Ha1.
  destruct (steps_keep w1 w2 Hrtc Hi1) as (Hi2 & Hpub & _). pose proof (Hpub t1 Ht1) as Ht2.
  destruct (record_dispatch d em id p at_ t1 a1 w2 Hi2 Hd He Ht2 Hrt Ha1) as (r1 & w3 & ? & ? & ? & _ & ? & _).
  by exists r1, w3.
Qed.

(** C10: at-least-once delivery is safe: once a task has been handled
    successfully, delivering it again, at any later moment and whatever
    happened in between, changes no stream, publishes nothing and is not
    rejected. *)
Theorem redelivery_is_idempotent w w1 w2 d t a a' :
  reachable w -> application_dispatcher writer now fresh = Ok d ->
  t ∈ published (view w) -> delivers a t -> dispatch d a w = (Some (Ok tt), w1) ->
  rtc sys_step w1 w2 -> delivers a' t ->
  exists r w3, dispatch d a' w2 = (r, w3) /\ (forall res, r = Some res -> accepted res) /\ view w3 = view w2.
Proof.
  intros Hi%reachable_inv Hd Ht Ha Hr Hrtc Ha'.
  destruct (delivery_accepted d a t w _ w1 Hi Hd Ht Ha Hr) as [_ Href].
  pose proof (refines_inv _ _ Href Hi) as Hi1.
  assert (Ht1 : t ∈ published (view w1)).
  { destruct Href as [->|Hw]; [done|]. by apply (wstep_keeps _ _ Hi Hw). }
  destruct (steps_keep _ _ Hrtc Hi1) as (Hi2 & Hp & Hac & Hst). specialize (Hp t Ht1).
  destruct (inv_tasks _ Hi t Ht) as [(em & id & code & [tid Hs] & He & Hc)
    |[(em & id & p & Hs & He & Hreg)|(em & id & p & at_ & Hs & He & _)]].
  - destruct (dispatch_published writer now fresh d tid t a' w2 Hd Ha') as (Hps & _).
    rewrite (Hps {| sv_email := em; sv_account_id := id; sv_verification_code := code |});
      [|split; [done|unfold u32_MAX; simpl; lia]|done].
    destruct (send_verification_code_handle _ _ a' w2) as [r w3] eqn:E.
    exists r, w3. split; [done|]. apply send_delivery in E as [Hdv ?]; [|done].
    split; [|done]. by intros res ->.
  - destruct (create_dispatch d em id p t a w Hi Hd He Hreg Ht Hs Ha) as (r & w1' & Hr' & _ & _ & _ & Hok & _).
    rewrite Hr in Hr'. injection Hr' as <- <-. destruct (Hok eq_refl) as [at_ Hacc].
    pose proof (create_task_meaning _ _ _ _ _ He Hs (inv_tasks _ Hi2 t Hp)) as Hreg2.
    destruct (create_dispatch d em id p t a' w2 Hi2 Hd He Hreg2 Hp Hs Ha') as (r & w3 & ? & Hdv & _ & _ & _ & Hv).
    exists r, w3. split_and!; [done|by intros res ->|]. apply Hv. by rewrite (Hac _ _ Hacc).
  - destruct (record_dispatch d em id p at_ t a w Hi Hd He Ht Hs Ha) as (r & w1' & Hr' & _ & _ & _ & Hok & _).
    rewrite Hr in Hr'. injection Hr' as <- <-. destruct (Hok eq_refl) as [dg Hc].
    destruct (record_dispatch d em id p at_ t a' w2 Hi2 Hd He Hp Hs Ha') as (r & w3 & ? & Hdv & _ & _ & _ & Hv).
    exists r, w3. split_and!; [done|by intros res ->|]. apply Hv. exists dg, at_. by rewrite (Hst _ _ _ _ _ Hc).
Qed.

(** A use case that issues a code leaves the address waiting for it and a task
    that prints exactly it. *)
Definition code_issued (w' : W) (em : Email) (id : UserAccountId) (code : Z) : Prop :=
  state_of (view w') em = Some (mk_EmailReservation (AwaitingCode id code)) /\
  exists t, t ∈ published (view w') /\
    forall d a w2, application_dispatcher writer now fresh = Ok d -> delivers a t ->
      dispatch d a w2 = console_send writer
        {| vd_email := em; vd_account_id := id; vd_verification_code := code |} a w2.

Lemma issuing_command c tasks w w' em id code :
  sys_inv (view w) -> c = ReserveEmail em id code \/ c = RequestVerificationCode em id code ->
  email_valid em -> (exists t, tasks = [t] /\ send_task em id code t) ->
  email_execute_with_outbox c tasks w = (Some (Ok tt), w') -> code_issued w' em id code.
Proof.
  intros Hi Hc He (t & -> & [tid Ht]) E%(email_outcome view).
  inversion E as [es Hd Hr Hv'| | | | |].
  destruct (email_commit_step _ c es [t] Hi Hd) as (s & e & s' & _ & _ & _ & Hl & Hs' & _).
  assert (command_email c = em) as Hce by by destruct Hc as [->| ->].
  assert (Hp' : phase s' = AwaitingCode id code /\ 1000000 <= code <= 9999999).
  { destruct Hc as [->| ->]; inversion Hl; by simplify_eq. }
  destruct Hp' as [Hp' Hcode]. destruct s'. simpl in Hp'. subst phase.
  split; [congruence|]. exists t. split; [rewrite <- Hv'; apply elem_of_app; right; by apply list_elem_of_singleton|].
  intros d a w2 Hdis Ha. destruct (dispatch_published writer now fresh d tid t a w2 Hdis Ha) as (Hps & _).
  rewrite (Hps {| sv_email := em; sv_account_id := id; sv_verification_code := code |});
    [|split; [done|unfold u32_MAX; simpl; lia]|done].
  unfold send_verification_code_handle.
  by rewrite (proj2 (Z.leb_le _ _)), (proj2 (Z.leb_le _ _)) by (simpl; lia).
Qed.

(** C11: the code a registrant receives is the code that verifies: when a
    reservation or a reissue reports success, the reservation waits for exactly
    the generated account ID and code, the caller of a reservation is told that
    ID, and the published task prints exactly that address, ID and code whenever
    it is delivered. *)
Theorem issued_code_is_delivered w m em w' :
  reachable w -> email_valid em ->
  (forall res, reserve_email m em w = (Some (Ok res), w') ->
     res = {| re_email := em; re_account_id := m_account_id m |} /\
     code_issued w' em (m_account_id m) (m_verification_code m)) /\
  (request_new_verification_code m em w = (Some (Ok tt), w') ->
     code_issued w' em (m_account_id m) (m_verification_code m)).
Proof.
  intros Hi%reachable_inv He. unfold reserve_email, request_new_verification_code.
  destruct (send_new_task (m_task_id m) {| sv_email := em; sv_account_id := m_account_id m;
    sv_verification_code := m_verification_code m |}) as [t Ht]. rewrite Ht.
  assert (Hst : exists t', [t] = [t'] /\ send_task em (m_account_id m) (m_verification_code m) t').
  { exists t. split; [done|]. by exists (m_task_id m). }
  split.
  - intros res. destruct (email_execute_with_outbox _ _ _) as [[[[]|e]|] w1] eqn:E; [|done..]. simpl.
    intros [= <- <-]. split; [done|].
    apply (issuing_command (ReserveEmail em (m_account_id m) (m_verification_code m)) [t] w); auto.
  - destruct (email_execute_with_outbox _ _ _) as [[[[]|e]|] w1] eqn:E; [|done..]. simpl.
    intros [= <-].
    apply (issuing_command (RequestVerificationCode em (m_account_id m) (m_verification_code m)) [t] w); auto.
Qed.
End Running.

(** The retrying executor honours the gateway contract over any framework
    whose single runs do, for both aggregates' commands alike: it panics only
    when a run does, a command takes effect at most once however often it conflicted
    and was repeated, success means it was decided and committed with its
    tasks, a domain error or a conflict means nothing changed, and only an
    unavailable outcome leaves open whether it was committed. *)
Theorem retrying_gateway_keeps_contract `{F64Laws} {W D E C : Type} (view : W -> world)
    (decide_command : world -> C -> option (result D (list E)))
    (commit : world -> C -> list E -> list NewTask -> world) (aggregate_id : C -> rstr)
    (policy : AggregateConflictRetryPolicy) (draws : Z -> Q -> Q -> Q)
    (build_framework : list NewTask -> rstr -> C -> W -> option (result (AggregateError D) unit) * W)
    (c : C) (tasks : list NewTask) (w : W) :
  policy_ok policy -> (forall k lo hi, lo <= hi -> lo <= draws k lo hi <= hi)%Q ->
  (forall tasks c w r w', build_framework tasks (aggregate_id c) c w = (r, w') ->
     framework_outcome (view w) (decide_command (view w) c)
       (fun es => commit (view w) c es tasks) r (view w')) ->
  exists r w', gateway_execute aggregate_id policy draws build_framework c tasks w = (r, w') /\
    outcome (view w) (decide_command (view w) c) (fun es => commit (view w) c es tasks) r (view w').
Proof. intros. by apply gateway_execute_outcome. Qed.

(** ** Example: a complete registration

    A world whose gateways always commit or reject, and a console that accepts
    everything. *)

Module Example.
#[local] Instance gateway : EmailReservationGateway world := {|
  email_execute_with_outbox c tasks w :=
    match email_decision w c with
    | Some (Ok es) => (Some (Ok tt), email_commit w c es tasks)
    | Some (Err e) => (Some (Err (Domain e)), w)
    | None => (None, w)
    end |}.
#[local] Instance account_gateway : UserAccountGateway world := {|
  account_execute_with_outbox c tasks w :=
    match account_decision w c with
    | Ok es => (Some (Ok tt), account_commit w c es tasks)
    | Err e => (Some (Err (Domain e)), w)
    end |}.
#[local] Instance gateway_laws : EmailGatewayLaws id.
Proof.
  intros c tasks w r w'. simpl. destruct (email_decision w c) as [[es|e]|]; intros [= <- <-].
  - by apply (out_committed _ _ (fun es => email_commit w c es tasks)).
  - by apply out_rejected.
  - apply out_panicked.
Defined.
#[local] Instance account_gateway_laws : AccountGatewayLaws id.
Proof.
  intros c tasks w r w'. simpl. destruct (account_decision w c) as [es|e] eqn:E; intros [= <- <-];
    unfold id.
  - apply (out_committed _ _ (fun es => account_commit w c es tasks)). done.
  - by apply out_rejected.
Defined.
Definition console : Writer (W:=world) := {| write_line _ w := (true, w); flush w := (true, w) |}.
#[local] Instance console_laws : WriterLaws id console.
Proof. by constructor. Defined.

Definition now (_ : world) : DateTime := 1789344000000000000.
Definition fresh (w : world) : Uuid := N.of_nat (100 + length (published w)).
Definition generated : material := {|
  m_account_id := ex_id; m_verification_code := 1234567; m_account_creation_token := §"token";
  m_task_id := 50%N |}.
Definition submission : ProfileSubmission := {|
  ps_email := ex_email; ps_account_id := ex_id; ps_account_creation_token := §"token";
  ps_first_name := §" Alice "; ps_last_name := §"Smith"; ps_date_of_birth := 7436 |}.

Definition w1 : world := Eval vm_compute in (reserve_email generated ex_email empty_world).2.
Definition w2 : world := Eval vm_compute in (confirm_email generated ex_email ex_id 1234567 w1).2.
Definition w3 : world := Eval vm_compute in (submit_profile (now w2) 51%N submission w2).2.
Definition profile : RegistrationProfile := profile_new (§"Alice") (§"Smith") 7436 (date_naive (now w2)).

Lemma reachable_w1 : reachable id console now fresh w1.
Proof.
  exists empty_world. split; [done|]. apply rtc_once.
  eapply (sys_reserve _ _ _ _ _ generated ex_email); [apply ex_email_valid| |reflexivity].
  intros key (e & code & He & _). by apply not_elem_of_nil in He.
Qed.
Lemma reachable_w3 : reachable id console now fresh w3.
Proof.
  destruct reachable_w1 as (w0 & Hw0 & Hr). exists w0. split; [done|].
  eapply rtc_r; [eapply rtc_r; [exact Hr|]|].
  - by eapply (sys_confirm _ _ _ _ w1 generated ex_email ex_id 1234567 _ w2).
  - by eapply (sys_submit _ _ _ _ w2 (now w2) 51%N submission _ w3); [apply ex_email_valid|].
Qed.

Lemma state_w3 : state_of w3 ex_email =
  Some (mk_EmailReservation (CreatingAccount ex_id (digest (§"token")) profile)).
Proof. by vm_compute. Qed.

Definition creation : CreateAccountTaskV1 :=
  {| ct_email := ex_email; ct_account_id := ex_id; ct_profile := profile |}.
Definition completion : RecordAccountCreatedTaskV1 :=
  {| rt_email := ex_email; rt_account_id := ex_id; rt_profile := profile; rt_created_at := now w3 |}.
Definition task_of {P} `{TaskPayload P} (tid : Uuid) (p : P) : NewTask := {|
  nt_id := tid; nt_format := mk_TaskFormat (TASK_TYPE P) (TASK_VERSION P);
  nt_payload := stdpp.option.default JNull (to_value p);
  nt_metadata := JObject []; nt_schedule := Now; nt_max_attempts := 10 |}.
Definition attempt (n : Z) (t : NewTask) : TaskAttempt := {|
  at_id := nt_id t; at_format := nt_format t; at_payload := nt_payload t;
  at_metadata := nt_metadata t; at_number := n |}.
Lemma attempt_delivers n t : delivers (attempt n t) t.
Proof. done. Qed.

Definition creation_task : NewTask := task_of 51%N creation.
Definition completion_task : NewTask := task_of (fresh w3) completion.
Definition w4 : world := Eval vm_compute in (create_account (now w3) (fresh w3) creation w3).2.
Definition w5 : world := Eval vm_compute in (record_account_created completion w4).2.

Lemma creation_published : creation_task ∈ published w3.
Proof. apply list_elem_of_lookup_2 with (i := 1%nat). by vm_compute. Qed.
Lemma completion_published : completion_task ∈ published w4.
Proof. apply list_elem_of_lookup_2 with (i := 2%nat). by vm_compute. Qed.

Lemma deliver_creation d n :
  application_dispatcher console now fresh = Ok d ->
  dispatch d (attempt n creation_task) w3 = (Some (Ok tt), w4).
Proof.
  intros Hd. destruct (dispatch_published console now fresh d 51%N creation_task (attempt n creation_task)
    w3 Hd (attempt_delivers n _)) as (_ & Hc & _).
  rewrite (Hc creation ex_email_valid); [by vm_compute|done].
Qed.
Lemma deliver_completion d n :
  application_dispatcher console now fresh = Ok d ->
  dispatch d (attempt n completion_task) w4 = (Some (Ok tt), w5).
Proof.
  intros Hd. destruct (dispatch_published console now fresh d (fresh w3) completion_task
    (attempt n completion_task) w4 Hd (attempt_delivers n _)) as (_ & _ & Hc).
  rewrite (Hc completion ex_email_valid); [by vm_compute|done].
Qed.

Lemma reachable_w5 : reachable id console now fresh w5.
Proof.
  destruct reachable_w3 as (w0 & Hw0 & Hr). exists w0. split; [done|].
  destruct (application_dispatcher_built console now fresh) as (d & Hd & _).
  eapply rtc_r; [eapply rtc_r; [exact Hr|]|].
  - eapply (sys_deliver _ _ _ _ w3 d (attempt 1 creation_task) creation_task _ w4);
      [done|apply creation_published|done|by apply deliver_creation].
  - eapply (sys_deliver _ _ _ _ w4 d (attempt 1 completion_task) completion_task _ w5);
      [done|apply completion_published|done|by apply deliver_completion].
Qed.

Lemma one_account_per_email_witness :
  exists id' p at_ em' dg, account_event ex_email ex_id profile (now w3) = account_event ex_email id' p at_ /\
    EmailVerified em' id' dg ∈ stream w5 (email_to_string ex_email).
Proof.
  destruct (proj1 (proj2 (one_account_per_email id console now fresh w5 reachable_w5))
    (account_id_to_string ex_id) (account_event ex_email ex_id profile (now w3)))
    as (id' & p & at_ & em' & dg & Ha & _ & _ & _ & Hv).
  - apply list_elem_of_lookup_2 with (i := 0%nat). by vm_compute.
  - exists id', p, at_, em', dg. split; [exact Ha|exact Hv].
Defined.

Lemma published_tasks_are_never_rejected_witness :
  exists d r w', application_dispatcher console now fresh = Ok d /\
    dispatch d (attempt 1 creation_task) w3 = (Some r, w') /\ accepted r.
Proof.
  destruct (application_dispatcher_built console now fresh) as (d & Hd & _).
  destruct (published_tasks_are_never_rejected id console now fresh w3 d creation_task
    (attempt 1 creation_task) reachable_w3 Hd creation_published (attempt_delivers 1 _)) as (r & w' & Hr & Hacc).
  rewrite (deliver_creation d 1 Hd) in Hr. injection Hr as <- <-.
  exists d, (Ok tt), w4. split_and!; [done|by apply deliver_creation|exact Hacc].
Defined.

Lemma answers_w3 : gateways_answer w3.
Proof.
  split; intros c tasks; simpl.
  - pose proof (reachable_inv _ _ _ _ _ reachable_w3) as Hi.
    destruct (state_history _ (command_email c) Hi) as (s & Hs & _).
    unfold email_decision. unfold state_of in Hs. destruct (handle_total s c) as [r Hr].
    rewrite aggregate_id_email. unfold id in Hs. rewrite Hs. simpl. rewrite Hr. by destruct r.
  - by destruct (account_decision w3 c).
Qed.

Lemma registration_completes_witness :
  exists d t, application_dispatcher console now fresh = Ok d /\ t ∈ published w3 /\
    exists w', dispatch d (attempt 1 t) w3 = (Some (Ok tt), w').
Proof.
  destruct (application_dispatcher_built console now fresh) as (d & Hd & _).
  destruct (registration_completes id console now fresh w3 d ex_email ex_id _ profile
    reachable_w3 Hd ex_email_valid state_w3) as (t & Ht & Hdel).
  exists d, t. split; [done|]. split; [done|].
  destruct (Hdel (attempt 1 t) (attempt_delivers 1 t)) as (r & w' & Hr & _ & Hok & _).
  exists w'. by rewrite <- (Hok answers_w3).
Defined.

Lemma redelivery_is_idempotent_witness :
  exists d r w', application_dispatcher console now fresh = Ok d /\
    dispatch d (attempt 2 creation_task) w5 = (r, w') /\ w' = w5.
Proof.
  destruct (application_dispatcher_built console now fresh) as (d & Hd & _).
  destruct (redelivery_is_idempotent id console now fresh w3 w4 w5 d creation_task
    (attempt 1 creation_task) (attempt 2 creation_task) reachable_w3 Hd creation_published
    (attempt_delivers 1 _) (deliver_creation d 1 Hd)) as (r & w' & ? & _ & ?).
  - apply rtc_once. eapply (sys_deliver _ _ _ _ w4 d (attempt 1 completion_task) completion_task _ w5);
      [done|apply completion_published|done|by apply deliver_completion].
  - done.
  - by exists d, r, w'.
Defined.

Lemma issued_code_is_delivered_witness :
  state_of w1 ex_email = Some (mk_EmailReservation (AwaitingCode ex_id 1234567)).
Proof.
  exact (proj1 (proj2 (proj1 (issued_code_is_delivered id console now fresh empty_world generated ex_email w1
    (ex_intro _ empty_world (conj eq_refl (rtc_refl _ _))) ex_email_valid)
    {| re_email := ex_email; re_account_id := ex_id |} eq_refl))).
Defined.

(** A framework that loses the race [n] times before it decides and commits. *)
Definition racing (tasks : list NewTask) (_ : rstr) (c : EmailReservationCommand) (s : world * nat) :
    option (result (AggregateError EmailReservationError) unit) * (world * nat) :=
  match s with
  | (w, S n) => (Some (Err AggregateConflict), (w, n))
  | (w, O) =>
    match email_decision w c with
    | Some (Ok es) => (Some (Ok tt), (email_commit w c es tasks, O))
    | Some (Err e) => (Some (Err (UserError e)), (w, O))
    | None => (None, (w, O))
    end
  end.

Lemma racing_outcome tasks c s r s' :
  racing tasks (email_aggregate_id c) c s = (r, s') ->
  framework_outcome s.1 (email_decision s.1 c) (fun es => email_commit s.1 c es tasks) r s'.1.
Proof.
  destruct s as [w [|n]]; simpl; [|intros [= <- <-]; apply fw_conflict].
  destruct (email_decision w c) as [[es|e]|]; intros [= <- <-].
  - by apply (fw_committed _ _ (fun es => email_commit w c es tasks)).
  - by apply fw_rejected.
  - apply fw_panicked.
Qed.

Lemma retrying_gateway_keeps_contract_witness :
  exists r s', @gateway_execute binary64 _ _ _ email_aggregate_id ex_policy ex_draws racing
      (ReserveEmail ex_email ex_id 1234567) [] (empty_world, 2%nat) = (r, s') /\
    outcome empty_world (email_decision empty_world (ReserveEmail ex_email ex_id 1234567))
      (fun es => email_commit empty_world (ReserveEmail ex_email ex_id 1234567) es []) r s'.1.
Proof.
  exact (@retrying_gateway_keeps_contract binary64 binary64_laws _ _ _ _ fst email_decision email_commit
    email_aggregate_id ex_policy ex_draws racing (ReserveEmail ex_email ex_id 1234567) []
    (empty_world, 2%nat) ex_policy_ok ex_draws_ok racing_outcome).
Defined.
End Example.
