(* ===== verification/Presentation.v ===== *)
(** * The HTTP interface

    [account-managements-service/src/presentation]: the routes, the request
    handlers over the application services, and the responses.  What [axum]
    extracts is given: the path segments and the JSON body, if the request has
    one.  Of the headers, a response lists those the source
    sets. *)

From S2P Require Import Prelude DomainValues EmailReservation UserAccount FloatTime TaskData.
From S2P Require Import Database CommandRetry TaskHandling Application System.
#[local] Open Scope Z_scope.

(** ** Responses *)

Record Response := mk_Response {
  status : Z;
  headers : list (rstr * rstr);
  body : Value;
}.

Definition OK : Z := 200.
Definition ACCEPTED : Z := 202.
Definition BAD_REQUEST : Z := 400.
Definition FORBIDDEN : Z := 403.
Definition NOT_FOUND : Z := 404.
Definition METHOD_NOT_ALLOWED : Z := 405.
Definition CONFLICT : Z := 409.
Definition UNPROCESSABLE_ENTITY : Z := 422.
Definition TOO_MANY_REQUESTS : Z := 429.
Definition INTERNAL_SERVER_ERROR : Z := 500.
Definition NOT_IMPLEMENTED : Z := 501.
Definition SERVICE_UNAVAILABLE : Z := 503.

Definition error_response (status : Z) (code message : rstr) : Response :=
  mk_Response status [] (JObject [(§"code", JString code); (§"message", JString message)]).

(** [headers_mut().insert(RETRY_AFTER, "1")] *)
Definition with_retry_after (retry_after : bool) (r : Response) : Response :=
  if retry_after then mk_Response (status r) ((§"retry-after", §"1") :: headers r) (body r) else r.

(** ** Errors of the e-mail reservation resource *)

Inductive EmailReservationsError :=
| EInvalidRequest | EInvalidEmail | EAlreadyReserved | ENotReserved | ENotCurrentAccountId
| EAlreadyVerified | EAccountCreationStarted | EInvalidCode | EConflict | EUnavailable | EInternal.

(** What [axum], [uuid] and [chrono] answer to a body, a path, an ID or a date they
    cannot read; the conversions do not look inside. *)
Inductive JsonRejection := JsonRejected.
Inductive PathRejection := PathRejected.
Inductive UuidError := UuidRejected.
Inductive ParseError := DateRejected.

(** [From] of the error of the resource, which [?] applies. *)
Definition reservations_json_rejection (_ : JsonRejection) : EmailReservationsError := EInvalidRequest.
Definition reservations_path_rejection (_ : PathRejection) : EmailReservationsError := EInvalidRequest.
Definition reservations_invalid_email (_ : InvalidEmail) : EmailReservationsError := EInvalidEmail.
Definition reservations_uuid_error (_ : UuidError) : EmailReservationsError := EInvalidRequest.

Definition reservations_error (error : EmailReservationServiceError) : EmailReservationsError :=
  match error with
  | SvcAlreadyReserved => EAlreadyReserved
  | SvcNotReserved => ENotReserved
  | SvcNotCurrentAccountId => ENotCurrentAccountId
  | SvcAlreadyVerified => EAlreadyVerified
  | SvcAccountCreationStarted => EAccountCreationStarted
  | SvcInvalidVerificationCode => EInvalidCode
  | SvcConflict => EConflict
  | SvcUnavailable => EUnavailable
  | SvcUnexpectedDomainRejection _ => EInternal
  end.

Definition reservations_error_parts (self : EmailReservationsError) : Z * rstr * rstr :=
  match self with
  | EInvalidRequest => (BAD_REQUEST, §"invalid_request", §"invalid request")
  | EInvalidEmail => (UNPROCESSABLE_ENTITY, §"invalid_email", §"invalid email address")
  | EAlreadyReserved => (CONFLICT, §"email_already_reserved", §"email is already reserved")
  | ENotReserved => (NOT_FOUND, §"email_not_reserved", §"email is not reserved")
  | ENotCurrentAccountId => (NOT_FOUND, §"registration_not_current", §"registration is not current")
  | EAlreadyVerified => (CONFLICT, §"already_verified", §"email is already verified")
  | EAccountCreationStarted =>
    (CONFLICT, §"account_creation_started", §"account creation has already started")
  | EInvalidCode => (UNPROCESSABLE_ENTITY, §"invalid_verification_code", §"invalid verification code")
  | EConflict =>
    (TOO_MANY_REQUESTS, §"email_reservation_conflict", §"email reservation changed concurrently")
  | EUnavailable =>
    (SERVICE_UNAVAILABLE, §"service_unavailable", §"email reservation is temporarily unavailable")
  | EInternal => (INTERNAL_SERVER_ERROR, §"internal_error", §"email reservation failed")
  end.
Definition reservations_error_response (self : EmailReservationsError) : Response :=
  let retry_after := match self with EConflict => true | _ => false end in
  let '(status, code, message) := reservations_error_parts self in
  with_retry_after retry_after (error_response status code message).

(** ** Errors of the user account resource *)

Inductive UserAccountsError :=
| UInvalidRequest | UInvalidEmail | UInvalidProfile | UInvalidAccountCreationToken
| URegistrationNotFound | URegistrationNotCurrent | UEmailNotVerified | UProfileAlreadySubmitted
| UConflict | UUnavailable | UInternal.

Definition accounts_json_rejection (_ : JsonRejection) : UserAccountsError := UInvalidRequest.
Definition accounts_uuid_error (_ : UuidError) : UserAccountsError := UInvalidRequest.
Definition accounts_parse_error (_ : ParseError) : UserAccountsError := UInvalidProfile.
Definition accounts_invalid_email (_ : InvalidEmail) : UserAccountsError := UInvalidEmail.

Definition accounts_error (error : SubmissionError) : UserAccountsError :=
  match error with
  | SubDomain InvalidAccountCreationToken => UInvalidAccountCreationToken
  | SubDomain NotReserved => URegistrationNotFound
  | SubDomain NotCurrentAccountId => URegistrationNotCurrent
  | SubDomain NotAwaitingProfile => UEmailNotVerified
  | SubDomain ProfileAlreadySubmitted => UProfileAlreadySubmitted
  | SubDomain EmailReservation.EmptyFirstName | SubDomain EmailReservation.EmptyLastName
  | SubDomain EmailReservation.FutureDateOfBirth => UInvalidProfile
  | SubConflict => UConflict
  | SubUnavailable => UUnavailable
  | SubDomain _ => UInternal
  end.

Definition accounts_error_parts (self : UserAccountsError) : Z * rstr * rstr :=
  match self with
  | UInvalidRequest => (BAD_REQUEST, §"invalid_request", §"invalid request")
  | UInvalidEmail => (UNPROCESSABLE_ENTITY, §"invalid_email", §"invalid email address")
  | UInvalidProfile => (UNPROCESSABLE_ENTITY, §"invalid_profile", §"registration profile is invalid")
  | UInvalidAccountCreationToken =>
    (FORBIDDEN, §"invalid_account_creation_token", §"account creation token is invalid")
  | URegistrationNotFound => (NOT_FOUND, §"registration_not_found", §"registration was not found")
  | URegistrationNotCurrent => (NOT_FOUND, §"registration_not_current", §"registration is not current")
  | UEmailNotVerified => (CONFLICT, §"email_not_verified", §"email has not been verified")
  | UProfileAlreadySubmitted =>
    (CONFLICT, §"profile_already_submitted", §"a registration profile was already submitted")
  | UConflict => (TOO_MANY_REQUESTS, §"registration_conflict", §"registration changed concurrently")
  | UUnavailable =>
    (SERVICE_UNAVAILABLE, §"service_unavailable", §"registration is temporarily unavailable")
  | UInternal => (INTERNAL_SERVER_ERROR, §"internal_error", §"registration failed")
  end.
Definition accounts_error_response (self : UserAccountsError) : Response :=
  let retry_after := match self with UConflict => true | _ => false end in
  let '(status, code, message) := accounts_error_parts self in
  with_retry_after retry_after (error_response status code message).

(** ** Requests *)

(** [serde] reads a request struct straight from the body, and there rejects a
    repeated field. *)
Definition occurrences (name : rstr) (l : list (rstr * Value)) : nat :=
  length (filter (fun p => fst p = name) l).
Definition request_fields (names : list rstr) (v : Value) : option (list Value) :=
  match v with
  | JObject l =>
    if forallb (fun name => (occurrences name l <=? 1)%nat) names then struct_fields names v else None
  | _ => struct_fields names v
  end.

(** [chrono]'s [NaiveDate::parse_from_str(_, "%Y-%m-%d")], and [percent_encoding]'s
    [utf8_percent_encode] with the set of ASCII characters to encode. *)
Class HttpCrates := {
  parse_date : rstr -> option NaiveDate;
  utf8_percent_encode : rstr -> (N -> bool) -> rstr;
  (** [Path<String>]: the decoded segment, if it is UTF-8. *)
  percent_decode : rstr -> option rstr;
}.

(** [NON_ALPHANUMERIC] less the four unreserved marks. *)
Definition is_alphanumeric (c : N) : bool :=
  ((48 <=? c) && (c <=? 57) || (65 <=? c) && (c <=? 90) || (97 <=? c) && (c <=? 122))%N.
Definition PATH_SEGMENT (c : N) : bool :=
  negb (is_alphanumeric c) && negb (bool_decide (c ∈ [45; 46; 95; 126]%N)).

Inductive method := GET | POST | OTHER.

(** The documented routes, by their path segments. *)
Inductive endpoint :=
| Reserve
| RequestCode (email : rstr)
| Verify (email : rstr)
| RegistrationStatus (email account_id : rstr)
| SubmitProfile.

Definition email_reservations_router (path : list rstr) : option (endpoint * method) :=
  match path with
  | [a] => if bool_decide (a = §"email-reservations") then Some (Reserve, POST) else None
  | [a; email; b] =>
    if bool_decide (a = §"email-reservations" /\ b = §"verification-codes")
    then Some (RequestCode email, POST)
    else if bool_decide (a = §"email-reservations" /\ b = §"verify") then Some (Verify email, POST)
    else None
  | [a; email; b; account_id] =>
    if bool_decide (a = §"email-reservations" /\ b = §"registrations")
    then Some (RegistrationStatus email account_id, GET) else None
  | _ => None
  end.
Definition user_accounts_router (path : list rstr) : option (endpoint * method) :=
  match path with
  | [a] => if bool_decide (a = §"user-accounts") then Some (SubmitProfile, POST) else None
  | _ => None
  end.

(** [Router::merge]: no path is routed by both. *)
Definition routed (path : list rstr) : option (endpoint * method) :=
  match email_reservations_router path with
  | Some route => Some route
  | None => user_accounts_router path
  end.

Section Handlers.
Context `{UuidCrate, EmailCrate, HttpCrates} {W : Type} `{EmailReservationService W, RegistrationService W}.

Definition reserve (m : material) (payload : option Value) (w : W) :
    option (result EmailReservationsError Response) * W :=
  match payload ≫= request_fields [§"email"] with
  | Some [email] =>
    match as_string email with
    | None => (Some (Err (reservations_json_rejection JsonRejected)), w)
    | Some email =>
      match email_parse email with
      | Err e => (Some (Err (reservations_invalid_email e)), w)
      | Ok email =>
        map_answer (fun res =>
            reserved ← map_err reservations_error res;
            Ok (mk_Response ACCEPTED [] (JObject
              [(§"email", email_to_json (re_email reserved));
               (§"account_id", id_to_json (re_account_id reserved))])))
          (svc_reserve m email w)
      end
    end
  | _ => (Some (Err (reservations_json_rejection JsonRejected)), w)
  end.

Definition request_code (m : material) (email : option rstr) (w : W) :
    option (result EmailReservationsError Response) * W :=
  match email with
  | None => (Some (Err (reservations_path_rejection PathRejected)), w)
  | Some email =>
    match email_parse email with
    | Err e => (Some (Err (reservations_invalid_email e)), w)
    | Ok email =>
      map_answer (fun res =>
          _ ← map_err reservations_error res;
          Ok (mk_Response ACCEPTED [] (JObject [(§"status", JString (§"verification_code_requested"))])))
        (svc_request_new_verification_code m email w)
    end
  end.

Definition verify (m : material) (email : option rstr) (payload : option Value) (w : W) :
    option (result EmailReservationsError Response) * W :=
  match email, payload ≫= request_fields [§"account_id"; §"code"] with
  | Some email, Some [id; code] =>
    match as_string id, as_u32 code with
    | Some id, Some code =>
      match account_id_from_str id with
      | None => (Some (Err (reservations_uuid_error UuidRejected)), w)
      | Some id =>
        match email_parse email with
        | Err e => (Some (Err (reservations_invalid_email e)), w)
        | Ok email =>
          map_answer (fun res =>
              verified ← map_err reservations_error res;
              Ok (mk_Response OK [(§"cache-control", §"no-store")] (JObject
                [(§"email", email_to_json (ve_email verified));
                 (§"account_id", id_to_json (ve_account_id verified));
                 (§"account_creation_token", JString (ve_account_creation_token verified))])))
            (svc_confirm_email m email id code w)
        end
      end
    | _, _ => (Some (Err (reservations_json_rejection JsonRejected)), w)
    end
  | None, _ => (Some (Err (reservations_path_rejection PathRejected)), w)
  | Some _, _ => (Some (Err (reservations_json_rejection JsonRejected)), w)
  end.

Definition registration_status_not_implemented : Response :=
  error_response NOT_IMPLEMENTED (§"not_implemented") (§"registration status is not implemented").

Definition status_url (email : Email) (id : UserAccountId) : rstr :=
  §"/email-reservations/" ++ utf8_percent_encode (email_as_str email) PATH_SEGMENT
  ++ §"/registrations/" ++ account_id_to_string id.

(** The body of a submission: its fields in order of evaluation. *)
Definition submission_of (payload : option Value) : result UserAccountsError ProfileSubmission :=
  match (payload ≫= request_fields [§"email"; §"account_id"; §"account_creation_token";
                                   §"first_name"; §"last_name"; §"date_of_birth"])
        ≫= mapM as_string with
  | Some [email; id; token; first; last; birth] =>
    email ← map_err accounts_invalid_email (email_parse email);
    id ← map_err accounts_uuid_error (ok_or UuidRejected (account_id_from_str id));
    birth ← map_err accounts_parse_error (ok_or DateRejected (parse_date birth));
    Ok {| ps_email := email; ps_account_id := id; ps_account_creation_token := token;
          ps_first_name := first; ps_last_name := last; ps_date_of_birth := birth |}
  | _ => Err (accounts_json_rejection JsonRejected)
  end.

(** [presentation::http::user_accounts::submit_profile] *)
Definition post_profile (now : DateTime) (task_id : Uuid) (payload : option Value) (w : W) :
    option (result UserAccountsError Response) * W :=
  match submission_of payload with
  | Err e => (Some (Err e), w)
  | Ok submission =>
    map_answer (fun res =>
        accepted ← map_err accounts_error res;
        Ok (mk_Response ACCEPTED [] (JObject
          [(§"account_id", id_to_json (as_account_id accepted));
           (§"status_url", JString (status_url (as_email accepted) (as_account_id accepted)))])))
      (svc_submit_profile now task_id submission w)
  end.

Definition respond {E} (error : E -> Response) (r : result E Response) : Response :=
  match r with Ok response => response | Err e => error e end.

(** One request through the merged routers, with what the handler would draw; a
    handler that panics gives no response. *)
Definition serve (m : material) (now : DateTime) (mth : method) (path : list rstr)
    (payload : option Value) (w : W) : option Response * W :=
  match routed path with
  | None => (Some (mk_Response NOT_FOUND [] JNull), w)
  | Some (e, allowed) =>
    match mth, allowed with
    | GET, GET | POST, POST =>
      match e with
      | Reserve => map_answer (respond reservations_error_response) (reserve m payload w)
      | RequestCode email =>
        map_answer (respond reservations_error_response) (request_code m (percent_decode email) w)
      | Verify email =>
        map_answer (respond reservations_error_response) (verify m (percent_decode email) payload w)
      | RegistrationStatus _ _ => (Some registration_status_not_implemented, w)
      | SubmitProfile =>
        map_answer (respond accounts_error_response) (post_profile now (m_task_id m) payload w)
      end
    | _, _ => (Some (mk_Response METHOD_NOT_ALLOWED [] JNull), w)
    end
  end.

Lemma serve_inv m now mth path payload w resp w' :
  serve m now mth path payload w = (resp, w') ->
  (w' = w /\ exists r, resp = Some r /\
     r ∈ [mk_Response NOT_FOUND [] JNull; mk_Response METHOD_NOT_ALLOWED [] JNull;
          registration_status_not_implemented]) \/
  (exists r, reserve m payload w = (r, w') /\ resp = respond reservations_error_response <$> r) \/
  (exists email r, request_code m email w = (r, w') /\ resp = respond reservations_error_response <$> r) \/
  (exists email r, verify m email payload w = (r, w') /\ resp = respond reservations_error_response <$> r) \/
  (exists r, post_profile now (m_task_id m) payload w = (r, w') /\
     resp = respond accounts_error_response <$> r).
Proof.
  unfold serve. destruct (routed path) as [[e allowed]|];
    [|intros [= <- <-]; left; split; [done|]; eexists; rewrite !elem_of_cons; auto].
  destruct mth, allowed;
    try (intros [= <- <-]; left; split; [done|]; eexists; rewrite !elem_of_cons; by auto);
    destruct e; try (intros [= <- <-]; left; split; [done|]; eexists; rewrite !elem_of_cons; by auto).
  all: match goal with |- map_answer _ ?x = _ -> _ => destruct x as [r w1] eqn:E end;
    intros [= <- <-]; right; eauto 10.
Qed.
End Handlers.

(** ** What a response means *)

(** Splits a handler on what its extractors and parsers return. *)
Ltac open_request :=
  repeat match goal with
  | |- context [match ?x with _ => _ end] =>
    lazymatch x with
    | svc_reserve _ _ _ => fail | svc_request_new_verification_code _ _ _ => fail
    | svc_confirm_email _ _ _ _ _ => fail | svc_submit_profile _ _ _ _ => fail
    | reserve_email _ _ _ => fail | request_new_verification_code _ _ _ => fail
    | confirm_email _ _ _ _ _ => fail | submit_profile _ _ _ _ => fail
    | _ => destruct x eqn:?
    end
  end.

(** The handlers over the application's own services. *)
#[local] Existing Instances email_reservation_service registration_service.

Tactic Notation "open_handler" reference(h) :=
  unfold h; cbn [svc_reserve svc_request_new_verification_code svc_confirm_email svc_submit_profile
                 email_reservation_service registration_service].

Section Meaning.
Context `{UuidLaws, EmailLaws, ChronoLaws, TokenDigest, HttpCrates} {W : Type} (view : W -> world)
  `{EmailReservationGateway W, UserAccountGateway W}
  `{!EmailGatewayLaws view, !AccountGatewayLaws view}.

(** A command that is answered, and not with an unavailable gateway, took
    effect exactly when it succeeded. *)
Lemma email_answer c tasks w r w' :
  email_execute_with_outbox c tasks w = (r, w') ->
  match r with
  | Some (Ok _) => exists es, email_decision (view w) c = Some (Ok es) /\
              view w' = email_commit (view w) c es tasks
  | Some (Err (Domain e)) => view w' = view w /\ email_decision (view w) c = Some (Err e)
  | Some (Err Conflict) => view w' = view w
  | Some (Err GatewayUnavailable) => True
  | None => view w' = view w
  end.
Proof. intros E%(email_outcome view). inversion E; subst; eauto. Qed.

Lemma reserve_answer m em w r w' :
  reserve_email m em w = (r, w') ->
  match r with
  | Some (Ok _) | Some (Err SvcUnavailable) => True
  | Some (Err (SvcUnexpectedDomainRejection _)) =>
    view w' = view w /\ (sys_inv (view w) -> ~ 1000000 <= m_verification_code m <= 9999999)
  | Some (Err _) | None => view w' = view w
  end.
Proof.
  unfold reserve_email. destruct (send_new_task (m_task_id m) {| sv_email := em;
    sv_account_id := m_account_id m; sv_verification_code := m_verification_code m |}) as [t Ht].
  rewrite Ht. destruct (email_execute_with_outbox _ _ _) as [r1 w1] eqn:E. intros [= <- <-].
  apply email_answer in E. destruct r1 as [[|[e| |]]|]; [done| |done..].
  destruct E as [Hv Hd].
  assert (Hcases : e = AlreadyReserved \/ (e = InvalidVerificationCodeFormat /\
    code_format_ok (m_verification_code m) = false)).
  { unfold email_decision in Hd. destruct (EmailReservation.replay _) as [s|]; [|done].
    simpl in Hd. unfold handle_reserve, ensure_code_format in Hd.
    destruct (is_reserved s); simplify_eq/=; [by left|].
    destruct (code_format_ok _); simplify_eq/=. by right. }
  destruct Hcases as [->|[-> Hc]]; simpl; [done|]. split; [done|].
  intros _ ?%code_format_ok_spec. congruence.
Qed.

Lemma request_answer m em w r w' :
  request_new_verification_code m em w = (r, w') ->
  match r with
  | Some (Ok _) | Some (Err SvcUnavailable) => True
  | Some (Err (SvcUnexpectedDomainRejection _)) =>
    view w' = view w /\ (sys_inv (view w) -> ~ 1000000 <= m_verification_code m <= 9999999)
  | Some (Err _) | None => view w' = view w
  end.
Proof.
  unfold request_new_verification_code. destruct (send_new_task (m_task_id m) {| sv_email := em;
    sv_account_id := m_account_id m; sv_verification_code := m_verification_code m |}) as [t Ht].
  rewrite Ht. destruct (email_execute_with_outbox _ _ _) as [r1 w1] eqn:E. intros [= <- <-].
  apply email_answer in E. destruct r1 as [[|[e| |]]|]; [done| |done..].
  destruct E as [Hv Hd].
  assert (Hcases : e = NotReserved \/ e = AccountIdUnchanged \/ e = AccountCreationStarted \/
    (e = InvalidVerificationCodeFormat /\ code_format_ok (m_verification_code m) = false)).
  { unfold email_decision in Hd. destruct (EmailReservation.replay _) as [s|]; [|done].
    simpl in Hd. unfold handle_request_verification_code, ensure_code_format in Hd.
    destruct (EmailReservation.account_id s); simplify_eq/=; [|by left].
    destruct (decide _); simplify_eq/=; [by auto|].
    destruct (code_format_ok _); [|simplify_eq/=; by auto].
    destruct (phase s); simplify_eq/=; auto. }
  destruct Hcases as [->|[->|[->|[-> Hc]]]]; simpl; try done. split; [done|].
  intros _ ?%code_format_ok_spec. congruence.
Qed.

Lemma confirm_answer m em id code w r w' :
  confirm_email m em id code w = (r, w') ->
  match r with
  | Some (Ok v) => v = {| ve_email := em; ve_account_id := id;
                   ve_account_creation_token := m_account_creation_token m |} /\
      exists es, email_decision (view w) (VerifyEmail em id code (digest (m_account_creation_token m)))
                   = Some (Ok es) /\
        view w' = email_commit (view w) (VerifyEmail em id code (digest (m_account_creation_token m))) es []
  | Some (Err SvcUnavailable) => True
  | Some (Err (SvcUnexpectedDomainRejection _)) => False
  | Some (Err _) | None => view w' = view w
  end.
Proof.
  unfold confirm_email, email_execute. destruct (negb _); [by intros [= <- <-]|].
  destruct (email_execute_with_outbox _ _ _) as [r1 w1] eqn:E. intros [= <- <-].
  apply email_answer in E. destruct r1 as [[|[e| |]]|]; [done| |done..].
  destruct E as [Hv Hd].
  unfold email_decision in Hd. destruct (EmailReservation.replay _) as [s|]; [|done].
  simpl in Hd. unfold handle_verify in Hd.
  destruct (phase s); repeat destruct (decide _); by simplify_eq/=.
Qed.

Lemma submit_answer t tid s w r w' :
  submit_profile t tid s w = (r, w') ->
  match r with
  | Some (Ok a) => a = {| as_email := ps_email s; as_account_id := ps_account_id s |} /\
      exists es task p, p = profile_new (ps_first_name s) (ps_last_name s) (ps_date_of_birth s) (date_naive t) /\
        email_decision (view w) (SubmitRegistrationProfile (ps_email s) (ps_account_id s)
          (digest (ps_account_creation_token s)) p) = Some (Ok es) /\
        view w' = email_commit (view w) (SubmitRegistrationProfile (ps_email s) (ps_account_id s)
          (digest (ps_account_creation_token s)) p) es [task]
  | Some (Err SubUnavailable) => True
  | Some (Err e) => view w' = view w /\ accounts_error e <> UInternal
  | None => view w' = view w
  end.
Proof.
  unfold submit_profile. set (p := profile_new _ _ _ _).
  destruct (create_new_task tid {| ct_email := ps_email s; ct_account_id := ps_account_id s;
    ct_profile := p |}) as [t' Ht]. rewrite Ht.
  destruct (email_execute_with_outbox _ _ _) as [r1 w1] eqn:E. intros [= <- <-].
  apply email_answer in E. destruct r1 as [[u|[e| |]]|]; [|destruct E as [Hv Hd]; split; [done|]|done..].
  - destruct E as (es & Hd & Hv). split; [done|]. by exists es, t', p.
  - unfold email_decision in Hd. destruct (EmailReservation.replay _) as [st|]; [|done].
    cbn [mbind option_bind EmailReservation.handle] in Hd. unfold handle_submit_profile in Hd.
    destruct (phase st); simpl in Hd; repeat (destruct (decide _) || destruct (_ <? _));
      by simplify_eq/=.
Qed.

(** *** Through the router *)

(** What a handler may do to the world, by the status of its response. *)
Definition handled_ok (w w' : W) (resp : option Response) : Prop :=
  match resp with
  | Some r => status r <> OK -> status r <> ACCEPTED -> status r <> SERVICE_UNAVAILABLE -> view w' = view w
  | None => view w' = view w
  end.
#[local] Arguments handled_ok : simpl never.

Lemma reservations_error_failure e w w' :
  (match e with SvcUnavailable => True | _ => view w' = view w end) ->
  handled_ok w w' (Some (reservations_error_response (reservations_error e))).
Proof. intros He. unfold handled_ok. by destruct e. Qed.
Lemma accounts_error_failure e w w' :
  (match e with SubUnavailable => True | _ => view w' = view w end) ->
  handled_ok w w' (Some (accounts_error_response (accounts_error e))).
Proof. intros He. unfold handled_ok. by destruct e as [[]| |]. Qed.

Lemma handled_unchanged w r : handled_ok w w r.
Proof. by destruct r. Qed.
Lemma handled_accepted w w' hs b : handled_ok w w' (Some (mk_Response ACCEPTED hs b)).
Proof. by intros ? []. Qed.
Lemma handled_success w w' hs b : handled_ok w w' (Some (mk_Response OK hs b)).
Proof. by intros []. Qed.
#[local] Hint Resolve handled_unchanged handled_accepted handled_success : ams.

Lemma reserve_handled m payload w r w' :
  reserve m payload w = (r, w') -> handled_ok w w' (respond reservations_error_response <$> r).
Proof.
  open_handler reserve. open_request; try (intros [= <- <-]; by auto with ams).
  destruct (reserve_email _ _ _) as [r1 w1] eqn:E. intros [= <- <-]. apply reserve_answer in E.
  destruct r1 as [[|e]|]; simpl; [auto with ams| |done]. apply reservations_error_failure.
  destruct e; naive_solver.
Qed.

Lemma request_code_handled m email w r w' :
  request_code m email w = (r, w') -> handled_ok w w' (respond reservations_error_response <$> r).
Proof.
  open_handler request_code. open_request; try (intros [= <- <-]; by auto with ams).
  destruct (request_new_verification_code _ _ _) as [r1 w1] eqn:E. intros [= <- <-].
  apply request_answer in E. destruct r1 as [[|e]|]; simpl; [auto with ams| |done].
  apply reservations_error_failure. destruct e; naive_solver.
Qed.

Lemma verify_handled m email payload w r w' :
  verify m email payload w = (r, w') -> handled_ok w w' (respond reservations_error_response <$> r).
Proof.
  open_handler verify. open_request; try (intros [= <- <-]; by auto with ams).
  destruct (confirm_email _ _ _ _ _) as [r1 w1] eqn:E. intros [= <- <-].
  apply confirm_answer in E. destruct r1 as [[|e]|]; simpl; [auto with ams| |done].
  apply reservations_error_failure. destruct e; naive_solver.
Qed.

Lemma post_profile_handled t tid payload w r w' :
  post_profile t tid payload w = (r, w') -> handled_ok w w' (respond accounts_error_response <$> r).
Proof.
  open_handler post_profile. open_request; try (intros [= <- <-]; by auto with ams).
  destruct (submit_profile _ _ _ _) as [r1 w1] eqn:E. intros [= <- <-].
  apply submit_answer in E. destruct r1 as [[|e]|]; simpl; [auto with ams| |done].
  apply accounts_error_failure. destruct e; naive_solver.
Qed.

(** C24: what an error response means: whatever the request, unless the answer
    is 200, 202 or 503, no stream changed and no task was published; only 503
    leaves open whether the command was committed.  A handler that panics, so
    that there is no answer, has changed nothing either. *)
Theorem error_response_changes_nothing m now mth path payload w resp w' :
  serve m now mth path payload w = (resp, w') ->
  match resp with
  | Some r => status r <> OK -> status r <> ACCEPTED -> status r <> SERVICE_UNAVAILABLE -> view w' = view w
  | None => view w' = view w
  end.
Proof.
  intros Hs. change (handled_ok w w' resp). destruct (serve_inv _ _ _ _ _ _ _ _ Hs) as
    [(-> & r & -> & _)|[(r & E & ->)|[(em & r & E & ->)|[(em & r & E & ->)|(r & E & ->)]]]]; [done|..].
  - by eapply reserve_handled.
  - by eapply request_code_handled.
  - by eapply verify_handled.
  - by eapply post_profile_handled.
Qed.

(** With a generator that keeps to seven digits, as the service's does, no
    request is ever answered with 500: the rejections the handlers do not expect
    cannot occur. *)
Theorem internal_error_is_unreachable rnd tid now mth path payload w resp w' :
  sys_inv (view w) -> random_source_ok rnd ->
  serve (generate rnd tid) now mth path payload w = (Some resp, w') -> status resp <> INTERNAL_SERVER_ERROR.
Proof.
  intros Hi Hrnd. assert (Hc : 1000000 <= m_verification_code (generate rnd tid) <= 9999999).
  { specialize (Hrnd 1000000 10000000). unfold generate, verification_code. simpl. lia. }
  intros Hs. destruct (serve_inv _ _ _ _ _ _ _ _ Hs) as
    [(-> & r & [= ->] & Hr)|[(r & E & Hx)|[(em & r & E & Hx)|[(em & r & E & Hx)|(r & E & Hx)]]]];
    [|destruct r as [r|]; [injection Hx as ->|done]..].
  - repeat (apply elem_of_cons in Hr as [->|Hr]; [done|]). by apply not_elem_of_nil in Hr.
  - revert E. open_handler reserve. open_request; try (by intros [= <- <-]).
    destruct (reserve_email _ _ _) as [r1 w1] eqn:E. intros [= Hr <-]. apply reserve_answer in E.
    destruct r1 as [[|[]]|]; simplify_eq/=; try done. by destruct E as [_ []].
  - revert E. open_handler request_code. open_request; try (by intros [= <- <-]).
    destruct (request_new_verification_code _ _ _) as [r1 w1] eqn:E. intros [= Hr <-].
    apply request_answer in E. destruct r1 as [[|[]]|]; simplify_eq/=; try done. by destruct E as [_ []].
  - revert E. open_handler verify. open_request; try (by intros [= <- <-]).
    destruct (confirm_email _ _ _ _ _) as [r1 w1] eqn:E. intros [= Hr <-].
    apply confirm_answer in E. by destruct r1 as [[|[]]|]; simplify_eq/=.
  - revert E. open_handler post_profile. destruct (submission_of payload) as [s|e] eqn:Es.
    + destruct (submit_profile _ _ _ _) as [r1 w1] eqn:E. intros [= Hr <-].
      apply submit_answer in E. destruct r1 as [[|[e| |]]|]; simplify_eq/=; try done.
      destruct E as [_ He]. simpl in He. by destruct e.
    + intros [= <- <-]. revert Es. unfold submission_of. open_request; simpl; try (by intros [= <-]).
      destruct (email_parse _); simpl; [|by intros [= <-]].
      destruct (account_id_from_str _); simpl; [|by intros [= <-]].
      destruct (parse_date _); simpl; [done|by intros [= <-]].
Qed.

(** *** Successful responses *)

Lemma verify_success m email payload w r w' :
  sys_inv (view w) -> verify m email payload w = (Some (Ok r), w') ->
  exists em id code, state_of (view w) em = Some (mk_EmailReservation (AwaitingCode id code)) /\
    state_of (view w') em =
      Some (mk_EmailReservation (AwaitingProfile id (digest (m_account_creation_token m)))) /\
    r = mk_Response OK [(§"cache-control", §"no-store")] (JObject
      [(§"email", email_to_json em); (§"account_id", id_to_json id);
       (§"account_creation_token", JString (m_account_creation_token m))]).
Proof.
  intros Hi. open_handler verify. open_request; try (by intros [= <- <-]).
  destruct (confirm_email _ _ _ _ _) as [r1 w1] eqn:E. intros [= Hr <-].
  apply confirm_answer in E. destruct r1 as [[ver|[]]|]; try discriminate Hr.
  destruct E as (-> & es & Hd & Hv). simpl in Hr. injection Hr as <-.
  match goal with H : account_id_from_str _ = Some ?i, H' : email_parse _ = Ok ?e |- _ => rename i into id, e into em end.
  match goal with H : as_u32 _ = Some ?c |- _ => rename c into code end.
  destruct (email_commit_step _ _ _ [] Hi Hd) as (s & e & s' & -> & Hs & _ & Hl & Hs' & _).
  exists em, id, code. rewrite Hv.
  destruct s as [ph], s' as [ph']. simpl in Hs, Hs', Hl. inversion Hl; subst. done.
Qed.

Lemma issue_state c es tasks w em id code :
  sys_inv w -> c = ReserveEmail em id code \/ c = RequestVerificationCode em id code ->
  email_decision w c = Some (Ok es) ->
  state_of (email_commit w c es tasks) em = Some (mk_EmailReservation (AwaitingCode id code)).
Proof.
  intros Hi Hc Hd. destruct (email_commit_step _ _ _ tasks Hi Hd) as (s & e & s' & -> & _ & _ & Hl & Hs' & _).
  destruct s' as [ph']. destruct Hc as [->| ->]; simpl in *; inversion Hl; by subst.
Qed.

(** What an accepted request has started. *)
Definition accepted_effect (m : material) (w' : W) : Prop :=
  exists em, state_of (view w') em =
    Some (mk_EmailReservation (AwaitingCode (m_account_id m) (m_verification_code m))) \/
  exists id dg p t, state_of (view w') em = Some (mk_EmailReservation (CreatingAccount id dg p)) /\
    profile_valid p /\ t ∈ published (view w') /\ create_task em id p t.

Lemma reserve_success m em w res w' :
  sys_inv (view w) -> reserve_email m em w = (Some (Ok res), w') -> accepted_effect m w'.
Proof.
  intros Hi. unfold reserve_email. destruct (send_new_task (m_task_id m) {| sv_email := em;
    sv_account_id := m_account_id m; sv_verification_code := m_verification_code m |}) as [t Ht].
  rewrite Ht. destruct (email_execute_with_outbox _ _ _) as [[[u|e]|] w1] eqn:E; [|done..]. intros [= _ <-].
  apply email_answer in E as (es & Hd & Hv). exists em. left. rewrite Hv. eapply issue_state; eauto.
Qed.

Lemma request_success m em w u w' :
  sys_inv (view w) -> request_new_verification_code m em w = (Some (Ok u), w') -> accepted_effect m w'.
Proof.
  intros Hi. unfold request_new_verification_code. destruct (send_new_task (m_task_id m) {| sv_email := em;
    sv_account_id := m_account_id m; sv_verification_code := m_verification_code m |}) as [t Ht].
  rewrite Ht. destruct (email_execute_with_outbox _ _ _) as [[[u'|e]|] w1] eqn:E; [|done..]. intros [= _ <-].
  apply email_answer in E as (es & Hd & Hv). exists em. left. rewrite Hv. eapply issue_state; eauto.
Qed.

Lemma post_profile_success t tid payload w r w' m :
  sys_inv (view w) -> post_profile t tid payload w = (Some (Ok r), w') -> accepted_effect m w'.
Proof.
  intros Hi. open_handler post_profile. destruct (submission_of payload) as [s|e]; [|done].
  unfold submit_profile. set (p := profile_new _ _ _ _).
  destruct (create_new_task tid {| ct_email := ps_email s; ct_account_id := ps_account_id s;
    ct_profile := p |}) as [t' Ht]. rewrite Ht.
  destruct (email_execute_with_outbox _ _ _) as [r1 w1] eqn:E. intros [= Hr <-].
  destruct r1 as [[u|[| |]]|]; try discriminate Hr. apply email_answer in E as (es & Hd & Hv).
  destruct (email_commit_step _ _ _ [t'] Hi Hd) as (s0 & e & s' & -> & _ & _ & Hl & Hs' & _).
  assert (Hp : profile_normalize p = p).
  { apply profile_normalize_idemp with (p := {| first_name := ps_first_name s;
      last_name := ps_last_name s; date_of_birth := ps_date_of_birth s; validation_date := date_naive t |}). }
  clearbody p. destruct s' as [ph']. cbn [phase] in Hl. inversion Hl; subst ph'; subst. exists (ps_email s). right.
  exists (ps_account_id s), (digest (ps_account_creation_token s)), p, t'. rewrite Hv.
  rewrite Hp in *. split_and!; [exact Hs'|done| |by exists tid].
  apply elem_of_app. right. by apply list_elem_of_singleton.
Qed.

(** A success response tells the truth.  200 is answered only when the
    presented ID and code were the awaited ones and the address now holds the
    digest of exactly the returned token, in a response marked as not
    cacheable; 202 only when the generated ID and code are now awaited, or a
    valid profile was accepted and its creation task published. *)
Theorem success_response_is_true m now mth path payload w resp w' :
  sys_inv (view w) -> serve m now mth path payload w = (Some resp, w') ->
  (status resp = OK ->
     exists em id code, state_of (view w) em = Some (mk_EmailReservation (AwaitingCode id code)) /\
       state_of (view w') em =
         Some (mk_EmailReservation (AwaitingProfile id (digest (m_account_creation_token m)))) /\
       resp = mk_Response OK [(§"cache-control", §"no-store")] (JObject
         [(§"email", email_to_json em); (§"account_id", id_to_json id);
          (§"account_creation_token", JString (m_account_creation_token m))])) /\
  (status resp = ACCEPTED -> accepted_effect m w').
Proof.
  intros Hi Hs. destruct (serve_inv _ _ _ _ _ _ _ _ Hs) as
    [(-> & r & [= ->] & Hr)|[(r & E & Hx)|[(em & r & E & Hx)|[(em & r & E & Hx)|(r & E & Hx)]]]];
    [|destruct r as [r|]; [injection Hx as ->|done]..].
  - repeat (apply elem_of_cons in Hr as [->|Hr]; [done|]). by apply not_elem_of_nil in Hr.
  - revert E. open_handler reserve. open_request; try (by intros [= <- <-]).
    destruct (reserve_email _ _ _) as [[[res|e]|] w1] eqn:E; intros [= <- <-]; [|by destruct e].
    split; [done|]. intros _. by eapply reserve_success.
  - revert E. open_handler request_code. open_request; try (by intros [= <- <-]).
    destruct (request_new_verification_code _ _ _) as [[[u|e]|] w1] eqn:E; intros [= <- <-]; [|by destruct e].
    split; [done|]. intros _. by eapply request_success.
  - destruct r as [r|e]; [|by destruct e].
    destruct (verify_success _ _ _ _ _ _ Hi E) as (em' & id & code & ? & ? & ->).
    split; [|done]. intros _. by exists em', id, code.
  - destruct r as [r|e]; [|by destruct e]. split; [|intros _; by eapply post_profile_success].
    revert E. open_handler post_profile. destruct (submission_of payload); [|done].
    destruct (submit_profile _ _ _ _) as [[[acc|]|] w1]; [|done..]. by intros [= <- <-].
Qed.
End Meaning.

(** ** Requests as steps of the system *)

Section Traffic.
Context `{UuidLaws, EmailLaws, ChronoLaws, TokenDigest, HttpCrates} {W : Type} (view : W -> world)
  `{EmailReservationGateway W, UserAccountGateway W}.
Context (writer : Writer (W:=W)) (now : W -> DateTime) (fresh : W -> Uuid).

Lemma submission_of_valid payload s : submission_of payload = Ok s -> email_valid (ps_email s).
Proof.
  unfold submission_of. open_request; try done. destruct (email_parse _) eqn:E; [|done]. simpl.
  destruct (account_id_from_str _); [|done]. simpl. destruct (parse_date _); [|done].
  intros [= <-]. simpl. by eapply email_parse_valid.
Qed.

(** The client is told that the request was carried out. *)
Definition succeeded (resp : option Response) : bool :=
  match resp with Some r => (status r =? OK) || (status r =? ACCEPTED) | None => false end.

Lemma accounts_error_fails e : succeeded (Some (accounts_error_response e)) = false.
Proof. by destruct e. Qed.

(** A request is at most one use case, on an address that was parsed, and the
    client is told of success only when the use case reports it. *)
Lemma serve_use_case m t mth path payload w resp w' :
  serve m t mth path payload w = (resp, w') ->
  w' = w /\ resp <> None /\ succeeded resp = false \/ exists em, email_valid em /\
    ((exists r, reserve_email m em w = (r, w') /\ (r <> None -> resp <> None) /\ (succeeded resp = true -> call_ok r = true)) \/
     (exists r, request_new_verification_code m em w = (r, w') /\ (r <> None -> resp <> None) /\ (succeeded resp = true -> call_ok r = true)) \/
     (exists id code r, confirm_email m em id code w = (r, w') /\ (r <> None -> resp <> None) /\ (succeeded resp = true -> call_ok r = true)) \/
     (exists tid s r, ps_email s = em /\ submit_profile t tid s w = (r, w') /\
        (r <> None -> resp <> None) /\ (succeeded resp = true -> call_ok r = true))).
Proof.
  intros Hs. destruct (serve_inv _ _ _ _ _ _ _ _ Hs) as
    [(-> & r & -> & Hr)|[(r & E & ->)|[(em & r & E & ->)|[(em & r & E & ->)|(r & E & ->)]]]].
  - left. split; [done|]. split; [done|]. repeat (apply elem_of_cons in Hr as [->|Hr]; [done|]). by apply not_elem_of_nil in Hr.
  - revert E. open_handler reserve. open_request; try (intros [= <- <-]; by left).
    destruct (reserve_email _ _ _) as [r1 w1] eqn:E. intros [= <- <-]. right.
    eexists. split; [by eapply email_parse_valid|]. left. exists r1. split_and!; [done|by destruct r1|by destruct r1 as [[|[]]|]].
  - revert E. open_handler request_code. open_request; try (intros [= <- <-]; by left).
    destruct (request_new_verification_code _ _ _) as [r1 w1] eqn:E. intros [= <- <-]. right.
    eexists. split; [by eapply email_parse_valid|]. right; left. exists r1. split_and!; [done|by destruct r1|by destruct r1 as [[|[]]|]].
  - revert E. open_handler verify. open_request; try (intros [= <- <-]; by left).
    destruct (confirm_email _ _ _ _ _) as [r1 w1] eqn:E. intros [= <- <-]. right.
    eexists. split; [by eapply email_parse_valid|]. right; right; left. eexists _, _, r1.
    split_and!; [done|by destruct r1|by destruct r1 as [[|[]]|]].
  - revert E. open_handler post_profile. destruct (submission_of payload) as [s|e] eqn:Es;
      [|intros [= <- <-]; left; by destruct e].
    destruct (submit_profile _ _ _ _) as [r1 w1] eqn:E. intros [= <- <-]. right.
    exists (ps_email s). split; [by eapply submission_of_valid|]. right; right; right. eexists _, s, r1.
    split_and!; [done|done|by destruct r1|]. destruct r1 as [[|]|]; [done| |done]. cbn [fmap option_fmap option_map respond mbind result_bind map_err].
    by rewrite accounts_error_fails.
Qed.

(** Every HTTP request, whatever its path and body, is one step of the
    registration system, so the guarantees on reachable worlds hold after any
    traffic in which generated account IDs do not repeat. *)
Theorem requests_are_system_steps m t mth path payload w resp w' :
  reachable view writer now fresh w -> fresh_id (view w) (m_account_id m) ->
  serve m t mth path payload w = (resp, w') -> reachable view writer now fresh w'.
Proof.
  intros (w0 & Hw0 & Hr) Hf Hs. exists w0. split; [done|]. eapply rtc_r; [exact Hr|].
  destruct (serve_use_case _ _ _ _ _ _ _ _ Hs) as [(-> & _)|(em & He & [(r & E & _)|[(r & E & _)
    |[(id & code & r & E & _)|(tid & s & r & <- & E & _)]]])]; [by apply sys_env|..].
  - by eapply sys_reserve.
  - by eapply sys_request.
  - by eapply sys_confirm.
  - by eapply sys_submit.
Qed.
End Traffic.

(** ** The error responses, all of them *)

Definition reservations_errors : list EmailReservationsError :=
  [EInvalidRequest; EInvalidEmail; EAlreadyReserved; ENotReserved; ENotCurrentAccountId;
   EAlreadyVerified; EAccountCreationStarted; EInvalidCode; EConflict; EUnavailable; EInternal].
Definition accounts_errors : list UserAccountsError :=
  [UInvalidRequest; UInvalidEmail; UInvalidProfile; UInvalidAccountCreationToken; URegistrationNotFound;
   URegistrationNotCurrent; UEmailNotVerified; UProfileAlreadySubmitted; UConflict; UUnavailable; UInternal].
Definition public_errors : list Response :=
  [mk_Response NOT_FOUND [] JNull; mk_Response METHOD_NOT_ALLOWED [] JNull;
   registration_status_not_implemented]
  ++ (reservations_error_response <$> reservations_errors)
  ++ (accounts_error_response <$> accounts_errors).

Definition retry_header (r : Response) : bool :=
  existsb (fun h => bool_decide (h = (§"retry-after", §"1"))) (headers r).

Lemma public_errors_retry r : r ∈ public_errors -> retry_header r = (status r =? TOO_MANY_REQUESTS).
Proof.
  assert (Hall : forallb (fun r => eqb (retry_header r) (status r =? TOO_MANY_REQUESTS)) public_errors = true)
    by by vm_compute.
  intros Hr. rewrite forallb_forall in Hall. apply eqb_prop, Hall. by apply list_elem_of_In.
Qed.

Lemma reservations_error_public e : reservations_error_response e ∈ public_errors.
Proof.
  unfold public_errors. rewrite !elem_of_app. right; left. apply list_elem_of_fmap.
  exists e. split; [done|]. destruct e; unfold reservations_errors; rewrite !elem_of_cons; auto 20.
Qed.
Lemma accounts_error_public e : accounts_error_response e ∈ public_errors.
Proof.
  unfold public_errors. rewrite !elem_of_app. right; right. apply list_elem_of_fmap.
  exists e. split; [done|]. destruct e; unfold accounts_errors; rewrite !elem_of_cons; auto 20.
Qed.

(** C25: failures leak nothing: whatever services stand behind the handlers and
    whatever they answer, every response other than 200 and 202 is one of a fixed
    list of responses that does not depend on the request, the generated secrets
    or the state; it asks the client to retry exactly when it reports a
    concurrent change. *)
Theorem failures_reveal_nothing `{UuidCrate, EmailCrate, HttpCrates} {W : Type}
    `{EmailReservationService W, RegistrationService W}
    m now mth path payload (w : W) resp w' :
  serve m now mth path payload w = (Some resp, w') ->
  (status resp = OK \/ status resp = ACCEPTED \/ resp ∈ public_errors) /\
  retry_header resp = (status resp =? TOO_MANY_REQUESTS).
Proof.
  intros Hs.
  assert (Hc : (status resp = OK \/ status resp = ACCEPTED) /\ retry_header resp = false \/
    resp ∈ public_errors).
  { destruct (serve_inv _ _ _ _ _ _ _ _ Hs) as
      [(_ & r & [= ->] & Hr)|[(r & E & Hx)|[(em & r & E & Hx)|[(em & r & E & Hx)|(r & E & Hx)]]]];
      [|destruct r as [r|]; [injection Hx as ->|done]..].
    - right. unfold public_errors. apply elem_of_app. by left.
    - destruct r as [r|e]; [|right; apply reservations_error_public]. left. revert E. unfold reserve.
      open_request; try (by intros [= <- <-]). destruct (svc_reserve _ _ _) as [[[]|] ?]; [|done..].
      intros [= <- _]. auto.
    - destruct r as [r|e]; [|right; apply reservations_error_public]. left. revert E. unfold request_code.
      open_request; try (by intros [= <- <-]).
      destruct (svc_request_new_verification_code _ _ _) as [[[]|] ?]; [|done..]. intros [= <- _]. auto.
    - destruct r as [r|e]; [|right; apply reservations_error_public]. left. revert E. unfold verify.
      open_request; try (by intros [= <- <-]).
      destruct (svc_confirm_email _ _ _ _ _) as [[[]|] ?]; [|done..]. intros [= <- _]. split; [by left|by vm_compute].
    - destruct r as [r|e]; [|right; apply accounts_error_public]. left. revert E. unfold post_profile.
      destruct (submission_of payload); [|done].
      destruct (svc_submit_profile _ _ _ _) as [[[]|] ?]; [|done..]. intros [= <- _]. auto. }
  destruct Hc as [[Hst Hr]|Hp].
  - split; [naive_solver|]. rewrite Hr. by destruct Hst as [-> | ->].
  - split; [by auto|]. by apply public_errors_retry.
Qed.

(** ** The status URL *)

(** Documented: percent-encoding writes the characters outside the set as they
    are and the others as percent signs and hexadecimal digits, and decoding
    reads the text back when the percent sign itself is encoded. *)
Definition is_hex (c : N) : bool := ((48 <=? c) && (c <=? 57) || (65 <=? c) && (c <=? 70))%N.
Class HttpLaws `{HttpCrates} := {
  percent_roundtrip s set : set 37%N = true -> percent_decode (utf8_percent_encode s set) = Some s;
  percent_chars s set c :
    c ∈ utf8_percent_encode s set -> c = 37%N \/ is_hex c = true \/ set c = false;
}.

(** The segments of an absolute path. *)
Fixpoint split_on (sep : N) (s : rstr) : list rstr :=
  match s with
  | [] => [[]]
  | c :: s' =>
    if (c =? sep)%N then [] :: split_on sep s'
    else match split_on sep s' with [] => [[c]] | seg :: segs => (c :: seg) :: segs end
  end.
Definition slash : N := 47.
Definition segments (path : rstr) : list rstr := tail (split_on slash path).

Lemma split_on_single sep s : sep ∉ s -> split_on sep s = [s].
Proof.
  induction s as [|c s IH]; intros Hs; [done|]. simpl. destruct (N.eqb_spec c sep); [set_solver|].
  rewrite IH by set_solver. done.
Qed.

Lemma split_on_app sep s t : sep ∉ s -> split_on sep (s ++ sep :: t) = s :: split_on sep t.
Proof.
  induction s as [|c s IH]; intros Hs; simpl; [by rewrite N.eqb_refl|].
  destruct (N.eqb_spec c sep); [set_solver|]. by rewrite IH by set_solver.
Qed.

(** The status URL a client receives leads back: its path is routed to the
    registration status endpoint, with segments that decode to exactly the
    accepted address and account ID, whatever characters the address has. *)
Theorem status_url_leads_back `{UuidLaws, HttpLaws} (email : Email) (id : UserAccountId) :
  slash ∉ account_id_to_string id ->
  exists segment, routed (segments (status_url email id)) =
      Some (RegistrationStatus segment (account_id_to_string id), GET) /\
    percent_decode segment = Some (email_as_str email) /\
    account_id_from_str (account_id_to_string id) = Some id.
Proof.
  intros Hid. exists (utf8_percent_encode (email_as_str email) PATH_SEGMENT).
  assert (Hs : slash ∉ utf8_percent_encode (email_as_str email) PATH_SEGMENT).
  { intros Hc%percent_chars. unfold slash in Hc. destruct Hc as [|[|Hc]]; [done|done|].
    vm_compute in Hc. discriminate Hc. }
  split_and!.
  - assert (Hseg : segments (status_url email id) = [§"email-reservations";
      utf8_percent_encode (email_as_str email) PATH_SEGMENT; §"registrations"; account_id_to_string id]).
    { unfold segments, status_url.
      change (§"/email-reservations/") with (slash :: §"email-reservations" ++ [slash]).
      change (§"/registrations/") with (slash :: §"registrations" ++ [slash]).
      rewrite <- ?(assoc_L (++)). cbn [app]. rewrite <- ?(assoc_L (++)). cbn [app].
      cbn [split_on]. rewrite N.eqb_refl. cbn [tail].
      rewrite split_on_app by (apply (bool_decide_unpack _); by vm_compute).
      rewrite split_on_app by done.
      rewrite split_on_app by (apply (bool_decide_unpack _); by vm_compute).
      by rewrite split_on_single. }
    rewrite Hseg. done.
  - by apply percent_roundtrip.
  - unfold account_id_from_str, account_id_to_string. rewrite uuid_parse_to_string. by destruct id.
Qed.

(** ** Examples *)

(** A simple encoding that satisfies the laws: an encoded character is its
    number in unary between two percent signs. *)
Definition ex_encode (s : rstr) (set : N -> bool) : rstr :=
  s ≫= fun c => if set c then 37%N :: replicate (N.to_nat c) 48%N ++ [37%N] else [c].
Fixpoint ex_decode (pending : option nat) (s : rstr) : option rstr :=
  match s, pending with
  | [], None => Some []
  | [], Some _ => None
  | c :: s, None => if (c =? 37)%N then ex_decode (Some O) s else (c ::.) <$> ex_decode None s
  | c :: s, Some n =>
    if (c =? 37)%N then (N.of_nat n ::.) <$> ex_decode None s
    else if (c =? 48)%N then ex_decode (Some (S n)) s else None
  end.

Lemma ex_decode_unary n k s :
  ex_decode (Some n) (replicate k 48%N ++ 37%N :: s) = (N.of_nat (n + k) ::.) <$> ex_decode None s.
Proof.
  revert n. induction k as [|k IH]; intros n; simpl; [by rewrite Nat.add_0_r|].
  rewrite IH. by replace (S n + k)%nat with (n + S k)%nat by lia.
Qed.

#[export] Instance ex_http : HttpCrates := {|
  parse_date := ex_z_from_string; utf8_percent_encode := ex_encode; percent_decode := ex_decode None |}.
#[export] Instance ex_http_laws : HttpLaws.
Proof.
  constructor; simpl.
  - intros s set Hset. unfold ex_encode. induction s as [|c s IH]; [done|]. rewrite bind_cons.
    destruct (set c) eqn:E; simpl.
    + rewrite <- (assoc_L (++)). simpl. rewrite ex_decode_unary, IH. simpl. by rewrite N2Nat.id.
    + destruct (N.eqb_spec c 37) as [->|]; [congruence|]. by rewrite IH.
  - intros s set c. unfold ex_encode. rewrite list_elem_of_bind. intros (d & Hc & _).
    destruct (set d) eqn:E; [|apply list_elem_of_singleton in Hc as ->; auto].
    rewrite elem_of_cons, elem_of_app, elem_of_replicate, list_elem_of_singleton in Hc.
    naive_solver.
Defined.

Module HttpExample.
Import Example.
#[local] Existing Instances gateway account_gateway gateway_laws account_gateway_laws console_laws.

Definition random : RandomSource := {|
  new_v4 := 1%N; random_half_open lo hi := lo + (hi - lo) / 40; random_bytes := [7%N];
  url_safe_no_pad l := §"token" ++ l |}.
Lemma random_ok : random_source_ok random.
Proof.
  intros lo hi Hlt. simpl. pose proof (Z.div_pos (hi - lo) 40 ltac:(lia) ltac:(lia)).
  assert ((hi - lo) / 40 < hi - lo) by (apply Z.div_lt; lia). lia.
Qed.

Definition verify_body (code : Z) : Value :=
  JObject [(§"account_id", JString (account_id_to_string ex_id)); (§"code", JNumber code)].
Definition verify_path : list rstr :=
  [§"email-reservations"; ex_encode (§"Alice@example.com") PATH_SEGMENT; §"verify"].

(** The response to a request, for one that is answered. *)
Definition response (served : option Response * world) : Response :=
  stdpp.option.default registration_status_not_implemented served.1.

Definition refusal := serve generated 0 POST verify_path (Some (verify_body 7654321)) w1.
Definition refused : Response := Eval vm_compute in response refusal.
Definition refused_world : world := Eval vm_compute in refusal.2.
Lemma refusal_served : refusal = (Some refused, refused_world).
Proof. by vm_compute. Qed.

Lemma error_response_changes_nothing_witness :
  status refused = UNPROCESSABLE_ENTITY /\ refused_world = w1.
Proof.
  split; [reflexivity|].
  exact (error_response_changes_nothing id generated 0 POST verify_path (Some (verify_body 7654321)) w1
    (Some refused) refused_world refusal_served ltac:(discriminate) ltac:(discriminate) ltac:(discriminate)).
Defined.

Definition unreadable : option Response * world :=
  Eval vm_compute in serve (generate random 60%N) 0 POST verify_path None w1.
Lemma internal_error_is_unreachable_witness :
  exists resp, unreadable = (Some resp, w1) /\ status resp <> INTERNAL_SERVER_ERROR.
Proof.
  eexists. split; [reflexivity|].
  apply (internal_error_is_unreachable id random 60%N 0 POST verify_path None w1 _ w1).
  - apply (reachable_inv id console now fresh), reachable_w1.
  - apply random_ok.
  - by vm_compute.
Defined.

Definition verification := serve generated 0 POST verify_path (Some (verify_body 1234567)) w1.
Definition verified : Response := Eval vm_compute in response verification.
Definition verified_world : world := Eval vm_compute in verification.2.
Lemma verification_served : verification = (Some verified, verified_world).
Proof. by vm_compute. Qed.

Lemma success_response_is_true_witness :
  exists em id', state_of verified_world em =
    Some (mk_EmailReservation (AwaitingProfile id' (digest (§"token")))).
Proof.
  destruct (proj1 (success_response_is_true id generated 0 POST verify_path (Some (verify_body 1234567)) w1
    verified verified_world (reachable_inv id console now fresh _ reachable_w1) verification_served) eq_refl)
    as (em & id' & code & _ & Hs & _).
  exists em, id'. exact Hs.
Defined.

Lemma requests_are_system_steps_witness :
  reachable id console now fresh (serve generated 0 POST [§"email-reservations"]
    (Some (JObject [(§"email", JString (§" Alice@Example.COM "))])) empty_world).2.
Proof.
  eapply (requests_are_system_steps id console now fresh generated 0 POST _ _ empty_world).
  - exists empty_world. split; [done|]. apply rtc_refl.
  - intros key (e & code & He & _). by apply not_elem_of_nil in He.
  - apply surjective_pairing.
Defined.

Lemma failures_reveal_nothing_witness :
  exists resp, serve generated 0 GET verify_path None w1 = (Some resp, w1) /\ retry_header resp = false.
Proof.
  eexists. split; [by vm_compute|].
  exact (proj2 (failures_reveal_nothing generated 0 GET verify_path None w1 _ w1 ltac:(by vm_compute))).
Defined.

Lemma status_url_leads_back_witness :
  exists segment, routed (segments (status_url ex_email ex_id)) =
    Some (RegistrationStatus segment (account_id_to_string ex_id), GET).
Proof.
  destruct (status_url_leads_back ex_email ex_id) as (segment & Hs & _);
    [apply (bool_decide_unpack _); by vm_compute|]. by exists segment.
Defined.
End HttpExample.
