(* ===== verification/HostLifecycle.v ===== *)
(** * The process: host lifecycle and service startup

    [cqrs-runtime/src/host] and [account-managements-service/src/startup],
    [main.rs]: the coordination of signal, inbound adapter and task runtime as
    a machine driven by polls and completions, and the service's acquisition
    and release of its resources around it. *)

From S2P Require Import Prelude DomainValues FloatTime TaskData Database TaskHandling.
From S2P Require Import TaskExecutor RuntimeConfig Supervisor.
#[local] Open Scope Z_scope.

(** ** Errors *)

(** [std::io::Error]: its kind, and text that diagnostics must not show. *)
Record IoError := { io_kind : rstr; io_text : rstr }.
(** [tokio::task::JoinError]: a panic with its payload, or a cancellation. *)
Record JoinError := { je_task_id : N; je_panicked : bool; je_payload : rstr }.

Inductive HostError :=
| ShutdownSignal (e : IoError)
| Inbound (e : IoError)
| InboundStopped
| TaskRuntimeJoin (e : JoinError)
| TaskRuntimeFailed (e : TaskRuntimeError)
| TaskRuntimeStopped.

Abbreviation TaskRuntimeExit := (result JoinError (result TaskRuntimeError unit)).

(** ** Signals *)

(** [wait_for_signal]: whichever of the two futures completes; [None] of the
    SIGTERM stream is its end. *)
Definition wait_for_signal (interrupt : option (result IoError unit)) (terminate : option (option unit))
    (interrupt_first : bool) : option (result IoError unit) :=
  let by_terminate := (fun signal => match signal with
    | Some _ => Ok tt
    | None => Err {| io_kind := §"Other"; io_text := §"SIGTERM signal stream closed" |}
    end) <$> terminate in
  match interrupt, by_terminate with
  | Some result, Some signal => Some (if interrupt_first then result else signal)
  | Some result, None => Some result
  | None, signal => signal
  end.

(** [shutdown_signal] on Unix: the handler of SIGTERM is registered first. *)
Definition shutdown_signal (register : result IoError unit) (interrupt : option (result IoError unit))
    (terminate : option (option unit)) (interrupt_first : bool) : option (result IoError unit) :=
  match register with
  | Err error => Some (Err error)
  | Ok _ => wait_for_signal interrupt terminate interrupt_first
  end.

(** ** The host *)

Inductive StopReason :=
| BySignal (r : result IoError unit)
| Requested
| ByInbound (r : result IoError unit)
| ByTaskRuntime (r : TaskRuntimeExit).

(** The secondary failure is logged when there is a primary one. *)
Definition preserve_primary_failure (primary secondary : result HostError unit) :
    result HostError unit * list HostError :=
  match primary with
  | Ok _ => (secondary, [])
  | Err error => (Err error, match secondary with Err secondary => [secondary] | Ok _ => [] end)
  end.

Definition expected_inbound_exit (r : result IoError unit) : result HostError unit := map_err Inbound r.

Definition expected_runtime_exit (r : TaskRuntimeExit) : result HostError unit :=
  match r with
  | Ok (Ok _) => Ok tt
  | Ok (Err error) => Err (TaskRuntimeFailed error)
  | Err error => Err (TaskRuntimeJoin error)
  end.

Definition unexpected_runtime_exit (r : TaskRuntimeExit) : result HostError unit :=
  match r with
  | Ok (Ok _) => Err TaskRuntimeStopped
  | other => expected_runtime_exit other
  end.

Inductive HostPhase :=
| Created
| Selecting
| Draining (reason : StopReason)
| Returned (r : result HostError unit)
| Dropped.

(** The future with what has completed so far. *)
Record host := {
  h_phase : HostPhase;
  h_cancelled : bool;
  h_signal : option (result IoError unit);
  h_inbound : option (result IoError unit);
  h_tasks : option TaskRuntimeExit;
  h_spawned : bool;
  h_logged : list HostError;
}.

Definition host_new (cancelled : bool) : host := {|
  h_phase := Created; h_cancelled := cancelled; h_signal := None; h_inbound := None; h_tasks := None;
  h_spawned := false; h_logged := [] |}.

Definition with_phase (h : host) (p : HostPhase) : host := {|
  h_phase := p; h_cancelled := h_cancelled h; h_signal := h_signal h; h_inbound := h_inbound h;
  h_tasks := h_tasks h; h_spawned := h_spawned h; h_logged := h_logged h |}.

(** The first poll spawns the task runtime. *)
Definition host_start (h : host) : host :=
  match h_phase h with
  | Created => {| h_phase := Selecting; h_cancelled := h_cancelled h; h_signal := h_signal h;
                  h_inbound := h_inbound h; h_tasks := h_tasks h; h_spawned := true;
                  h_logged := h_logged h |}
  | _ => h
  end.

(** The biased [select!]. *)
Definition select_reason (h : host) : option StopReason :=
  match h_signal h with
  | Some r => Some (BySignal r)
  | None =>
    if h_cancelled h then Some Requested
    else match h_inbound h with
    | Some r => Some (ByInbound r)
    | None => ByTaskRuntime <$> h_tasks h
    end
  end.

Definition host_select (h : host) : host :=
  match h_phase h, select_reason h with
  | Selecting, Some reason => {|
      h_phase := Draining reason; h_cancelled := true; h_signal := h_signal h;
      h_inbound := h_inbound h; h_tasks := h_tasks h; h_spawned := h_spawned h; h_logged := h_logged h |}
  | _, _ => h
  end.

(** The [match reason]: the result and the failures logged on the way, once
    the components that are still awaited have completed. *)
Definition finish (reason : StopReason) (inbound : option (result IoError unit))
    (tasks : option TaskRuntimeExit) : option (result HostError unit * list HostError) :=
  match reason with
  | BySignal signal_result =>
    inbound ← inbound; tasks ← tasks;
    let '(r, logged) := preserve_primary_failure (expected_runtime_exit tasks)
                          (expected_inbound_exit inbound) in
    let '(r, logged') := preserve_primary_failure (map_err ShutdownSignal signal_result) r in
    Some (r, logged ++ logged')
  | Requested =>
    inbound ← inbound; tasks ← tasks;
    Some (preserve_primary_failure (expected_runtime_exit tasks) (expected_inbound_exit inbound))
  | ByInbound inbound_result =>
    let primary := match inbound_result with Ok _ => InboundStopped | Err error => Inbound error end in
    tasks ← tasks;
    Some (preserve_primary_failure (Err primary) (expected_runtime_exit tasks))
  | ByTaskRuntime result =>
    inbound ← inbound;
    Some (preserve_primary_failure (unexpected_runtime_exit result) (expected_inbound_exit inbound))
  end.

Definition host_drain (h : host) : host :=
  match h_phase h with
  | Draining reason =>
    match finish reason (h_inbound h) (h_tasks h) with
    | Some (r, logged) => {|
        h_phase := Returned r; h_cancelled := h_cancelled h; h_signal := h_signal h;
        h_inbound := h_inbound h; h_tasks := h_tasks h; h_spawned := h_spawned h;
        h_logged := h_logged h ++ logged |}
    | None => h
    end
  | _ => h
  end.

Definition host_poll (h : host) : host := host_drain (host_select (host_start h)).

(** Dropping the future: the guard of a polled one cancels the token. *)
Definition host_drop (h : host) : host := {|
  h_phase := match h_phase h with Returned r => Returned r | _ => Dropped end;
  h_cancelled := h_cancelled h || h_spawned h; h_signal := h_signal h; h_inbound := h_inbound h;
  h_tasks := h_tasks h; h_spawned := h_spawned h; h_logged := h_logged h |}.

(** The task runtime completes only after it was spawned; the other futures
    make progress in the host's polls, that is from the start of the first one
    on: what is ready at once is there before the first [select!]. *)
Inductive host_step (h : host) : host -> Prop :=
| hs_signal r : h_spawned h = true -> h_signal h = None ->
    host_step h {| h_phase := h_phase h; h_cancelled := h_cancelled h; h_signal := Some r;
      h_inbound := h_inbound h; h_tasks := h_tasks h; h_spawned := h_spawned h; h_logged := h_logged h |}
| hs_inbound r : h_spawned h = true -> h_inbound h = None ->
    host_step h {| h_phase := h_phase h; h_cancelled := h_cancelled h; h_signal := h_signal h;
      h_inbound := Some r; h_tasks := h_tasks h; h_spawned := h_spawned h; h_logged := h_logged h |}
| hs_tasks r : h_spawned h = true -> h_tasks h = None ->
    host_step h {| h_phase := h_phase h; h_cancelled := h_cancelled h; h_signal := h_signal h;
      h_inbound := h_inbound h; h_tasks := Some r; h_spawned := h_spawned h; h_logged := h_logged h |}
| hs_cancel :
    host_step h {| h_phase := h_phase h; h_cancelled := true; h_signal := h_signal h;
      h_inbound := h_inbound h; h_tasks := h_tasks h; h_spawned := h_spawned h; h_logged := h_logged h |}
| hs_start : host_step h (host_start h)
| hs_poll : h_phase h <> Dropped -> host_step h (host_poll h)
| hs_drop : host_step h (host_drop h).

(** ** What the host guarantees *)

(** The failures of a run, most important first. *)
Definition failure_of (r : result HostError unit) : list HostError :=
  match r with Ok _ => [] | Err e => [e] end.
Definition failures (reason : StopReason) (inbound : result IoError unit) (tasks : TaskRuntimeExit) :
    list HostError :=
  match reason with
  | BySignal s => failure_of (map_err ShutdownSignal s) ++ failure_of (expected_runtime_exit tasks)
                  ++ failure_of (expected_inbound_exit inbound)
  | Requested => failure_of (expected_runtime_exit tasks) ++ failure_of (expected_inbound_exit inbound)
  | ByInbound _ => (match inbound with Ok _ => InboundStopped | Err error => Inbound error end)
                   :: failure_of (expected_runtime_exit tasks)
  | ByTaskRuntime _ => failure_of (unexpected_runtime_exit tasks) ++ failure_of (expected_inbound_exit inbound)
  end.

Record host_inv (h : host) : Prop := {
  hi_created : h_phase h = Created -> h_spawned h = false /\ h_signal h = None /\
                 h_inbound h = None /\ h_tasks h = None;
  hi_running : h_phase h <> Created -> h_phase h <> Dropped -> h_spawned h = true;
  hi_waiting : h_phase h = Created \/ h_phase h = Selecting -> h_logged h = [];
  hi_draining reason : h_phase h = Draining reason -> h_cancelled h = true /\ h_logged h = [] /\
    match reason with
    | BySignal r => h_signal h = Some r
    | Requested => True
    | ByInbound r => h_inbound h = Some r
    | ByTaskRuntime r => h_tasks h = Some r
    end;
  hi_returned r : h_phase h = Returned r -> h_cancelled h = true /\
    exists reason inbound tasks, h_inbound h = Some inbound /\ h_tasks h = Some tasks /\
      (match reason with
       | BySignal s => h_signal h = Some s
       | Requested => True
       | ByInbound r => r = inbound
       | ByTaskRuntime r => r = tasks
       end) /\
      r = match failures reason inbound tasks with [] => Ok tt | e :: _ => Err e end /\
      h_logged h ≡ₚ tail (failures reason inbound tasks);
}.

Lemma finish_failures reason inbound tasks r logged :
  finish reason (Some inbound) (Some tasks) = Some (r, logged) ->
  (match reason with ByInbound r => r = inbound | ByTaskRuntime r => r = tasks | _ => True end) ->
  r = match failures reason inbound tasks with [] => Ok tt | e :: _ => Err e end /\
  logged ≡ₚ tail (failures reason inbound tasks).
Proof.
  intros E Hr. destruct reason as [[[]|]| |r0|t0]; try subst r0; try subst t0;
    destruct tasks as [[[]|]|], inbound as [[]|]; simplify_eq/=; by auto using perm_swap.
Qed.

Lemma finish_awaits reason inbound tasks r logged :
  finish reason inbound tasks = Some (r, logged) ->
  (match reason with
   | ByInbound r => inbound = Some r
   | ByTaskRuntime r => tasks = Some r
   | _ => True
   end) -> exists i t, inbound = Some i /\ tasks = Some t.
Proof. destruct reason, inbound, tasks; simpl; intros; simplify_eq; eauto. Qed.

Lemma finish_total reason inbound tasks : is_Some (finish reason (Some inbound) (Some tasks)).
Proof.
  destruct reason; simpl; eauto. destruct (preserve_primary_failure _ _) as [r1 l1].
  destruct (preserve_primary_failure _ _). eauto.
Qed.

Lemma host_new_inv c : host_inv (host_new c).
Proof. by constructor. Qed.

Lemma host_start_inv h : host_inv h -> host_inv (host_start h).
Proof.
  intros Hi. unfold host_start. destruct (h_phase h) eqn:E; try done.
  destruct (hi_created _ Hi E) as (_ & ? & ? & ?).
  pose proof (hi_waiting _ Hi (or_introl E)). by constructor.
Qed.

Lemma host_select_inv h : host_inv h -> host_inv (host_select h).
Proof.
  intros Hi. unfold host_select. destruct (h_phase h) eqn:E; try done.
  pose proof (hi_waiting _ Hi (or_intror E)) as Hl.
  assert (Hsp : h_spawned h = true) by (apply (hi_running _ Hi); by rewrite E).
  destruct (select_reason h) as [reason|] eqn:Er; [|done].
  constructor; simpl; try done; try (by intros [?|?]).
  intros reason' [= <-]. split_and!; [done..|]. unfold select_reason in Er.
  destruct (h_signal h); simplify_eq; [done|]. destruct (h_cancelled h); simplify_eq; [done|].
  destruct (h_inbound h); simplify_eq; [done|]. destruct (h_tasks h); by simplify_eq/=.
Qed.

Lemma host_drain_inv h : host_inv h -> host_inv (host_drain h).
Proof.
  intros Hi. unfold host_drain. destruct (h_phase h) eqn:E; try done.
  destruct (hi_draining _ Hi _ E) as (Hc & Hl & Hr).
  assert (Hsp : h_spawned h = true) by (apply (hi_running _ Hi); by rewrite E).
  destruct (finish reason (h_inbound h) (h_tasks h)) as [[r logged]|] eqn:Ef; [|done].
  destruct (finish_awaits _ _ _ _ _ Ef) as (i & t & Hin & Ht); [by destruct reason|].
  rewrite Hin, Ht in *. rewrite Hl.
  constructor; simpl; try done; try (by intros [?|?]).
  intros r' [= <-]. split; [done|]. exists reason, i, t.
  destruct (finish_failures _ _ _ _ _ Ef) as [-> Hp]; [destruct reason; try done; congruence|].
  split_and!; try done. destruct reason; try done; congruence.
Qed.

Lemma host_drop_inv h : host_inv h -> host_inv (host_drop h).
Proof.
  intros [Hi1 Hi2 Hi3 Hi4 Hi5]. unfold host_drop.
  destruct (h_phase h) as [| | |r|] eqn:E; constructor; simpl; try done; try (by intros [?|?]).
  - intros r' [= <-]. by destruct (Hi5 r eq_refl) as (-> & Hx).
Qed.

Lemma host_step_inv : preserves host_step host_inv.
Proof.
  intros h h' Hi Hs. destruct Hs as [r Hsp Hn|r Hsp Hn|r Hsp Hn| | |Hd|].
  5: by apply host_start_inv.
  5: { unfold host_poll. auto using host_start_inv, host_select_inv, host_drain_inv. }
  5: by apply host_drop_inv.
  all: destruct Hi as [Hi1 Hi2 Hi3 Hi4 Hi5]; constructor; simpl; try done.
  all: try (intros Hc; destruct (Hi1 Hc) as (? & ? & ? & ?); congruence).
  all: try (intros reason Hc; destruct (Hi4 _ Hc) as (? & ? & ?); destruct reason; split_and!; congruence).
  all: intros r' Hc; destruct (Hi5 _ Hc) as (? & reason & i & t & ? & ? & Hr & ? & ?);
    split; [done|]; exists reason, i, t; destruct reason; split_and!; try done; congruence.
Qed.

Definition host_reach (c : bool) (h : host) : Prop := rtc host_step (host_new c) h.
Lemma host_reach_inv c h : host_reach c h -> host_inv h.
Proof. apply rtc_preserves; [apply host_step_inv|apply host_new_inv]. Qed.

(** ** Why the host stopped *)

(** A host whose [select!] has not finished. *)
Definition waiting (h : host) : Prop := h_phase h = Created \/ h_phase h = Selecting.

(** The documented order of the causes: a signal comes before a cancellation, that
    before an exit of the inbound adapter, that before an exit of the task runtime. *)
Definition stopped_by (h : host) (reason : StopReason) : Prop :=
  match reason with
  | BySignal r => h_signal h = Some r
  | Requested => h_signal h = None /\ h_cancelled h = true
  | ByInbound r => h_signal h = None /\ h_cancelled h = false /\ h_inbound h = Some r
  | ByTaskRuntime r => h_signal h = None /\ h_cancelled h = false /\ h_inbound h = None /\ h_tasks h = Some r
  end.

Lemma select_reason_spec h reason : select_reason h = Some reason <-> stopped_by h reason.
Proof.
  unfold select_reason, stopped_by. destruct (h_signal h), (h_cancelled h), (h_inbound h), (h_tasks h), reason;
    simpl; naive_solver.
Qed.

(** A host that stopped for [reason], and what it has made of it. *)
Definition stopping (reason : StopReason) (h : host) : Prop :=
  h_cancelled h = true /\
  (match reason with ByInbound r => h_inbound h = Some r | ByTaskRuntime r => h_tasks h = Some r | _ => True end) /\
  match h_phase h with
  | Draining reason' => reason' = reason /\ h_logged h = []
  | Returned r => exists inbound tasks, h_inbound h = Some inbound /\ h_tasks h = Some tasks /\
      r = match failures reason inbound tasks with [] => Ok tt | e :: _ => Err e end /\
      h_logged h ≡ₚ tail (failures reason inbound tasks)
  | Dropped => True
  | _ => False
  end.

Lemma host_drain_stopping reason h : stopping reason h -> stopping reason (host_drain h).
Proof.
  intros (Hc & Hr & Hp). unfold host_drain. destruct (h_phase h) as [| |reason'|r|] eqn:E; try done;
    try (by unfold stopping; rewrite E).
  destruct Hp as [-> Hl]. destruct (finish reason (h_inbound h) (h_tasks h)) as [[r logged]|] eqn:Ef.
  2: { unfold stopping. by rewrite E. }
  destruct (finish_awaits _ _ _ _ _ Ef) as (i & t & Hin & Ht); [by destruct reason|]. rewrite Hin, Ht in *.
  destruct (finish_failures _ _ _ _ _ Ef) as [-> Hp]; [destruct reason; try done; congruence|].
  unfold stopping. simpl. split_and!; [done|by destruct reason|]. exists i, t. by rewrite Hl.
Qed.

Lemma host_poll_stopping h reason : waiting h -> h_logged h = [] -> stopped_by h reason -> stopping reason (host_poll h).
Proof.
  intros Hw Hl Hs. unfold host_poll. apply host_drain_stopping.
  assert (Hst : h_phase (host_start h) = Selecting /\ stopped_by (host_start h) reason /\ h_logged (host_start h) = []).
  { unfold host_start. by destruct Hw as [E|E]; rewrite E. }
  destruct Hst as (Hp & Hs' & Hl'). unfold host_select. rewrite Hp, (proj2 (select_reason_spec _ _) Hs').
  unfold stopping. simpl. split_and!; [done| |done|done]. destruct reason; simpl in Hs'; naive_solver.
Qed.

Lemma host_step_stopping reason h h' : stopping reason h -> host_step h h' -> stopping reason h'.
Proof.
  intros Hst Hs. pose proof Hst as (Hc & Hr & Hp).
  destruct Hs as [r Hsp Hn|r Hsp Hn|r Hsp Hn| | |Hd|]; unfold stopping; simpl;
    try (split_and!; [done|destruct reason; congruence|];
         destruct (h_phase h); try done; destruct Hp as (i & t & ? & ? & ? & ?); congruence);
    try (split_and!; [done|by destruct reason|]; by destruct (h_phase h)).
  - unfold host_start. by destruct (h_phase h) eqn:E; rewrite ?E.
  - unfold host_poll. apply host_drain_stopping.
    unfold host_start. destruct (h_phase h) eqn:E; try done; unfold host_select; rewrite E; done.
  - rewrite Hc. split_and!; [done|by destruct reason|]. by destruct (h_phase h).
Qed.

(** What a reachable host is: still waiting, dropped, or past the poll that stopped it. *)
Lemma host_past c h :
  host_reach c h ->
  waiting h \/ h_phase h = Dropped \/
  exists h0 reason, host_reach c h0 /\ waiting h0 /\ stopped_by h0 reason /\ rtc host_step (host_poll h0) h.
Proof.
  intros Hh. pattern h. revert h Hh. apply rtc_ind_r; [by left; left|].
  intros h h' Hh Hs [Hw|[Hd|(h0 & reason & ? & ? & ? & Hr)]].
  - destruct Hs as [r Hsp Hn|r Hsp Hn|r Hsp Hn| | |Hd|]; try (by left).
    + left. unfold host_start, waiting. destruct Hw as [E|E]; rewrite E; [by right|by right; rewrite E].
    + destruct (select_reason h) as [reason|] eqn:Er.
      { right; right. exists h, reason. split_and!; [done|done|by apply select_reason_spec|done]. }
      left. unfold host_poll, waiting.
      assert (Hst : h_phase (host_start h) = Selecting /\ select_reason (host_start h) = None).
      { unfold host_start. by destruct Hw as [E|E]; rewrite E. }
      destruct Hst as [Hp Hn]. unfold host_select. rewrite Hp, Hn. unfold host_drain. rewrite Hp. by right.
    + right; left. unfold host_drop. simpl. by destruct Hw as [-> | ->].
  - right; left. destruct Hs as [| | | | | |]; simpl; try done; [by unfold host_start; rewrite Hd|by rewrite Hd].
  - right; right. exists h0, reason. split_and!; try done. by eapply rtc_r.
Qed.

(** C33: no failure is lost.  A host that returned had requested shutdown of everyone
    and both components had finished; it was stopped at one of its polls by what had
    happened until then: a signal, a cancellation, or the exit of a component.
    Whatever stopped it, the result is success exactly when nothing failed, counting
    a failing signal handler and a component that stopped without being asked to;
    otherwise it is the most important failure, and every other one was logged, once. *)
Theorem host_loses_no_failure c h r :
  host_reach c h -> h_phase h = Returned r ->
  h_cancelled h = true /\
  (exists h0 reason, host_reach c h0 /\ waiting h0 /\ stopped_by h0 reason /\ rtc host_step (host_poll h0) h) /\
  forall h0 reason, host_reach c h0 -> waiting h0 -> stopped_by h0 reason -> rtc host_step (host_poll h0) h ->
    exists inbound tasks, h_inbound h = Some inbound /\ h_tasks h = Some tasks /\
      r = match failures reason inbound tasks with [] => Ok tt | e :: _ => Err e end /\
      h_logged h ≡ₚ tail (failures reason inbound tasks).
Proof.
  intros Hh Hr. pose proof (host_reach_inv _ _ Hh) as Hi. split_and!; [by apply (hi_returned _ Hi r)| |].
  - destruct (host_past c h Hh) as [[E|E]|[E|Hx]]; [congruence..|done].
  - intros h0 reason Hh0 Hw Hs Hrtc. pose proof (host_reach_inv _ _ Hh0) as Hi0.
    assert (Hst : stopping reason h).
    { eapply (rtc_preserves host_step (stopping reason)); [|apply (host_poll_stopping h0); [done|by apply hi_waiting|done]|done].
      intros x y. apply host_step_stopping. }
    destruct Hst as (_ & _ & Hp). by rewrite Hr in Hp.
Qed.

Lemma host_poll_returns h :
  h_phase h <> Dropped -> is_Some (h_inbound h) -> is_Some (h_tasks h) -> exists r, h_phase (host_poll h) = Returned r.
Proof.
  intros Hd [i Hi] [t Ht]. unfold host_poll.
  assert (Hdr : forall h', h_inbound h' = Some i -> h_tasks h' = Some t ->
    (exists reason, h_phase h' = Draining reason) -> exists r, h_phase (host_drain h') = Returned r).
  { intros h' Hi' Ht' [reason Hp]. unfold host_drain. rewrite Hp, Hi', Ht'.
    destruct (finish_total reason i t) as [[r l] ->]. by exists r. }
  destruct (h_phase h) as [| |reason|r|] eqn:E; [..|done].
  - unfold host_start. rewrite E. apply Hdr; unfold host_select, select_reason; simpl; rewrite Hi;
      destruct (h_signal h), (h_cancelled h); simpl; eauto.
  - unfold host_start. rewrite E. apply Hdr; unfold host_select, select_reason; rewrite E, Hi;
      destruct (h_signal h), (h_cancelled h); simpl; eauto.
  - unfold host_start, host_select. rewrite E. rewrite E. apply Hdr; eauto.
  - unfold host_start, host_select, host_drain. rewrite E. rewrite E. rewrite E. eauto.
Qed.

Lemma host_drain_cancelled h : h_cancelled (host_drain h) = h_cancelled h.
Proof. unfold host_drain. destruct (h_phase h); try done. by destruct (finish _ _ _) as [[]|]. Qed.

Lemma host_poll_cancels h :
  h_phase h = Selecting -> is_Some (select_reason h) -> h_cancelled (host_poll h) = true.
Proof.
  intros E [reason Hr]. unfold host_poll. rewrite host_drain_cancelled.
  unfold host_start. rewrite E. unfold host_select. by rewrite E, Hr.
Qed.

(** C34: shutdown always makes progress: as soon as a signal, a cancellation or a
    component's exit is there, the next poll cancels the shared token; once both
    components have finished, the next poll returns.  Dropping a host that was
    polled cancels the token, dropping one that was not starts and cancels
    nothing. *)
Theorem host_shutdown_progresses c h :
  host_reach c h -> h_phase h <> Dropped ->
  (h_phase h = Selecting ->
     is_Some (h_signal h) \/ h_cancelled h = true \/ is_Some (h_inbound h) \/ is_Some (h_tasks h) ->
     h_cancelled (host_poll h) = true) /\
  (is_Some (h_inbound h) -> is_Some (h_tasks h) -> exists r, h_phase (host_poll h) = Returned r) /\
  (h_phase h <> Created -> h_cancelled (host_drop h) = true) /\
  (h_phase h = Created -> h_spawned (host_drop h) = false /\ h_cancelled (host_drop h) = h_cancelled h).
Proof.
  intros Hi%host_reach_inv Hd. split_and!.
  - intros E Hr. apply host_poll_cancels; [done|]. unfold select_reason.
    destruct (h_signal h), (h_cancelled h), (h_inbound h), (h_tasks h); simpl; eauto.
    destruct Hr as [[]|[|[[]|[]]]]; done.
  - by apply host_poll_returns.
  - intros Hc. unfold host_drop. simpl. rewrite (hi_running _ Hi Hc Hd). by rewrite orb_true_r.
  - intros Hc. destruct (hi_created _ Hi Hc) as (Hs & _). unfold host_drop. simpl.
    by rewrite Hs, orb_false_r.
Qed.

(** ** The service *)

(** [dotenvy::Error], of which only "not found" is told apart. *)
Inductive DotenvError := DotenvNotFound | DotenvOther (text : rstr).

Inductive ServiceError :=
| Dotenv (e : DotenvError)
| ServiceConfiguration (e : ServiceConfigError)
| LoggingFailed (e : LoggingInitError)
| DatabaseFailed (e : SqlxError)
| TaskPreparation (e : WorkerSetupError)
| BindFailed (e : IoError)
| Host (e : HostError).

(** [ServiceError::stage] *)
Definition stage (self : ServiceError) : rstr :=
  match self with
  | Dotenv _ => §"dotenv"
  | ServiceConfiguration _ => §"configuration"
  | LoggingFailed _ => §"logging"
  | DatabaseFailed _ => §"database"
  | TaskPreparation _ => §"task_preparation"
  | BindFailed _ => §"http_bind"
  | Host _ => §"host"
  end.

Definition load_dotenv_with (load : result DotenvError unit) : result ServiceError unit :=
  match load with
  | Ok _ => Ok tt
  | Err DotenvNotFound => Ok tt
  | Err error => Err (Dotenv error)
  end.

(** What the process does to its resources and logs, in order: [Diagnosed] is the
    record of [log_sqlx_failure], [Listening] and [Stopped] are the messages of the
    service, [Reported] is [ServiceError::log].  The records of the host run itself
    are those of [host] and the runtime. *)
Inductive effect :=
| LoggerInstalled | PoolOpened | PoolClosed | ListenerOpened | ListenerClosed | Listening
| Ran | Stopped | Diagnosed (operation : rstr) (e : SqlxError) | Reported (e : ServiceError).

Section Service.
Context `{ConfigParsers} {Router W : Type}.

Record Service := { s_router : Router; s_tasks : TaskRuntime (W:=W) }.

(** What the process meets: the environment, the subscriber that [tracing] installs
    for a level, the connections SQLx opens, the network, the application it was wired with and
    how its host run ends. *)
Record process_env := {
  dotenv : result DotenvError unit;
  read_var : rstr -> result VarError rstr;
  install_subscriber : LevelFilter -> result rstr unit;
  connect_with : Z -> PgConnectOptions -> result SqlxError unit;
  application : Router * TaskDispatcherFactory (W:=W);
  bind_listener : SocketAddr -> result IoError unit;
  local_addr : result IoError unit;
  host_run : Router -> TaskRuntime (W:=W) -> result HostError unit;
}.

Definition reported {A} (r : result ServiceError A) : list effect :=
  match r with Ok _ => [] | Err error => [Reported error] end.

(** [ServiceConfig::load] *)
Definition load_config (env : process_env) : result ServiceError ServiceConfig * list effect :=
  let r := _ ← load_dotenv_with (dotenv env);
           map_err ServiceConfiguration (service_config_from_environment (read_var env)) in
  (r, reported r).

(** [LoggingConfig::try_init] *)
Definition try_init (env : process_env) (self : LoggingConfig) : result LoggingInitError unit :=
  map_err Build_LoggingInitError (install_subscriber env (level_filter self)).

(** A listener that cannot name its address is dropped. *)
Definition prepare_connected (env : process_env) (config : ServiceConfig) :
    result ServiceError Service * list effect :=
  match prepare (application env).2 (svc_task_runtime config) with
  | Err e => (Err (TaskPreparation e), [PoolClosed])
  | Ok tasks =>
    match bind_listener env (svc_bind_address config) with
    | Err e => (Err (BindFailed e), [PoolClosed])
    | Ok _ =>
      match local_addr env with
      | Err e => (Err (BindFailed e), [ListenerOpened; ListenerClosed; PoolClosed])
      | Ok _ => (Ok {| s_router := (application env).1; s_tasks := tasks |}, [ListenerOpened; Listening])
      end
    end
  end.

(** [connect_pool]: ten connections; a failure gets its diagnostic record here. *)
Definition connect_pool (env : process_env) (options : PgConnectOptions) : result SqlxError unit * list effect :=
  let r := connect_with env 10 options in
  (r, match r with Ok _ => [PoolOpened] | Err error => [Diagnosed (§"connect") error] end).

Definition service_prepare (env : process_env) (config : ServiceConfig) :
    result ServiceError Service * list effect :=
  let '(r, effects) :=
    match try_init env (svc_logging config) with
    | Err e => (Err (LoggingFailed e), [])
    | Ok _ =>
      match connect_pool env (svc_database config) with
      | (Err e, effects) => (Err (DatabaseFailed e), [LoggerInstalled] ++ effects)
      | (Ok _, effects) => let '(r, effects') := prepare_connected env config in
                           (r, [LoggerInstalled] ++ effects ++ effects')
      end
    end in
  (r, effects ++ reported r).

(** [Service::run_until]: the host consumes the listener. *)
Definition run_until (env : process_env) (s : Service) : result ServiceError unit * list effect :=
  let r := map_err Host (host_run env (s_router s) (s_tasks s)) in
  (r, [Ran; ListenerClosed; PoolClosed] ++ match r with Ok _ => [Stopped] | Err _ => reported r end).

Definition main (env : process_env) : result ServiceError unit * list effect :=
  match load_config env with
  | (Err e, effects) => (Err e, effects)
  | (Ok config, effects) =>
    match service_prepare env config with
    | (Err e, effects') => (Err e, effects ++ effects')
    | (Ok service, effects') =>
      let '(r, effects'') := run_until env service in (r, effects ++ effects' ++ effects'')
    end
  end.

(** Resources are opened once, used only while open, and closed in the reverse
    order. *)
Fixpoint well_scoped (pool listener : bool) (trace : list effect) : bool :=
  match trace with
  | [] => negb pool && negb listener
  | PoolOpened :: t => negb pool && negb listener && well_scoped true false t
  | ListenerOpened :: t => pool && negb listener && well_scoped true true t
  | Ran :: t => pool && listener && well_scoped pool listener t
  | ListenerClosed :: t => pool && listener && well_scoped true false t
  | PoolClosed :: t => pool && negb listener && well_scoped false false t
  | _ :: t => well_scoped pool listener t
  end.

Definition reports (trace : list effect) : list ServiceError :=
  omap (fun e => match e with Reported e => Some e | _ => None end) trace.
Definition diagnosed (trace : list effect) : list (rstr * SqlxError) :=
  omap (fun e => match e with Diagnosed operation e => Some (operation, e) | _ => None end) trace.

(** C35: the process leaks nothing, on every path through startup, running and
    failure: the pool and the listener are opened at most once, the listener
    only inside the pool's lifetime and only after every handler was prepared,
    and both are closed in reverse order before the process ends.  The service
    reports the failure that [main] returns exactly once, as the last thing it does,
    and no other; only a failure to connect has one more record, the diagnosis of
    the connection pool, with the same error and before the report. *)
Theorem process_releases_resources env :
  let '(r, trace) := main env in
  well_scoped false false trace = true /\
  reports trace = match r with Ok _ => [] | Err e => [e] end /\
  (forall e, r = Err e -> last trace = Some (Reported e)) /\
  diagnosed trace = match r with Err (DatabaseFailed e) => [(§"connect", e)] | _ => [] end.
Proof.
  unfold main, load_config, service_prepare, connect_pool, prepare_connected, run_until.
  destruct (load_dotenv_with (dotenv env)) as [[]|e] eqn:Ed; cbn [mbind result_bind reported].
  2: { split_and!; [done|done|by intros ? [= <-]|]. unfold load_dotenv_with in Ed.
       destruct (dotenv env) as [|[]]; by simplify_eq. }
  destruct (service_config_from_environment (read_var env)) as [config|e]; cbn [map_err reported];
    [|split_and!; [done|done|by intros ? [= <-]|done]].
  destruct (try_init env _); [|split_and!; [done|done|by intros ? [= <-]|done]].
  destruct (connect_with env _ _) as [[]|e]; [|split_and!; [done|done|by intros ? [= <-]|done]].
  destruct (prepare _ _) as [tasks|e]; [|split_and!; [done|done|by intros ? [= <-]|done]].
  destruct (bind_listener env _) as [[]|e]; [|split_and!; [done|done|by intros ? [= <-]|done]].
  destruct (local_addr env) as [[]|e]; [|split_and!; [done|done|by intros ? [= <-]|done]].
  cbn [s_router s_tasks]. destruct (host_run env _ tasks) as [[]|e]; cbn; split_and!; try done.
  by intros ? [= <-].
Qed.
End Service.

(** ** Example: a signal stops a host whose task runtime then fails *)

Definition ex_io : IoError := {| io_kind := §"Other"; io_text := §"private" |}.
Definition ex_selecting : host := {|
  h_phase := Selecting; h_cancelled := false; h_signal := Some (Ok tt); h_inbound := Some (Err ex_io);
  h_tasks := Some (Ok (Err (WorkerSetup (FormatsMismatch 7)))); h_spawned := true; h_logged := [] |}.
Definition ex_host : host := host_poll ex_selecting.

Lemma ex_selecting_reach : host_reach false ex_selecting.
Proof.
  unfold host_reach.
  eapply rtc_l; [by apply hs_poll|]. eapply rtc_l; [by apply (hs_signal _ (Ok tt))|].
  eapply rtc_l; [by apply (hs_inbound _ (Err ex_io))|].
  eapply rtc_l; [by apply (hs_tasks _ (Ok (Err (WorkerSetup (FormatsMismatch 7)))))|]. apply rtc_refl.
Qed.

Lemma ex_host_reach : host_reach false ex_host.
Proof. eapply rtc_r; [exact ex_selecting_reach|by apply hs_poll]. Qed.

Lemma host_loses_no_failure_witness :
  h_phase ex_host = Returned (Err (TaskRuntimeFailed (WorkerSetup (FormatsMismatch 7)))) /\
  h_cancelled ex_host = true /\ h_logged ex_host ≡ₚ [Inbound ex_io].
Proof.
  split; [done|].
  destruct (host_loses_no_failure false ex_host _ ex_host_reach eq_refl) as (Hc & _ & Hf). split; [exact Hc|].
  destruct (Hf ex_selecting (BySignal (Ok tt)) ex_selecting_reach (or_intror eq_refl) eq_refl (rtc_refl _ _))
    as (i & t & [= <-] & [= <-] & _ & Hl).
  exact Hl.
Defined.

Lemma host_shutdown_progresses_witness :
  h_cancelled (host_drop (host_poll (host_new false))) = true.
Proof.
  assert (Hr : host_reach false (host_poll (host_new false))) by (apply rtc_once; by apply hs_poll).
  apply (host_shutdown_progresses false (host_poll (host_new false)) Hr); done.
Defined.
