(* ===== verification/EventCodec.v ===== *)
(** * Stored events and snapshots

    The [serde] form of the domain events and aggregate states of
    [account-managements-service/src/domain], and the trait [Aggregate] both
    aggregates implement, as the class the event store is verified against.
    [serde_json] reads an enum from an object with one entry, a variant with
    fields only from an object, and a unit variant also from its name. *)

From S2P Require Import Prelude DomainValues EmailReservation UserAccount TaskData Application.
#[local] Open Scope Z_scope.

(** ** The trait

    [cqrs_es::Aggregate] with its associated types, and the JSON form of events
    and states.  A panic of [handle] or [apply] is [None]. *)

Class Aggregate (S C E D : Type) := {
  agg_type : rstr;
  agg_default : S;
  agg_handle : S -> C -> option (result D (list E));
  agg_apply : S -> E -> option S;
  agg_event_type : E -> rstr;
  agg_event_version : E -> rstr;
  event_to_json : E -> Value;
  event_of_json : Value -> option E;
  state_to_json : S -> Value;
  state_of_json : Value -> option S;
}.

Arguments agg_type S {C E D _}.
Arguments agg_default {S C E D _}.

(** [apply] over a list of events, as replay does. *)
Definition apply_all {S C E D} `{Aggregate S C E D} (s : S) (es : list E) : option S :=
  foldl (fun os e => s ← os; agg_apply s e) (Some s) es.

(** What storage relies on: valid events and states are read back as written,
    and remain valid; an accepted command writes one event, which applies; and
    applying an accepted event twice gives the same state or panics. *)
Class AggregateLaws (S C E D : Type) `{Aggregate S C E D} := {
  event_ok : E -> Prop;
  state_ok : S -> Prop;
  event_roundtrip e : event_ok e -> event_of_json (event_to_json e) = Some e;
  state_roundtrip s : state_ok s -> state_of_json (state_to_json s) = Some s;
  default_ok : state_ok agg_default;
  apply_ok s e s' : state_ok s -> event_ok e -> agg_apply s e = Some s' -> state_ok s';
  accepted_one s c es : agg_handle s c = Some (Ok es) ->
    exists e s', es = [e] /\ agg_apply s e = Some s';
  reapplied s c e s1 s2 : agg_handle s c = Some (Ok [e]) -> agg_apply s e = Some s1 ->
    agg_apply s1 e = Some s2 -> s2 = s1;
}.

(** ** Enums *)

(** The name of a variant and its content, if it has one. *)
Definition enum_variant (v : Value) : option (rstr * option Value) :=
  match v with
  | JString name => Some (name, None)
  | JObject [(name, body)] => Some (name, Some body)
  | _ => None
  end.
Definition variant_fields (names : list rstr) (body : option Value) : option (list Value) :=
  match body with
  | Some (JObject l) => mapM (fun name => json_get name (JObject l)) names
  | _ => None
  end.
Definition variant (name : rstr) (fields : list (rstr * Value)) : Value :=
  JObject [(name, JObject fields)].

Section Codec.
Context `{UuidCrate, EmailCrate, ChronoCrate}.

Definition time_to_json (t : DateTime) : Value := JString (time_to_string t).
Definition time_of_json (v : Value) : option DateTime := s ← as_string v; time_from_string s.
Definition date_to_json (t : NaiveDate) : Value := JString (date_to_string t).
Definition date_of_json (v : Value) : option NaiveDate := s ← as_string v; date_from_string s.

(** ** Events *)

Definition issue_fields (em : Email) (id : UserAccountId) (code : Z) : list (rstr * Value) :=
  [(§"email", email_to_json em); (§"account_id", id_to_json id); (§"verification_code", JNumber code)].

Definition reservation_event_to_json (e : EmailReservationEvent) : Value :=
  match e with
  | EmailReserved em id code => variant (§"EmailReserved") (issue_fields em id code)
  | VerificationCodeRequested em id code => variant (§"VerificationCodeRequested") (issue_fields em id code)
  | VerificationRestarted em id code => variant (§"VerificationRestarted") (issue_fields em id code)
  | EmailVerified em id dg => variant (§"EmailVerified")
      [(§"email", email_to_json em); (§"account_id", id_to_json id); (§"token_digest", JString dg)]
  | RegistrationProfileAccepted em id dg p => variant (§"RegistrationProfileAccepted")
      [(§"email", email_to_json em); (§"account_id", id_to_json id);
       (§"consumed_token_digest", JString dg); (§"profile", profile_to_json p)]
  | AccountCreationCompleted em id t => variant (§"AccountCreationCompleted")
      [(§"email", email_to_json em); (§"account_id", id_to_json id); (§"created_at", time_to_json t)]
  end.

Definition issue_of_fields (make : Email -> UserAccountId -> Z -> EmailReservationEvent)
    (body : option Value) : option EmailReservationEvent :=
  fields ← variant_fields [§"email"; §"account_id"; §"verification_code"] body;
  match fields with
  | [em; id; code] =>
    em ← email_of_json em; id ← id_of_json id; code ← as_u32 code; Some (make em id code)
  | _ => None
  end.

Definition reservation_event_of_json (v : Value) : option EmailReservationEvent :=
  '(name, body) ← enum_variant v;
  if bool_decide (name = §"EmailReserved") then issue_of_fields EmailReserved body
  else if bool_decide (name = §"VerificationCodeRequested") then issue_of_fields VerificationCodeRequested body
  else if bool_decide (name = §"VerificationRestarted") then issue_of_fields VerificationRestarted body
  else if bool_decide (name = §"EmailVerified") then
    fields ← variant_fields [§"email"; §"account_id"; §"token_digest"] body;
    match fields with
    | [em; id; dg] =>
      em ← email_of_json em; id ← id_of_json id; dg ← as_string dg; Some (EmailVerified em id dg)
    | _ => None
    end
  else if bool_decide (name = §"RegistrationProfileAccepted") then
    fields ← variant_fields [§"email"; §"account_id"; §"consumed_token_digest"; §"profile"] body;
    match fields with
    | [em; id; dg; p] =>
      em ← email_of_json em; id ← id_of_json id; dg ← as_string dg; p ← profile_of_json p;
      Some (RegistrationProfileAccepted em id dg p)
    | _ => None
    end
  else if bool_decide (name = §"AccountCreationCompleted") then
    fields ← variant_fields [§"email"; §"account_id"; §"created_at"] body;
    match fields with
    | [em; id; t] =>
      em ← email_of_json em; id ← id_of_json id; t ← time_of_json t;
      Some (AccountCreationCompleted em id t)
    | _ => None
    end
  else None.

(** The fields of [CreatedAccount] and of [UserAccountEvent::AccountCreated]. *)
Definition account_field_names : list rstr :=
  [§"account_id"; §"email"; §"first_name"; §"last_name"; §"date_of_birth"; §"validation_date"; §"created_at"].
Definition account_fields (a : CreatedAccount) : list (rstr * Value) :=
  zip account_field_names
    [id_to_json (ca_account_id a); email_to_json (ca_email a); JString (ca_first_name a);
     JString (ca_last_name a); date_to_json (ca_date_of_birth a);
     date_to_json (ca_validation_date a); time_to_json (ca_created_at a)].
Definition account_of_fields (fields : list Value) : option CreatedAccount :=
  match fields with
  | [id; em; f; l; dob; vd; t] =>
    id ← id_of_json id; em ← email_of_json em; f ← as_string f; l ← as_string l;
    dob ← date_of_json dob; vd ← date_of_json vd; t ← time_of_json t;
    Some {| ca_account_id := id; ca_email := em; ca_first_name := f; ca_last_name := l;
            ca_date_of_birth := dob; ca_validation_date := vd; ca_created_at := t |}
  | _ => None
  end.

(** The record an [AccountCreated] event carries. *)
Definition event_account (e : UserAccountEvent) : CreatedAccount :=
  match e with
  | UserAccount.AccountCreated id em f l dob vd t =>
    {| ca_account_id := id; ca_email := em; ca_first_name := f; ca_last_name := l;
       ca_date_of_birth := dob; ca_validation_date := vd; ca_created_at := t |}
  end.
Definition account_event_of (a : CreatedAccount) : UserAccountEvent :=
  UserAccount.AccountCreated (ca_account_id a) (ca_email a) (ca_first_name a) (ca_last_name a)
    (ca_date_of_birth a) (ca_validation_date a) (ca_created_at a).

Definition account_event_to_json (e : UserAccountEvent) : Value :=
  variant (§"AccountCreated") (account_fields (event_account e)).
Definition account_event_of_json (v : Value) : option UserAccountEvent :=
  '(name, body) ← enum_variant v;
  if bool_decide (name = §"AccountCreated") then
    account_event_of <$> (variant_fields account_field_names body ≫= account_of_fields)
  else None.

(** ** States *)

Definition phase_to_json (p : ReservationPhase) : Value :=
  match p with
  | Absent => JString (§"Absent")
  | AwaitingCode id code => variant (§"AwaitingCode")
      [(§"account_id", id_to_json id); (§"verification_code", JNumber code)]
  | AwaitingProfile id dg => variant (§"AwaitingProfile")
      [(§"account_id", id_to_json id); (§"token_digest", JString dg)]
  | CreatingAccount id dg p => variant (§"CreatingAccount")
      [(§"account_id", id_to_json id); (§"consumed_token_digest", JString dg);
       (§"accepted_profile", profile_to_json p)]
  | EmailReservation.AccountCreated id dg p t => variant (§"AccountCreated")
      [(§"account_id", id_to_json id); (§"consumed_token_digest", JString dg);
       (§"accepted_profile", profile_to_json p); (§"created_at", time_to_json t)]
  end.

Definition phase_of_json (v : Value) : option ReservationPhase :=
  '(name, body) ← enum_variant v;
  if bool_decide (name = §"Absent") then
    match body with None | Some JNull => Some Absent | _ => None end
  else if bool_decide (name = §"AwaitingCode") then
    fields ← variant_fields [§"account_id"; §"verification_code"] body;
    match fields with
    | [id; code] => id ← id_of_json id; code ← as_u32 code; Some (AwaitingCode id code)
    | _ => None
    end
  else if bool_decide (name = §"AwaitingProfile") then
    fields ← variant_fields [§"account_id"; §"token_digest"] body;
    match fields with
    | [id; dg] => id ← id_of_json id; dg ← as_string dg; Some (AwaitingProfile id dg)
    | _ => None
    end
  else if bool_decide (name = §"CreatingAccount") then
    fields ← variant_fields [§"account_id"; §"consumed_token_digest"; §"accepted_profile"] body;
    match fields with
    | [id; dg; p] =>
      id ← id_of_json id; dg ← as_string dg; p ← profile_of_json p; Some (CreatingAccount id dg p)
    | _ => None
    end
  else if bool_decide (name = §"AccountCreated") then
    fields ← variant_fields
      [§"account_id"; §"consumed_token_digest"; §"accepted_profile"; §"created_at"] body;
    match fields with
    | [id; dg; p; t] =>
      id ← id_of_json id; dg ← as_string dg; p ← profile_of_json p; t ← time_of_json t;
      Some (EmailReservation.AccountCreated id dg p t)
    | _ => None
    end
  else None.

Definition reservation_to_json (s : EmailReservation) : Value :=
  JObject [(§"phase", phase_to_json (phase s))].
Definition reservation_of_json (v : Value) : option EmailReservation :=
  fields ← struct_fields [§"phase"] v;
  match fields with [p] => mk_EmailReservation <$> phase_of_json p | _ => None end.

(** A missing [Option] field is [None], as is [null]. *)
Definition account_to_json (s : UserAccount) : Value :=
  JObject [(§"created", match created s with
                        | None => JNull
                        | Some a => JObject (account_fields a)
                        end)].
Definition created_of_json (v : Value) : option (option CreatedAccount) :=
  match v with
  | JNull => Some None
  | _ => Some <$> (struct_fields account_field_names v ≫= account_of_fields)
  end.
Definition account_of_json (v : Value) : option UserAccount :=
  match v with
  | JObject _ =>
    match json_get (§"created") v with
    | None => Some (mk_UserAccount None)
    | Some c => mk_UserAccount <$> created_of_json c
    end
  | JArray [c] => mk_UserAccount <$> created_of_json c
  | _ => None
  end.

(** ** The two aggregates *)

#[export] Instance email_reservation_aggregate :
  Aggregate EmailReservation EmailReservationCommand EmailReservationEvent EmailReservationError := {|
  agg_type := §"email_reservation";
  agg_default := EmailReservation.default;
  agg_handle := EmailReservation.handle;
  agg_apply := EmailReservation.apply;
  agg_event_type := EmailReservation.event_type;
  agg_event_version := EmailReservation.event_version;
  event_to_json := reservation_event_to_json;
  event_of_json := reservation_event_of_json;
  state_to_json := reservation_to_json;
  state_of_json := reservation_of_json |}.

#[export] Instance user_account_aggregate :
  Aggregate UserAccount UserAccountCommand UserAccountEvent UserAccountError := {|
  agg_type := §"user_account";
  agg_default := UserAccount.default;
  agg_handle s c := Some (UserAccount.handle s c);
  agg_apply s e := Some (UserAccount.apply s e);
  agg_event_type := UserAccount.event_type;
  agg_event_version := UserAccount.event_version;
  event_to_json := account_event_to_json;
  event_of_json := account_event_of_json;
  state_to_json := account_to_json;
  state_of_json := account_of_json |}.
End Codec.

(** ** Round trips *)

Section CodecLaws.
Context `{UuidLaws, EmailLaws, ChronoLaws}.

Definition reservation_event_ok (e : EmailReservationEvent) : Prop :=
  match e with
  | EmailReserved em _ code | VerificationCodeRequested em _ code | VerificationRestarted em _ code =>
    email_valid em /\ 0 <= code <= u32_MAX
  | EmailVerified em _ _ | RegistrationProfileAccepted em _ _ _ | AccountCreationCompleted em _ _ =>
    email_valid em
  end.
Definition reservation_ok (s : EmailReservation) : Prop :=
  match phase s with AwaitingCode _ code => 0 <= code <= u32_MAX | _ => True end.
Definition account_ok (s : UserAccount) : Prop :=
  forall a, created s = Some a -> email_valid (ca_email a).

Lemma time_json_roundtrip t : time_of_json (time_to_json t) = Some t.
Proof. apply time_roundtrip. Qed.
Lemma date_json_roundtrip d : date_of_json (date_to_json d) = Some d.
Proof. apply date_roundtrip. Qed.

(** Reads every field back, one rewrite per kind of field. *)
Ltac read_back :=
  repeat first
    [ rewrite email_json_roundtrip by done | rewrite id_json_roundtrip
    | rewrite profile_json_roundtrip | rewrite time_json_roundtrip | rewrite date_json_roundtrip
    | rewrite u32_json_roundtrip by lia
    | progress cbn [mbind option_bind mret option_ret fmap option_fmap as_string] ].

Lemma issue_fields_roundtrip make em id code :
  email_valid em -> 0 <= code <= u32_MAX ->
  issue_of_fields make (Some (JObject (issue_fields em id code))) = Some (make em id code).
Proof.
  intros He Hc. unfold issue_of_fields.
  change (variant_fields _ _) with (Some [email_to_json em; id_to_json id; JNumber code]).
  by read_back.
Qed.

Lemma reservation_event_roundtrip e :
  reservation_event_ok e -> reservation_event_of_json (reservation_event_to_json e) = Some e.
Proof.
  destruct e as [em id code|em id code|em id code|em id dg|em id dg p|em id t]; simpl;
    [intros [He Hc]; by apply (issue_fields_roundtrip)..| | |]; intros He;
    unfold reservation_event_of_json; cbn [enum_variant variant mbind option_bind].
  - change (email_of_json (email_to_json em) ≫= (fun e => id_of_json (id_to_json id) ≫=
      fun i => Some (EmailVerified e i dg)) = Some (EmailVerified em id dg)). by read_back.
  - change (email_of_json (email_to_json em) ≫= (fun e => id_of_json (id_to_json id) ≫=
      fun i => profile_of_json (profile_to_json p) ≫= fun q => Some (RegistrationProfileAccepted e i dg q))
      = Some (RegistrationProfileAccepted em id dg p)). by read_back.
  - change (email_of_json (email_to_json em) ≫= (fun e => id_of_json (id_to_json id) ≫=
      fun i => time_of_json (time_to_json t) ≫= fun u => Some (AccountCreationCompleted e i u))
      = Some (AccountCreationCompleted em id t)). by read_back.
Qed.

Lemma account_fields_roundtrip a :
  email_valid (ca_email a) ->
  (mapM (fun name => json_get name (JObject (account_fields a))) account_field_names
    ≫= account_of_fields) = Some a.
Proof.
  intros He. destruct a as [id em f l dob vd t]. simpl in He.
  change (mapM _ _) with (Some [id_to_json id; email_to_json em; JString f; JString l;
    date_to_json dob; date_to_json vd; time_to_json t]).
  cbn [mbind option_bind account_of_fields]. by read_back.
Qed.

Lemma account_event_roundtrip e :
  email_valid (ca_email (event_account e)) ->
  account_event_of_json (account_event_to_json e) = Some e.
Proof.
  intros He. unfold account_event_of_json.
  change (account_event_of <$> (mapM (fun name => json_get name
    (JObject (account_fields (event_account e)))) account_field_names ≫= account_of_fields) = Some e).
  rewrite account_fields_roundtrip by done. by destruct e.
Qed.

Lemma phase_roundtrip p :
  reservation_ok (mk_EmailReservation p) -> phase_of_json (phase_to_json p) = Some p.
Proof.
  destruct p as [|id code|id dg|id dg p|id dg p t]; unfold reservation_ok; simpl; intros Hok;
    unfold phase_of_json; cbn [enum_variant variant mbind option_bind]; [done| | | |].
  - change (id_of_json (id_to_json id) ≫= (fun i => as_u32 (JNumber code) ≫= fun c =>
      Some (AwaitingCode i c)) = Some (AwaitingCode id code)). by read_back.
  - change (id_of_json (id_to_json id) ≫= (fun i => Some (AwaitingProfile i dg))
      = Some (AwaitingProfile id dg)). by read_back.
  - change (id_of_json (id_to_json id) ≫= (fun i => profile_of_json (profile_to_json p) ≫= fun q =>
      Some (CreatingAccount i dg q)) = Some (CreatingAccount id dg p)). by read_back.
  - change (id_of_json (id_to_json id) ≫= (fun i => profile_of_json (profile_to_json p) ≫= fun q =>
      time_of_json (time_to_json t) ≫= fun u => Some (EmailReservation.AccountCreated i dg q u))
      = Some (EmailReservation.AccountCreated id dg p t)). by read_back.
Qed.

Lemma reservation_roundtrip s : reservation_ok s -> reservation_of_json (reservation_to_json s) = Some s.
Proof.
  intros Hs. destruct s as [p].
  change (mk_EmailReservation <$> phase_of_json (phase_to_json p) = Some (mk_EmailReservation p)).
  by rewrite phase_roundtrip.
Qed.

Lemma account_roundtrip s : account_ok s -> account_of_json (account_to_json s) = Some s.
Proof.
  destruct s as [[a|]]; intros Hok; [|done].
  change (mk_UserAccount <$> (Some <$> (mapM (fun name => json_get name (JObject (account_fields a)))
    account_field_names ≫= account_of_fields)) = Some (mk_UserAccount (Some a))).
  by rewrite account_fields_roundtrip by by apply Hok.
Qed.

(** ** The laws *)

Lemma reservation_apply_ok s e s' :
  reservation_ok s -> reservation_event_ok e -> EmailReservation.apply s e = Some s' -> reservation_ok s'.
Proof.
  intros _ He Ha. destruct e; simpl in *; try (injection Ha as <-); try done; try (by destruct He).
  by destruct s as [[]]; simplify_eq/=.
Qed.

Lemma reservation_reapplied s c e s1 s2 :
  EmailReservation.handle s c = Some (Ok [e]) -> EmailReservation.apply s e = Some s1 ->
  EmailReservation.apply s1 e = Some s2 -> s2 = s1.
Proof.
  intros _ Ha Hb. destruct e; simpl in *; simplify_eq; try done.
  by destruct s as [[]]; simplify_eq/=.
Qed.

#[export] Instance email_reservation_laws :
  AggregateLaws EmailReservation EmailReservationCommand EmailReservationEvent EmailReservationError := {|
  event_ok := reservation_event_ok;
  state_ok := reservation_ok;
  event_roundtrip := reservation_event_roundtrip;
  state_roundtrip := reservation_roundtrip;
  default_ok := I;
  apply_ok := reservation_apply_ok;
  accepted_one := handle_one_event;
  reapplied := reservation_reapplied |}.

Lemma account_apply_ok (s : UserAccount) e s' :
  account_ok s -> email_valid (ca_email (event_account e)) ->
  Some (UserAccount.apply s e) = Some s' -> account_ok s'.
Proof. intros _ He [= <-] a. destruct e. simpl. by intros [= <-]. Qed.

Lemma account_accepted_one s c es :
  Some (UserAccount.handle s c) = Some (Ok es) ->
  exists e s', es = [e] /\ Some (UserAccount.apply s e) = Some s'.
Proof. intros [= (_ & e & ->)%handle_created_inv]. by eexists _, _. Qed.

Lemma account_reapplied (s : UserAccount) (c : UserAccountCommand) e s1 s2 :
  Some (UserAccount.handle s c) = Some (Ok [e]) -> Some (UserAccount.apply s e) = Some s1 ->
  Some (UserAccount.apply s1 e) = Some s2 -> s2 = s1.
Proof. intros _ [= <-] [= <-]. by destruct e. Qed.

Lemma account_default_ok : account_ok UserAccount.default.
Proof. by intros a. Qed.

#[export] Instance user_account_laws :
  AggregateLaws UserAccount UserAccountCommand UserAccountEvent UserAccountError := {|
  event_ok e := email_valid (ca_email (event_account e));
  state_ok := account_ok;
  event_roundtrip := account_event_roundtrip;
  state_roundtrip := account_roundtrip;
  default_ok := account_default_ok;
  apply_ok := account_apply_ok;
  accepted_one := account_accepted_one;
  reapplied := account_reapplied |}.

(** C39: what the event store keeps can be read back.  Every event whose address
    was parsed and whose code fits its field, and every state of an aggregate,
    is recovered from its stored JSON exactly; in particular the state a snapshot
    holds after any such event. *)
Theorem stored_forms_round_trip (e : EmailReservationEvent) (s s' : EmailReservation)
    (f : UserAccountEvent) (u : UserAccount) :
  reservation_event_ok e -> reservation_ok s -> EmailReservation.apply s e = Some s' ->
  email_valid (ca_email (event_account f)) -> account_ok u ->
  reservation_event_of_json (reservation_event_to_json e) = Some e /\
  reservation_of_json (reservation_to_json s) = Some s /\
  reservation_of_json (reservation_to_json s') = Some s' /\
  account_event_of_json (account_event_to_json f) = Some f /\
  account_of_json (account_to_json u) = Some u /\
  account_of_json (account_to_json (UserAccount.apply u f)) = Some (UserAccount.apply u f).
Proof.
  intros He Hs Ha Hf Hu. split_and!.
  - by apply reservation_event_roundtrip.
  - by apply reservation_roundtrip.
  - by eapply reservation_roundtrip, reservation_apply_ok.
  - by apply account_event_roundtrip.
  - by apply account_roundtrip.
  - by eapply account_roundtrip, account_apply_ok.
Qed.
End CodecLaws.

Lemma stored_forms_round_trip_witness :
  let e := AccountCreationCompleted ex_email ex_id 42 in
  let s := mk_EmailReservation (CreatingAccount ex_id (§"digest") ex_profile) in
  reservation_event_of_json (reservation_event_to_json e) = Some e /\
  reservation_of_json (reservation_to_json s) = Some s.
Proof.
  destruct (stored_forms_round_trip (AccountCreationCompleted ex_email ex_id 42)
    (mk_EmailReservation (CreatingAccount ex_id (§"digest") ex_profile))
    (mk_EmailReservation (EmailReservation.AccountCreated ex_id (§"digest") ex_profile 42))
    (account_event_of {| ca_account_id := ex_id; ca_email := ex_email; ca_first_name := §"A"; ca_last_name := §"B";
       ca_date_of_birth := 1; ca_validation_date := 2; ca_created_at := 3 |}) UserAccount.default)
    as (He & Hs & _); [apply ex_email_valid|done|done|apply ex_email_valid|apply account_default_ok|].
  by split.
Defined.
