(* ===== verification/EventStore.v ===== *)
(** * The event store under concurrency

    The framework of [cqrs_es] runs a command against the tables through
    [cqrs-runtime/src/postgres/event_repository_with_outbox]: it loads the
    aggregate, from a snapshot when there is one, lets it handle the command,
    and hands the event, a due snapshot and the bound tasks to [persist].
    Other processes may write between the two.  The framework is known by its
    documented contract ([framework_run]); what is proved is that a run that
    writes anything decided on the stream it is appended to. *)

From S2P Require Import Prelude DomainValues TaskData Database EventRepository CommandRetry EventCodec.
From stdpp Require Import sorting.
#[local] Open Scope Z_scope.

(** ** Rows of a stream *)

(** What an outbox row keeps of the task it was published for. *)
Definition carries (r : outbox_row) (t : NewTask) : Prop :=
  ob_task_type r = task_type (nt_format t) /\ ob_task_version r = task_version (nt_format t) /\
  ob_payload r = nt_payload t /\ ob_metadata r = nt_metadata t /\ ob_max_attempts r = nt_max_attempts t.

(** The tasks a write adds to the outbox. *)
Definition tasks_added (tasks : list NewTask) (d d' : db) : Prop :=
  NoDup (nt_id <$> tasks) /\
  (forall t, t ∈ tasks -> outbox d !! nt_id t = None /\
     exists r, outbox d' !! nt_id t = Some r /\ outbox_check r = true /\ carries r t /\
       ob_status r = st_pending) /\
  (forall i, i ∉ (nt_id <$> tasks) -> outbox d' !! i = outbox d !! i).

Section Store.
Context {St C E D : Type} `{AggregateLaws St C E D}.

Abbreviation key_of key n := (agg_type St, key, n).

Definition event_stored (r : event_row) (e : E) : Prop :=
  er_event_type r = agg_event_type e /\ er_event_version r = agg_event_version e /\
  er_payload r = event_to_json e.

(** Position [n] of a stream, counted from one. *)
Definition nth_event (es : list E) (n : Z) : option E :=
  if 1 <=? n then es !! Z.to_nat (n - 1) else None.

Definition row_matches (row : option event_row) (e : option E) : Prop :=
  match row, e with Some r, Some e => event_stored r e | None, None => True | _, _ => False end.

Definition stream_stored (d : db) (key : rstr) (es : list E) : Prop :=
  forall n, row_matches (events d !! key_of key n) (nth_event es n).

(** [get_events] and [get_last_events] of the reader: the rows above a
    sequence number, in order. *)
Definition rows_above (d : db) (key : rstr) (low : Z) (rows : list (Z * event_row)) : Prop :=
  StronglySorted (fun a b => a.1 < b.1) rows /\
  forall n r, (n, r) ∈ rows <-> low < n /\ events d !! key_of key n = Some r.

Definition decode_rows (rows : list (Z * event_row)) : option (list E) :=
  mapM (fun nr => event_of_json (er_payload nr.2)) rows.

(** ** The framework's contract *)

(** Loading an aggregate: its state, the sequence of its last event and the
    version of its snapshot, zero without one. *)
Inductive loads (d : db) (key : rstr) : St -> Z -> Z -> Prop :=
| loads_events rows es s :
    (forall n, snapshots d !! key_of key n = None) ->
    rows_above d key (-1) rows -> decode_rows rows = Some es -> apply_all agg_default es = Some s ->
    loads d key s (from_option fst 0 (last rows)) 0
| loads_snapshot n row s0 rows es s :
    snapshots d !! key_of key n = Some row -> state_of_json (sr_payload row) = Some s0 ->
    rows_above d key n rows -> decode_rows rows = Some es -> apply_all s0 es = Some s ->
    loads d key s (from_option fst n (last rows)) (sr_current_snapshot row).

(** The events of a command, numbered after the last one. *)
Fixpoint serialize (key : rstr) (metadata : Value) (n : Z) (es : list E) : list SerializedEvent :=
  match es with
  | [] => []
  | e :: es =>
    {| se_aggregate_id := key; se_sequence := n + 1; se_event_type := agg_event_type e;
       se_event_version := agg_event_version e; se_payload := event_to_json e;
       se_metadata := metadata |} :: serialize key metadata (n + 1) es
  end.

Definition technical (e : AggregateError D) : Prop :=
  e = DatabaseConnectionError \/ e = DeserializationError \/ e = UnexpectedError.

Definition aggregate_error_of (e : PersistenceError) : AggregateError D :=
  match e with
  | OptimisticLockError => AggregateConflict
  | ConnectionError _ => DatabaseConnectionError
  | UnknownError _ => UnexpectedError
  end.

(** A lost reply is no answer of the database. *)
Definition link_ok (l : link) : Prop :=
  match l with LosesReply e => map_sqlx_error e <> OptimisticLockError | _ => True end.

(** One run, which read the tables as [d0] and finds them as [d1] when it
    writes.  The sink has applied the events to the state before they are
    stored; a due snapshot applies them again and stores the result.  [None] is
    a panic of the aggregate. *)
Inductive framework_run (tasks : list NewTask) (key : rstr) (c : C) (d0 d1 : db) :
    option (result (AggregateError D) unit) -> db -> Prop :=
| run_unread err : technical err -> framework_run tasks key c d0 d1 (Some (Err err)) d1
| run_rejected s n v e :
    loads d0 key s n v -> agg_handle s c = Some (Err e) ->
    framework_run tasks key c d0 d1 (Some (Err (UserError e))) d1
| run_unchanged s n v :
    loads d0 key s n v -> agg_handle s c = Some (Ok []) -> framework_run tasks key c d0 d1 (Some (Ok tt)) d1
| run_panicked s n v :
    loads d0 key s n v ->
    (agg_handle s c = None \/ exists es, agg_handle s c = Some (Ok es) /\
      (apply_all s es = None \/ exists s1, apply_all s es = Some s1 /\ apply_all s1 es = None)) ->
    framework_run tasks key c d0 d1 None d1
| run_written s n v es s1 snapshot metadata l now r d2 :
    loads d0 key s n v -> agg_handle s c = Some (Ok es) -> apply_all s es = Some s1 ->
    (snapshot = None \/ exists s2, apply_all s1 es = Some s2 /\
       snapshot = Some (key, state_to_json s2, v + 1)) ->
    link_ok l ->
    persist_command (with_outbox repository_new tasks) l now (agg_type St)
      (serialize key metadata n es) snapshot d1 = (r, d2) ->
    framework_run tasks key c d0 d1 (Some (map_err aggregate_error_of r)) d2.

(** ** What the tables hold of a stream *)

Record stream_holds (d : db) (key : rstr) (es : list E) : Prop := {
  sh_events : stream_stored d key es;
  sh_ok : Forall event_ok es;
  sh_state : is_Some (apply_all agg_default es);
  sh_snapshot n row : snapshots d !! key_of key n = Some row ->
    1 <= n <= Z.of_nat (length es) /\ 1 <= sr_current_snapshot row /\
    exists s, apply_all agg_default (take (Z.to_nat n) es) = Some s /\ sr_payload row = state_to_json s;
  sh_single n n' row row' : snapshots d !! key_of key n = Some row ->
    snapshots d !! key_of key n' = Some row' -> n = n';
}.

(** Everything but one stream is left alone. *)
Definition others_kept (key : rstr) (d d' : db) : Prop :=
  forall ty' key' n, (ty', key') <> (agg_type St, key) ->
    events d' !! (ty', key', n) = events d !! (ty', key', n) /\
    snapshots d' !! (ty', key', n) = snapshots d !! (ty', key', n).

(** A run that wrote: it decided on the whole stream, and its event, snapshot
    and tasks were added together. *)
Definition run_committed (tasks : list NewTask) (key : rstr) (c : C) (es : list E) (d d' : db) : Prop :=
  exists s e s1, apply_all agg_default es = Some s /\ agg_handle s c = Some (Ok [e]) /\
    agg_apply s e = Some s1 /\ stream_holds d' key (es ++ [e]) /\ others_kept key d d' /\
    tasks_added tasks d d'.

(** ** Replay *)

Lemma apply_all_app s es es' : apply_all s (es ++ es') = (s ← apply_all s es; apply_all s es').
Proof.
  unfold apply_all. rewrite foldl_app. destruct (foldl _ _ es) as [s'|]; simpl; [done|].
  by induction es' as [|e es' IH].
Qed.

Lemma apply_all_one s e : apply_all s [e] = agg_apply s e.
Proof. done. Qed.

Lemma apply_all_ok s es s' : state_ok s -> Forall event_ok es -> apply_all s es = Some s' -> state_ok s'.
Proof.
  intros Hs Hes. revert s Hs. induction Hes as [|e es He Hes IH]; intros s Hs; [by intros [= <-]|].
  change (e :: es) with ([e] ++ es). rewrite apply_all_app, apply_all_one.
  destruct (agg_apply s e) as [s1|] eqn:Ha; simpl; [|done]. apply IH. by eapply apply_ok.
Qed.

Lemma nth_event_succ es n : 0 <= n -> nth_event es (n + 1) = es !! Z.to_nat n.
Proof. intros. unfold nth_event. rewrite (proj2 (Z.leb_le _ _)) by lia. f_equal. lia. Qed.

(** ** Reading a stream *)

(** The rows above [low] are exactly the events that follow, numbered on. *)
Definition rows_hold (d : db) (key : rstr) (low : Z) (es : list E) : Prop :=
  forall n, low < n -> row_matches (events d !! key_of key n) (es !! Z.to_nat (n - low - 1)).

Lemma rows_hold_tail d key low e es :
  rows_hold d key low (e :: es) -> rows_hold d key (low + 1) es.
Proof.
  intros Hr n Hn. specialize (Hr n ltac:(lia)).
  replace (Z.to_nat (n - low - 1)) with (S (Z.to_nat (n - (low + 1) - 1))) in Hr by lia. done.
Qed.

Lemma rows_hold_head d key low e es :
  rows_hold d key low (e :: es) -> exists r, events d !! key_of key (low + 1) = Some r /\ event_stored r e.
Proof.
  intros Hr. specialize (Hr (low + 1) ltac:(lia)).
  replace (Z.to_nat (low + 1 - low - 1)) with O in Hr by lia. simpl in Hr.
  destruct (events d !! _) as [r|]; [eauto|done].
Qed.

Lemma rows_above_cons d key low r rows :
  rows_above d key low ((low + 1, r) :: rows) -> rows_above d key (low + 1) rows.
Proof.
  intros [Hs Hin]. apply StronglySorted_inv in Hs as [Hs Hlt]. split; [done|].
  intros n r'. rewrite Forall_forall in Hlt. split.
  - intros Hn. pose proof (Hlt _ Hn) as Hl. simpl in Hl. split; [lia|]. apply Hin. by right.
  - intros [Hn Hr]. assert (Hm : (n, r') ∈ (low + 1, r) :: rows) by (apply Hin; split; [lia|done]).
    apply elem_of_cons in Hm as [[= ? ?]|]; [lia|done].
Qed.

Lemma rows_above_stream d key low es rows :
  rows_hold d key low es -> rows_above d key low rows ->
  Forall2 (fun nr e => event_stored nr.2 e) rows es /\
  from_option fst low (last rows) = low + Z.of_nat (length es).
Proof.
  revert low rows. induction es as [|e es IH]; intros low rows Hh Ha.
  - destruct rows as [|[n r] rows]; [simpl; split; [constructor|lia]|].
    destruct (proj1 (proj2 Ha n r)) as [Hn Hr]; [set_solver|].
    specialize (Hh n Hn). by rewrite Hr in Hh.
  - destruct (rows_hold_head _ _ _ _ _ Hh) as (r & Hr & He).
    assert (Hin : (low + 1, r) ∈ rows) by (apply (proj2 Ha); split; [lia|done]).
    destruct rows as [|[n r'] rows]; [by apply not_elem_of_nil in Hin|].
    destruct (proj1 (proj2 Ha n r')) as [Hn Hr']; [set_solver|].
    assert (n = low + 1) as ->.
    { apply elem_of_cons in Hin as [[= <- _]|Hin]; [done|].
      destruct Ha as [[_ Hlt]%StronglySorted_inv _]. rewrite Forall_forall in Hlt.
      specialize (Hlt _ Hin). simpl in Hlt. lia. }
    assert (r' = r) as -> by congruence.
    destruct (IH (low + 1) rows) as [Hf Hl];
      [by eapply rows_hold_tail|by eapply rows_above_cons|].
    split; [by constructor|].
    destruct (last rows) as [x|] eqn:El.
    + rewrite last_cons, El. simpl in *. lia.
    + rewrite last_cons, El. simpl in *. lia.
Qed.

Lemma rows_above_exist d key low es :
  rows_hold d key low es -> exists rows, rows_above d key low rows.
Proof.
  revert low. induction es as [|e es IH]; intros low Hh.
  - exists []. split; [constructor|]. intros n r. split; [by intros ?%not_elem_of_nil|].
    intros [Hn Hr]. specialize (Hh n Hn). by rewrite Hr in Hh.
  - destruct (rows_hold_head _ _ _ _ _ Hh) as (r & Hr & _).
    destruct (IH (low + 1)) as (rows & Hs & Hin); [by eapply rows_hold_tail|].
    exists ((low + 1, r) :: rows). split.
    + constructor; [done|]. apply Forall_forall. intros [n r'] [Hn _]%Hin. simpl. lia.
    + intros n r'. rewrite elem_of_cons, Hin. split.
      * intros [[= -> ->]|[? ?]]; split; done || lia.
      * intros [Hn Hr']. destruct (decide (n = low + 1)) as [->|]; [left; congruence|right; split; [lia|done]].
Qed.

Lemma decode_stored rows es :
  Forall2 (fun nr e => event_stored nr.2 e) rows es -> Forall event_ok es -> decode_rows rows = Some es.
Proof.
  unfold decode_rows. induction 1 as [|[n r] e rows es (_ & _ & Hp) Hf IH]; intros Hok; [done|].
  apply Forall_cons in Hok as [He Hok]. simpl in *.
  rewrite Hp, event_roundtrip by done. simpl. by rewrite IH.
Qed.

Lemma stream_rows d key es low :
  stream_stored d key es -> 0 <= low <= Z.of_nat (length es) ->
  rows_hold d key low (drop (Z.to_nat low) es).
Proof.
  intros Hs Hl n Hn. specialize (Hs n). unfold nth_event in Hs.
  rewrite (proj2 (Z.leb_le _ _)) in Hs by lia. rewrite lookup_drop.
  by replace (Z.to_nat low + Z.to_nat (n - low - 1))%nat with (Z.to_nat (n - 1)) by lia.
Qed.

(** No row is at zero, so reading everything is reading above zero. *)
Lemma rows_above_all d key es rows :
  stream_stored d key es -> rows_above d key (-1) rows <-> rows_above d key 0 rows.
Proof.
  intros Hs. pose proof (Hs 0) as Hz. unfold nth_event in Hz. simpl in Hz.
  assert (Hn0 : events d !! key_of key 0 = None) by by destruct (events d !! key_of key 0).
  split; intros [Hsort Hin]; (split; [done|]); intros n r; rewrite Hin; split;
    intros [Hn Hr]; (split; [|done]); try lia.
  all: destruct (decide (n = 0)) as [->|]; [congruence|lia].
Qed.

(** ** Loading *)

Lemma map_eq_empty_or d key :
  (forall m, snapshots d !! key_of key m = None) \/
  exists m row, snapshots d !! key_of key m = Some row.
Proof.
  destruct (decide (filter (fun kr => kr.1.1 = (agg_type St, key)) (snapshots d) = ∅)) as [He|Hne].
  - left. intros m. apply eq_None_not_Some. intros [row Hr].
    by apply map_empty_filter_1 in He; apply (He _ _ Hr).
  - right. apply map_choose in Hne as ([[ty k] m] & row & Hf).
    apply map_lookup_filter_Some in Hf as [Hr Hk]. simpl in Hk. simplify_eq. eauto.
Qed.

Lemma load_replays d key es s n v :
  stream_holds d key es -> loads d key s n v ->
  apply_all agg_default es = Some s /\ n = Z.of_nat (length es) /\
  (v = 0 /\ (forall m, snapshots d !! key_of key m = None) \/
   exists m row, snapshots d !! key_of key m = Some row /\ sr_current_snapshot row = v).
Proof.
  intros Hh Hl. destruct Hl as [rows es' s Hno Hr Hd Ha|m row s0 rows es' s Hrow Hs0 Hr Hd Ha].
  - apply (rows_above_all _ _ es) in Hr; [|apply Hh].
    destruct (rows_above_stream d key 0 es rows) as [Hf Hlast]; [|done|].
    { apply (stream_rows _ _ _ 0); [apply Hh|lia]. }
    rewrite (decode_stored _ es) in Hd by (done || apply Hh). simplify_eq.
    split_and!; [done|lia|by left].
  - destruct (sh_snapshot _ _ _ Hh _ _ Hrow) as (Hm & Hv & s0' & Hs0' & Hp).
    assert (s0' = s0) as ->.
    { rewrite Hp, state_roundtrip in Hs0; [by simplify_eq|].
      eapply apply_all_ok; [apply default_ok| |done]. apply Forall_take, Hh. }
    destruct (rows_above_stream d key m (drop (Z.to_nat m) es) rows) as [Hf Hlast]; [|done|].
    { apply stream_rows; [apply Hh|lia]. }
    rewrite (decode_stored _ (drop (Z.to_nat m) es)) in Hd by (done || apply Forall_drop, Hh).
    simplify_eq. rewrite length_drop in Hlast. split_and!; [|lia|right; eauto].
    rewrite <- (take_drop (Z.to_nat m) es), apply_all_app, Hs0'. done.
Qed.

Lemma load_exists d key es : stream_holds d key es -> exists s n v, loads d key s n v.
Proof.
  intros Hh. pose proof (sh_state _ _ _ Hh) as [s Hs].
  destruct (map_eq_empty_or d key) as [Hno|(m & row & Hrow)].
  - destruct (rows_above_exist d key 0 es) as [rows Hr]; [apply (stream_rows _ _ _ 0); [apply Hh|lia]|].
    destruct (rows_above_stream d key 0 es rows) as [Hf _]; [|done|].
    { apply (stream_rows _ _ _ 0); [apply Hh|lia]. }
    exists s, (from_option fst 0 (last rows)), 0. apply (loads_events _ _ _ es); [done| | |done].
    + by apply (rows_above_all _ _ es); [apply Hh|].
    + by apply decode_stored; [|apply Hh].
  - destruct (sh_snapshot _ _ _ Hh _ _ Hrow) as (Hm & Hv & s0 & Hs0 & Hp).
    assert (Hrh : rows_hold d key m (drop (Z.to_nat m) es)) by (apply stream_rows; [apply Hh|lia]).
    destruct (rows_above_exist _ _ _ _ Hrh) as [rows Hr].
    destruct (rows_above_stream _ _ _ _ _ Hrh Hr) as [Hf _].
    exists s, (from_option fst m (last rows)), (sr_current_snapshot row).
    apply (loads_snapshot _ _ m row s0 rows (drop (Z.to_nat m) es)); [done| |done| |].
    + rewrite Hp. apply state_roundtrip. eapply apply_all_ok; [apply default_ok| |done]. apply Forall_take, Hh.
    + apply decode_stored; [done|]. apply Forall_drop, Hh.
    + by rewrite <- (take_drop (Z.to_nat m) es), apply_all_app, Hs0 in Hs.
Qed.

(** A stream depends on its own rows only. *)
Lemma stream_holds_ext d d' key es :
  stream_holds d key es ->
  (forall n, events d' !! key_of key n = events d !! key_of key n) ->
  (forall n, snapshots d' !! key_of key n = snapshots d !! key_of key n) ->
  stream_holds d' key es.
Proof.
  intros Hh He Hs. split; [|apply Hh..| |].
  - intros n. rewrite He. apply Hh.
  - intros n row. rewrite Hs. apply Hh.
  - intros n n' row row'. rewrite !Hs. apply Hh.
Qed.

Lemma stream_holds_empty key : stream_holds empty_db key [].
Proof.
  split.
  - intros n. unfold nth_event. simpl. rewrite lookup_empty. by case_match.
  - by apply Forall_nil.
  - by eexists.
  - intros n row. simpl. by rewrite lookup_empty.
  - intros n n' row row'. simpl. by rewrite lookup_empty.
Qed.

(** ** Writing *)

Lemma stream_stored_snoc d d' key es e row :
  stream_stored d key es -> event_stored row e ->
  events d' = <[key_of key (Z.of_nat (length es) + 1) := row]> (events d) ->
  stream_stored d' key (es ++ [e]).
Proof.
  intros Hs He Hd n. rewrite Hd. destruct (decide (n = Z.of_nat (length es) + 1)) as [->|Hne].
  - rewrite lookup_insert_eq, nth_event_succ, lookup_app_r by lia.
    by replace (Z.to_nat (Z.of_nat (length es)) - length es)%nat with O by lia.
  - rewrite lookup_insert_ne by congruence. specialize (Hs n). unfold nth_event in *.
    destruct (Z.leb_spec 1 n) as [Hn|]; [|done].
    destruct (decide (n <= Z.of_nat (length es))) as [Hle|Hgt].
    + by rewrite lookup_app_l by lia.
    + rewrite lookup_ge_None_2 in Hs by lia. rewrite lookup_ge_None_2; [done|].
      rewrite length_app. simpl. lia.
Qed.

(** The version a load found is the version the aggregate's snapshot has. *)
Definition version_of (d : db) (key : rstr) (v : Z) : Prop :=
  v = 0 /\ (forall m, snapshots d !! key_of key m = None) \/
  exists m row, snapshots d !! key_of key m = Some row /\ sr_current_snapshot row = v.

(** After a snapshot write the aggregate has exactly the new snapshot. *)
Lemma snapshot_stored_lookup d key es v sequence payload m' :
  stream_holds d key es -> version_of d key v ->
  snapshot_stored (agg_type St) sequence key payload (v + 1) (snapshots d) m' ->
  (forall n row, m' !! key_of key n = Some row ->
     n = sequence /\ row = {| sr_current_snapshot := v + 1; sr_payload := payload |}) /\
  (forall ty' key' n, (ty', key') <> (agg_type St, key) -> m' !! (ty', key', n) = snapshots d !! (ty', key', n)).
Proof.
  intros Hh Hv. unfold snapshot_stored. case_decide as H1.
  - assert (v = 0) as -> by lia. destruct Hv as [[_ Hno]|(m & row & Hrow & Hv)].
    2:{ apply (sh_snapshot _ _ _ Hh) in Hrow as (_ & ? & _). lia. }
    intros ->. split.
    + intros n row [[[= ->] <-]|[_ Hr]]%lookup_insert_Some; [done|]. by rewrite Hno in Hr.
    + intros. rewrite lookup_insert_ne; [done|]. congruence.
  - intros ([[ty k] m] & row & Hrow & Hk & _ & ->). simpl in Hk. simplify_eq. split.
    + intros n row' [[[= ->] <-]|[Hne Hr]]%lookup_insert_Some; [done|].
      apply lookup_delete_Some in Hr as [Hne' Hr]. destruct Hne'.
      by rewrite (sh_single _ _ _ Hh _ _ _ _ Hrow Hr).
    + intros. rewrite lookup_insert_ne by congruence. rewrite lookup_delete_ne; [done|]. congruence.
Qed.

(** The write of one accepted event. *)
Lemma commit_holds now key tasks es e s s1 v snapshot metadata d d' :
  stream_holds d key es -> event_ok e -> apply_all agg_default es = Some s -> agg_apply s e = Some s1 ->
  snapshot = None \/ snapshot = Some (key, state_to_json s1, v + 1) -> version_of d key v ->
  committed now (agg_type St)
    {| se_aggregate_id := key; se_sequence := Z.of_nat (length es) + 1; se_event_type := agg_event_type e;
       se_event_version := agg_event_version e; se_payload := event_to_json e; se_metadata := metadata |}
    tasks snapshot d d' ->
  stream_holds d' key (es ++ [e]) /\ others_kept key d d' /\ tasks_added tasks d d'.
Proof.
  intros Hh Hok Hs Hs1 Hsn Hv (Hfree & Hev & Hnd & Hin & Hout & Hsnap). simpl in *.
  assert (Hall : apply_all agg_default (es ++ [e]) = Some s1) by (by rewrite apply_all_app, Hs).
  assert (Hkeep : (forall n row, snapshots d' !! key_of key n = Some row ->
      snapshots d !! key_of key n = Some row /\ snapshot = None \/
      n = Z.of_nat (length es) + 1 /\ snapshot <> None /\
      row = {| sr_current_snapshot := v + 1; sr_payload := state_to_json s1 |}) /\
    (forall ty' key' n, (ty', key') <> (agg_type St, key) ->
       snapshots d' !! (ty', key', n) = snapshots d !! (ty', key', n))).
  { destruct Hsn as [->| ->]; [rewrite Hsnap; naive_solver|].
    destruct (snapshot_stored_lookup _ _ _ _ _ _ _ Hh Hv Hsnap) as [Hnew Hkeep].
    split; [|done]. intros n row Hr. right. by destruct (Hnew n row Hr). }
  destruct Hkeep as [Hnew Hkeep]. split_and!.
  - split.
    + eapply stream_stored_snoc; [apply Hh| |exact Hev]. done.
    + apply Forall_app; split; [apply Hh|by constructor].
    + by rewrite Hall.
    + intros n row [[Hr ->]|(-> & _ & ->)]%Hnew.
      * apply (sh_snapshot _ _ _ Hh) in Hr as (Hn & ? & s' & ? & ?).
        rewrite length_app. split; [lia|]. split; [done|]. exists s'. by rewrite take_app_le by lia.
      * rewrite length_app. simpl. split; [lia|]. split.
        { destruct Hv as [[-> _]|(m & row & Hr & <-)]; [lia|].
          apply (sh_snapshot _ _ _ Hh) in Hr as (_ & ? & _). lia. }
        exists s1. split; [|done]. rewrite take_ge; [done|]. rewrite length_app. simpl. lia.
    + intros n n' row row' Hr Hr'.
      apply Hnew in Hr as [[Hr Hs0]|(-> & ? & _)]; apply Hnew in Hr' as [[Hr' ?]|(-> & ? & _)]; try done.
      by eapply (sh_single _ _ _ Hh).
  - intros ty' key' n Hne. split; [|by apply Hkeep]. rewrite Hev, lookup_insert_ne; [done|]. congruence.
  - split_and!; [done| |done]. intros t Ht. destruct (Hin t Ht) as (Hnone & Hck & Hrow).
    split; [done|]. eexists. split; [exact Hrow|]. by split_and!.
Qed.

(** A taken position: the stream has grown since it was read. *)
Lemma stream_position_free d key es es0 :
  stream_stored d key es -> es0 `prefix_of` es ->
  events d !! key_of key (Z.of_nat (length es0) + 1) = None -> es = es0.
Proof.
  intros Hs [k ->] Hn. specialize (Hs (Z.of_nat (length es0) + 1)). rewrite Hn in Hs.
  rewrite nth_event_succ, Nat2Z.id, lookup_app_r, Nat.sub_diag in Hs by lia.
  destruct k; [by rewrite app_nil_r|done].
Qed.

(** A run that wrote decided on the stream it found. *)
Lemma written_committed tasks key c d0 d1 d2 es0 es1 s e s1 n v now sn md :
  stream_holds d0 key es0 -> stream_holds d1 key es1 -> es0 `prefix_of` es1 ->
  (es1 = es0 -> forall n, snapshots d1 !! key_of key n = snapshots d0 !! key_of key n) ->
  loads d0 key s n v -> agg_handle s c = Some (Ok [e]) -> event_ok e -> agg_apply s e = Some s1 ->
  sn = None \/ sn = Some (key, state_to_json s1, v + 1) ->
  (exists e0, serialize key md n [e] = [e0] /\ committed now (agg_type St) e0 tasks sn d1 d2) ->
  es1 = es0 /\ run_committed tasks key c es1 d1 d2.
Proof.
  intros Hh0 Hh1 Hpre Hsame Hl He Hok Hs1 Hsn (e0 & [= <-] & Hcm).
  destruct (load_replays _ _ _ _ _ _ Hh0 Hl) as (Hs & -> & Hv).
  pose proof (proj1 Hcm) as Hfree. simpl in Hfree.
  assert (es1 = es0) as -> by (by eapply stream_position_free; [apply Hh1|..]).
  split; [done|]. exists s, e, s1. do 3 (split; [done|]). eapply (commit_holds _ _ _ _ _ s); try done.
  unfold version_of. by setoid_rewrite (Hsame eq_refl).
Qed.

(** The answer of a run that wrote, or of one whose write was refused. *)
Lemma answer_of_write {d1 d2 : db} {committed_run : Prop} r :
  (r = Ok tt -> committed_run) ->
  (r <> Ok tt -> d2 = d1 \/ exists le, link_ok (LosesReply le) /\ r = Err (map_sqlx_error le) /\ committed_run) ->
  let answer := Some (map_err aggregate_error_of r) in
  (d2 = d1 /\ answer <> Some (Ok tt) \/
   committed_run /\ (answer = Some (Ok tt) \/ exists err, technical err /\ answer = Some (Err err))) /\
  (forall e, answer = Some (Err (UserError e)) -> False) /\
  (answer = Some (Err AggregateConflict) -> d2 = d1).
Proof.
  intros Hok Herr. destruct r as [[]|pe]; simpl.
  - split_and!; [right; split; [by apply Hok|by left]|done|done].
  - split; [|split; [by destruct pe|]]; destruct (Herr ltac:(done)) as [->|(le & Hlk & [= ->] & Hc)]; auto.
    + right. split; [done|]. right. eexists. split; [|reflexivity].
      unfold link_ok in Hlk. destruct (map_sqlx_error le); unfold technical; simpl; auto; done.
    + unfold link_ok in Hlk. by destruct (map_sqlx_error le).
Qed.

(** What one run does, whoever wrote since it read. *)
Definition run_result (tasks : list NewTask) (key : rstr) (c : C) (es0 es1 : list E) (d1 : db)
    (r : option (result (AggregateError D) unit)) (d2 : db) : Prop :=
  (d2 = d1 /\ r <> Some (Ok tt) \/
   (es1 = es0 /\ run_committed tasks key c es1 d1 d2) /\
     (r = Some (Ok tt) \/ exists err, technical err /\ r = Some (Err err))) /\
  (forall e, r = Some (Err (UserError e)) -> d2 = d1 /\
     exists s, apply_all agg_default es0 = Some s /\ agg_handle s c = Some (Err e)) /\
  (r = Some (Err AggregateConflict) -> d2 = d1).

Lemma run_effect tasks key c d0 d1 r d2 es0 es1 :
  stream_holds d0 key es0 -> stream_holds d1 key es1 -> es0 `prefix_of` es1 ->
  (es1 = es0 -> forall n, snapshots d1 !! key_of key n = snapshots d0 !! key_of key n) ->
  (forall s e, agg_handle s c = Some (Ok [e]) -> event_ok e) ->
  framework_run tasks key c d0 d1 r d2 -> run_result tasks key c es0 es1 d1 r d2.
Proof.
  intros Hh0 Hh1 Hpre Hsame Hnew Hrun.
  destruct Hrun as [err Ht|s n v e Hl He|s n v Hl He|s n v Hl Hp|s n v es s1 sn md l now r d2 Hl He Hs1 Hsn Hlk Hp].
  - split_and!; [left; split; [done|]; by destruct Ht as [->|[->| ->]]|..].
    + intros e [= ->]. by destruct Ht as [|[|]].
    + intros [= ->]. by destruct Ht as [|[|]].
  - split_and!; [by left| |done]. intros e' [= <-]. split; [done|].
    apply (load_replays _ _ es0) in Hl as [? _]; eauto.
  - apply accepted_one in He as (e & s' & ? & _). done.
  - split_and!; [by left|done|done].
  - pose proof (accepted_one _ _ _ He) as (e & s' & -> & Ha).
    rewrite apply_all_one in Hs1. simplify_eq.
    assert (Hsn' : sn = None \/ sn = Some (key, state_to_json s1, v + 1)).
    { destruct Hsn as [->|(s2 & Hs2 & ->)]; [by left|right].
      by rewrite (reapplied _ _ _ _ _ He Hs1 Hs2). }
    pose proof (written_committed tasks key c d0 d1 d2 es0 es1 s e s1 n v now sn md Hh0 Hh1 Hpre Hsame
      Hl He (Hnew _ _ He) Hs1 Hsn') as Hcom.
    pose proof (persist_command_cases (with_outbox repository_new tasks) l now (agg_type St)
      (serialize key md n [e]) sn d1) as Hc.
    rewrite Hp in Hc. destruct Hc as (_ & Hok & Herr).
    destruct (@answer_of_write d1 d2 (es1 = es0 /\ run_committed tasks key c es1 d1 d2) r) as (H1 & H2 & H3).
    + intros Hr. destruct (Hok Hr) as [Hcm|(? & _)]; [by apply Hcom|done].
    + intros Hr. destruct (Herr Hr) as [->|(le & -> & Hpe & Hcm)]; [by left|right]. eauto.
    + split_and!; [done| |done]. intros e' Hr'. by apply H2 in Hr'.
Qed.

(** Every row of a stream reads back, as the type and version it is stored under. *)
Lemma stored_event_typed d key es n row :
  stream_holds d key es -> events d !! key_of key n = Some row ->
  exists e, event_of_json (er_payload row) = Some e /\ event_ok e /\
    er_event_type row = agg_event_type e /\ er_event_version row = agg_event_version e.
Proof.
  intros Hh Hrow. pose proof (sh_events _ _ _ Hh n) as Hm. rewrite Hrow in Hm.
  destruct (nth_event es n) as [e|] eqn:En; [|done]. destruct Hm as (Ht & Hv & Hp).
  assert (He : event_ok e).
  { unfold nth_event in En. case_match; [|done]. pose proof (sh_ok _ _ _ Hh) as Hok.
    rewrite Forall_lookup in Hok. by apply (Hok _ _ En). }
  exists e. rewrite Hp, event_roundtrip by done. done.
Qed.

Lemma stored_snapshot_typed d key es n row :
  stream_holds d key es -> snapshots d !! key_of key n = Some row ->
  exists s, state_of_json (sr_payload row) = Some s /\ 1 <= n <= Z.of_nat (length es) /\
    1 <= sr_current_snapshot row /\ apply_all agg_default (take (Z.to_nat n) es) = Some s.
Proof.
  intros Hh Hrow. destruct (sh_snapshot _ _ _ Hh _ _ Hrow) as (Hn & Hv & s & Hs & Hp).
  exists s. rewrite Hp, state_roundtrip; [done|].
  eapply apply_all_ok; [apply default_ok| |done]. apply Forall_take, Hh.
Qed.

(** C17: loading an aggregate from its latest snapshot and the events after it is
    replaying the whole stream: whatever snapshots the store has kept, the load
    answers, with the state of the full replay and the position of the last
    event. *)
Theorem snapshot_load_is_replay d key es :
  stream_holds d key es ->
  (exists s n v, loads d key s n v) /\
  forall s n v, loads d key s n v ->
    apply_all agg_default es = Some s /\ n = Z.of_nat (length es).
Proof.
  intros Hh. split; [by apply load_exists with es|]. intros s n v Hl.
  by destruct (load_replays d key es s n v Hh Hl) as (? & ? & _).
Qed.

(** C16: commands are serializable.  A run reads its stream at one moment and
    writes at a later one, when other processes may have extended it.  If it
    wrote anything, nobody had: its decision was made on the very stream its
    event follows, its event, snapshot and tasks were added together and nothing
    else changed, and the stream still holds.  It reports success only then; a
    rejection or a conflict changed nothing. *)
Theorem runs_are_serializable tasks key c d0 d1 r d2 es0 es1 :
  stream_holds d0 key es0 -> stream_holds d1 key es1 -> es0 `prefix_of` es1 ->
  (es1 = es0 -> forall n, snapshots d1 !! key_of key n = snapshots d0 !! key_of key n) ->
  (forall s e, agg_handle s c = Some (Ok [e]) -> event_ok e) ->
  framework_run tasks key c d0 d1 r d2 ->
  (d2 = d1 /\ r <> Some (Ok tt) \/
   (es1 = es0 /\ run_committed tasks key c es1 d1 d2) /\
     (r = Some (Ok tt) \/ exists err, technical err /\ r = Some (Err err))) /\
  (forall e, r = Some (Err (UserError e)) -> d2 = d1 /\
     exists s, apply_all agg_default es0 = Some s /\ agg_handle s c = Some (Err e)) /\
  (r = Some (Err AggregateConflict) -> d2 = d1).
Proof. exact (run_effect tasks key c d0 d1 r d2 es0 es1). Qed.
End Store.
