(* ===== verification/Tables.v ===== *)
(** * The registration system on its tables

    Commands of many processes, each reading the event store at one moment and
    writing at a later one, and the transactions of the task queue, on the
    PostgreSQL tables themselves.  The tables represent a world of [System] at
    every moment ([represents]), so that its theorems hold of the stored rows. *)

From S2P Require Import Prelude DomainValues EmailReservation UserAccount FloatTime Binary64 TaskData.
From S2P Require Import Database EventRepository CommandRetry TaskQueue TaskHandling Application.
From S2P Require Import System EventCodec EventStore.
#[local] Open Scope Z_scope.

(** ** What the queue leaves alone *)

Definition tasks_kept (d d' : db) : Prop :=
  outbox_ok d' /\ events d' = events d /\ snapshots d' = snapshots d /\
  forall i, option_Forall2 same_task (outbox d !! i) (outbox d' !! i).

Lemma tasks_kept_same d : outbox_ok d -> tasks_kept d d.
Proof. intros Hok. split_and!; [done..|]. intros i. destruct (outbox d !! i); by constructor. Qed.

Lemma tasks_kept_update d id r r' :
  outbox_ok d -> outbox_check r' = true -> outbox d !! id = Some r -> same_task r r' ->
  tasks_kept d (set_outbox d (<[id := r']> (outbox d))).
Proof.
  intros Hok Hc Hr Hs. split_and!; [|done..|].
  - intros i x. simpl. intros [[<- <-]|[? ?]]%lookup_insert_Some; [done|by apply (Hok i)].
  - intros i. simpl. destruct (decide (i = id)) as [->|].
    + rewrite lookup_insert_eq, Hr. by constructor.
    + rewrite lookup_insert_ne by done. destruct (outbox d !! i); by constructor.
Qed.

Lemma claim_keeps env format owner limit lease d :
  outbox_ok d -> tasks_kept d (claim env format owner limit lease d).2.
Proof.
  intros Hok. destruct (claim_effect env format owner limit lease d Hok) as [->|(He & Hs & Ho)];
    [by apply tasks_kept_same|].
  split_and!; [|done..|].
  - intros i r. rewrite Ho. case_decide as Hi; [|apply (Hok i)].
    intros (r0 & Hr0 & ->)%fmap_Some. apply select_sound in Hi as (r1 & Hr1 & Hk). simplify_eq.
    apply claimed_row_ok; [by apply (Hok i)|by eapply ready_pending].
  - intros i. rewrite Ho. case_decide; destruct (outbox d !! i); by constructor.
Qed.

Lemma settle_keeps env task request d : outbox_ok d -> tasks_kept d (settle env task request d).2.
Proof.
  intros Hok. destruct (settle env task request d) as [res d'] eqn:Es. simpl.
  apply settle_effect in Es as [->|(r & Hc & Hck & ->)]; [by apply tasks_kept_same|].
  unfold current_lease in Hc. destruct (outbox d !! _) as [r0|] eqn:Er; simplify_eq/=.
  case_decide; simplify_eq. by eapply tasks_kept_update.
Qed.

Lemma requeue_keeps now id d : outbox_ok d -> tasks_kept d (requeue_failed now id d).
Proof.
  intros Hok. unfold requeue_failed. destruct (outbox d !! id) as [r|] eqn:Er; [|by apply tasks_kept_same].
  case_bool_decide; [|by apply tasks_kept_same].
  eapply tasks_kept_update; [done|apply requeue_row_ok; by apply (Hok id)|done|done].
Qed.

Lemma recover_keeps `{F64Laws} env limit d res :
  outbox_ok d -> 0 <= limit -> (forall id, jitter_in_range (re_jitter env id)) ->
  recover_expired env limit d = Some res -> tasks_kept d res.2.
Proof.
  intros Hok Hl Hj Hr. destruct (recover_effect env limit d res Hj Hok Hl Hr) as [->|(He & Hs & Hout & Hin)];
    [by apply tasks_kept_same|].
  split_and!; [|done..|]; intros i; destruct (decide (i ∈ expired_ids env limit d)) as [Hi|Hi].
  - intros r0. destruct (Hin i Hi) as (r & ms & Hrow & ->). intros [= <-].
    apply recovered_row_ok. by apply (Hok i).
  - intros r0. rewrite Hout by done. apply (Hok i).
  - destruct (Hin i Hi) as (r & ms & -> & ->). by constructor.
  - rewrite Hout by done. destruct (outbox d !! i); by constructor.
Qed.

(** ** Processes on the tables *)

Section Machine.
Context `{F64Laws, UuidLaws, EmailLaws, ChronoLaws}.

(** A task in the outbox, and an account ID some stored event has issued. *)
Definition task_stored (d : db) (t : NewTask) : Prop :=
  nt_schedule t = Now /\ exists r, outbox d !! nt_id t = Some r /\ carries r t.
Definition id_issued (d : db) (id : UserAccountId) : Prop :=
  exists key n row e code, events d !! (agg_type EmailReservation, key, n) = Some row /\
    event_stored (St := EmailReservation) row e /\ issued e = Some (id, code).

(** The commands the use cases and task handlers issue: addresses were parsed,
    generated IDs are new, profiles are normalized, and a continuation follows a
    stored task. *)
Definition email_source (d : db) (c : EmailReservationCommand) (tasks : list NewTask) : Prop :=
  email_valid (command_email c) /\
  match c with
  | ReserveEmail em id code | RequestVerificationCode em id code =>
    ~ id_issued d id /\ exists t, tasks = [t] /\ send_task em id code t
  | VerifyEmail em id code digest => tasks = []
  | SubmitRegistrationProfile em id digest p =>
    profile_normalize p = p /\ exists t, tasks = [t] /\ create_task em id p t
  | RecordAccountCreated em id p at_ =>
    tasks = [] /\ exists t, task_stored d t /\ record_task em id p at_ t
  end.
Definition account_source (d : db) (c : UserAccountCommand) (tasks : list NewTask) : Prop :=
  match c with
  | CreateAccount id em f l dob vd at_ =>
    exists p t t', f = first_name p /\ l = last_name p /\ dob = date_of_birth p /\
      vd = validation_date p /\ email_valid em /\ task_stored d t /\ create_task em id p t /\
      tasks = [t'] /\ record_task em id p at_ t'
  end.

(** A command run on the tables [d] after the earlier states [past], one of
    which it read. *)
Inductive command_step (past : list db) (d : db) : db -> Prop :=
| table_email c tasks d0 r d' :
    d0 ∈ d :: past -> email_source d c tasks ->
    framework_run (St := EmailReservation) tasks (email_aggregate_id c) c d0 d r d' ->
    command_step past d d'
| table_account c tasks d0 r d' :
    d0 ∈ d :: past -> account_source d c tasks ->
    framework_run (St := UserAccount) tasks (account_aggregate_id c) c d0 d r d' ->
    command_step past d d'.

(** The transactions of the queue that no handler asks for. *)
Inductive queue_write (d : db) : db -> Prop :=
| table_claim env format owner limit lease :
    queue_write d (claim env format owner limit lease d).2
| table_recover env limit res :
    0 <= limit -> (forall id, jitter_in_range (re_jitter env id)) ->
    recover_expired env limit d = Some res -> queue_write d res.2
| table_requeue now id :
    queue_write d (requeue_failed now id d).

Inductive table_step (past : list db) (d : db) : db -> Prop :=
| table_command d' : command_step past d d' -> table_step past d d'
| table_queue d' : queue_write d d' -> table_step past d d'
| table_settle env task request : table_step past d (settle env task request d).2.

(** The states of the tables so far, the latest first. *)
Inductive trace : list db -> Prop :=
| trace_start : trace [empty_db]
| trace_next past d d' : trace (d :: past) -> table_step past d d' -> trace (d' :: d :: past).

(** ** The world the tables represent *)

Record represents (d : db) (w : world) : Prop := {
  rep_reservations key : stream_holds (St := EmailReservation) d key (stream w key);
  rep_accounts key : stream_holds (St := UserAccount) d key (account_stream w key);
  rep_outbox : outbox_ok d;
  rep_published t : t ∈ published w -> task_stored d t;
  rep_rows i r : outbox d !! i = Some r -> exists t, t ∈ published w /\ nt_id t = i /\ carries r t;
}.

(** How the tables of an earlier moment relate to later ones. *)
Definition evolves (d0 : db) (w0 : world) (d : db) (w : world) : Prop :=
  (forall key, stream w0 key `prefix_of` stream w key /\
     (stream w key = stream w0 key -> forall n,
        snapshots d !! (agg_type EmailReservation, key, n)
        = snapshots d0 !! (agg_type EmailReservation, key, n))) /\
  (forall key, account_stream w0 key `prefix_of` account_stream w key /\
     (account_stream w key = account_stream w0 key -> forall n,
        snapshots d !! (agg_type UserAccount, key, n)
        = snapshots d0 !! (agg_type UserAccount, key, n))).

(** What a process that read [d0] knows of the present. *)
Definition reads_from (d0 d : db) (w : world) : Prop :=
  exists w0, represents d0 w0 /\ rtc wstep empty_world w0 /\ evolves d0 w0 d w.

Definition trace_inv (past : list db) (d : db) : Prop :=
  exists w, represents d w /\ rtc wstep empty_world w /\
    forall d0, d0 ∈ d :: past -> reads_from d0 d w.

(** ** Every step keeps the representation *)

Lemma carries_same r r' t : same_task r r' -> carries r t <-> carries r' t.
Proof. intros (_ & _ & _ & Ht & Hv & Hp & Hm & _ & Hx). unfold carries. by rewrite Ht, Hv, Hp, Hm, Hx. Qed.

Lemma represents_kept d d' w : represents d w -> tasks_kept d d' -> represents d' w.
Proof.
  intros Hr (Hok & He & Hs & Ho). split; [..|done| |].
  - intros key. eapply stream_holds_ext; [apply Hr|by rewrite He|by rewrite Hs].
  - intros key. eapply stream_holds_ext; [apply Hr|by rewrite He|by rewrite Hs].
  - intros t [Hn (r & Hrow & Hc)]%(rep_published _ _ Hr). split; [done|]. specialize (Ho (nt_id t)).
    rewrite Hrow in Ho. inversion Ho as [? r' Hsame E1 E2|]; simplify_eq. exists r'. split; [done|].
    by apply (carries_same r).
  - intros i r' Hr'. specialize (Ho i). rewrite Hr' in Ho.
    inversion Ho as [r ? Hsame E1 E2|]; simplify_eq.
    destruct (rep_rows _ _ Hr i r) as (t & ? & ? & ?); [done|]. exists t. split_and!; [done..|].
    by apply (carries_same r).
Qed.

(** Publishing tasks. *)
Lemma outbox_added tasks d d' w published' :
  represents d w -> tasks_added tasks d d' -> Forall (fun t => nt_schedule t = Now) tasks ->
  published' = published w ++ tasks ->
  outbox_ok d' /\ (forall t, t ∈ published' -> task_stored d' t) /\
  (forall i r, outbox d' !! i = Some r -> exists t, t ∈ published' /\ nt_id t = i /\ carries r t).
Proof.
  intros Hr (Hnd & Hin & Hout) Hnow ->. rewrite Forall_forall in Hnow. split_and!.
  - intros i r Hi. destruct (decide (i ∈ (nt_id <$> tasks))) as [Ht|Ht].
    + apply list_elem_of_fmap in Ht as (t & -> & Ht). destruct (Hin t Ht) as (_ & r' & Hr' & ? & _ & _).
      by simplify_eq.
    + rewrite Hout in Hi by done. by apply (rep_outbox _ _ Hr i).
  - intros t [Ht|Ht]%elem_of_app.
    + destruct (rep_published _ _ Hr t Ht) as [Hn (r & Hrow & Hc)]. split; [done|]. exists r.
      rewrite Hout; [done|]. intros (t' & Heq & Ht')%list_elem_of_fmap.
      destruct (Hin t' Ht') as [Hno _]. by rewrite <- Heq, Hrow in Hno.
    + destruct (Hin t Ht) as (_ & r & ? & _ & ? & _). split; [by apply Hnow|eauto].
  - intros i r Hi. destruct (decide (i ∈ (nt_id <$> tasks))) as [Ht|Ht].
    + apply list_elem_of_fmap in Ht as (t & -> & Ht). destruct (Hin t Ht) as (_ & r' & Hr' & _ & ? & _).
      simplify_eq. exists t. split_and!; [apply elem_of_app; by right|done|done].
    + rewrite Hout in Hi by done. destruct (rep_rows _ _ Hr i r Hi) as (t & ? & ? & ?).
      exists t. split_and!; [apply elem_of_app; by left|done|done].
Qed.

(** *** Commands come from where [System] expects them *)

Lemma stored_task_published d w t : represents d w -> task_stored d t -> t ∈ published w.
Proof.
  intros Hr [Hn (r & Hrow & Hc)]. destruct (rep_rows _ _ Hr _ _ Hrow) as (t' & Ht' & Hid & Hc').
  destruct (rep_published _ _ Hr t' Ht') as [Hn' _].
  assert (t = t') as ->; [|done].
  destruct t as [i [ty v] pl md sc mx], t' as [i' [ty' v'] pl' md' sc' mx']. unfold carries in *. simpl in *.
  destruct Hc as (? & ? & ? & ? & ?), Hc' as (? & ? & ? & ? & ?). congruence.
Qed.

Lemma issued_stored d w key id : represents d w -> issues (stream w key) id -> id_issued d id.
Proof.
  intros Hr (e & code & [i Hi]%list_elem_of_lookup & He).
  pose proof (sh_events _ _ _ (rep_reservations _ _ Hr key) (Z.of_nat i + 1)) as Hm.
  rewrite nth_event_succ, Nat2Z.id, Hi in Hm by lia. simpl in Hm.
  destruct (events d !! _) as [row|] eqn:Erow; [|done]. by exists key, (Z.of_nat i + 1), row, e, code.
Qed.

Lemma email_source_origin d w c tasks :
  represents d w -> email_source d c tasks -> email_origin w c tasks.
Proof.
  intros Hr [Hv Hs]. destruct c; simpl in *.
  - destruct Hs as [Hf Ht]. split_and!; [done| |done]. intros key Hi. by apply Hf, (issued_stored _ w key).
  - destruct Hs as [Hf Ht]. split_and!; [done| |done]. intros key Hi. by apply Hf, (issued_stored _ w key).
  - done.
  - done.
  - destruct Hs as [-> (t & Ht & Hrt)]. split_and!; [done..|]. exists t. split; [|done].
    by eapply stored_task_published.
Qed.

Lemma account_source_origin d w c tasks :
  represents d w -> account_source d c tasks -> account_origin w c tasks.
Proof.
  intros Hr Hs. destruct c; simpl in *. destruct Hs as (p & t & t' & Hf & Hl & Hb & Hvd & He & Ht & Hct & Htk & Hrt).
  exists p, t, t'. split_and!; try done. by eapply stored_task_published.
Qed.

Lemma new_task_now {P} `{TaskPayload P} tid (p : P) t : new_task tid p = Ok t -> nt_schedule t = Now.
Proof.
  unfold new_task, from_payload. destruct (map_err _ _); simpl; [|done]. destruct (ok_or _ _); simpl; [|done].
  destruct (validate_payload _); simpl; [|done]. by intros [= <-].
Qed.

Lemma email_source_now d c tasks : email_source d c tasks -> Forall (fun t => nt_schedule t = Now) tasks.
Proof.
  intros [_ Hs]. destruct c; simpl in Hs.
  1,2: destruct Hs as [_ (t & -> & tid & Ht)]; constructor; [exact (new_task_now _ _ _ Ht)|by apply Forall_nil].
  - by rewrite Hs.
  - destruct Hs as [_ (t & -> & tid & Ht)]. constructor; [exact (new_task_now _ _ _ Ht)|by apply Forall_nil].
  - by destruct Hs as [-> _].
Qed.

Lemma account_source_now d c tasks : account_source d c tasks -> Forall (fun t => nt_schedule t = Now) tasks.
Proof.
  destruct c. simpl. intros (p & t & t' & _ & _ & _ & _ & _ & _ & _ & -> & tid & Ht).
  constructor; [exact (new_task_now _ _ _ Ht)|by apply Forall_nil].
Qed.

Lemma email_event_ok c s e :
  email_valid (command_email c) -> EmailReservation.handle s c = Some (Ok [e]) -> reservation_event_ok e.
Proof.
  intros Hv (e' & s' & [= <-] & _ & Hl)%accepts_lifecycle.
  destruct Hl; simpl in *; unfold u32_MAX; try (split; [done|lia]); done.
Qed.

Lemma account_event_ok d c tasks s e :
  account_source d c tasks -> UserAccount.handle s c = Ok [e] -> email_valid (ca_email (event_account e)).
Proof.
  intros Hsrc Hh. destruct c. destruct Hsrc as (p & t & t' & _ & _ & _ & _ & He & _).
  pose proof (handle_created_inv _ _ _ Hh) as [Hs _]. apply handle_absent in Hh as [_ [= ->]]; [done|done].
Qed.

Lemma account_apply_all (es : list UserAccountEvent) :
  apply_all (S := UserAccount) agg_default es = Some (UserAccount.replay es).
Proof.
  induction es as [|e es IH] using rev_ind; [done|].
  by rewrite apply_all_app, IH, account_replay_snoc.
Qed.

(** *** The commits *)

Lemma types_differ (key key' : rstr) : (agg_type UserAccount, key) <> (agg_type EmailReservation, key').
Proof. intros [= ?]. Qed.

Lemma represents_email_commit d d' w c e tasks :
  represents d w -> Forall (fun t => nt_schedule t = Now) tasks ->
  stream_holds d' (email_aggregate_id c) (stream w (email_aggregate_id c) ++ [e]) ->
  others_kept (St := EmailReservation) (email_aggregate_id c) d d' -> tasks_added tasks d d' ->
  represents d' (email_commit w c [e] tasks).
Proof.
  intros Hr Hn Hh Hk Ht. destruct (outbox_added tasks d d' w _ Hr Ht Hn eq_refl) as (Hok & Hp & Hrow).
  split; [| |done..].
  - intros key. rewrite stream_commit. case_decide as Hkey; [by subst|].
    eapply stream_holds_ext; [apply Hr|..]; intros n; apply Hk; congruence.
  - intros key. eapply stream_holds_ext; [apply Hr|..]; intros n; apply Hk, types_differ.
Qed.

Lemma represents_account_commit d d' w c e tasks :
  represents d w -> Forall (fun t => nt_schedule t = Now) tasks ->
  stream_holds d' (account_aggregate_id c) (account_stream w (account_aggregate_id c) ++ [e]) ->
  others_kept (St := UserAccount) (account_aggregate_id c) d d' -> tasks_added tasks d d' ->
  represents d' (account_commit w c [e] tasks).
Proof.
  intros Hr Hn Hh Hk Ht. destruct (outbox_added tasks d d' w _ Hr Ht Hn eq_refl) as (Hok & Hp & Hrow).
  split; [| |done..].
  - intros key. eapply stream_holds_ext; [apply Hr|..]; intros n; apply Hk; intros Heq; symmetry in Heq;
      by apply types_differ in Heq.
  - intros key. rewrite account_stream_commit. case_decide as Hkey; [by subst|].
    eapply stream_holds_ext; [apply Hr|..]; intros n; apply Hk; congruence.
Qed.

(** A grown stream is never an earlier one. *)
Lemma grown_prefix {A} (l0 l : list A) x : l0 `prefix_of` l -> l ++ [x] <> l0.
Proof. intros Hp%prefix_length Heq. apply (f_equal length) in Heq. rewrite length_app in Heq. simpl in Heq. lia. Qed.

Lemma evolves_email_commit d0 w0 d w d' c e tasks :
  evolves d0 w0 d w -> others_kept (St := EmailReservation) (email_aggregate_id c) d d' ->
  evolves d0 w0 d' (email_commit w c [e] tasks).
Proof.
  intros [He Ha] Hk. split.
  - intros key. rewrite stream_commit. destruct (He key) as [Hp Hs]. case_decide as Hkey.
    + split; [by apply prefix_app_r|]. intros Heq. by apply grown_prefix in Heq.
    + split; [done|]. intros Heq n. rewrite <- (Hs Heq). apply Hk. congruence.
  - intros key. destruct (Ha key) as [Hp Hs]. split; [done|]. intros Heq n. rewrite <- (Hs Heq).
    apply Hk, types_differ.
Qed.

Lemma evolves_account_commit d0 w0 d w d' c e tasks :
  evolves d0 w0 d w -> others_kept (St := UserAccount) (account_aggregate_id c) d d' ->
  evolves d0 w0 d' (account_commit w c [e] tasks).
Proof.
  intros [He Ha] Hk. split.
  - intros key. destruct (He key) as [Hp Hs]. split; [done|]. intros Heq n. rewrite <- (Hs Heq).
    apply Hk. intros Heq'. symmetry in Heq'. by apply types_differ in Heq'.
  - intros key. rewrite account_stream_commit. destruct (Ha key) as [Hp Hs]. case_decide as Hkey.
    + split; [by apply prefix_app_r|]. intros Heq. by apply grown_prefix in Heq.
    + split; [done|]. intros Heq n. rewrite <- (Hs Heq). apply Hk. congruence.
Qed.

Lemma evolves_kept d0 w0 d w d' : evolves d0 w0 d w -> snapshots d' = snapshots d -> evolves d0 w0 d' w.
Proof. intros [He Ha] Hs. unfold evolves. rewrite Hs. done. Qed.

Lemma evolves_refl d w : evolves d w d w.
Proof. by split; intros key. Qed.

(** *** Every step is a step of the world, or none *)

(** What a step of the tables does to the world they represent. *)
Definition simulates (d : db) (w : world) (d' : db) (w' : world) : Prop :=
  (w' = w \/ wstep w w') /\ represents d' w' /\
  forall d0 w0, evolves d0 w0 d w -> evolves d0 w0 d' w'.

Lemma kept_simulates d w d' : represents d w -> tasks_kept d d' -> simulates d w d' w.
Proof.
  intros Hr Hk. split_and!; [by left|by eapply represents_kept|].
  intros d0 w0 Hev. eapply evolves_kept; [done|]. by destruct Hk as (_ & _ & ? & _).
Qed.

Lemma stuttering d w : represents d w -> simulates d w d w.
Proof. intros Hr. split_and!; [by left|done|done]. Qed.

Lemma email_run_simulates d0 w0 d w c tasks r d' :
  represents d0 w0 -> represents d w -> evolves d0 w0 d w -> email_source d c tasks ->
  framework_run (St := EmailReservation) tasks (email_aggregate_id c) c d0 d r d' ->
  exists w', simulates d w d' w'.
Proof.
  intros Hr0 Hr Hev Hsrc Hrun.
  destruct (run_effect tasks (email_aggregate_id c) c d0 d r d' _ _
    (rep_reservations _ _ Hr0 _) (rep_reservations _ _ Hr _)) as ([[-> _]|((_ & Hc) & _)] & _);
    [apply Hev|apply Hev| |done| |].
  - intros s e. by apply email_event_ok, Hsrc.
  - exists w. by apply stuttering.
  - destruct Hc as (s & e & s1 & Hs & Hh & _ & Hst & Hk & Ht). exists (email_commit w c [e] tasks). split_and!.
    + right. apply ws_email; [|by eapply email_source_origin].
      unfold email_decision. change (EmailReservation.replay ?es) with (apply_all (S := EmailReservation) agg_default es).
      by rewrite Hs.
    + apply (represents_email_commit d d' w c e tasks); [done|by eapply email_source_now|done..].
    + intros d1 w1 Hev'. by apply (evolves_email_commit _ _ d).
Qed.

Lemma account_run_simulates d0 w0 d w c tasks r d' :
  represents d0 w0 -> represents d w -> evolves d0 w0 d w -> account_source d c tasks ->
  framework_run (St := UserAccount) tasks (account_aggregate_id c) c d0 d r d' ->
  exists w', simulates d w d' w'.
Proof.
  intros Hr0 Hr Hev Hsrc Hrun.
  destruct (run_effect tasks (account_aggregate_id c) c d0 d r d' _ _
    (rep_accounts _ _ Hr0 _) (rep_accounts _ _ Hr _)) as ([[-> _]|((_ & Hc) & _)] & _);
    [apply Hev|apply Hev| |done| |].
  - intros s e [= Hh]. by eapply account_event_ok.
  - exists w. by apply stuttering.
  - destruct Hc as (s & e & s1 & Hs & Hh & _ & Hst & Hk & Ht). exists (account_commit w c [e] tasks). split_and!.
    + right. apply ws_account; [|by eapply account_source_origin].
      rewrite account_apply_all in Hs. injection Hs as <-. by injection Hh as Hh.
    + apply (represents_account_commit d d' w c e tasks); [done|by eapply account_source_now|done..].
    + intros d1 w1 Hev'. by apply (evolves_account_commit _ _ d).
Qed.

Lemma queue_write_keeps d d' : outbox_ok d -> queue_write d d' -> tasks_kept d d'.
Proof.
  intros Hok [env format owner limit lease|env limit res Hl Hj Hres|now id].
  - by apply claim_keeps.
  - by eapply recover_keeps.
  - by apply requeue_keeps.
Qed.

Lemma step_simulates past d w d' :
  represents d w -> (forall d0, d0 ∈ d :: past -> reads_from d0 d w) ->
  table_step past d d' -> exists w', simulates d w d' w'.
Proof.
  intros Hr Hpast Hs. pose proof (rep_outbox _ _ Hr) as Hok.
  destruct Hs as [d' [c tasks d0 r d1 Hd0 Hsrc Hrun|c tasks d0 r d1 Hd0 Hsrc Hrun]|d' Hq|env task request].
  - destruct (Hpast d0 Hd0) as (w0 & ? & _ & ?). by eapply email_run_simulates.
  - destruct (Hpast d0 Hd0) as (w0 & ? & _ & ?). by eapply account_run_simulates.
  - exists w. by apply kept_simulates, queue_write_keeps.
  - exists w. by apply kept_simulates, settle_keeps.
Qed.

Lemma represents_empty : represents empty_db empty_world.
Proof.
  split; [intros key; apply stream_holds_empty..| | |].
  - intros i r. simpl. by rewrite lookup_empty.
  - intros t ?%not_elem_of_nil. done.
  - intros i r. simpl. by rewrite lookup_empty.
Qed.

Lemma trace_holds past d : trace (d :: past) -> trace_inv past d.
Proof.
  remember (d :: past) as tr eqn:E. intros Ht. revert d past E.
  induction Ht as [|past d d' Ht IH Hs]; intros d1 past1 [= <- <-].
  - exists empty_world. split_and!; [apply represents_empty|done|].
    intros d0 ->%list_elem_of_singleton. exists empty_world. split_and!; [apply represents_empty|done|apply evolves_refl].
  - destruct (IH d past eq_refl) as (w & Hr & Hw & Hpast).
    destruct (step_simulates past d w d' Hr Hpast Hs) as (w' & Hw' & Hr' & Hev).
    assert (Hw1 : rtc wstep empty_world w') by (destruct Hw' as [->|Hw']; [done|by eapply rtc_r]).
    exists w'. split_and!; [done..|].
    intros d0 [->|Hd0]%elem_of_cons; [exists w'; split_and!; [done..|apply evolves_refl]|].
    destruct (Hpast d0 Hd0) as (w0 & ? & ? & ?). exists w0. split_and!; [done..|by apply Hev].
Qed.

Lemma reachable_world w : rtc wstep empty_world w -> sys_inv w.
Proof.
  intros Hr. apply (rtc_preserves wstep sys_inv empty_world w); [|apply sys_inv_empty|done].
  intros w1 w2 Hi Hs. by eapply wstep_preserves.
Qed.

(** ** What holds of the stored rows *)

(** C15: the tables implement the registration system.  However many processes
    run commands, each reading the tables at some moment and writing at a later
    one, and whatever the queue's transactions and the connection faults do in
    between, the tables always represent a world that committed commands reach,
    and every step of theirs is one committed command of that world or
    invisible to it. *)
Theorem tables_refine_registration past d :
  trace (d :: past) ->
  exists w, represents d w /\ rtc wstep empty_world w /\
    forall d', table_step past d d' -> exists w', represents d' w' /\ (w' = w \/ wstep w w').
Proof.
  intros (w & Hr & Hw & Hpast)%trace_holds. exists w. split_and!; [done..|]. intros d' Hs.
  destruct (step_simulates past d w d' Hr Hpast Hs) as (w' & ? & ? & _). eauto.
Qed.

(** A row of a stream is one of its events. *)
Lemma row_event d w key n row a :
  represents d w -> events d !! (agg_type UserAccount, key, n) = Some row ->
  account_event_of_json (er_payload row) = Some a -> nth_event (account_stream w key) n = Some a.
Proof.
  intros Hr Hrow Ha. pose proof (rep_accounts _ _ Hr key) as Hh. pose proof (sh_events _ _ _ Hh n) as Hm.
  rewrite Hrow in Hm. destruct (nth_event _ n) as [e|] eqn:En; [|done]. simpl in Hm.
  destruct Hm as (_ & _ & Hp). rewrite Hp in Ha. simpl in Ha.
  rewrite account_event_roundtrip in Ha; [done|]. unfold nth_event in En. case_match; [|done].
  pose proof (sh_ok _ _ _ Hh) as Hok. rewrite Forall_lookup in Hok. by apply (Hok _ _ En).
Qed.

(** C19: at every moment the events table holds at most one account per e-mail
    address: two stored account events with the same address are the same row. *)
Theorem stored_accounts_are_unique past d key key' n n' row row' a a' :
  trace (d :: past) ->
  events d !! (agg_type UserAccount, key, n) = Some row ->
  events d !! (agg_type UserAccount, key', n') = Some row' ->
  account_event_of_json (er_payload row) = Some a -> account_event_of_json (er_payload row') = Some a' ->
  created_email a = created_email a' -> key = key' /\ n = n' /\ row = row'.
Proof.
  intros (w & Hr & Hw & _)%trace_holds Hrow Hrow' Ha Ha' Hem. apply reachable_world in Hw as Hi.
  pose proof (row_event _ _ _ _ _ _ Hr Hrow Ha) as Hn. pose proof (row_event _ _ _ _ _ _ Hr Hrow' Ha') as Hn'.
  unfold nth_event in Hn, Hn'. destruct (Z.leb_spec 1 n), (Z.leb_spec 1 n'); try done.
  destruct (accounts_unique w key key' a a' Hi) as [<- <-]; [by eapply list_elem_of_lookup_2..|done|].
  destruct (inv_accounts _ Hi key) as [Hnil|(em & id & p & at_ & t & _ & Hs & _)]; [by rewrite Hnil in Hn|].
  rewrite Hs in Hn, Hn'. apply lookup_lt_Some in Hn, Hn'. simpl in *.
  assert (n = n') as <- by lia. split_and!; [done..|congruence].
Qed.

(** The tasks behind the deliveries of a claim. *)
Lemma claimed_tasks d w env format owner limit lease tasks d' :
  represents d w -> claim env format owner limit lease d = (Ok tasks, d') ->
  claim_request_ok env limit lease /\
  forall lt, lt ∈ tasks -> lease_deadline (lt_lease lt) = ce_instant env + lease /\
    exists t, t ∈ published w /\ nt_id t = at_id (lt_attempt lt) /\ delivers (lt_attempt lt) t.
Proof.
  intros Hr Hc. destruct (claim_returns _ _ _ _ _ _ _ _ (rep_outbox _ _ Hr) Hc) as [Hreq Hret].
  split; [done|]. intros lt Hlt. destruct (Hret lt Hlt) as (id & r & Hrow & Hk & ->). split; [done|].
  destruct (rep_rows _ _ Hr id r Hrow) as (t & Ht & Hid & Hty & Hv & Hp & _).
  exists t. split_and!; [done..|]. split; simpl; [|done].
  unfold ready in Hk. zify_bool. destruct (nt_format t), format. simpl in *. congruence.
Qed.

(** A worker only ever receives published work: whatever a claim returns, at
    any moment, is a delivery of a task that a committed command published, under
    its own ID, and that task still means something: a code to send to a parsed
    address, an account to create for a registration that was accepted, or a
    completion to record for an account that exists. *)
Theorem claimed_deliveries_are_published past d env format owner limit lease tasks d' :
  trace (d :: past) -> claim env format owner limit lease d = (Ok tasks, d') ->
  exists w, represents d w /\ forall lt, lt ∈ tasks ->
    exists t, t ∈ published w /\ nt_id t = at_id (lt_attempt lt) /\ delivers (lt_attempt lt) t /\
      task_meaning w t.
Proof.
  intros (w & Hr & Hw & _)%trace_holds Hc. apply reachable_world in Hw as Hi. exists w. split; [done|].
  intros lt Hlt. destruct (proj2 (claimed_tasks _ _ _ _ _ _ _ _ _ Hr Hc) lt Hlt) as (_ & t & ? & ? & ?).
  exists t. split_and!; [done..|]. by apply (inv_tasks _ Hi).
Qed.

(** A row whose payload decodes as the type of its format. *)
Definition typed_as (P : Type) `{TaskPayload P} (r : outbox_row) : Prop :=
  ob_task_type r = TASK_TYPE P /\ ob_task_version r = TASK_VERSION P /\ is_Some (from_value (P := P) (ob_payload r)).

Lemma new_task_typed {P} `{TaskPayloadLaws P} tid (p : P) t r :
  payload_ok p -> new_task tid p = Ok t -> carries r t -> typed_as P r.
Proof.
  intros Hp Hn (Hty & Hv & Hpl & _). destruct (new_task_fields _ _ _ Hn) as (_ & Hf & Hval & _).
  apply (payload_roundtrip _ _ Hp) in Hval. unfold format_of, format_new in Hf.
  repeat case_match; try done. injection Hf as Hf. unfold typed_as. rewrite Hty, Hv, Hpl, <- Hf, Hval. by eexists.
Qed.

Lemma meaning_typed w t r : task_meaning w t -> carries r t ->
  typed_as SendVerificationCodeTaskV1 r \/ typed_as CreateAccountTaskV1 r \/ typed_as RecordAccountCreatedTaskV1 r.
Proof.
  intros [(em & id & code & [tid Ht] & He & Hc)|[(em & id & p & [tid Ht] & He & _)
    |(em & id & p & at_ & [tid Ht] & He & _)]] Hr.
  - left. eapply new_task_typed; [|exact Ht|done]. split; simpl; [done|unfold u32_MAX; lia].
  - right; left. by eapply new_task_typed; [|exact Ht|done].
  - right; right. by eapply new_task_typed; [|exact Ht|done].
Qed.

(** C18: the tables are well typed.  At every moment every stored event decodes
    as an event of its aggregate, under the type and version of its columns;
    every snapshot decodes as the state its stream had at that position; and
    every outbox row satisfies the constraints of its table and holds a payload
    that decodes as the type its format names. *)
Theorem stored_rows_are_typed past d :
  trace (d :: past) ->
  (forall key n row, events d !! (agg_type EmailReservation, key, n) = Some row ->
     exists e, reservation_event_of_json (er_payload row) = Some e /\ reservation_event_ok e /\
       er_event_type row = EmailReservation.event_type e /\ er_event_version row = EmailReservation.event_version e) /\
  (forall key n row, events d !! (agg_type UserAccount, key, n) = Some row ->
     exists e, account_event_of_json (er_payload row) = Some e /\ email_valid (created_email e) /\
       er_event_type row = UserAccount.event_type e /\ er_event_version row = UserAccount.event_version e) /\
  (forall key n row, snapshots d !! (agg_type EmailReservation, key, n) = Some row ->
     exists s es, reservation_of_json (sr_payload row) = Some s /\ stream_stored d key es /\
       1 <= n <= Z.of_nat (length es) /\ apply_all agg_default (take (Z.to_nat n) es) = Some s) /\
  (forall key n row, snapshots d !! (agg_type UserAccount, key, n) = Some row ->
     exists s es, account_of_json (sr_payload row) = Some s /\ stream_stored d key es /\
       1 <= n <= Z.of_nat (length es) /\ apply_all agg_default (take (Z.to_nat n) es) = Some s) /\
  (forall i r, outbox d !! i = Some r -> outbox_check r = true /\
     (typed_as SendVerificationCodeTaskV1 r \/ typed_as CreateAccountTaskV1 r \/
      typed_as RecordAccountCreatedTaskV1 r)).
Proof.
  intros (w & Hr & Hw & _)%trace_holds. apply reachable_world in Hw as Hi. split_and!.
  - intros key n row Hrow. by apply (stored_event_typed (St := EmailReservation) _ _ _ _ _ (rep_reservations _ _ Hr key)) in Hrow.
  - intros key n row Hrow. apply (stored_event_typed (St := UserAccount) _ _ _ _ _ (rep_accounts _ _ Hr key)) in Hrow
      as (e & ? & ? & ? & ?). exists e. split_and!; try done. by destruct e.
  - intros key n row Hrow. apply (stored_snapshot_typed (St := EmailReservation) _ _ _ _ _ (rep_reservations _ _ Hr key)) in Hrow
      as (s & ? & ? & _ & ?). exists s, (stream w key). split_and!; [done|apply (rep_reservations _ _ Hr key)|lia|lia|done].
  - intros key n row Hrow. apply (stored_snapshot_typed (St := UserAccount) _ _ _ _ _ (rep_accounts _ _ Hr key)) in Hrow
      as (s & ? & ? & _ & ?). exists s, (account_stream w key). split_and!; [done|apply (rep_accounts _ _ Hr key)|lia|lia|done].
  - intros i r Hrow. split; [by apply (rep_outbox _ _ Hr i)|].
    destruct (rep_rows _ _ Hr i r Hrow) as (t & Ht & _ & Hc). by eapply meaning_typed; [apply (inv_tasks _ Hi)|].
Qed.
End Machine.

(** ** A registration on the tables *)

Module TableExample.
#[local] Existing Instance binary64.
#[local] Existing Instance binary64_laws.

(** Runs that write a snapshot with every event. *)
Section Runs.
Context {St C E D : Type} `{AggregateLaws St C E D}.

Definition written (tasks : list NewTask) (key : rstr) (n v : Z) (e : E) (s : St) (d : db) :
    result PersistenceError unit * db :=
  persist_command (with_outbox repository_new tasks) Healthy 0 (agg_type St)
    (serialize (St := St) key (JObject []) n [e]) (Some (key, state_to_json s, v + 1)) d.

Definition nothing_above (d : db) (key : rstr) (low : Z) : bool :=
  forallb (fun kr => negb (bool_decide (kr.1.1 = (agg_type St, key)) && (low <? kr.1.2)))
    (map_to_list (events d)).

Lemma nothing_above_rows d key low : nothing_above d key low = true -> rows_above (St := St) d key low [].
Proof.
  intros Hn. split; [constructor|]. intros n r. split; [by intros ?%not_elem_of_nil|]. intros [Hl Hr].
  unfold nothing_above in Hn. rewrite forallb_forall in Hn.
  specialize (Hn (agg_type St, key, n, r)). simpl in Hn.
  rewrite bool_decide_eq_true_2, (proj2 (Z.ltb_lt _ _)) in Hn by done. simpl in Hn.
  discriminate Hn. apply list_elem_of_In, elem_of_map_to_list, Hr.
Qed.

Lemma first_run tasks key c (e : E) (s1 : St) d :
  forallb (fun kr => negb (bool_decide (kr.1.1 = (agg_type St, key)))) (map_to_list (snapshots d)) = true ->
  nothing_above d key (-1) = true ->
  agg_handle agg_default c = Some (Ok [e]) -> agg_apply agg_default e = Some s1 ->
  agg_apply s1 e = Some s1 -> (written tasks key 0 0 e s1 d).1 = Ok tt ->
  framework_run tasks key c d d (Some (Ok tt)) (written tasks key 0 0 e s1 d).2.
Proof.
  intros Hs Hn Hh Ha Hr Hw. eapply (run_written _ _ _ _ _ agg_default 0 0 [e] s1 _ (JObject []) Healthy 0 (Ok tt)).
  - eapply (loads_events _ _ [] []); [|by apply nothing_above_rows|done|done].
    intros n. apply eq_None_not_Some. intros [row Hrow]. rewrite forallb_forall in Hs.
    specialize (Hs (agg_type St, key, n, row)). simpl in Hs. rewrite bool_decide_eq_true_2 in Hs by done.
    discriminate Hs. apply list_elem_of_In, elem_of_map_to_list, Hrow.
  - done.
  - done.
  - right. by exists s1.
  - done.
  - unfold written in *. rewrite <- Hw. apply surjective_pairing.
Qed.

Lemma next_run tasks key c (e : E) (s s1 : St) n row d :
  snapshots d !! (agg_type St, key, n) = Some row -> state_of_json (sr_payload row) = Some s ->
  nothing_above d key n = true ->
  agg_handle s c = Some (Ok [e]) -> agg_apply s e = Some s1 -> agg_apply s1 e = Some s1 ->
  (written tasks key n (sr_current_snapshot row) e s1 d).1 = Ok tt ->
  framework_run tasks key c d d (Some (Ok tt)) (written tasks key n (sr_current_snapshot row) e s1 d).2.
Proof.
  intros Hrow Hj Hn Hh Ha Hr Hw.
  eapply (run_written _ _ _ _ _ s n _ [e] s1 _ (JObject []) Healthy 0 (Ok tt)).
  - eapply (loads_snapshot _ _ n row s [] []); [done|done|by apply nothing_above_rows|done|done].
  - done.
  - done.
  - right. by exists s1.
  - done.
  - unfold written in *. rewrite <- Hw. apply surjective_pairing.
Qed.

Lemma holds_after tasks key c (e : E) (s : St) es d d' :
  stream_holds d key es -> apply_all agg_default es = Some s -> agg_handle s c = Some (Ok [e]) ->
  (forall s e, agg_handle s c = Some (Ok [e]) -> event_ok e) ->
  framework_run tasks key c d d (Some (Ok tt)) d' -> stream_holds d' key (es ++ [e]).
Proof.
  intros Hh Hs He Hok Hrun. destruct (run_effect tasks key c d d (Some (Ok tt)) d' es es Hh Hh) as (Hr & _); [done..|].
  destruct Hr as [[_ Hr]|((_ & s' & e' & s1 & Hs' & He' & _ & Hst & _) & _)]; [done|].
  simplify_eq. done.
Qed.
End Runs.

Abbreviation akey := (email_to_string ex_email).
Abbreviation ukey := (account_id_to_string ex_id).
Definition dg : rstr := digest (§"token").
Definition created_at : DateTime := Example.now empty_world.
Definition send_row : NewTask := Example.task_of 50%N
  {| sv_email := ex_email; sv_account_id := ex_id; sv_verification_code := 1234567 |}.

Definition c1 := ReserveEmail ex_email ex_id 1234567.
Definition c2 := VerifyEmail ex_email ex_id 1234567 dg.
Definition c3 := SubmitRegistrationProfile ex_email ex_id dg Example.profile.
Definition c4 := CreateAccount ex_id ex_email (first_name Example.profile) (last_name Example.profile)
  (date_of_birth Example.profile) (validation_date Example.profile) created_at.

Definition e1 := EmailReserved ex_email ex_id 1234567.
Definition e2 := EmailVerified ex_email ex_id dg.
Definition e3 := RegistrationProfileAccepted ex_email ex_id dg Example.profile.
Definition e4 := account_event ex_email ex_id Example.profile created_at.
Definition s1 := mk_EmailReservation (AwaitingCode ex_id 1234567).
Definition s2 := mk_EmailReservation (AwaitingProfile ex_id dg).
Definition s3 := mk_EmailReservation (CreatingAccount ex_id dg Example.profile).
Definition s4 : UserAccount := Eval vm_compute in stdpp.option.default agg_default (agg_apply agg_default e4).

Definition t1 : db := (written (St := EmailReservation) [send_row] akey 0 0 e1 s1 empty_db).2.
Definition t2 : db := (written (St := EmailReservation) [] akey 1 1 e2 s2 t1).2.
Definition t3 : db := (written (St := EmailReservation) [Example.creation_task] akey 2 2 e3 s3 t2).2.
Definition t4 : db := (written (St := UserAccount) [Example.completion_task] ukey 0 0 e4 s4 t3).2.

Definition snapshot_of (v : Z) (s : EmailReservation) : snapshot_row :=
  {| sr_current_snapshot := v; sr_payload := state_to_json s |}.

Lemma run1 : framework_run (St := EmailReservation) [send_row] akey c1 empty_db empty_db (Some (Ok tt)) t1.
Proof. apply (first_run _ _ _ e1 s1); vm_compute; reflexivity. Qed.
Lemma run2 : framework_run (St := EmailReservation) [] akey c2 t1 t1 (Some (Ok tt)) t2.
Proof. apply (next_run _ _ _ e2 s1 s2 1 (snapshot_of 1 s1)); vm_compute; reflexivity. Qed.
Lemma run3 : framework_run (St := EmailReservation) [Example.creation_task] akey c3 t2 t2 (Some (Ok tt)) t3.
Proof. apply (next_run _ _ _ e3 s2 s3 2 (snapshot_of 2 s2)); vm_compute; reflexivity. Qed.
Lemma run4 : framework_run (St := UserAccount) [Example.completion_task] ukey c4 t3 t3 (Some (Ok tt)) t4.
Proof. apply (first_run _ _ _ e4 s4); vm_compute; reflexivity. Qed.

Lemma trace1 : trace [t1; empty_db].
Proof.
  apply trace_next; [constructor|]. apply table_command; eapply (table_email _ _ c1); [apply list_elem_of_here| |apply run1].
  split; [apply ex_email_valid|]. split.
  - intros (key & n & row & e & code & Hr & _). simpl in Hr. by rewrite lookup_empty in Hr.
  - exists send_row. split; [done|]. exists 50%N. by vm_compute.
Qed.
Lemma trace3 : trace [t3; t2; t1; empty_db].
Proof.
  apply trace_next; [apply trace_next; [apply trace1|]|].
  - apply table_command; eapply (table_email _ _ c2); [apply list_elem_of_here| |apply run2]. by split; [apply ex_email_valid|].
  - apply table_command; eapply (table_email _ _ c3); [apply list_elem_of_here| |apply run3].
    split; [apply ex_email_valid|]. split; [by vm_compute|]. exists Example.creation_task. split; [done|].
    exists 51%N. by vm_compute.
Qed.
Lemma trace4 : trace [t4; t3; t2; t1; empty_db].
Proof.
  apply trace_next; [apply trace3|]. apply table_command; eapply (table_account _ _ c4); [apply list_elem_of_here| |apply run4].
  exists Example.profile, Example.creation_task, Example.completion_task.
  do 4 (split; [done|]). split_and!; [apply ex_email_valid| | |done|].
  - split; [done|]. eexists. split; [vm_compute; reflexivity|]. by vm_compute.
  - exists 51%N. by vm_compute.
  - exists (Example.fresh Example.w3). by vm_compute.
Qed.

Lemma holds1 : stream_holds (St := EmailReservation) t1 akey [e1].
Proof.
  apply (holds_after [send_row] akey c1 e1 agg_default [] empty_db);
    [apply stream_holds_empty|done|by vm_compute| |apply run1].
  intros s e. by apply email_event_ok, ex_email_valid.
Qed.
Lemma holds2 : stream_holds (St := EmailReservation) t2 akey [e1; e2].
Proof.
  apply (holds_after [] akey c2 e2 s1 [e1] t1); [apply holds1|by vm_compute|by vm_compute| |apply run2].
  intros s e. by apply email_event_ok, ex_email_valid.
Qed.

Lemma load2 : loads t2 akey s2 2 2.
Proof.
  apply (loads_snapshot t2 akey 2 (snapshot_of 2 s2) s2 [] []);
    [vm_compute; reflexivity..|apply nothing_above_rows; vm_compute; reflexivity|done|done].
Qed.
Lemma snapshot_load_is_replay_witness :
  apply_all (S := EmailReservation) agg_default [e1; e2] = Some s2 /\ 2 = Z.of_nat (length [e1; e2]).
Proof. exact (proj2 (snapshot_load_is_replay (St := EmailReservation) t2 akey [e1; e2] holds2) s2 2 2 load2). Defined.

Lemma runs_are_serializable_witness :
  run_committed (St := EmailReservation) [send_row] akey c1 [] empty_db t1.
Proof.
  destruct (runs_are_serializable (St := EmailReservation) [send_row] akey c1 empty_db empty_db
    (Some (Ok tt)) t1 [] [] (stream_holds_empty _) (stream_holds_empty _)) as (Hr & _);
    [done|done| |apply run1|by destruct Hr as [[_ Hr]|((_ & Hr) & _)]].
  intros s e. by apply email_event_ok, ex_email_valid.
Defined.

Lemma tables_refine_registration_witness : exists w, represents t4 w /\ rtc wstep empty_world w.
Proof.
  destruct (tables_refine_registration _ t4 trace4) as (w & Hr & Hw & _). by exists w.
Defined.

Definition account_row : event_row := {|
  er_event_type := agg_event_type e4; er_event_version := agg_event_version e4;
  er_payload := event_to_json e4; er_metadata := JObject [] |}.
Lemma stored_accounts_are_unique_witness :
  events t4 !! (agg_type UserAccount, ukey, 1) = Some account_row /\ ukey = ukey /\ 1 = 1 /\
  account_row = account_row.
Proof.
  split; [vm_compute; reflexivity|].
  apply (stored_accounts_are_unique [t3; t2; t1; empty_db] t4 ukey ukey 1 1 account_row account_row e4 e4 trace4);
    vm_compute; reflexivity.
Defined.

Lemma stored_rows_are_typed_witness :
  exists r, outbox t4 !! nt_id Example.completion_task = Some r /\ outbox_check r = true.
Proof.
  destruct (stored_rows_are_typed _ t4 trace4) as (_ & _ & _ & _ & Ho).
  destruct (outbox t4 !! nt_id Example.completion_task) as [r|] eqn:E; [|by vm_compute in E].
  exists r. split; [done|]. by apply (Ho _ _ E).
Defined.

Definition worker : claim_env := {|
  ce_instant := 0; ce_now := 10; ce_clock _ := 11; ce_token i := (i + 1000)%N; ce_locked _ := false;
  ce_fault := NoFault |}.
Definition claimed : list LeasedTask :=
  stdpp.option.default [] (result_ok (claim worker (nt_format Example.creation_task) (§"w") 5 (Duration.from_secs 60) t3).1).
Lemma claimed_deliveries_are_published_witness :
  lt_attempt <$> claimed = [Example.attempt 1 Example.creation_task] /\
  exists w, represents t3 w /\ forall lt, lt ∈ claimed ->
    exists t, t ∈ published w /\ nt_id t = at_id (lt_attempt lt) /\ delivers (lt_attempt lt) t /\
      task_meaning w t.
Proof.
  split; [vm_compute; reflexivity|].
  apply (claimed_deliveries_are_published _ t3 worker (nt_format Example.creation_task) (§"w") 5
    (Duration.from_secs 60) claimed
    (claim worker (nt_format Example.creation_task) (§"w") 5 (Duration.from_secs 60) t3).2 trace3).
  rewrite (surjective_pairing (claim _ _ _ _ _ _)) at 1. by f_equal.
Defined.
End TableExample.
