(* ===== verification/Recording.v ===== *)
(** * Handler runs, recorded

    A run of the application's dispatcher on a record of its own interactions:
    the gateways and the console answer from a list of replies, and every call is
    written down with the answer it got.  The dispatcher, the adapters and the
    handlers are those of [TaskHandling] and [Application]; only what they call is
    replaced.  [Processing] uses it to say which settlements an execution may
    request: those that follow from a run whose recorded calls did happen. *)

From S2P Require Import Prelude DomainValues EmailReservation UserAccount FloatTime TaskData Database.
From S2P Require Import CommandRetry TaskHandling Application System.
#[local] Open Scope Z_scope.

(** A call of a handler on its surroundings, with the answer. *)
Inductive interaction :=
| EmailCall (c : EmailReservationCommand) (tasks : list NewTask)
    (r : result (CommandGatewayError EmailReservationError) unit)
| AccountCall (c : UserAccountCommand) (tasks : list NewTask)
    (r : result (CommandGatewayError UserAccountError) unit)
| LineWritten (line : rstr) (ok : bool)
| LinesFlushed (ok : bool).

(** The answers to come. *)
Inductive reply :=
| EmailReply (r : result (CommandGatewayError EmailReservationError) unit)
| AccountReply (r : result (CommandGatewayError UserAccountError) unit)
| WriterReply (ok : bool).

Record recording := mk_recording { rec_replies : list reply; rec_calls : list interaction }.

(** A gateway that is not answered does not return. *)
#[export] Instance recorded_email_gateway : EmailReservationGateway recording := {|
  email_execute_with_outbox c tasks w :=
    match w with
    | mk_recording (EmailReply r :: replies) calls =>
      (Some r, mk_recording replies (calls ++ [EmailCall c tasks r]))
    | _ => (None, w)
    end |}.
#[export] Instance recorded_account_gateway : UserAccountGateway recording := {|
  account_execute_with_outbox c tasks w :=
    match w with
    | mk_recording (AccountReply r :: replies) calls =>
      (Some r, mk_recording replies (calls ++ [AccountCall c tasks r]))
    | _ => (None, w)
    end |}.

Definition next_write (w : recording) : bool * list reply :=
  match rec_replies w with WriterReply ok :: replies => (ok, replies) | replies => (false, replies) end.
Definition recorded_writer : Writer (W := recording) := {|
  write_line line w :=
    let '(ok, replies) := next_write w in (ok, mk_recording replies (rec_calls w ++ [LineWritten line ok]));
  flush w :=
    let '(ok, replies) := next_write w in (ok, mk_recording replies (rec_calls w ++ [LinesFlushed ok])) |}.

Section Recorded.
Context `{UuidLaws, EmailLaws, ChronoLaws}.

(** A handler run: the clock and the task ID it reads, what it called, and its
    answer. *)
Definition recorded_run (a : TaskAttempt) (calls : list interaction)
    (res : result TaskHandlerError unit) : Prop :=
  exists (now : DateTime) (fresh : Uuid) d replies w,
    application_dispatcher recorded_writer (fun _ => now) (fun _ => fresh) = Ok d /\
    dispatch d a (mk_recording replies []) = (Some res, w) /\ rec_calls w = calls.

(** The interactions each kind of task has, and what its handler makes of them. *)
Definition send_calls (line : rstr) (written flushed : bool) : list interaction :=
  LineWritten line written :: if written then [LinesFlushed flushed] else [].
Definition send_answer (written flushed : bool) : result TaskHandlerError unit :=
  if written && flushed then Ok tt else Err (HandlerRetry (§"console write failed") None).

Definition create_command (em : Email) (id : UserAccountId) (p : RegistrationProfile) (at_ : DateTime) :=
  CreateAccount id em (first_name p) (last_name p) (date_of_birth p) (validation_date p) at_.
Definition create_answer (r : result (CommandGatewayError UserAccountError) unit) :
    result TaskHandlerError unit :=
  match r with
  | Ok _ | Err (Domain AlreadyCreated) => Ok tt
  | Err Conflict | Err GatewayUnavailable => Err (delivery_error ContRetry)
  | Err (Domain _) => Err (delivery_error ContPermanent)
  end.
Definition record_answer (r : result (CommandGatewayError EmailReservationError) unit) :
    result TaskHandlerError unit :=
  match r with
  | Ok _ | Err (Domain AccountCreationAlreadyCompleted) => Ok tt
  | Err Conflict | Err GatewayUnavailable => Err (delivery_error ContRetry)
  | Err (Domain _) => Err (delivery_error ContPermanent)
  end.

(** The handlers of the three kinds, on any world. *)
Section Handlers.
Context {W : Type} `{EmailReservationGateway W, UserAccountGateway W}.
Context (writer : Writer (W:=W)) (now : W -> DateTime) (fresh : W -> Uuid) (d : TaskDispatcher W).
Hypothesis built : application_dispatcher writer now fresh = Ok d.

Lemma dispatch_send em id code t a w :
  send_task em id code t -> email_valid em -> 1000000 <= code <= 9999999 -> delivers a t ->
  let line := console_line {| vd_email := em; vd_account_id := id; vd_verification_code := code |} a in
  dispatch d a w =
    let '(ok1, w1) := write_line writer line w in
    if ok1 then let '(ok2, w2) := flush writer w1 in (Some (send_answer true ok2), w2)
    else (Some (send_answer false false), w1).
Proof.
  intros [tid Ht] He Hc Ha line.
  destruct (dispatch_published writer now fresh d tid t a w built Ha) as (Hps & _).
  rewrite (Hps {| sv_email := em; sv_account_id := id; sv_verification_code := code |});
    [|split; [done|unfold u32_MAX; simpl; lia]|done].
  unfold send_verification_code_handle, console_send.
  rewrite (proj2 (Z.leb_le _ _)), (proj2 (Z.leb_le _ _)) by (simpl; lia). cbn [negb andb].
  change (console_line (delivery_from _) a) with line. cbv zeta. destruct (write_line writer line w) as [[] w1]; [|reflexivity].
  by destruct (flush writer w1) as [[] w2].
Qed.

Lemma dispatch_create em id p t a w :
  create_task em id p t -> email_valid em -> delivers a t ->
  exists t', record_task em id p (now w) t' /\
    dispatch d a w =
      map_answer create_answer (account_execute_with_outbox (create_command em id p (now w)) [t'] w) /\
    new_task (fresh w) {| rt_email := em; rt_account_id := id; rt_profile := p; rt_created_at := now w |} = Ok t'.
Proof.
  intros [tid Ht] He Ha. destruct (dispatch_published writer now fresh d tid t a w built Ha) as (_ & Hpc & _).
  rewrite (Hpc {| ct_email := em; ct_account_id := id; ct_profile := p |} He Ht).
  unfold create_account_handle, create_account. cbn [ct_email ct_account_id ct_profile].
  destruct (record_new_task (fresh w) {| rt_email := em; rt_account_id := id; rt_profile := p;
    rt_created_at := now w |}) as [t' Ht']. rewrite Ht'. exists t'. split_and!; [by exists (fresh w)| |done].
  fold (create_command em id p (now w)). destruct (account_execute_with_outbox _ _ _) as [[[[]|[[]| |]]|] w1]; done.
Qed.

Lemma dispatch_record em id p at_ t a w :
  record_task em id p at_ t -> email_valid em -> delivers a t ->
  dispatch d a w =
    map_answer record_answer (email_execute_with_outbox (RecordAccountCreated em id p at_) [] w).
Proof.
  intros [tid Ht] He Ha. destruct (dispatch_published writer now fresh d tid t a w built Ha) as (_ & _ & Hpr).
  rewrite (Hpr {| rt_email := em; rt_account_id := id; rt_profile := p; rt_created_at := at_ |} He Ht).
  unfold record_account_created_handle, record_account_created, email_execute.
  cbn [rt_email rt_account_id rt_profile rt_created_at].
  destruct (email_execute_with_outbox _ _ _) as [[[[]|[[]| |]]|] w1]; done.
Qed.
End Handlers.

(** So these are the recorded runs of a delivery. *)
Lemma recorded_send em id code t a calls res :
  send_task em id code t -> email_valid em -> 1000000 <= code <= 9999999 -> delivers a t ->
  recorded_run a calls res <-> exists written flushed, res = send_answer written flushed /\
    calls = send_calls (console_line
      {| vd_email := em; vd_account_id := id; vd_verification_code := code |} a) written flushed.
Proof.
  intros Ht He Hc Ha. split.
  - intros (now & fresh & d & replies & w & Hd & Hr & <-).
    rewrite (dispatch_send _ _ _ d Hd em id code t) in Hr by done. revert Hr. cbn [write_line flush recorded_writer].
    destruct (next_write _) as [[] rs1]; [|intros [= <- <-]; by exists false, false].
    destruct (next_write _) as [ok2 rs2]. intros [= <- <-]. by exists true, ok2.
  - intros (ok1 & ok2 & -> & ->).
    destruct (application_dispatcher_built recorded_writer (fun _ => 0) (fun _ => 0%N)) as (d & Hd & _).
    destruct ok1; [eexists 0, 0%N, d, [WriterReply true; WriterReply ok2], _
                  |eexists 0, 0%N, d, [WriterReply false], _]; (split; [done|]);
      rewrite (dispatch_send _ _ _ d Hd em id code t) by done; by split; [reflexivity|].
Qed.

Lemma recorded_create em id p t a calls res :
  create_task em id p t -> email_valid em -> delivers a t ->
  recorded_run a calls res <-> exists at_ t' r, record_task em id p at_ t' /\
    calls = [AccountCall (create_command em id p at_) [t'] r] /\ res = create_answer r.
Proof.
  intros Ht He Ha. split.
  - intros (now & fresh & d & replies & w & Hd & Hr & <-).
    destruct (dispatch_create _ _ _ d Hd em id p t a (mk_recording replies []) Ht He Ha)
      as (t' & Ht' & E & _). rewrite E in Hr.
    destruct replies as [|[r|r|ok] replies]; try done. injection Hr as <- <-. by exists now, t', r.
  - intros (at_ & t' & r & [fresh Ht'] & -> & ->).
    destruct (application_dispatcher_built recorded_writer (fun _ => at_) (fun _ => fresh)) as (d & Hd & _).
    eexists at_, fresh, d, [AccountReply r], _. split; [done|].
    destruct (dispatch_create _ _ _ d Hd em id p t a (mk_recording [AccountReply r] []) Ht He Ha)
      as (t'' & _ & -> & Hn). rewrite Ht' in Hn. by injection Hn as <-.
Qed.

Lemma recorded_record em id p at_ t a calls res :
  record_task em id p at_ t -> email_valid em -> delivers a t ->
  recorded_run a calls res <-> exists r,
    calls = [EmailCall (RecordAccountCreated em id p at_) [] r] /\ res = record_answer r.
Proof.
  intros Ht He Ha. split.
  - intros (now & fresh & d & replies & w & Hd & Hr & <-).
    rewrite (dispatch_record _ _ _ d Hd em id p at_ t) in Hr by done.
    destruct replies as [|[r|r|ok] replies]; try done. injection Hr as <- <-. by exists r.
  - intros (r & -> & ->).
    destruct (application_dispatcher_built recorded_writer (fun _ => 0) (fun _ => 0%N)) as (d & Hd & _).
    eexists 0, 0%N, d, [EmailReply r], _. split; [done|].
    by rewrite (dispatch_record _ _ _ d Hd em id p at_ t) by done.
Qed.
End Recorded.
