(* ===== verification/Processing.v ===== *)
(** * Deliveries on the tables

    Many processes run the service on one database: use cases and task handlers
    run commands, workers claim tasks, execute them and settle the outcome,
    recovery and the operator return tasks to the queue, and the console prints
    codes.  [service_step] is what one process may do at one moment; a settlement
    is one the executor requests for a run of the application's dispatcher, whose
    calls were answered by framework runs on the tables of that history and by
    the console ([settle_source]).  What is proved is first that the outbox of
    such a service tells the truth ([completed_tasks_took_effect]), because the
    answers of the handlers do, and then that the code is such a process: an execution
    of [TaskExecutor] with the dispatcher of [Application], whose gateways retry
    framework runs on the tables, takes only such steps, whatever the others do
    between any two of them, and also when it panics. *)

From S2P Require Import Prelude DomainValues EmailReservation UserAccount FloatTime Binary64 TaskData.
From S2P Require Import Database EventRepository CommandRetry TaskQueue TaskHandling TaskExecutor.
From S2P Require Import Application System EventCodec EventStore Tables Recording.
#[local] Open Scope Z_scope.

(** ** Events in a table *)

Section Stored.
Context {St C E D : Type} `{AggregateLaws St C E D}.

(** A row of the stream reads back as this event. *)
Definition event_in (d : db) (key : rstr) (e : E) : Prop :=
  exists n row, events d !! (agg_type St, key, n) = Some row /\ event_of_json (er_payload row) = Some e.

Lemma event_in_stream d key es e : stream_holds (St := St) d key es -> event_in d key e <-> e ∈ es.
Proof.
  intros Hh. pose proof (sh_ok _ _ _ Hh) as Hok. rewrite Forall_forall in Hok. split.
  - intros (n & row & Hrow & He). pose proof (sh_events _ _ _ Hh n) as Hm. rewrite Hrow in Hm.
    destruct (nth_event es n) as [e'|] eqn:En; [|done]. destruct Hm as (_ & _ & Hp).
    unfold nth_event in En. case_match; [|done]. apply list_elem_of_lookup_2 in En.
    rewrite Hp, event_roundtrip in He by auto. by simplify_eq.
  - intros He. pose proof He as [i Hi]%list_elem_of_lookup.
    pose proof (sh_events _ _ _ Hh (Z.of_nat i + 1)) as Hm.
    rewrite nth_event_succ, Nat2Z.id, Hi in Hm by lia. simpl in Hm.
    destruct (events d !! _) as [row|] eqn:Er; [|done]. destruct Hm as (_ & _ & Hp).
    exists (Z.of_nat i + 1), row. split; [done|]. rewrite Hp. by apply event_roundtrip, Hok.
Qed.
End Stored.

(** ** The service *)

(** The tables now and before, and what the console has printed. *)
Record service_state := mk_service {
  sv_db : db; sv_past : list db; sv_printed : list rstr;
}.

Definition wrote (st : service_state) (d : db) : service_state :=
  mk_service d (sv_db st :: sv_past st) (sv_printed st).
Definition printed (st : service_state) (line : rstr) : service_state :=
  mk_service (sv_db st) (sv_past st) (sv_printed st ++ [line]).

Section Service.
Context `{F64Laws, UuidLaws, EmailLaws, ChronoLaws}.

Abbreviation account_in := (event_in (St := UserAccount)).
Abbreviation reservation_in := (event_in (St := EmailReservation)).

(** The work a task stands for is done: its code was printed, its account is
    stored, or the reservation has recorded the account. *)
Record effect (st : service_state) (t : NewTask) : Prop := {
  eff_send em id code : email_valid em -> 0 <= code <= u32_MAX -> send_task em id code t ->
    exists a, at_id a = nt_id t /\
      console_line {| vd_email := em; vd_account_id := id; vd_verification_code := code |} a ∈ sv_printed st;
  eff_create em id p : email_valid em -> create_task em id p t ->
    exists at_, account_in (sv_db st) (account_id_to_string id) (account_event em id p at_);
  eff_record em id p at_ : email_valid em -> record_task em id p at_ t ->
    reservation_in (sv_db st) (email_to_string em) (AccountCreationCompleted em id at_);
}.

(** A delivery of a stored task, as a claim hands it out. *)
Definition delivery_of (st : service_state) (a : TaskAttempt) (t : NewTask) : Prop :=
  task_stored (sv_db st) t /\ nt_id t = at_id a /\ delivers a t.

(** The tables of all moments so far, the latest first. *)
Definition history (st : service_state) : list db := sv_db st :: sv_past st.

(** A framework run of the history answered so: it read and wrote at two of its
    moments, the first with [t] in the outbox, and what it wrote came next. *)
Definition run_answered {St C E D} `{Aggregate St C E D} (h : list db) (t : NewTask)
    (tasks : list NewTask) (key : rstr) (c : C) (r : result (AggregateError D) unit) : Prop :=
  exists later d1 past d0 d', h = later ++ d1 :: past /\ d0 ∈ d1 :: past /\ task_stored d0 t /\
    framework_run tasks key c d0 d1 (Some r) d' /\ (d' = d1 \/ last later = Some d').

(** A gateway answers with the last of its runs. *)
Definition gateway_answered {St C E D} `{Aggregate St C E D} (h : list db) (t : NewTask)
    (tasks : list NewTask) (key : rstr) (c : C) (r : result (CommandGatewayError D) unit) : Prop :=
  exists r0, run_answered h t tasks key c r0 /\ r = map_err map_aggregate_error r0.

(** A recorded call did happen; a line that was written and flushed is printed. *)
Definition call_happened (st : service_state) (t : NewTask) (x : interaction) : Prop :=
  match x with
  | EmailCall c tasks r =>
    gateway_answered (St := EmailReservation) (history st) t tasks (email_aggregate_id c) c r
  | AccountCall c tasks r =>
    gateway_answered (St := UserAccount) (history st) t tasks (account_aggregate_id c) c r
  | LineWritten _ _ | LinesFlushed _ => True
  end.
Definition lines_happened (st : service_state) (calls : list interaction) : Prop :=
  forall before line after, calls = before ++ LineWritten line true :: LinesFlushed true :: after ->
    line ∈ sv_printed st.

(** What the handler of a delivery may have answered by now. *)
Definition handler_answered (st : service_state) (t : NewTask) (a : TaskAttempt)
    (res : result TaskHandlerError unit) : Prop :=
  exists calls, recorded_run a calls res /\ Forall (call_happened st t) calls /\ lines_happened st calls.

(** The settlements an execution of a claimed delivery requests: a retry for want
    of time, or what the executor makes of the handler's answer or its timeout. *)
Definition settle_source (st : service_state) (task : LeasedTask) (request : SettlementRequest) : Prop :=
  exists t, delivery_of st (lt_attempt task) t /\
    ((exists delay, request = Retry delay (§"insufficient lease budget before handler execution")) \/
     exists res delay, request = settlement_request res delay /\
       (res = Err (HandlerRetry (§"handler timed out") None) \/ handler_answered st t (lt_attempt task) res)).

Inductive service_step (st : service_state) : service_state -> Prop :=
| ss_command d' : command_step (sv_past st) (sv_db st) d' -> service_step st (wrote st d')
| ss_queue d' : queue_write (sv_db st) d' -> service_step st (wrote st d')
| ss_settle env task request :
    settle_source st task request -> service_step st (wrote st (settle env task request (sv_db st)).2)
| ss_print line : service_step st (printed st line).

Definition service_start : service_state := mk_service empty_db [] [].
Definition service_reachable (st : service_state) : Prop := rtc service_step service_start st.

Lemma reachable_steps st st' : service_reachable st -> rtc service_step st st' -> service_reachable st'.
Proof. unfold service_reachable. by etrans. Qed.

(** ** What every step keeps *)

Definition service_trace (st : service_state) : Prop := trace (sv_db st :: sv_past st).

Lemma step_trace st st' : service_step st st' -> service_trace st -> service_trace st'.
Proof.
  intros [d' Hc|d' Hq|env task request _|line] Ht; [apply trace_next; [done|]..|done].
  - by apply table_command.
  - by apply table_queue.
  - apply table_settle.
Qed.

(** The tables only gain events and tasks. *)
Lemma table_step_grows past d d' :
  trace (d :: past) -> table_step past d d' ->
  (forall key e, account_in d key e -> account_in d' key e) /\
  (forall key e, reservation_in d key e -> reservation_in d' key e) /\
  (forall t, task_stored d t -> task_stored d' t).
Proof.
  intros (w & Hr & _ & Hpast)%trace_holds Hs.
  destruct (step_simulates past d w d' Hr Hpast Hs) as (w' & Hw & Hr' & Hev).
  destruct (Hev d w (evolves_refl d w)) as [He Ha]. split_and!.
  - intros key e Hin%(event_in_stream _ _ _ _ (rep_accounts _ _ Hr key)).
    apply (event_in_stream _ _ _ _ (rep_accounts _ _ Hr' key)). destruct (Ha key) as [[k ->] _].
    apply elem_of_app. by left.
  - intros key e Hin%(event_in_stream _ _ _ _ (rep_reservations _ _ Hr key)).
    apply (event_in_stream _ _ _ _ (rep_reservations _ _ Hr' key)). destruct (He key) as [[k ->] _].
    apply elem_of_app. by left.
  - intros t Ht. apply (rep_published _ _ Hr'). pose proof (stored_task_published _ _ _ Hr Ht) as Hp.
    destruct Hw as [->|[c es tasks _ _|c es tasks _ _]]; [done|..]; apply elem_of_app; by left.
Qed.

(** Whatever was true of the service's work stays true. *)
Record grows (st st' : service_state) : Prop := {
  gr_accounts key e : account_in (sv_db st) key e -> account_in (sv_db st') key e;
  gr_reservations key e : reservation_in (sv_db st) key e -> reservation_in (sv_db st') key e;
  gr_tasks t : task_stored (sv_db st) t -> task_stored (sv_db st') t;
  gr_printed line : line ∈ sv_printed st -> line ∈ sv_printed st';
}.

#[export] Instance grows_preorder : PreOrder grows.
Proof.
  split; [by intros st|]. intros st1 st2 st3 [Ha Hr Ht Hp] [Ha' Hr' Ht' Hp']. split; auto.
Qed.

Lemma grows_effect st st' t : grows st st' -> effect st t -> effect st' t.
Proof.
  intros [Ha Hr _ Hp] [Hes Hec Her]. split.
  - intros em id code Hv Hc Ht. destruct (Hes em id code Hv Hc Ht) as (a & ? & ?). eauto.
  - intros em id p Hv Ht. destruct (Hec em id p Hv Ht) as (at_ & ?). eauto.
  - intros em id p at_ Hv Ht. apply Hr. by eapply Her.
Qed.

Lemma wrote_grows st d' :
  service_trace st -> table_step (sv_past st) (sv_db st) d' -> grows st (wrote st d').
Proof. intros Ht Hs. by destruct (table_step_grows _ _ _ Ht Hs) as (? & ? & ?). Qed.

Lemma step_grows st st' : service_trace st -> service_step st st' -> grows st st'.
Proof.
  intros Ht [d' Hc|d' Hq|env task request _|line].
  - by apply wrote_grows; [|apply table_command].
  - by apply wrote_grows; [|apply table_queue].
  - apply wrote_grows; [done|apply table_settle].
  - split; try done. intros l Hl. apply elem_of_app. by left.
Qed.

(** ** The moments of a history *)

Lemma suffix_trace later d past : trace (later ++ d :: past) -> trace (d :: past).
Proof.
  induction later as [|x later IH]; [done|]. simpl. intros Ht. apply IH.
  inversion Ht; [by destruct later|congruence].
Qed.

(** What the tables held at an earlier moment they hold at a later one. *)
Definition kept_in (d d' : db) : Prop :=
  (forall key e, account_in d key e -> account_in d' key e) /\
  (forall key e, reservation_in d key e -> reservation_in d' key e) /\
  (forall t, task_stored d t -> task_stored d' t).

Lemma trace_keeps later d past d' rest :
  later ++ d :: past = d' :: rest -> trace (d' :: rest) -> kept_in d d'.
Proof.
  revert d' rest. induction later as [|x later IH]; intros d' rest; [by intros [= -> ->]|].
  intros [= -> Hl] Ht. inversion Ht as [Hx|past1 d1 d2 Ht1 Hs Hx]; subst; [by destruct later|].
  destruct (IH d1 past1 ltac:(done) Ht1) as (Ha & Hr & Hk).
  destruct (table_step_grows _ _ _ Ht1 Hs) as (? & ? & ?). split_and!; auto.
Qed.

Lemma moment_keeps d0 d past : trace (d :: past) -> d0 ∈ d :: past -> kept_in d0 d.
Proof. intros Ht (later & past0 & E)%list_elem_of_split. by eapply trace_keeps. Qed.

(** What a run that was answered left is still there. *)
Lemma run_moments {St C E D} `{Aggregate St C E D} d past t tasks key (c : C) r :
  trace (d :: past) -> run_answered (d :: past) t tasks key c r ->
  exists past1 d0 d1 d', trace (d1 :: past1) /\ d0 ∈ d1 :: past1 /\ task_stored d0 t /\ task_stored d1 t /\
    framework_run tasks key c d0 d1 (Some r) d' /\ kept_in d1 d /\ kept_in d' d.
Proof.
  intros Ht (later & d1 & past1 & d0 & d' & Eh & Hd0 & Ht0 & Hrun & Hd').
  assert (Ht1 : trace (d1 :: past1)) by (rewrite Eh in Ht; by eapply suffix_trace).
  exists past1, d0, d1, d'. split_and!; [done..| |done| |].
  - by apply (moment_keeps d0 d1 past1).
  - by eapply trace_keeps.
  - destruct Hd' as [->|(later' & ->)%last_Some]; [by eapply trace_keeps|].
    rewrite <- (assoc_L (++)) in Eh. by eapply trace_keeps.
Qed.

(** The worlds of the moment a run reads and the moment it writes. *)
Lemma read_worlds past d0 d1 :
  trace (d1 :: past) -> d0 ∈ d1 :: past ->
  exists w0 w1, represents d0 w0 /\ sys_inv w0 /\ represents d1 w1 /\ sys_inv w1 /\ evolves d0 w0 d1 w1.
Proof.
  intros (w1 & Hr1 & Hw1 & Hpast)%trace_holds Hin. destruct (Hpast _ Hin) as (w0 & Hr0 & Hw0 & Hev).
  exists w0, w1. split_and!; try done; by apply reachable_world.
Qed.

(** *** Creating the account of a task *)

Definition creates (d1 d' : db) (em : Email) (id : UserAccountId) (p : RegistrationProfile)
    (r : result (AggregateError UserAccountError) unit) : Prop :=
  match r with
  | Ok _ => exists at_, account_in d' (account_id_to_string id) (account_event em id p at_)
  | Err (UserError AlreadyCreated) =>
    exists at_, account_in d1 (account_id_to_string id) (account_event em id p at_)
  | Err (UserError _) => False
  | Err _ => True
  end.

Lemma stored_create_registered d w em id p t :
  represents d w -> sys_inv w -> task_stored d t -> email_valid em -> create_task em id p t ->
  registered w em id p.
Proof.
  intros Hr Hw Ht He Hc. eapply create_task_meaning; [done|done|].
  by apply (inv_tasks _ Hw), (stored_task_published d).
Qed.

Lemma create_run_creates past d0 d1 em id p at_ t t' r d' :
  trace (d1 :: past) -> d0 ∈ d1 :: past -> task_stored d0 t -> task_stored d1 t -> email_valid em ->
  create_task em id p t -> record_task em id p at_ t' ->
  framework_run (St := UserAccount) [t'] (account_id_to_string id) (create_command em id p at_) d0 d1 (Some r) d' ->
  creates d1 d' em id p r.
Proof.
  set (c := create_command _ _ _ _). intros Htr Hin Ht0 Ht1 He Hc Hrt Hfw.
  assert (Hsrc : account_source d1 c [t']) by (exists p, t, t'; by split_and!).
  pose proof (moment_keeps _ _ _ Htr Hin) as (Hka & _).
  destruct (read_worlds _ _ _ Htr Hin) as (w0 & w1 & Hr0 & Hw0 & Hr1 & Hw1 & Hev).
  pose proof (stored_create_registered _ w0 em id p t Hr0 Hw0 Ht0 He Hc) as Hreg.
  destruct (run_effect [t'] (account_aggregate_id c) c d0 d1 (Some r) d' _ _
    (rep_accounts _ _ Hr0 _) (rep_accounts _ _ Hr1 _)) as (Hres & Hrej & _); [apply Hev|apply Hev| |done|].
  { intros s e [= Hh]. exact (account_event_ok _ _ _ _ _ Hsrc Hh). }
  destruct r as [[]|[e| | | |]]; simpl; try done.
  - destruct Hres as [[_ Hres]|((Heq & Hcom) & _)]; [done|].
    destruct Hcom as (s & e & s1 & Hs & Hh & _ & Hst' & _).
    assert (He1 : e = account_event em id p at_).
    { rewrite Heq, account_apply_all in Hs. injection Hs as <-. change (Some (account_decision w0 c) = Some (Ok [e])) in Hh.
      destruct (account_decision_cases w0 id em p at_ Hw0 Hreg) as [[_ Hd]|(at' & _ & Hd)];
        unfold create_command in c; fold c in Hd; congruence. }
    exists at_. apply (event_in_stream _ _ _ _ Hst').
    rewrite He1. apply elem_of_app. right. by apply list_elem_of_singleton.
  - destruct (Hrej e eq_refl) as (_ & s & Hs & Hh). rewrite account_apply_all in Hs. injection Hs as <-.
    change (Some (account_decision w0 c) = Some (Err e)) in Hh.
    destruct (account_decision_cases w0 id em p at_ Hw0 Hreg) as [[_ Hd]|(at' & Ha & Hd)];
      unfold create_command in c; fold c in Hd; [congruence|].
    assert (e = AlreadyCreated) as -> by congruence. exists at'.
    apply Hka, (event_in_stream _ _ _ _ (rep_accounts _ _ Hr0 _)). rewrite Ha. by apply list_elem_of_singleton.
Qed.

(** *** Recording the account of a task *)

Definition records (d1 d' : db) (em : Email) (id : UserAccountId) (at_ : DateTime)
    (r : result (AggregateError EmailReservationError) unit) : Prop :=
  match r with
  | Ok _ => reservation_in d' (email_to_string em) (AccountCreationCompleted em id at_)
  | Err (UserError AccountCreationAlreadyCompleted) =>
    reservation_in d1 (email_to_string em) (AccountCreationCompleted em id at_)
  | Err (UserError _) => False
  | Err _ => True
  end.

Lemma record_decision_cases w em id p at_ :
  sys_inv w -> registered w em id p ->
  account_stream w (account_id_to_string id) = [account_event em id p at_] ->
  email_decision w (RecordAccountCreated em id p at_) = Some (Ok [AccountCreationCompleted em id at_]) \/
  email_decision w (RecordAccountCreated em id p at_) = Some (Err AccountCreationAlreadyCompleted) /\
    AccountCreationCompleted em id at_ ∈ stream w (email_to_string em).
Proof.
  intros Hi (s & Hs & Hst & Hid & Hp) Ha. destruct (state_history w em Hi) as (s' & Hs' & Hh).
  assert (s' = s) as -> by congruence. unfold email_decision.
  change (EmailReservation.replay _) with (state_of w em). rewrite Hs. cbn [mbind option_bind].
  unfold EmailReservation.account_id in Hid. apply history_phase_inv in Hh.
  destruct s as [[| | |id' dg p'|id' dg p' t']]; try discriminate Hst; injection Hid as ->; injection Hp as ->.
  - left. apply record_accepted.
  - right. pose proof (inv_completed _ Hi _ _ _ _ _ Hs) as Ha'. rewrite Ha in Ha'. injection Ha' as <-.
    split; [apply record_repeated|]. destruct Hh as (_ & _ & (em' & Hem) & _).
    pose proof (email_of_key _ _ (inv_addresses w Hi _ _ Hem)) as Heq. simpl in Heq. by rewrite Heq in *.
Qed.

Lemma record_run_records past d0 d1 em id p at_ t r d' :
  trace (d1 :: past) -> d0 ∈ d1 :: past -> task_stored d0 t -> email_valid em ->
  record_task em id p at_ t ->
  framework_run (St := EmailReservation) [] (email_to_string em) (RecordAccountCreated em id p at_)
    d0 d1 (Some r) d' ->
  records d1 d' em id at_ r.
Proof.
  set (c := RecordAccountCreated _ _ _ _). intros Htr Hin Ht0 He Hrt Hfw.
  pose proof (moment_keeps _ _ _ Htr Hin) as (_ & Hkr & _).
  destruct (read_worlds _ _ _ Htr Hin) as (w0 & w1 & Hr0 & Hw0 & Hr1 & Hw1 & Hev).
  destruct (record_task_meaning w0 em id p at_ t He Hrt) as [Hreg Hac].
  { by apply (inv_tasks _ Hw0), (stored_task_published d0). }
  destruct (run_effect [] (email_aggregate_id c) c d0 d1 (Some r) d' _ _
    (rep_reservations _ _ Hr0 _) (rep_reservations _ _ Hr1 _)) as (Hres & Hrej & _); [apply Hev|apply Hev| |done|].
  { intros s e. by apply email_event_ok. }
  pose proof (record_decision_cases w0 em id p at_ Hw0 Hreg Hac) as Hcases. unfold email_decision in Hcases.
  destruct r as [[]|[e| | | |]]; simpl; try done.
  - destruct Hres as [[_ Hres]|((Heq & Hcom) & _)]; [done|].
    destruct Hcom as (s & e & s1 & Hs & Hh & _ & Hst' & _). rewrite Heq in Hs.
    change (EmailReservation.replay (stream w0 (email_aggregate_id c)) = Some s) in Hs.
    fold c in Hcases. rewrite Hs in Hcases. cbn [mbind option_bind] in Hcases.
    change (EmailReservation.handle s c = Some (Ok [e])) in Hh.
    destruct Hcases as [Hd|[Hd _]]; rewrite Hd in Hh; [|done]. injection Hh as <-.
    apply (event_in_stream _ _ _ _ Hst'). apply elem_of_app. right. by apply list_elem_of_singleton.
  - destruct (Hrej e eq_refl) as (_ & s & Hs & Hh).
    change (EmailReservation.replay (stream w0 (email_aggregate_id c)) = Some s) in Hs.
    fold c in Hcases. rewrite Hs in Hcases. cbn [mbind option_bind] in Hcases.
    change (EmailReservation.handle s c = Some (Err e)) in Hh.
    destruct Hcases as [Hd|[Hd Hem]]; rewrite Hd in Hh; [done|]. injection Hh as <-.
    by apply Hkr, (event_in_stream _ _ _ _ (rep_reservations _ _ Hr0 _)).
Qed.

(** *** A panic of a reservation command *)

(** Only the completion of a registration panics, when a snapshot applies it again. *)
Lemma email_run_panics past d0 d1 tasks c d' :
  trace (d1 :: past) -> d0 ∈ d1 :: past ->
  framework_run (St := EmailReservation) tasks (email_aggregate_id c) c d0 d1 None d' ->
  exists em id p at_, c = RecordAccountCreated em id p at_.
Proof.
  intros Htr Hin Hrun. inversion Hrun as [| | |s n v Hl Hp|]; subst.
  destruct (handle_total s c) as [r Hr].
  destruct Hp as [Hp|(es & He & Hp)]; [change (EmailReservation.handle s c = None) in Hp; congruence|].
  change (EmailReservation.handle s c = Some (Ok es)) in He.
  apply accepts_lifecycle in He as (e & s1 & -> & Ha & Hlc).
  assert (Hc : is_completed e = true); [|by destruct Hlc; try done; eauto].
  rewrite apply_all_one in Hp. change (agg_apply s e) with (EmailReservation.apply s e) in Hp.
  rewrite Ha in Hp. destruct Hp as [|(s2 & [= <-] & Hp)]; [done|].
  rewrite apply_all_one in Hp. change (agg_apply s1 e) with (EmailReservation.apply s1 e) in Hp.
  rewrite (apply_twice _ _ _ Ha) in Hp. by destruct (is_completed e).
Qed.

Lemma account_run_panics tasks key c d0 d1 d' :
  ~ framework_run (St := UserAccount) tasks key c d0 d1 None d'.
Proof.
  intros Hrun. inversion Hrun as [| | |s n v Hl Hp|]; subst.
  destruct Hp as [|(es & He & Hp)]; [done|].
  assert (Ht : forall s, apply_all s es <> None).
  { intros s0. clear. revert s0. induction es as [|e es IH] using rev_ind; intros s0; [done|].
    rewrite apply_all_app. specialize (IH s0). by destruct (apply_all s0 es). }
  destruct Hp as [Hp|(s1 & _ & Hp)]; by apply Ht in Hp.
Qed.

(** *** Payloads of the three kinds have different formats *)

Lemma send_effect st em id code t a :
  send_task em id code t -> email_valid em -> 0 <= code <= u32_MAX -> at_id a = nt_id t ->
  console_line {| vd_email := em; vd_account_id := id; vd_verification_code := code |} a ∈ sv_printed st ->
  effect st t.
Proof.
  intros [tid Ht] He Hc Ha Hl. pose proof (task_format _ _ _ Ht) as Hf. split.
  - intros em' id' code' He' Hc' [tid' Ht']. exists a. split; [done|].
    by pose proof (task_payload (P:=SendVerificationCodeTaskV1) _ _
      {| sv_email := em; sv_account_id := id; sv_verification_code := code |}
      {| sv_email := em'; sv_account_id := id'; sv_verification_code := code' |} _
      (conj He Hc) (conj He' Hc') Ht Ht') as [= <- <- <-].
  - intros em' id' p He' [tid' Ht'%task_format]. rewrite <- Hf in Ht'. discriminate Ht'.
  - intros em' id' p at_ He' [tid' Ht'%task_format]. rewrite <- Hf in Ht'. discriminate Ht'.
Qed.

Lemma create_effect st em id p t :
  create_task em id p t -> email_valid em ->
  (exists at_, event_in (St := UserAccount) (sv_db st) (account_id_to_string id) (account_event em id p at_)) ->
  effect st t.
Proof.
  intros [tid Ht] He Ha. pose proof (task_format _ _ _ Ht) as Hf. split.
  - intros em' id' code He' Hc [tid' Ht'%task_format]. rewrite <- Hf in Ht'. discriminate Ht'.
  - intros em' id' p' He' [tid' Ht'].
    by pose proof (task_payload (P:=CreateAccountTaskV1) _ _
      {| ct_email := em; ct_account_id := id; ct_profile := p |}
      {| ct_email := em'; ct_account_id := id'; ct_profile := p' |} _ He He' Ht Ht') as [= <- <- <-].
  - intros em' id' p' at_ He' [tid' Ht'%task_format]. rewrite <- Hf in Ht'. discriminate Ht'.
Qed.

Lemma record_effect st em id p at_ t :
  record_task em id p at_ t -> email_valid em ->
  event_in (St := EmailReservation) (sv_db st) (email_to_string em) (AccountCreationCompleted em id at_) ->
  effect st t.
Proof.
  intros [tid Ht] He Ha. pose proof (task_format _ _ _ Ht) as Hf. split.
  - intros em' id' code He' Hc [tid' Ht'%task_format]. rewrite <- Hf in Ht'. discriminate Ht'.
  - intros em' id' p' He' [tid' Ht'%task_format]. rewrite <- Hf in Ht'. discriminate Ht'.
  - intros em' id' p' at' He' [tid' Ht'].
    by pose proof (task_payload (P:=RecordAccountCreatedTaskV1) _ _
      {| rt_email := em; rt_account_id := id; rt_profile := p; rt_created_at := at_ |}
      {| rt_email := em'; rt_account_id := id'; rt_profile := p'; rt_created_at := at' |} _
      He He' Ht Ht') as [= <- <- <- <-].
Qed.

(** *** What an answered handler did *)

(** The answers of the handlers are true: no stored task is rejected, and a
    success means that the task's work is done. *)
Lemma answered_effect st t a res :
  service_trace st -> delivery_of st a t -> handler_answered st t a res ->
  accepted res /\ (res = Ok tt -> effect st t).
Proof.
  intros Htr (Hst & Hid & Ha) (calls & Hrun & Hcalls & Hlines).
  pose proof Htr as (w & Hrep & Hw & _)%trace_holds. apply reachable_world in Hw.
  destruct (inv_tasks _ Hw t (stored_task_published _ _ _ Hrep Hst)) as [(em & id & code & Ht & He & Hc)
    |[(em & id & p & Ht & He & _)|(em & id & p & at_ & Ht & He & _)]].
  - apply (recorded_send em id code t) in Hrun as (ok1 & ok2 & -> & ->); [|done..].
    destruct ok1, ok2; try (split; [right; by eexists _, _|done]). split; [by left|]. intros _.
    eapply send_effect; [done|done|unfold u32_MAX; lia|done|]. by apply (Hlines [] _ []).
  - apply (recorded_create em id p t) in Hrun as (at_ & t' & r & Ht' & -> & ->); [|done..].
    apply Forall_inv in Hcalls as (r0 & Hans & ->).
    destruct (run_moments _ _ _ _ _ _ _ Htr Hans)
      as (past1 & d0 & d1 & d' & Htr1 & Hin & Hs0 & Hs1 & Hfw & (Hk1 & _) & (Hk & _)).
    pose proof (create_run_creates _ _ _ _ _ _ _ _ _ _ _ Htr1 Hin Hs0 Hs1 He Ht Ht' Hfw) as Hcr.
    destruct r0 as [[]|[[]| | | |]]; simpl in *; try done;
      first [split; [right; by eexists _, _|done]|split; [by left|intros _]];
      eapply create_effect; try done; destruct Hcr as [at1 Hat]; eauto.
  - apply (recorded_record em id p at_ t) in Hrun as (r & -> & ->); [|done..].
    apply Forall_inv in Hcalls as (r0 & Hans & ->).
    destruct (run_moments _ _ _ _ _ _ _ Htr Hans)
      as (past1 & d0 & d1 & d' & Htr1 & Hin & Hs0 & Hs1 & Hfw & (_ & Hk1 & _) & (_ & Hk & _)).
    pose proof (record_run_records _ _ _ _ _ _ _ _ _ _ Htr1 Hin Hs0 He Ht Hfw) as Hcr.
    destruct r0 as [[]|[[]| | | |]]; simpl in *; try done;
      first [split; [right; by eexists _, _|done]|split; [by left|intros _]];
      eapply record_effect; eauto.
Qed.

(** So a settlement of the service is justified. *)
Lemma source_justified st task request :
  service_trace st -> settle_source st task request ->
  exists t, task_stored (sv_db st) t /\ nt_id t = at_id (lt_attempt task) /\
    match request with Completed => effect st t | Retry _ _ => True | Failed _ => False end.
Proof.
  intros Htr (t & Hdel & Hreq). exists t. split_and!; [apply Hdel..|].
  destruct Hreq as [(delay & ->)|(res & delay & -> & [->|Hans])]; [done|done|].
  destruct (answered_effect _ _ _ _ Htr Hdel Hans) as [[->|(reason & after & ->)] Heff]; [by apply Heff|done].
Qed.

(** ** The invariant *)

(** A finished task is finished for a reason. *)
Definition row_justified (st : service_state) (i : Uuid) (r : outbox_row) : Prop :=
  (ob_status r = st_completed -> exists t, nt_id t = i /\ nt_schedule t = Now /\ carries r t /\ effect st t) /\
  (ob_status r = st_failed -> ob_max_attempts r <= ob_attempts r).

Record service_inv (st : service_state) : Prop := {
  si_trace : service_trace st;
  si_rows i r : outbox (sv_db st) !! i = Some r -> row_justified st i r;
}.

Lemma justified_grows st st' i r : grows st st' -> row_justified st i r -> row_justified st' i r.
Proof.
  intros Hg [Hc Hf]. split; [|done]. intros Hs. destruct (Hc Hs) as (t & ? & ? & ? & ?).
  exists t. split_and!; [done..|]. by eapply grows_effect.
Qed.

Lemma unfinished_justified st i r :
  ob_status r = st_pending \/ ob_status r = st_processing -> row_justified st i r.
Proof. intros [Hs|Hs]; split; intros; congruence. Qed.

Lemma trace_outbox st : service_trace st -> outbox_ok (sv_db st).
Proof. intros (w & Hr & _)%trace_holds. by apply (rep_outbox _ _ Hr). Qed.

(** A command leaves the rows alone, and its own are new. *)
Lemma command_rows past d d' :
  trace (d :: past) -> command_step past d d' ->
  forall i r, outbox d' !! i = Some r -> outbox d !! i = Some r \/ ob_status r = st_pending.
Proof.
  intros Ht Hs i r Hi. apply trace_holds in Ht as (w & Hr & _ & Hpast).
  assert (Hadded : d' = d \/ exists tasks, tasks_added tasks d d').
  { destruct Hs as [c tasks d0 res d' Hd0 [Hv _] Hrun|c tasks d0 res d' Hd0 Hsrc Hrun];
      destruct (Hpast d0 Hd0) as (w0 & Hr0 & _ & Hev).
    - destruct (run_effect tasks (email_aggregate_id c) c d0 d res d' _ _
        (rep_reservations _ _ Hr0 _) (rep_reservations _ _ Hr _)) as ([[-> _]|((_ & Hc) & _)] & _);
        [apply Hev|apply Hev| |done|by left|].
      + intros s e. by apply email_event_ok.
      + destruct Hc as (s & e & s1 & _ & _ & _ & _ & _ & Ht). eauto.
    - destruct (run_effect tasks (account_aggregate_id c) c d0 d res d' _ _
        (rep_accounts _ _ Hr0 _) (rep_accounts _ _ Hr _)) as ([[-> _]|((_ & Hc) & _)] & _);
        [apply Hev|apply Hev| |done|by left|].
      + intros s e [= Hh]. by eapply account_event_ok.
      + destruct Hc as (s & e & s1 & _ & _ & _ & _ & _ & Ht). eauto. }
  destruct Hadded as [->|(tasks & _ & Hin & Hout)]; [by left|].
  destruct (decide (i ∈ (nt_id <$> tasks))) as [Hx|Hx]; [|left; by rewrite <- Hout].
  apply list_elem_of_fmap in Hx as (t & -> & Htt). destruct (Hin t Htt) as (_ & r' & Hr' & _ & _ & ?).
  right. congruence.
Qed.

Lemma queue_rows d d' :
  outbox_ok d -> queue_write d d' ->
  forall i r, outbox d' !! i = Some r -> outbox d !! i = Some r \/
    ob_status r = st_pending \/ ob_status r = st_processing \/
    ob_status r = st_failed /\ ob_max_attempts r <= ob_attempts r.
Proof.
  intros Hok [env format owner limit lease|env limit res Hl Hj Hres|now id] i r Hi.
  - destruct (claim_effect env format owner limit lease d Hok) as [E|(_ & _ & Ho)].
    { rewrite E in Hi. by left. }
    rewrite Ho in Hi. case_decide; [|by left]. apply fmap_Some in Hi as (r0 & _ & ->). auto.
  - destruct (recover_effect env limit d res Hj Hok Hl Hres) as [E|(_ & _ & Hout & Hin)].
    { rewrite E in Hi. by left. }
    destruct (decide (i ∈ expired_ids env limit d)) as [Hx|Hx]; [|rewrite Hout in Hi by done; by left].
    destruct (Hin i Hx) as (r0 & ms & _ & Hr). rewrite Hr in Hi. simplify_eq. simpl.
    destruct (Z.leb_spec (ob_max_attempts r0) (ob_attempts r0)); auto.
  - unfold requeue_failed in Hi. destruct (outbox d !! id) as [r0|]; [|by left].
    case_bool_decide; [|by left]. simpl in Hi.
    apply lookup_insert_Some in Hi as [[<- <-]|[_ Hi]]; auto.
Qed.

Lemma settle_justified st env task request i r :
  service_inv st -> settle_source st task request ->
  outbox (settle env task request (sv_db st)).2 !! i = Some r ->
  row_justified (wrote st (settle env task request (sv_db st)).2) i r.
Proof.
  intros Hi Hsrc Hrow. pose proof (step_grows st _ (si_trace _ Hi) (ss_settle st env task request Hsrc)) as Hg.
  destruct (source_justified _ _ _ (si_trace _ Hi) Hsrc) as (t & (Hnow & rt & Hrt & Hct) & Hid & Hreq).
  destruct (settle env task request (sv_db st)) as [res d'] eqn:Es. simpl in *.
  apply settle_effect in Es as [->|(r0 & Hc & _ & ->)].
  { by eapply justified_grows, (si_rows _ Hi). }
  simpl in Hrow. apply lookup_insert_Some in Hrow as [[<- <-]|[_ Hrow]].
  2:{ by eapply justified_grows, (si_rows _ Hi). }
  unfold current_lease in Hc. rewrite <- Hid, Hrt in Hc. simpl in Hc. case_decide; simplify_eq.
  split; unfold settled_by, settled_row; destruct request; simpl; try done.
  - intros _. exists t. split_and!; [done..|by eapply grows_effect].
  - by destruct (_ <=? _).
  - destruct (Z.leb_spec (ob_max_attempts r0) (ob_attempts r0)); done.
Qed.

Lemma service_inv_preserved : preserves service_step service_inv.
Proof.
  intros st st' Hi Hs. pose proof (si_trace _ Hi) as Ht.
  pose proof (step_grows _ _ Ht Hs) as Hg. split; [by eapply step_trace|]. intros i r Hr.
  destruct Hs as [d' Hc|d' Hq|env task request Hsrc|line]; simpl in Hr.
  - destruct (command_rows _ _ _ Ht Hc i r Hr); [by eapply justified_grows, (si_rows _ Hi)|].
    by apply unfinished_justified; left.
  - destruct (queue_rows _ _ (trace_outbox _ Ht) Hq i r Hr) as [|[|[|[Hf Hm]]]];
      [by eapply justified_grows, (si_rows _ Hi)|by apply unfinished_justified; auto..|].
    split; intros; [congruence|done].
  - by apply settle_justified.
  - by eapply justified_grows, (si_rows _ Hi).
Qed.

Lemma reachable_service st : service_reachable st -> service_inv st.
Proof.
  intros Hr. apply (rtc_preserves service_step service_inv service_start st service_inv_preserved); [|done].
  split; [apply trace_start|]. intros i r. simpl. by rewrite lookup_empty.
Qed.

Lemma steps_grow st st' : rtc service_step st st' -> service_inv st -> grows st st' /\ service_inv st'.
Proof.
  induction 1 as [st|st st1 st2 Hs _ IH]; intros Hi; [done|].
  destruct (IH (service_inv_preserved _ _ Hi Hs)) as [Hg ?]. split; [|done].
  etrans; [|done]. by apply step_grows; [apply Hi|].
Qed.

(** A typed row is what its task was built from. *)
Lemma row_payload {P} `{TaskPayloadLaws P} tid (p p' : P) t r :
  payload_ok p -> new_task tid p = Ok t -> carries r t -> from_value (ob_payload r) = Some p' -> p' = p.
Proof.
  intros Hp (_ & _ & Hv & _)%new_task_fields (_ & _ & Hpl & _) Hd.
  apply (payload_roundtrip _ _ Hp) in Hv. rewrite Hpl in Hd. congruence.
Qed.

Lemma row_type {P} `{TaskPayload P} tid (p : P) t r :
  new_task tid p = Ok t -> carries r t -> ob_task_type r = TASK_TYPE P.
Proof.
  intros Hf%task_format (Hty & _). unfold format_of, format_new in Hf. repeat case_match; try done.
  rewrite Hty. by injection Hf as <-.
Qed.

(** C2: the outbox tells the truth.  However many processes claim, execute,
    settle, recover and restart tasks while commands run, and whatever fails, a
    task that is recorded as completed had its effect: the code was printed, the
    account is stored for the address, ID and profile of the task, or the
    reservation has recorded exactly that account.  A task is recorded as failed
    only when all its attempts were used.  A settlement is whatever the executor
    requests for the answer of a dispatcher run on the stored payload, whose gateway
    calls were answered by framework runs of this history; that the answer is true
    is proved, not assumed. *)
Theorem completed_tasks_took_effect st i r :
  service_reachable st -> outbox (sv_db st) !! i = Some r ->
  (ob_status r = st_completed ->
     (forall sv, ob_task_type r = TASK_TYPE SendVerificationCodeTaskV1 -> from_value (ob_payload r) = Some sv ->
        exists a, at_id a = i /\ console_line (delivery_from sv) a ∈ sv_printed st) /\
     (forall ct, ob_task_type r = TASK_TYPE CreateAccountTaskV1 -> from_value (ob_payload r) = Some ct ->
        exists n row at_,
          events (sv_db st) !! (agg_type UserAccount, account_id_to_string (ct_account_id ct), n) = Some row /\
          account_event_of_json (er_payload row)
          = Some (account_event (ct_email ct) (ct_account_id ct) (ct_profile ct) at_)) /\
     (forall rt, ob_task_type r = TASK_TYPE RecordAccountCreatedTaskV1 -> from_value (ob_payload r) = Some rt ->
        exists n row,
          events (sv_db st) !! (agg_type EmailReservation, email_to_string (rt_email rt), n) = Some row /\
          reservation_event_of_json (er_payload row)
          = Some (AccountCreationCompleted (rt_email rt) (rt_account_id rt) (rt_created_at rt)))) /\
  (ob_status r = st_failed -> ob_max_attempts r <= ob_attempts r).
Proof.
  intros Hi%reachable_service Hr. destruct (si_rows _ Hi i r Hr) as [Hc Hf]. split; [|done].
  intros (t & Hid & Hnow & Hcar & [Hes Hec Her])%Hc.
  pose proof (si_trace _ Hi) as (w & Hrep & Hw & _)%trace_holds. apply reachable_world in Hw.
  assert (Hm : task_meaning w t).
  { apply (inv_tasks _ Hw), (stored_task_published _ _ _ Hrep). split; [done|]. exists r. by rewrite Hid. }
  destruct Hm as [(em & id & code & Ht & He & Hcode)|[(em & id & p & Ht & He & _)|(em & id & p & at_ & Ht & He & _)]];
    pose proof Ht as [tid Hn]; pose proof (row_type _ _ _ _ Hn Hcar) as Hty; rewrite Hty;
    (split_and!; [intros v Hv Hd|intros v Hv Hd|intros v Hv Hd]); try discriminate Hv.
  - apply (row_payload tid _ v t r) in Hn as ->; [|split; simpl; [done|unfold u32_MAX; lia]|done|done].
    destruct (Hes em id code He) as (a & ? & ?); [unfold u32_MAX; lia|done|]. exists a. by rewrite <- Hid.
  - apply (row_payload tid _ v t r) in Hn as ->; [|done..].
    destruct (Hec em id p He Ht) as (at_ & n & row & ? & ?). by exists n, row, at_.
  - apply (row_payload tid _ v t r) in Hn as ->; [|done..].
    destruct (Her em id p at_ He Ht) as (n & row & ? & ?). by exists n, row.
Qed.
End Service.

(** ** Commands among other processes *)

Section Commands.
Context `{F64Laws, UuidLaws, EmailLaws, ChronoLaws}.

(** One run of the framework that begins in [st], with any steps of other
    processes before it reads, before it writes and before it answers.  The
    database it writes to satisfies [admissible]: generated IDs are new.  A run
    that changes nothing need not write, and one that panics does not. *)
Definition written (st1 : service_state) (d' : db) (st' : service_state) : Prop :=
  rtc service_step (wrote st1 d') st' \/ d' = sv_db st1 /\ rtc service_step st1 st'.

Definition run_on {St C E D} `{Aggregate St C E D} (admissible : db -> Prop) (tasks : list NewTask)
    (key : rstr) (c : C) (st : service_state) (r : option (result (AggregateError D) unit))
    (st' : service_state) : Prop :=
  exists st0 st1 d', rtc service_step st st0 /\ rtc service_step st0 st1 /\ admissible (sv_db st1) /\
    framework_run tasks key c (sv_db st0) (sv_db st1) r d' /\ written st1 d' st'.

(** A gateway call: runs that conflicted, and the run that is answered or panics. *)
Inductive gateway_runs {St C E D} `{Aggregate St C E D} (admissible : db -> Prop) (tasks : list NewTask)
    (key : rstr) (c : C) :
    service_state -> option (result (CommandGatewayError D) unit) -> service_state -> Prop :=
| gr_answered st r st' :
    run_on admissible tasks key c st r st' ->
    gateway_runs admissible tasks key c st (map_err map_aggregate_error <$> r) st'
| gr_conflict st st1 r st' :
    run_on admissible tasks key c st (Some (Err AggregateConflict)) st1 ->
    gateway_runs admissible tasks key c st1 r st' -> gateway_runs admissible tasks key c st r st'.

(** The retrying executor makes such calls. *)
Section Retrying.
Context {St C E D : Type} `{Aggregate St C E D} {W : Type} (view : W -> service_state)
  (admissible : C -> db -> Prop) (ready : C -> W -> Prop) (aggregate_id : C -> rstr)
  (policy : AggregateConflictRetryPolicy) (draws : Z -> Q -> Q -> Q)
  (build_framework : list NewTask -> rstr -> C -> W -> option (result (AggregateError D) unit) * W).
Hypothesis policy_valid : policy_ok policy.
Hypothesis draws_in_range : forall k lo hi, (lo <= hi -> lo <= draws k lo hi <= hi)%Q.
Hypothesis framework_runs : forall tasks c w r w',
  ready c w -> build_framework tasks (aggregate_id c) c w = (r, w') ->
  run_on (admissible c) tasks (aggregate_id c) c (view w) r (view w') /\
  (r = Some (Err AggregateConflict) -> ready c w').

Lemma runs_gateway c tasks w rs r w' :
  ready c w ->
  runs (build_framework tasks (aggregate_id c) c) w (rs ++ [r]) w' ->
  Forall (fun r => conflicted r = true) rs ->
  gateway_runs (admissible c) tasks (aggregate_id c) c (view w) (map_err map_aggregate_error <$> r) (view w').
Proof.
  revert w. induction rs as [|r0 rs IH]; intros w Hw Hr Hc; inversion Hr as [|? ? w1 ? ? Ho Hr1]; subst.
  - inversion Hr1; subst. apply gr_answered. by apply framework_runs in Ho as [? _].
  - inversion Hc as [|? ? Hc0 Hcs]; subst. apply framework_runs in Ho as [Ho Hw1]; [|done].
    destruct r0 as [[|[]]|]; try discriminate Hc0. eapply gr_conflict; [done|]. apply IH; auto.
Qed.

Lemma gateway_execute_runs c tasks w :
  ready c w -> exists r w', gateway_execute aggregate_id policy draws build_framework c tasks w = (r, w') /\
    gateway_runs (admissible c) tasks (aggregate_id c) c (view w) r (view w').
Proof.
  intros Hw. pose proof policy_valid as [Hm _].
  destruct (retry_loop_spec policy draws (build_framework tasks (aggregate_id c) c)
    (Z.to_nat (max_attempts policy)) 1 w)
    as (rs & r & w' & ds & E' & Hr & Hc & _); [done|lia|lia|lia|done|].
  exists (map_err map_aggregate_error <$> r), w'. split; [|by eapply runs_gateway].
  unfold gateway_execute, CommandRetry.execute, retry_on_aggregate_conflict. rewrite E'. by destruct r.
Qed.
End Retrying.

(** What holds of the runs holds of the call. *)
Lemma gateway_runs_post {St C E D} `{Aggregate St C E D} adm tasks key (c : C)
    (Q : service_state -> Prop) (post : option (result (AggregateError D) unit) -> service_state -> Prop) :
  (forall st st', Q st -> rtc service_step st st' -> Q st') ->
  (forall st r st', service_inv st -> Q st -> run_on adm tasks key c st r st' ->
     rtc service_step st st' /\ post r st') ->
  forall st r st', service_inv st -> Q st -> gateway_runs adm tasks key c st r st' ->
    rtc service_step st st' /\ exists r0, r = map_err map_aggregate_error <$> r0 /\ post r0 st'.
Proof.
  intros Hst Hrun st r st' Hi Hq Hg. revert Hi Hq.
  induction Hg as [st r st' Hr|st st1 r st' Hr _ IH]; intros Hi Hq.
  - destruct (Hrun _ _ _ Hi Hq Hr). eauto.
  - destruct (Hrun _ _ _ Hi Hq Hr) as [Hs _]. destruct (steps_grow _ _ Hs Hi) as [_ Hi1].
    destruct (IH Hi1 (Hst _ _ Hq Hs)) as [Hs' Hp]. split; [by etrans|done].
Qed.

Lemma steps_history st st' : rtc service_step st st' -> exists later, history st' = later ++ history st.
Proof.
  induction 1 as [st|st st1 st2 Hs _ (later & ->)]; [by exists []|].
  destruct Hs as [d' _|d' _|env task request _|line]; [exists (later ++ [d'])|exists (later ++ [d'])
    |eexists (later ++ [_])|by exists later]; by rewrite <- (assoc_L (++)).
Qed.

Lemma steps_past st0 st1 : rtc service_step st0 st1 -> sv_db st0 ∈ sv_db st1 :: sv_past st1.
Proof.
  intros (later & E)%steps_history. unfold history in E. rewrite E. apply elem_of_app. right. by left.
Qed.

(** What has been answered stays answered. *)
Lemma run_answered_later {St C E D} `{Aggregate St C E D} h later t tasks key (c : C) r :
  run_answered h t tasks key c r -> run_answered (later ++ h) t tasks key c r.
Proof.
  intros (l & d1 & past & d0 & d' & -> & Hin & Ht & Hrun & Hd').
  exists (later ++ l), d1, past, d0, d'. split_and!; [by rewrite (assoc_L (++))|done..|].
  destruct Hd' as [?|Hl]; [by left|right]. by rewrite last_app, Hl.
Qed.

Lemma handler_answered_later st st' t a res :
  service_inv st -> rtc service_step st st' -> handler_answered st t a res -> handler_answered st' t a res.
Proof.
  intros Hi Hs (calls & Hrun & Hcalls & Hlines). destruct (steps_history _ _ Hs) as [later Eh].
  destruct (steps_grow _ _ Hs Hi) as [Hg _]. exists calls. split_and!; [done| |].
  - eapply Forall_impl; [done|]. intros [c tasks r|c tasks r|line ok|ok]; [..|done|done];
      intros (r0 & Ha & ->); exists r0; (split; [|done]); rewrite Eh; by apply run_answered_later.
  - intros before line after E. by eapply (gr_printed _ _ Hg), Hlines.
Qed.

(** The answer of a run in the history it leaves. *)
Lemma written_answered {St C E D} `{Aggregate St C E D} st0 st1 d' st' t tasks key (c : C) r :
  rtc service_step st0 st1 -> task_stored (sv_db st0) t ->
  framework_run tasks key c (sv_db st0) (sv_db st1) (Some r) d' -> written st1 d' st' ->
  run_answered (history st') t tasks key c r.
Proof.
  intros Hs Ht Hrun [Hs'|[-> Hs']]; destruct (steps_history _ _ Hs') as [later ->].
  - exists (later ++ [d']), (sv_db st1), (sv_past st1), (sv_db st0), d'.
    split_and!; [by rewrite <- (assoc_L (++))|by apply steps_past|done..|right; by rewrite last_snoc].
  - exists later, (sv_db st1), (sv_past st1), (sv_db st0), (sv_db st1).
    split_and!; [done|by apply steps_past|done..|by left].
Qed.

(** A run reads and writes states of the service. *)
Lemma run_states {St C E D} `{Aggregate St C E D} adm tasks key (c : C) st r st' :
  service_inv st -> run_on adm tasks key c st r st' ->
  exists st0 st1 d', grows st st0 /\ service_inv st0 /\ grows st0 st1 /\ service_inv st1 /\
    rtc service_step st0 st1 /\ rtc service_step st st1 /\ adm (sv_db st1) /\ sv_db st0 ∈ sv_db st1 :: sv_past st1 /\
    framework_run tasks key c (sv_db st0) (sv_db st1) r d' /\ written st1 d' st'.
Proof.
  intros Hi (st0 & st1 & d' & Hs0 & Hs1 & Ha & Hrun & Hs').
  destruct (steps_grow _ _ Hs0 Hi) as [Hg0 Hi0]. destruct (steps_grow _ _ Hs1 Hi0) as [Hg1 Hi1].
  exists st0, st1, d'. split_and!; try done; [by etrans|by apply steps_past].
Qed.

(** The step that a run's write is, and what follows it. *)
Lemma write_step st1 d' st' :
  service_inv st1 -> command_step (sv_past st1) (sv_db st1) d' -> written st1 d' st' ->
  rtc service_step st1 st' /\ grows st1 st' /\ grows (wrote st1 d') st'.
Proof.
  intros Hi Hc [Hs|[-> Hs]].
  - pose proof (ss_command st1 d' Hc) as Hst. pose proof (service_inv_preserved _ _ Hi Hst) as Hi'.
    assert (Hall : rtc service_step st1 st') by (by eapply rtc_l).
    split_and!; [done|by apply (steps_grow st1 st')|by apply (steps_grow (wrote st1 d') st')].
  - destruct (steps_grow _ _ Hs Hi) as [Hg _]. split_and!; [done..|]. by destruct Hg.
Qed.

(** *** The commands of the task handlers *)

Lemma create_run st em id p at_ t t' r st' :
  service_inv st -> task_stored (sv_db st) t -> email_valid em -> create_task em id p t ->
  record_task em id p at_ t' ->
  run_on (St := UserAccount) (fun _ => True) [t'] (account_id_to_string id) (create_command em id p at_) st r st' ->
  rtc service_step st st' /\ exists r0, r = Some r0 /\
    run_answered (St := UserAccount) (history st') t [t'] (account_id_to_string id)
      (create_command em id p at_) r0.
Proof.
  set (c := create_command _ _ _ _). intros Hi Ht He Hc Hrt Hrun.
  destruct (run_states _ _ _ _ _ _ _ Hi Hrun)
    as (st0 & st1 & d' & Hg0 & Hi0 & Hg1 & Hi1 & Hs01 & Hs1 & _ & Hin & Hfw & Hs').
  pose proof (gr_tasks _ _ Hg0 t Ht) as Ht0.
  assert (Hsrc : account_source (sv_db st1) c [t']).
  { exists p, t, t'. split_and!; try done. by apply (gr_tasks _ _ Hg1). }
  destruct (write_step st1 d' st' Hi1) as (Hst & _); [by eapply (table_account _ _ c)|done|].
  split; [by etrans|]. destruct r as [r0|]; [|by apply account_run_panics in Hfw].
  exists r0. split; [done|]. exact (written_answered _ _ _ _ _ _ _ _ _ Hs01 Ht0 Hfw Hs').
Qed.

Lemma record_run adm st em id p at_ t r st' :
  service_inv st -> task_stored (sv_db st) t -> email_valid em -> record_task em id p at_ t ->
  run_on (St := EmailReservation) adm [] (email_to_string em)
    (RecordAccountCreated em id p at_) st r st' ->
  rtc service_step st st' /\
  (forall r0, r = Some r0 -> run_answered (St := EmailReservation) (history st') t [] (email_to_string em)
     (RecordAccountCreated em id p at_) r0).
Proof.
  set (c := RecordAccountCreated _ _ _ _). intros Hi Ht He Hrt Hrun.
  destruct (run_states _ _ _ _ _ _ _ Hi Hrun)
    as (st0 & st1 & d' & Hg0 & Hi0 & Hg1 & Hi1 & Hs01 & Hs1 & _ & Hin & Hfw & Hs').
  pose proof (gr_tasks _ _ Hg0 t Ht) as Ht0.
  assert (Hsrc : email_source (sv_db st1) c []).
  { split; [done|]. split; [done|]. exists t. split; [|done]. by apply (gr_tasks _ _ Hg1). }
  destruct (write_step st1 d' st' Hi1) as (Hst & _); [by eapply (table_email _ _ c)|done|].
  split; [by etrans|]. intros r0 ->. exact (written_answered _ _ _ _ _ _ _ _ _ Hs01 Ht0 Hfw Hs').
Qed.
End Commands.

(** ** The code keeps to the steps *)

Section Workers.
Context `{F64Laws, UuidLaws, EmailLaws, ChronoLaws, TokenDigest} {W : Type} (view : W -> service_state).
Context `{EmailReservationGateway W, UserAccountGateway W, TaskQueuePort W}.
Context (writer : Writer (W:=W)) (now : W -> DateTime) (fresh : W -> Uuid).
(** The account IDs this process has drawn that no other process draws. *)
Context (unused : W -> UserAccountId -> Prop).

Definition issues_id (c : EmailReservationCommand) : option UserAccountId :=
  match c with ReserveEmail _ id _ | RequestVerificationCode _ id _ => Some id | _ => None end.
Definition may_issue (c : EmailReservationCommand) (w : W) : Prop :=
  forall id, issues_id c = Some id -> unused w id.
(** They are new when they are written. *)
Definition new_ids (c : EmailReservationCommand) (d : db) : Prop :=
  forall id, issues_id c = Some id -> ~ id_issued d id.

(** What the parts outside the executor do to the tables, with any steps of
    other processes in between: the gateways run commands ([gateway_runs], which
    the retrying executor implements), the queue settles in one transaction, and
    the console prints. *)
Class EmailTableLaws := email_runs c tasks w r w' :
  may_issue c w -> email_execute_with_outbox c tasks w = (r, w') ->
  gateway_runs (St := EmailReservation) (new_ids c) tasks (email_aggregate_id c) c (view w) r (view w').
Class AccountTableLaws := account_runs c tasks w r w' :
  account_execute_with_outbox c tasks w = (r, w') ->
  gateway_runs (St := UserAccount) (fun _ => True) tasks (account_aggregate_id c) c (view w) r (view w').
Class QueueTableLaws := queue_settles task request w r w' :
  queue_settle task request w = (r, w') ->
  exists env st1, rtc service_step (view w) st1 /\ r = (settle env task request (sv_db st1)).1 /\
    rtc service_step (wrote st1 (settle env task request (sv_db st1)).2) (view w').
Class ConsoleLaws := {
  write_line_steps line w : rtc service_step (view w) (view (write_line writer line w).2);
  flush_steps w : rtc service_step (view w) (view (flush writer w).2);
  flushed_is_printed line w w1 w2 : write_line writer line w = (true, w1) -> flush writer w1 = (true, w2) ->
    line ∈ sv_printed (view w2);
}.
Context `{!EmailTableLaws, !AccountTableLaws, !QueueTableLaws, !ConsoleLaws}.

(** What a claim returns. *)
Lemma claimed_delivery st env format owner limit lease tasks d' :
  service_inv st -> claim env format owner limit lease (sv_db st) = (Ok tasks, d') ->
  claim_request_ok env limit lease /\ service_step st (wrote st d') /\
  forall lt, lt ∈ tasks -> lease_deadline (lt_lease lt) = ce_instant env + lease /\
    exists t, delivery_of (wrote st d') (lt_attempt lt) t.
Proof.
  intros Hi Hc. pose proof (si_trace _ Hi) as (w & Hr & _)%trace_holds.
  assert (Hs : service_step st (wrote st d')).
  { replace d' with (claim env format owner limit lease (sv_db st)).2 by (by rewrite Hc).
    apply ss_queue, table_claim. }
  destruct (claimed_tasks _ _ _ _ _ _ _ _ _ Hr Hc) as [Hreq Hret]. split_and!; [done..|].
  intros lt Hlt. destruct (Hret lt Hlt) as (Hl & t & Ht & Hid & Hdel). split; [done|]. exists t. split; [|done].
  apply (gr_tasks _ _ (step_grows _ _ (si_trace _ Hi) Hs)). by apply (rep_published _ _ Hr).
Qed.

(** *** What a handler leaves *)

(** An answer of the recorded kind, or the panic of a completion. *)
Definition handled (t : NewTask) (a : TaskAttempt) (st : service_state)
    (r : option (result TaskHandlerError unit)) (st' : service_state) : Prop :=
  rtc service_step st st' /\
  match r with
  | Some res => handler_answered st' t a res
  | None => exists em id p at_, record_task em id p at_ t
  end.

Lemma stored_stays t st st' :
  service_inv st /\ task_stored (sv_db st) t -> rtc service_step st st' ->
  service_inv st' /\ task_stored (sv_db st') t.
Proof.
  intros [Hi Ht] Hs. destruct (steps_grow _ _ Hs Hi) as [Hg ?]. split; [done|by apply (gr_tasks _ _ Hg)].
Qed.

(** Sending a code. *)
Lemma send_handled d em id code t a w r w' :
  application_dispatcher writer now fresh = Ok d ->
  send_task em id code t -> email_valid em -> 1000000 <= code <= 9999999 -> delivers a t ->
  dispatch d a w = (r, w') -> handled t a (view w) r (view w').
Proof.
  intros Hd Ht He Hc Ha. rewrite (dispatch_send writer now fresh d Hd em id code t) by done.
  set (line := console_line _ _). pose proof (write_line_steps line w) as Hw. cbv zeta.
  destruct (write_line writer line w) as [ok1 w1] eqn:E1. simpl in Hw.
  destruct ok1; [|intros [= <- <-]; split; [done|]; exists (send_calls line false false);
    split_and!; [apply (recorded_send em id code t); by eauto|by repeat constructor|]].
  2:{ intros [|? [|? ?]] line' after; discriminate. }
  pose proof (flush_steps w1) as Hf. destruct (flush writer w1) as [ok2 w2] eqn:E2. simpl in Hf.
  intros [= <- <-]. split; [by etrans|]. exists (send_calls line true ok2).
  split_and!; [apply (recorded_send em id code t); by eauto|by repeat constructor|].
  intros [|? [|? [|? ?]]] line' after; try discriminate. intros [= -> ->]. by eapply flushed_is_printed.
Qed.

(** Creating the account. *)
Lemma create_handled d em id p t a w r w' :
  application_dispatcher writer now fresh = Ok d ->
  service_inv (view w) -> task_stored (sv_db (view w)) t -> create_task em id p t -> email_valid em ->
  delivers a t -> dispatch d a w = (r, w') -> handled t a (view w) r (view w').
Proof.
  intros Hd Hi Hst Ht He Ha.
  destruct (dispatch_create writer now fresh d Hd em id p t a w Ht He Ha) as (t' & Ht' & -> & _).
  destruct (account_execute_with_outbox _ _ _) as [r1 w1] eqn:E. intros [= <- <-]. apply account_runs in E.
  apply (gateway_runs_post _ _ _ _ (fun st => service_inv st /\ task_stored (sv_db st) t)
    (fun r st => exists r0, r = Some r0 /\ run_answered (St := UserAccount) (history st) t [t']
       (account_id_to_string id) (create_command em id p (now w)) r0))
    in E as [Hs (? & -> & r0 & -> & Hans)]; [|..|done|done].
  - split; [done|]. eexists. split_and!; [apply (recorded_create em id p t); by eauto 10| |].
    + repeat constructor. by exists r0.
    + intros [|? [|? ?]] line after; discriminate.
  - apply stored_stays.
  - intros st r st' _ [Hi' Hst'] Hrun. by eapply create_run.
Qed.

(** Recording it. *)
Lemma record_handled d em id p at_ t a w r w' :
  application_dispatcher writer now fresh = Ok d ->
  service_inv (view w) -> task_stored (sv_db (view w)) t -> record_task em id p at_ t -> email_valid em ->
  delivers a t -> dispatch d a w = (r, w') -> handled t a (view w) r (view w').
Proof.
  intros Hd Hi Hst Ht He Ha. rewrite (dispatch_record writer now fresh d Hd em id p at_ t a w Ht He Ha).
  destruct (email_execute_with_outbox _ _ _) as [r1 w1] eqn:E. intros [= <- <-]. apply email_runs in E; [|done].
  apply (gateway_runs_post _ _ _ _ (fun st => service_inv st /\ task_stored (sv_db st) t)
    (fun r st => forall r0, r = Some r0 -> run_answered (St := EmailReservation) (history st) t []
       (email_to_string em) (RecordAccountCreated em id p at_) r0))
    in E as [Hs ([r0|] & -> & Hans)]; [|..|done|done].
  - split; [done|]. eexists. split_and!; [apply (recorded_record em id p at_ t); by eauto| |].
    + repeat constructor. exists r0. by auto.
    + intros [|? [|? ?]] line after; discriminate.
  - split; [done|]. by exists em, id, p, at_.
  - apply stored_stays.
  - intros st r st' _ [Hi' Hst'] Hrun. by eapply record_run.
Qed.

Lemma dispatch_handled d a t w r w' :
  service_inv (view w) -> application_dispatcher writer now fresh = Ok d ->
  delivery_of (view w) a t -> dispatch d a w = (r, w') -> handled t a (view w) r (view w').
Proof.
  intros Hi Hd (Hst & Hid & Ha) Hr.
  pose proof (si_trace _ Hi) as (ww & Hrep & Hw & _)%trace_holds. apply reachable_world in Hw.
  destruct (inv_tasks _ Hw t (stored_task_published _ _ _ Hrep Hst)) as [(em & id & code & Ht & He & Hc)
    |[(em & id & p & Ht & He & _)|(em & id & p & at_ & Ht & He & _)]].
  - by eapply send_handled.
  - by eapply create_handled.
  - by eapply record_handled.
Qed.

(** *** What a cancelled handler has done *)

(** A handler that is cut off has made some of the runs of its command; any of
    them may have been written. *)
Inductive handler_step (t : NewTask) (st : service_state) : service_state -> Prop :=
| hs_other st' : service_step st st' -> handler_step t st st'
| hs_create em id p at_ t' d0 r d' :
    create_task em id p t -> email_valid em -> record_task em id p at_ t' -> d0 ∈ sv_db st :: sv_past st ->
    framework_run (St := UserAccount) [t'] (account_id_to_string id)
      (CreateAccount id em (first_name p) (last_name p) (date_of_birth p) (validation_date p) at_)
      d0 (sv_db st) r d' -> handler_step t st (wrote st d')
| hs_record em id p at_ d0 r d' :
    record_task em id p at_ t -> email_valid em -> d0 ∈ sv_db st :: sv_past st ->
    framework_run (St := EmailReservation) [] (email_to_string em) (RecordAccountCreated em id p at_)
      d0 (sv_db st) r d' -> handler_step t st (wrote st d').

Lemma handler_steps t st st' :
  service_inv st /\ task_stored (sv_db st) t -> rtc (handler_step t) st st' -> rtc service_step st st'.
Proof.
  intros Hq Hs. induction Hs as [st|st st1 st2 Hs _ IH]; [done|].
  assert (Hst : service_step st st1).
  { destruct Hs as [st' Hs|em id p at_ t' d0 r d' Hc He Hr Hd Hf|em id p at_ d0 r d' Hr He Hd Hf]; [done|..];
      apply ss_command.
    - eapply (table_account _ _ (CreateAccount id em (first_name p) (last_name p) (date_of_birth p)
        (validation_date p) at_)); [exact Hd| |exact Hf]. exists p, t, t'. by destruct Hq.
    - eapply (table_email _ _ (RecordAccountCreated em id p at_)); [exact Hd| |exact Hf].
      split; [done|]. split; [done|]. exists t. by destruct Hq. }
  eapply rtc_l; [done|]. apply IH. by eapply stored_stays; [|apply rtc_once].
Qed.

(** *** Settling *)

Lemma source_later st st' task request :
  service_inv st -> rtc service_step st st' -> settle_source st task request -> settle_source st' task request.
Proof.
  intros Hi Hs (t & (Hst & Hdel) & Hreq). destruct (stored_stays t _ _ (conj Hi Hst) Hs) as [_ Hst'].
  exists t. split; [by split|]. destruct Hreq as [?|(res & delay & ? & [?|?])]; [by left|right..];
    exists res, delay; (split; [done|]); [by left|right; by eapply handler_answered_later].
Qed.

(** The executor requests the settlement of its handler's outcome. *)
Lemma requested_settlement task res request :
  requested task res request -> exists delay, request = settlement_request res delay.
Proof.
  destruct res as [[]|[reason [after|]|reason]]; simpl; intros Hr; [exists 0|exists 0| |exists 0]; try done.
  destruct Hr as (delay & -> & _). by exists delay.
Qed.

Lemma task_stored_unique d t t' : task_stored d t -> task_stored d t' -> nt_id t = nt_id t' -> t = t'.
Proof.
  intros (Hn & r & Hr & Hc) (Hn' & r' & Hr' & Hc') Hid. rewrite Hid, Hr' in Hr. simplify_eq.
  destruct t as [i [ty v] pl md sc mx], t' as [i' [ty' v'] pl' md' sc' mx'].
  destruct Hc as (? & ? & ? & ? & ?), Hc' as (? & ? & ? & ? & ?). simpl in *. by simplify_eq.
Qed.

Lemma settle_steps t task request w r w' :
  service_inv (view w) -> delivery_of (view w) (lt_attempt task) t -> settle_source (view w) task request ->
  queue_settle task request w = (r, w') ->
  rtc service_step (view w) (view w') /\
  (r = Ok SettledCompleted -> effect (view w') t) /\
  (forall f, r = Ok (SettledFailed f) -> tf_cause f = AttemptLimitReached).
Proof.
  intros Hi (Hst & Hid & _) Hreq (env & st1 & Hs1 & -> & Hs2)%queue_settles.
  destruct (steps_grow _ _ Hs1 Hi) as [Hg1 Hi1]. pose proof (source_later _ _ _ _ Hi Hs1 Hreq) as Hsrc.
  assert (Hs : rtc service_step (view w) (view w')).
  { etrans; [done|]. eapply rtc_l; [by apply ss_settle|done]. }
  split; [done|].
  destruct (source_justified _ _ _ (si_trace _ Hi1) Hsrc) as (t1 & Hst1 & Hid1 & Heff).
  assert (Hall : forall x, effect st1 x -> effect (view w') x).
  { intros x. apply grows_effect. assert (Hs' : rtc service_step st1 (view w')).
    { eapply rtc_l; [by apply ss_settle|done]. } by apply (steps_grow _ _ Hs' Hi1). }
  destruct (settle env task request (sv_db st1)) as [r d'] eqn:Es. simpl.
  split; [intros ->|intros f ->];
    apply settle_answer in Es as [?|(row & _ & Hx)]; try done; destruct request; simpl in *;
    try done; try (by destruct (_ <? _); simplify_eq).
  apply Hall. by rewrite <- (task_stored_unique _ _ _ Hst1 (gr_tasks _ _ Hg1 t Hst) ltac:(congruence)).
Qed.

(** The code keeps to the rules the outbox relies on.  Executing a claimed
    delivery with the application's dispatcher, over gateways that retry framework
    runs: everything it does to the tables and the console is a step of the
    service, whatever other processes do in between and wherever the deadlines cut
    it off.  It answers that the task is completed only when the task's work is
    done, and that it failed only when the attempts are used up.  It panics only
    in the handler of a completion, and then has settled nothing. *)
Lemma execution_steps (self : DefaultTaskExecutor) (env : exec_env W)
    (dispatcher : TaskDispatcher W) (task : LeasedTask) (t : NewTask) (handler_timeout : Duration.t) (w : W) :
  service_reachable (view w) -> application_dispatcher writer now fresh = Ok dispatcher ->
  delivery_of (view w) (lt_attempt task) t ->
  (forall cut, ee_handler_cut env = Some cut -> rtc (handler_step t) (view w) (view (cut w))) ->
  jitter_in_range (ee_jitter env) ->
  Instant.valid (ee_now env) -> Instant.valid (lease_deadline (lt_lease task)) ->
  0 <= handler_timeout -> 0 <= storage_timeout self ->
  ee_settle_now env + storage_timeout self <= INSTANT_MAX ->
  exists r w', execute_and_settle self env dispatcher task handler_timeout w = (r, w') /\
    rtc service_step (view w) (view w') /\
    match r with
    | Some r => (r = Ok SettledCompleted -> effect (view w') t) /\
        (forall f, r = Ok (SettledFailed f) -> tf_cause f = AttemptLimitReached)
    | None => dispatch dispatcher (lt_attempt task) w = (None, w') /\
        exists em id p at_, record_task em id p at_ t
    end.
Proof.
  intros Hi%reachable_service Hd Hdel Hcut Hj Hn Hl Hh Hs Hmax.
  pose proof Hd as Hd'. rewrite application_dispatcher_adapters in Hd'.
  destruct (execution_cases self env dispatcher _ task handler_timeout w Hd' Hj Hn Hl Hh Hs Hmax)
    as (r & w' & E & Hcases). exists r, w'. split; [done|]. destruct r as [r|].
  2:{ destruct Hcases as (_ & _ & Hp & _). by destruct (dispatch_handled _ _ t _ _ _ Hi Hd Hdel Hp). }
  destruct Hcases as [[Hr ->]|(w1 & request & ran & Hran & Hw' & Hok & _)].
  { split_and!; [done|by intros ->|by intros f ->]. }
  assert (Hw1 : rtc service_step (view w) (view w1) /\
    ((exists delay, request = Retry delay (§"insufficient lease budget before handler execution")) \/
     exists res delay, request = settlement_request res delay /\
       (res = Err (HandlerRetry (§"handler timed out") None) \/
        handler_answered (view w1) t (lt_attempt task) res))).
  { destruct ran.
    - destruct Hran as (_ & res & (delay & Hreq)%requested_settlement & Hres).
      destruct (ee_handler_cut env) as [cut|].
      + destruct Hres as [-> ->]. split; [|right; eexists _, delay; by eauto].
        exact (handler_steps t _ _ (conj Hi (proj1 Hdel)) (Hcut cut eq_refl)).
      + destruct (dispatch_handled _ _ t _ _ _ Hi Hd Hdel Hres) as (Hs1 & Hans).
        split; [done|]. right. exists res, delay. by auto.
    - destruct Hran as [-> (delay & -> & _)]. split; [done|]. left. by exists delay. }
  destruct Hw1 as [Hs1 Hreq]. destruct (stored_stays t _ _ (conj Hi (proj1 Hdel)) Hs1) as [Hi1 Hst1].
  assert (Hdel1 : delivery_of (view w1) (lt_attempt task) t) by (split; [done|apply Hdel]).
  destruct (queue_settle task request w1) as [r1 w2] eqn:Eq.
  destruct (settle_steps t task request w1 r1 w2 Hi1 Hdel1 (ex_intro _ t (conj Hdel1 Hreq)) Eq) as (Hs2 & Hc & Hf).
  split; [|destruct r as [x|]; [by injection (Hok eq_refl) as -> ->|done]].
  destruct Hw' as [->|[-> _]]; [done|by etrans].
Qed.

(** *** Use cases *)

(** A command whose origin does not depend on the moment. *)
Definition steady (c : EmailReservationCommand) (tasks : list NewTask) : Prop :=
  forall d, new_ids c d -> email_source d c tasks.

(** A success is stored: the event of the command, and its tasks. *)
Definition stored (st : service_state) (c : EmailReservationCommand) (tasks : list NewTask) : Prop :=
  (exists s e, EmailReservation.handle s c = Some (Ok [e]) /\
     event_in (St := EmailReservation) (sv_db st) (email_aggregate_id c) e) /\
  Forall (task_stored (sv_db st)) tasks.

Lemma email_run_steps c tasks st r st' :
  steady c tasks -> service_inv st ->
  run_on (St := EmailReservation) (new_ids c) tasks (email_aggregate_id c) c st r st' ->
  rtc service_step st st' /\ (r = Some (Ok tt) -> stored st' c tasks) /\ (r = None -> exists em id p at_, c = RecordAccountCreated em id p at_).
Proof.
  intros Hc Hi Hrun.
  destruct (run_states _ _ _ _ _ _ _ Hi Hrun)
    as (st0 & st1 & d' & _ & _ & _ & Hi1 & _ & Hs1 & Hnew & Hin & Hfw & Hs').
  pose proof (Hc _ Hnew) as Hsrc.
  destruct (write_step st1 d' st' Hi1) as (Hst & _ & Hg'); [by eapply (table_email _ _ c)|done|].
  split_and!; [by etrans| |by intros ->; eapply email_run_panics; [apply Hi1|exact Hin|exact Hfw]]. intros ->.
  destruct (read_worlds _ _ _ (si_trace _ Hi1) Hin) as (w0 & w1 & Hr0 & _ & Hr1 & _ & Hev).
  destruct (run_effect tasks (email_aggregate_id c) c (sv_db st0) (sv_db st1) (Some (Ok tt)) d' _ _
    (rep_reservations _ _ Hr0 _) (rep_reservations _ _ Hr1 _)) as (Hres & _); [apply Hev|apply Hev| |done|].
  { intros s e. by apply email_event_ok, Hsrc. }
  destruct Hres as [[_ Hres]|((_ & Hcom) & _)]; [done|].
  destruct Hcom as (s & e & s1 & _ & Hh & _ & Hst' & _ & _ & Hadd & _). split.
  - exists s, e. split; [done|]. apply (gr_reservations _ _ Hg'), (event_in_stream _ _ _ _ Hst').
    apply elem_of_app. right. by apply list_elem_of_singleton.
  - apply Forall_forall. intros t Ht. apply (gr_tasks _ _ Hg'). split.
    + pose proof (email_source_now _ _ _ Hsrc) as Hnow. rewrite Forall_forall in Hnow. by apply Hnow.
    + destruct (Hadd t Ht) as (_ & row & ? & _ & ? & _). by exists row.
Qed.

Lemma email_call_steps c tasks w r w' :
  steady c tasks -> may_issue c w -> service_inv (view w) -> email_execute_with_outbox c tasks w = (r, w') ->
  rtc service_step (view w) (view w') /\ (r = Some (Ok tt) -> stored (view w') c tasks) /\
  (r = None -> exists em id p at_, c = RecordAccountCreated em id p at_).
Proof.
  intros Hc Hm Hi E. apply email_runs in E; [|done].
  apply (gateway_runs_post _ _ _ _ (fun _ => True) (fun r st => (r = Some (Ok tt) -> stored st c tasks) /\
      (r = None -> exists em id p at_, c = RecordAccountCreated em id p at_)))
    in E as [Hs (r0 & -> & Hp & Hn)]; [|done| |done|done].
  - split_and!; [done| |destruct r0; [done|by auto]]. intros Hr. apply Hp. destruct r0 as [[[]|]|]; [done|discriminate Hr..].
  - intros st r1 st1 Hi1 _ Hrun. by apply email_run_steps.
Qed.

(** Events of one address. *)
Definition stored_for (w : W) (em : Email) (is_event : EmailReservationEvent -> Prop) : Prop :=
  exists e, event_in (St := EmailReservation) (sv_db (view w)) (email_to_string em) e /\ is_event e.
Definition task_kept (w : W) (is_task : NewTask -> Prop) : Prop :=
  exists t, task_stored (sv_db (view w)) t /\ is_task t.

(** The event of an accepted command. *)
Lemma stored_event w c tasks (is_event : EmailReservationEvent -> Prop) :
  stored (view w) c tasks ->
  (forall p e p', lifecycle p c e p' -> is_event e) -> stored_for w (command_email c) is_event.
Proof.
  intros [(s & e & Hh & He) _] Hl. apply accepts_lifecycle in Hh as (e0 & s' & [= <-] & _ & Hlc).
  exists e. rewrite <- aggregate_id_email. split; [done|]. by apply Hl in Hlc.
Qed.

Lemma stored_task w c t (is_task : NewTask -> Prop) :
  stored (view w) c [t] -> is_task t -> task_kept w is_task.
Proof. intros [_ Ht] Hi. exists t. by inversion Ht. Qed.

Lemma issuing_steps c w r w' em id code t :
  c = ReserveEmail em id code \/ c = RequestVerificationCode em id code ->
  service_inv (view w) -> email_valid em -> unused w id -> send_task em id code t ->
  email_execute_with_outbox c [t] w = (r, w') ->
  rtc service_step (view w) (view w') /\
  (r = Some (Ok tt) ->
     stored_for w' em (fun e => issued e = Some (id, code)) /\ task_kept w' (send_task em id code)) /\ r <> None.
Proof.
  intros Hc Hi He Hu Ht E.
  apply email_call_steps in E as (Hs & Hok & Hn); [| |by destruct Hc as [->| ->]; intros ? [= <-]|done].
  - split_and!; [done| |intros Hr; destruct (Hn Hr) as (? & ? & ? & ? & Heq); by destruct Hc as [->| ->]].
    intros Hr%Hok. split; [|by eapply stored_task].
    replace em with (command_email c) by (by destruct Hc as [->| ->]).
    eapply stored_event; [done|]. intros p e p' Hl. destruct Hc as [->| ->]; by inversion Hl.
  - intros d Hd. destruct Hc as [->| ->]; (split; [done|]; split; [by apply Hd|by exists t]).
Qed.

Lemma use_case_steps (w : W) (em : Email) :
  service_reachable (view w) -> email_valid em ->
  (forall m r w', unused w (m_account_id m) -> reserve_email m em w = (r, w') ->
     r <> None /\ rtc service_step (view w) (view w') /\
     (call_ok r = true ->
        stored_for w' em (fun e => issued e = Some (m_account_id m, m_verification_code m)) /\
        task_kept w' (send_task em (m_account_id m) (m_verification_code m)))) /\
  (forall m r w', unused w (m_account_id m) -> request_new_verification_code m em w = (r, w') ->
     r <> None /\ rtc service_step (view w) (view w') /\
     (call_ok r = true ->
        stored_for w' em (fun e => issued e = Some (m_account_id m, m_verification_code m)) /\
        task_kept w' (send_task em (m_account_id m) (m_verification_code m)))) /\
  (forall m id code r w', confirm_email m em id code w = (r, w') ->
     r <> None /\ rtc service_step (view w) (view w') /\
     (forall v, r = Some (Ok v) ->
        stored_for w' em (fun e => e = EmailVerified em id (digest (ve_account_creation_token v))))) /\
  (forall at_ tid s r w', ps_email s = em -> submit_profile at_ tid s w = (r, w') ->
     r <> None /\ rtc service_step (view w) (view w') /\
     (call_ok r = true -> exists p, task_kept w' (create_task em (ps_account_id s) p) /\
        stored_for w' em (fun e => e = RegistrationProfileAccepted em (ps_account_id s)
          (digest (ps_account_creation_token s)) p))).
Proof.
  intros Hi%reachable_service He. split_and!.
  - intros m r w' Hu. unfold reserve_email.
    destruct (send_new_task (m_task_id m) {| sv_email := em; sv_account_id := m_account_id m;
      sv_verification_code := m_verification_code m |}) as [t Ht]. rewrite Ht.
    destruct (email_execute_with_outbox _ _ _) as [r1 w1] eqn:E. intros [= <- <-].
    eapply issuing_steps in E as (Hs & Hok & Hn); [|by left|done..|by exists (m_task_id m)].
    destruct r1 as [[[]|]|]; [|done..]. split_and!; [done|done|]. intros _. by apply Hok.
  - intros m r w' Hu. unfold request_new_verification_code.
    destruct (send_new_task (m_task_id m) {| sv_email := em; sv_account_id := m_account_id m;
      sv_verification_code := m_verification_code m |}) as [t Ht]. rewrite Ht.
    destruct (email_execute_with_outbox _ _ _) as [r1 w1] eqn:E. intros [= <- <-].
    eapply issuing_steps in E as (Hs & Hok & Hn); [|by right|done..|by exists (m_task_id m)].
    destruct r1 as [[[]|]|]; [|done..]. split_and!; [done|done|]. intros _. by apply Hok.
  - intros m id code r w'. unfold confirm_email, email_execute. destruct (negb _); [by intros [= <- <-]|].
    destruct (email_execute_with_outbox _ _ _) as [r1 w1] eqn:E. intros [= <- <-].
    apply email_call_steps in E as (Hs & Hok & Hn); [|by intros d _|done|done].
    split_and!; [destruct r1; [done|by destruct (Hn eq_refl) as (? & ? & ? & ? & ?)]|done|].
    intros v Hv. destruct r1 as [[[]|]|]; [|done..]. injection Hv as <-.
    apply (stored_event _ _ _ _ (Hok eq_refl)). intros p e p' Hl. by inversion Hl.
  - intros at_ tid s r w' <-. unfold submit_profile. set (p := profile_new _ _ _ _).
    destruct (create_new_task tid {| ct_email := ps_email s; ct_account_id := ps_account_id s;
      ct_profile := p |}) as [t Ht]. rewrite Ht.
    assert (Hp : profile_normalize p = p).
    { apply profile_normalize_idemp with (p := {| first_name := ps_first_name s;
        last_name := ps_last_name s; date_of_birth := ps_date_of_birth s; validation_date := date_naive at_ |}). }
    destruct (email_execute_with_outbox _ _ _) as [r1 w1] eqn:E. intros [= <- <-].
    apply email_call_steps in E as (Hs & Hok & Hn); [| |done|done].
    + split_and!; [destruct r1; [done|by destruct (Hn eq_refl) as (? & ? & ? & ? & ?)]|done|].
      intros Hr. destruct r1 as [[[]|[]]|]; try done. exists p.
      split; [eapply stored_task; [by apply Hok|by exists tid]|].
      apply (stored_event _ _ _ _ (Hok eq_refl)). intros p0 e p' Hl. inversion Hl. by rewrite Hp.
    + intros d _. split; [done|]. split; [done|]. exists t. split; [done|by exists tid].
Qed.

(** C3: what the service answers is in the tables.  Each use case, over gateways
    that retry framework runs while other processes work on the same tables, never
    panics and does nothing but steps of the service; when it reports success, the event it stands
    for is stored, and so is the task that carries the registration on.  In
    particular the digest that is stored is that of the token the caller gets,
    and the profile is the one the task will create an account with. *)
Theorem use_cases_are_stored (w : W) (em : Email) :
  service_reachable (view w) -> email_valid em ->
  (forall m r w', unused w (m_account_id m) -> reserve_email m em w = (r, w') ->
     r <> None /\ rtc service_step (view w) (view w') /\
     (call_ok r = true ->
        stored_for w' em (fun e => issued e = Some (m_account_id m, m_verification_code m)) /\
        task_kept w' (send_task em (m_account_id m) (m_verification_code m)))) /\
  (forall m r w', unused w (m_account_id m) -> request_new_verification_code m em w = (r, w') ->
     r <> None /\ rtc service_step (view w) (view w') /\
     (call_ok r = true ->
        stored_for w' em (fun e => issued e = Some (m_account_id m, m_verification_code m)) /\
        task_kept w' (send_task em (m_account_id m) (m_verification_code m)))) /\
  (forall m id code r w', confirm_email m em id code w = (r, w') ->
     r <> None /\ rtc service_step (view w) (view w') /\
     (forall v, r = Some (Ok v) ->
        stored_for w' em (fun e => e = EmailVerified em id (digest (ve_account_creation_token v))))) /\
  (forall at_ tid s r w', ps_email s = em -> submit_profile at_ tid s w = (r, w') ->
     r <> None /\ rtc service_step (view w) (view w') /\
     (call_ok r = true -> exists p, task_kept w' (create_task em (ps_account_id s) p) /\
        stored_for w' em (fun e => e = RegistrationProfileAccepted em (ps_account_id s)
          (digest (ps_account_creation_token s)) p))).
Proof. apply use_case_steps. Qed.
End Workers.
