(* ===== verification/Worker.v ===== *)
(** * A task worker

    [cqrs-runtime/src/runtime/worker.rs]: the loop of one worker, with its executor
    and dispatcher.  [Supervisor] and [WorkerPool] describe the worker as one of
    many by the events of its loop; here the loop itself is run, turn by turn, on
    the world its deliveries change. *)

From S2P Require Import Prelude DomainValues EmailReservation UserAccount FloatTime Binary64 TaskData.
From S2P Require Import Database EventRepository CommandRetry TaskQueue TaskHandling TaskExecutor RuntimeConfig.
From S2P Require Import Application System Diagnostics EventCodec EventStore Tables Processing.
#[local] Open Scope Z_scope.

(** ** The loop *)

Section Loop.
Context `{Printers, UuidCrate} {W : Type}.

(** What one turn of the loop meets: the biased [select!] sees the stop, or the
    receiver answers that the channel is closed, or it hands out a delivery.
    [meanwhile] is what happened while the worker waited, and [stopped] what
    [stop.is_cancelled] answers after the notification. *)
Inductive turn :=
| StopSeen (meanwhile : W -> W)
| ChannelClosed (meanwhile : W -> W)
| Received (meanwhile : W -> W) (task : LeasedTask) (stopped : bool) (env : exec_env W).

(** How the worker ends: it still waits, it returned its index, or its task
    unwound with a panic of this delivery's execution. *)
Inductive worker_end := StillRunning | ReturnedIndex (index : Z) | PanickedOn (task : LeasedTask).

(** What the worker has done: the deliveries it executed with their answers, a
    delivery it took and left to recovery, the notifications of free capacity, the
    log, and its end. *)
Record worker_run := {
  wr_executed : list (LeasedTask * result TaskProcessingError SettlementResult);
  wr_left : list LeasedTask;
  wr_notified : nat;
  wr_log : list log_record;
  wr_end : worker_end;
  wr_world : W;
}.

Definition ended (notified : nat) (how : worker_end) (w : W) : worker_run := {|
  wr_executed := []; wr_left := []; wr_notified := notified; wr_log := []; wr_end := how; wr_world := w |}.

Fixpoint run_task_worker (index : Z) (dispatcher : TaskDispatcher W) (executor : TaskExecutor W)
    (handler_timeout : Duration.t) (turns : list turn) (w : W) : worker_run :=
  match turns with
  | [] => ended 0 StillRunning w
  | StopSeen meanwhile :: _ | ChannelClosed meanwhile :: _ => ended 0 (ReturnedIndex index) (meanwhile w)
  | Received meanwhile task true _ :: _ =>
    let run := ended 1 (ReturnedIndex index) (meanwhile w) in
    {| wr_executed := wr_executed run; wr_left := [task]; wr_notified := wr_notified run;
       wr_log := wr_log run; wr_end := wr_end run; wr_world := wr_world run |}
  | Received meanwhile task false env :: turns =>
    let id := at_id (lt_attempt task) in
    match te_execute_and_settle executor env dispatcher task handler_timeout (meanwhile w) with
    | (None, w) => ended 1 (PanickedOn task) w
    | (Some r, w) =>
      let run := run_task_worker index dispatcher executor handler_timeout turns w in
      {| wr_executed := (task, r) :: wr_executed run; wr_left := wr_left run;
         wr_notified := S (wr_notified run);
         wr_log := option_list (log_execution id r) ++ wr_log run;
         wr_end := wr_end run; wr_world := wr_world run |}
    end
  end.
End Loop.
Arguments turn W : clear implicits.
Arguments worker_run W : clear implicits.

(** ** What a worker does to the tables *)

Section Workers.
Context `{F64Laws, UuidLaws, EmailLaws, ChronoLaws, TokenDigest, Printers} {W : Type} (view : W -> service_state).
Context `{EmailReservationGateway W, UserAccountGateway W, TaskQueuePort W}.
Context (writer : Writer (W:=W)) (now : W -> DateTime) (fresh : W -> Uuid)
  (unused : W -> UserAccountId -> Prop).
Context `{!EmailTableLaws view unused, !AccountTableLaws view, !QueueTableLaws view, !ConsoleLaws view writer}.
Context (index : Z) (dispatcher : TaskDispatcher W) (executor : DefaultTaskExecutor)
  (handler_timeout : Duration.t).
Hypothesis dispatcher_built : application_dispatcher writer now fresh = Ok dispatcher.
Hypothesis timeout_positive : 0 <= handler_timeout.
Hypothesis storage_timeout_positive : 0 <= storage_timeout executor.

(** One execution among other processes, of a delivery that a claim handed out. *)
Record execution_ok (env : exec_env W) (task : LeasedTask) (w : W) (t : NewTask) : Prop := {
  ex_delivery : delivery_of (view w) (lt_attempt task) t;
  ex_cut cut : ee_handler_cut env = Some cut -> rtc (handler_step t) (view w) (view (cut w));
  ex_jitter : jitter_in_range (ee_jitter env);
  ex_now : Instant.valid (ee_now env);
  ex_deadline : Instant.valid (lease_deadline (lt_lease task));
  ex_settle_now : ee_settle_now env + storage_timeout executor <= INSTANT_MAX;
}.

(** The turns a worker can meet from [w] on. *)
Fixpoint turns_ok (turns : list (turn W)) (w : W) : Prop :=
  match turns with
  | [] => True
  | StopSeen meanwhile :: _ | ChannelClosed meanwhile :: _ | Received meanwhile _ true _ :: _ =>
    rtc service_step (view w) (view (meanwhile w))
  | Received meanwhile task false env :: turns =>
    rtc service_step (view w) (view (meanwhile w)) /\
    (exists t, execution_ok env task (meanwhile w) t) /\
    forall r w', execute_and_settle executor env dispatcher task handler_timeout (meanwhile w) = (Some r, w') ->
      turns_ok turns w'
  end.

(** The task of a delivery that was settled as completed. *)
Definition took_effect (st : service_state) (task : LeasedTask) : Prop :=
  exists t, nt_id t = at_id (lt_attempt task) /\ task_stored (sv_db st) t /\ effect st t.

Lemma took_effect_stays st st' task :
  service_inv st -> rtc service_step st st' -> took_effect st task -> took_effect st' task.
Proof.
  intros Hi Hs (t & ? & ? & ?). destruct (steps_grow _ _ Hs Hi) as [Hg _]. exists t.
  split_and!; [done|by apply (gr_tasks _ _ Hg)|by eapply grows_effect].
Qed.

(** An answer a worker may get. *)
Definition answer_ok (st : service_state) (e : LeasedTask * result TaskProcessingError SettlementResult) : Prop :=
  match e.2 with
  | Ok SettledCompleted => took_effect st e.1
  | Ok (SettledFailed f) => tf_cause f = AttemptLimitReached
  | _ => True
  end.

(** The only execution that panics: the completion of a registration. *)
Definition panic_ok (st : service_state) (task : LeasedTask) : Prop :=
  exists t em id p at_, nt_id t = at_id (lt_attempt task) /\ task_stored (sv_db st) t /\
    record_task em id p at_ t.

Lemma panic_ok_stays st st' task :
  service_inv st -> rtc service_step st st' -> panic_ok st task -> panic_ok st' task.
Proof.
  intros Hi Hs (t & em & id & p & at_ & ? & ? & ?). destruct (steps_grow _ _ Hs Hi) as [Hg _].
  exists t, em, id, p, at_. split_and!; [done|by apply (gr_tasks _ _ Hg)|done].
Qed.

Lemma execution_answer env task w t :
  service_reachable (view w) -> execution_ok env task w t ->
  exists r w', execute_and_settle executor env dispatcher task handler_timeout w = (r, w') /\
    rtc service_step (view w) (view w') /\
    match r with
    | Some r => answer_ok (view w') (task, r)
    | None => dispatch dispatcher (lt_attempt task) w = (None, w') /\ panic_ok (view w') task
    end.
Proof.
  intros Hr [Hd Hc Hj Hn Hl Hs].
  destruct (execution_steps view writer now fresh unused executor env dispatcher task t handler_timeout w)
    as (r & w' & E & Hst & Hres); [done..|].
  destruct Hd as (Htask & Hid & _).
  assert (Hst' : task_stored (sv_db (view w')) t).
  { apply (stored_stays t (view w)); [|done]. split; [by apply reachable_service|done]. }
  exists r, w'. split_and!; [done..|]. destruct r as [r|].
  - destruct Hres as [Hok Hf]. destruct r as [[]|]; simpl; try done; [|by apply Hf].
    exists t. split_and!; [done|done|by apply Hok].
  - destruct Hres as (Hp & em & id & p & at_ & Ht). split; [done|]. by exists t, em, id, p, at_.
Qed.

Lemma worker_steps turns w :
  service_reachable (view w) -> turns_ok turns w ->
  let run := run_task_worker index dispatcher (default_executor executor) handler_timeout turns w in
  rtc service_step (view w) (view (wr_world run)) /\
  Forall (answer_ok (view (wr_world run))) (wr_executed run) /\
  (forall task, wr_end run = PanickedOn task -> panic_ok (view (wr_world run)) task).
Proof.
  revert w. induction turns as [|[m|m|m task [] env] turns IH]; intros w Hr Hok; simpl in *;
    try (split_and!; [done|by constructor|done]).
  destruct Hok as (Hm & (t & Ht) & Hnext). pose proof (reachable_steps _ _ Hr Hm) as Hr1.
  destruct (execution_answer env task (m w) t Hr1 Ht) as (r & w1 & E & Hs1 & Ha). rewrite E.
  destruct r as [r|]; simpl.
  2:{ split_and!; [by etrans|by constructor|]. intros ? [= <-]. by destruct Ha. }
  pose proof (reachable_steps _ _ Hr1 Hs1) as Hr2.
  destruct (IH w1 Hr2 (Hnext r w1 E)) as (Hs2 & Hf & Hp).
  split_and!; [by do 2 (etrans; [eassumption|])| |done].
  constructor; [|done]. destruct r as [[]|]; try done.
  by eapply took_effect_stays; [apply reachable_service| |].
Qed.

(** The deliveries of the turns up to the stop. *)
Fixpoint taken (turns : list (turn W)) : list LeasedTask :=
  match turns with
  | Received _ task false _ :: turns => task :: taken turns
  | Received _ task true _ :: _ => [task]
  | _ => []
  end.

(** The delivery a worker panicked on. *)
Definition in_hand (run : worker_run W) : list LeasedTask :=
  match wr_end run with PanickedOn task => [task] | _ => [] end.

Lemma worker_accounts turns w :
  let run := run_task_worker index dispatcher (default_executor executor) handler_timeout turns w in
  (exists rest, taken turns = (fst <$> wr_executed run) ++ wr_left run ++ in_hand run ++ rest /\
     (in_hand run = [] -> rest = [])) /\
  wr_notified run = (length (wr_executed run) + length (wr_left run) + length (in_hand run))%nat /\
  wr_log run = omap (fun e => log_execution (at_id (lt_attempt e.1)) e.2) (wr_executed run) /\
  (wr_left run <> [] -> wr_end run = ReturnedIndex index) /\
  (forall i, wr_end run = ReturnedIndex i -> i = index).
Proof.
  revert w. induction turns as [|[m|m|m task [] env] turns IH]; intros w; simpl;
    try (split_and!; try done; [by exists []|by intros i [= <-]]).
  - split_and!; try done. by exists [].
  - destruct (execute_and_settle _ _ _ _ _ _) as [[r|] w1]; simpl.
    2:{ split_and!; try done. by exists (taken turns). }
    destruct (IH w1) as ((rest & -> & Hrest) & -> & -> & Hl & Hi). split_and!; try done; [by exists rest|].
    by destruct (log_execution _ _).
Qed.

(** C5: a worker keeps the rules and loses nothing.  Whatever the worker meets,
    all it does to the tables and the console are steps of the service, also when
    an execution panics; a delivery it executed and was told is completed had its
    effect, and one it was told has failed has no attempts left.  Every delivery
    it takes is executed once, in order, or left to recovery because of the stop,
    after which it returns its own index, or is the last one, whose execution
    panicked; and the only deliveries whose execution can panic are completions of
    a registration.  Each delivery announces the free capacity once, and the log
    has one record for each execution that was not completed or retried. *)
Theorem worker_keeps_the_rules turns w :
  service_reachable (view w) -> turns_ok turns w ->
  let run := run_task_worker index dispatcher (default_executor executor) handler_timeout turns w in
  rtc service_step (view w) (view (wr_world run)) /\
  Forall (answer_ok (view (wr_world run))) (wr_executed run) /\
  (forall task, wr_end run = PanickedOn task -> panic_ok (view (wr_world run)) task) /\
  (exists rest, taken turns = (fst <$> wr_executed run) ++ wr_left run ++ in_hand run ++ rest /\
     (in_hand run = [] -> rest = [])) /\
  wr_notified run = (length (wr_executed run) + length (wr_left run) + length (in_hand run))%nat /\
  wr_log run = omap (fun e => log_execution (at_id (lt_attempt e.1)) e.2) (wr_executed run) /\
  (wr_left run <> [] -> wr_end run = ReturnedIndex index) /\
  (forall i, wr_end run = ReturnedIndex i -> i = index).
Proof.
  intros Hr Hok. destruct (worker_steps turns w Hr Hok) as (Hs & Hf & Hp).
  by destruct (worker_accounts turns w) as (? & ? & ? & ? & ?).
Qed.
End Workers.
