(* ===== verification/Runtime.v ===== *)
(** * The task runtime on the tables

    The supervisor of [WorkerPool] (its loop, the channel and the worker tasks)
    beside the tables it works on: [TaskQueue::claim] and [Poller::claim] fill the
    channel, worker tasks execute what they receive.  What is proved is that the
    pieces fit: whatever any worker of a running process executes, through
    restarts, stops and other processes, is a delivery of a stored task, so that
    executing it is what [Worker] says. *)

From S2P Require Import Prelude DomainValues EmailReservation UserAccount FloatTime Binary64 TaskData.
From S2P Require Import Database EventRepository CommandRetry TaskQueue TaskHandling TaskExecutor RuntimeConfig.
From S2P Require Import Supervisor WorkerPool Application System Diagnostics EventCodec EventStore Tables Processing.
From S2P Require Worker.
#[local] Open Scope Z_scope.

(** ** What the loop passes around *)

Section Held.
Context {W : Type} (P : LeasedTask -> Prop) (D : TaskDispatcher W -> Prop).

Definition task_holds (t : WorkerTask W) : Prop :=
  D (wt_dispatcher t) /\ match wt_state t with Executing task => P task | _ => True end.

(** Every delivery that waits or runs satisfies [P], every dispatcher [D]. *)
Definition holds (s : supervisor W) : Prop :=
  Forall P (s_queue s) /\ map_Forall (fun _ => task_holds) (wp_workers (s_pool s)).

(** What enters from outside: claimed deliveries and rebuilt dispatchers. *)
Definition brings (ev : sup_event W) : Prop :=
  match ev with
  | ClaimReturned tasks => Forall P tasks
  | ExitTaken _ _ (Ok d) => D d
  | _ => True
  end.

Lemma set_state_holds (s : supervisor W) id t st :
  map_Forall (fun _ => task_holds) (wp_workers (s_pool s)) -> wp_workers (s_pool s) !! id = Some t ->
  match st with Executing task => P task | _ => True end ->
  map_Forall (fun _ => task_holds) (wp_workers (set_state (s_pool s) id st)).
Proof.
  intros Hw Ht Hst id' t'. simpl. rewrite lookup_alter_Some.
  intros [(-> & t0 & Ht0 & ->)|(_ & Ht')]; [|by eapply Hw].
  destruct (Hw _ _ Ht0) as [? _]. by split.
Qed.

Lemma task_step_holds s ev s' : holds s -> task_step s ev = SNext s' -> holds s'.
Proof.
  intros [Hq Hw]. destruct ev; simpl; try done; unfold state_at;
    destruct (wp_workers (s_pool s) !! id) as [t|] eqn:Et; simpl; try done;
    destruct (wt_state t) eqn:Est; try done.
  - case_match; [|done]. intros [= <-]. split; [done|]. by eapply set_state_holds.
  - destruct (s_queue s) as [|task rest] eqn:Eq; [done|]. intros [= <-].
    apply Forall_cons in Hq as [Htask Hq]. split; [done|]. eapply set_state_holds; [done|done|].
    by destruct (s_stop s).
  - destruct (s_queue s) eqn:Eq; [|done]. case_match; [|done]. intros [= <-].
    split; simpl; [by rewrite Eq|]. by eapply set_state_holds.
  - intros [= <-]. split; [done|]. by eapply set_state_holds.
  - intros [= <-]. split; [done|]. by eapply set_state_holds.
Qed.

Lemma join_next_holds (ts : gmap Id (WorkerTask W)) id how ts' :
  map_Forall (fun _ => task_holds) ts -> join_next ts id = Some (how, ts') ->
  map_Forall (fun _ => task_holds) ts'.
Proof.
  intros Hw (t & _ & _ & ->)%join_next_inv id' t' [_ Ht']%lookup_delete_Some. by eapply Hw.
Qed.

Lemma drain_tasks_holds s ev s' : holds s -> drain_tasks s ev = SNext s' -> holds s'.
Proof.
  intros [Hq Hw]. unfold drain_tasks. destruct (s_phase s); try done. destruct ev; try done.
  - destruct (join_next _ _) as [[how ts]|] eqn:Ej; [|done]. intros [= <-]. split; [done|].
    by eapply join_next_holds.
  - case_decide; [|done]. by intros [= <-].
  - intros [= <-]. split; [done|]. apply map_Forall_empty.
Qed.

Lemma run_step_holds q fs s ev s' : holds s -> brings ev -> run_step q fs s ev = SNext s' -> holds s'.
Proof.
  intros Hs Hb. pose proof Hs as [Hq Hw].
  destruct ev as [| |id new_id built| | | | |tasks| | | | | | | | |]; cbn [run_step];
    try (by apply task_step_holds); try (by apply drain_tasks_holds);
    try (simpl; repeat case_match; try done; intros [= <-]; by split).
  - cbn [loop_step]. destruct (s_phase s); try done. unfold next_exit.
    destruct (join_next _ _) as [[how ts]|] eqn:Ej; [|done].
    destruct (_ !! id) as [index|]; [|done]. pose proof (join_next_holds _ _ _ _ Hw Ej) as Hts.
    destruct (build_checked_dispatcher _ _ _) as [d|e] eqn:Ed; [|intros [= <-]; by split].
    apply checked_dispatcher_ok in Ed as [-> _].
    case_match; intros [= <-]; [by split|]. split; [done|]. simpl. by apply map_Forall_insert_2.
  - cbn [loop_step]. destruct (s_phase s); try done. case_match; [intros [= <-]; by split|].
    case_match; [done|]. case_match; [done|]. intros [= <-]. split; [|done]. simpl. by apply Forall_app.
Qed.

Lemma spawn_all_holds wp index ids ds :
  map_Forall (fun _ => task_holds) (wp_workers wp) -> Forall D ds ->
  map_Forall (fun _ => task_holds) (wp_workers (spawn_all wp index ids ds)).
Proof.
  revert wp index ids. induction ds as [|d ds IH]; intros wp index [|id ids] Hw Hd; try done.
  apply Forall_cons in Hd as [Hd Hds]. simpl. apply IH; [|done]. simpl. by apply map_Forall_insert_2.
Qed.
End Held.

(** ** Starting *)

Section Start.
Context `{Printers} {W : Type}.

(** What [run_prepared] has when its loop begins. *)
Inductive started_run :=
| AlreadyCancelled
| Running (s : supervisor W) (poller : Poller) (log : log_record).

(** The beginning of [run_prepared]; [None] is the panic of [dispatchers[0]].
    [owner] is a new UUID and [ids] are the IDs Tokio gives the worker tasks. *)
Definition run_prepared (executor : DefaultTaskExecutor) (config : TaskWorkerPoolConfig)
    (dispatchers : list (TaskDispatcher W)) (owner : rstr) (ids : list Id) (cancelled : bool) :
    option started_run :=
  if cancelled then Some AlreadyCancelled
  else
    first ← dispatchers !! O;
    Some (Running (sup_start ids dispatchers) (poller_new (formats first) (storage_timeout executor))
            (log_started config owner)).

(** How long [WorkerPool::drain] waits for its workers: one invocation and its
    settlement. *)
Definition drain_timeout (executor : DefaultTaskExecutor) (handler_timeout : Duration.t) : Duration.t :=
  handler_timeout + storage_timeout executor.

(** [TaskRuntime::run] *)
Definition runtime_run (self : TaskRuntime (W:=W)) : rstr -> list Id -> bool -> option started_run :=
  run_prepared (tr_executor self) (tr_config self) (tr_dispatchers self).
End Start.
Arguments started_run W : clear implicits.

(** ** The runtime *)

Section Runtime.
Context `{F64Laws, UuidLaws, EmailLaws, ChronoLaws, TokenDigest, Printers} {W : Type}
  (view : W -> service_state).
Context `{EmailReservationGateway W, UserAccountGateway W, TaskQueuePort W, TaskClaimPort W}.
Context (writer : Writer (W:=W)) (now : W -> DateTime) (fresh : W -> Uuid)
  (unused : W -> UserAccountId -> Prop).
Context `{!EmailTableLaws view unused, !AccountTableLaws view, !QueueTableLaws view, !ConsoleLaws view writer}.

(** The queue claims in one transaction, between steps of other processes. *)
Class ClaimTableLaws := queue_claims format owner limit lease w r w' :
  queue_claim format owner limit lease w = (r, w') ->
  exists env st1, Instant.valid (ce_instant env) /\ rtc service_step (view w) st1 /\
    r = (claim env format owner limit lease (sv_db st1)).1 /\
    rtc service_step (wrote st1 (claim env format owner limit lease (sv_db st1)).2) (view w').
Context `{!ClaimTableLaws}.

(** A delivery of a stored task, with a deadline the clock can reach. *)
Definition genuine (st : service_state) (task : LeasedTask) : Prop :=
  Instant.valid (lease_deadline (lt_lease task)) /\ exists t, delivery_of st (lt_attempt task) t.

Lemma genuine_stays st st' task :
  service_inv st -> rtc service_step st st' -> genuine st task -> genuine st' task.
Proof.
  intros Hi Hs (Hv & t & Ht & ?). split; [done|]. exists t. split; [|done].
  by apply (stored_stays t st).
Qed.

Lemma queue_claim_genuine format owner limit lease w r w' :
  0 <= lease -> service_inv (view w) -> queue_claim format owner limit lease w = (r, w') ->
  rtc service_step (view w) (view w') /\ forall tasks, r = Ok tasks -> Forall (genuine (view w')) tasks.
Proof.
  intros Hl Hi (env & st1 & [Hv _] & Hs1 & -> & Hs2)%queue_claims.
  destruct (steps_grow _ _ Hs1 Hi) as [_ Hi1].
  assert (Hst : service_step st1 (wrote st1 (claim env format owner limit lease (sv_db st1)).2)).
  { apply ss_queue, table_claim. }
  split; [etrans; [done|]; by eapply rtc_l|]. intros tasks Hr.
  destruct (claim env format owner limit lease (sv_db st1)) as [r d'] eqn:Ec. simpl in *. subst r.
  destruct (claimed_delivery st1 env format owner limit lease tasks d' Hi1 Ec) as ((_ & _ & Hmax & _) & _ & Hd).
  apply Forall_forall. intros task (Hdl & Hex)%Hd. eapply genuine_stays; [|exact Hs2|].
  - by eapply service_inv_preserved.
  - split; [|done]. rewrite Hdl. split; lia.
Qed.

Lemma claim_formats_genuine fs start owner limit lease races offsets claimed w r w' :
  0 <= lease -> service_inv (view w) -> Forall (genuine (view w)) claimed ->
  claim_formats fs start owner limit lease races offsets claimed w = Some (r, w') ->
  rtc service_step (view w) (view w') /\ forall tasks, r = Ok tasks -> Forall (genuine (view w')) tasks.
Proof.
  intros Hl. revert claimed w. induction offsets as [|o offsets IH]; intros claimed w Hi Hc; simpl.
  { intros [= <- <-]. split; [done|]. by intros ? [= <-]. }
  case_match. { intros [= <- <-]. split; [done|]. by intros ? [= <-]. }
  destruct (fs !! _) as [format|]; simpl; [|done].
  destruct (timed_claim _ _ _ _ _ _) as [res w1] eqn:Et.
  assert (Hw1 : rtc service_step (view w) (view w1) /\
    forall tasks, res = Ok tasks -> Forall (genuine (view w1)) tasks).
  { destruct (races o); simpl in Et; simplify_eq; [by eapply queue_claim_genuine|done|].
    destruct (queue_claim _ _ _ _ w) as [r0 w0] eqn:E0. split; [|done]. by eapply queue_claim_genuine in E0 as [? _]. }
  destruct Hw1 as [Hs1 Hres]. destruct (steps_grow _ _ Hs1 Hi) as [_ Hi1].
  assert (Hc1 : Forall (genuine (view w1)) claimed).
  { eapply Forall_impl; [exact Hc|]. intros task. by apply genuine_stays. }
  destruct res as [tasks|e].
  - intros Hrun. apply IH in Hrun as [Hs2 ?]; [|done|apply Forall_app; auto]. split; [by etrans|done].
  - intros [= <- <-]. split; [done|]. destruct claimed; [done|]. by intros ? [= <-].
Qed.

Lemma poller_claim_genuine poller t0 owner limit lease races w r poller' w' :
  0 <= lease -> service_reachable (view w) ->
  poller_claim poller t0 owner limit lease races w = Some (r, poller', w') ->
  rtc service_step (view w) (view w') /\ forall tasks, r = Ok tasks -> Forall (genuine (view w')) tasks.
Proof.
  intros Hl Hr%reachable_service. unfold poller_claim.
  destruct (Instant.checked_add _ _); cbn [mbind option_bind]; [|done].
  destruct (claim_formats _ _ _ _ _ _ _ _ _) as [[r1 w1]|] eqn:Ef; cbn [mbind option_bind]; [|done].
  intros [= <- _ <-]. by apply claim_formats_genuine in Ef.
Qed.

(** One moment of the process: the supervisor and the tables. *)
Record runtime := mk_runtime { rt_supervisor : supervisor W; rt_service : service_state }.

Context (q : Z) (fs : list TaskFormat) (lease : Duration.t).
Hypothesis lease_positive : 0 <= lease.

Definition built (d : TaskDispatcher W) : Prop := application_dispatcher writer now fresh = Ok d.

(** The tables change by steps of the service, whoever takes them.  A claim
    returns what a poll that began and ended before has confirmed; a restarted
    worker gets a dispatcher of the factory; everything else is the loop's. *)
Inductive runtime_step (rt : runtime) : runtime -> Prop :=
| rt_tables st' :
    service_step (rt_service rt) st' -> runtime_step rt (mk_runtime (rt_supervisor rt) st')
| rt_claimed poller t0 owner limit races w tasks poller' w' s' :
    service_reachable (view w) ->
    poller_claim poller t0 owner limit lease races w = Some (Ok tasks, poller', w') ->
    rtc service_step (view w') (rt_service rt) ->
    run_step q fs (rt_supervisor rt) (ClaimReturned tasks) = SNext s' ->
    runtime_step rt (mk_runtime s' (rt_service rt))
| rt_event ev s' :
    match ev with
    | ClaimReturned _ => False
    | ExitTaken _ _ d => d = application_dispatcher writer now fresh
    | _ => True
    end ->
    run_step q fs (rt_supervisor rt) ev = SNext s' -> runtime_step rt (mk_runtime s' (rt_service rt)).

(** The states of a process from the moment its prepared runtime starts. *)
Inductive runtime_reachable : runtime -> Prop :=
| rr_started config self owner ids s poller log st :
    1 <= concurrency (rc_worker config) ->
    prepare (fun _ => application_dispatcher writer now fresh) config = Ok self ->
    runtime_run self owner ids false = Some (Running s poller log) -> service_reachable st ->
    runtime_reachable (mk_runtime s st)
| rr_step rt rt' : runtime_reachable rt -> runtime_step rt rt' -> runtime_reachable rt'.

Lemma prepared_dispatchers_built config self :
  1 <= concurrency (rc_worker config) ->
  prepare (fun _ => application_dispatcher writer now fresh) config = Ok self ->
  Forall built (tr_dispatchers self).
Proof.
  unfold prepare. intros Hc. destruct (startup_dispatchers _ _) as [ds|e] eqn:Es; [|done]. intros [= <-].
  destruct (startup_dispatchers_ok _ _ _ Hc Es) as (_ & first & _ & Hk). simpl.
  apply Forall_lookup. intros k d Hd. by apply (Hk k).
Qed.

Lemma runtime_invariant rt :
  runtime_reachable rt -> service_reachable (rt_service rt) /\
  holds (genuine (rt_service rt)) built (rt_supervisor rt).
Proof.
  induction 1 as [config self owner ids s poller log st Hc Hp Hrun Hr|rt rt' _ [Hr Hh] Hs].
  { split; [done|]. unfold runtime_run, run_prepared in Hrun.
    destruct (tr_dispatchers self !! O) as [first|]; [|done]. injection Hrun as <- _ _. split; [done|].
    apply spawn_all_holds; [done|]. by eapply prepared_dispatchers_built. }
  pose proof (reachable_service _ Hr) as Hi.
  destruct Hs as [st' Hs|poller t0 owner limit races w tasks poller' w' s' Hw Hc Hs Hrun|ev s' Hev Hrun]; simpl.
  - split; [by eapply rtc_r|]. destruct Hh as [Hq Hws].
    assert (Hst : forall task, genuine (rt_service rt) task -> genuine st' task).
    { intros task. apply genuine_stays; [done|]. by apply rtc_once. }
    split; [by eapply Forall_impl|]. intros id t Ht. destruct (Hws id t Ht) as [? He]. split; [done|].
    destruct (wt_state t); auto.
  - split; [done|]. eapply run_step_holds; [done| |done]. simpl.
    destruct (poller_claim_genuine _ _ _ _ _ _ _ _ _ _ lease_positive Hw Hc) as [Hs1 Hg].
    apply reachable_service in Hw. destruct (steps_grow _ _ Hs1 Hw) as [_ Hi1].
    eapply Forall_impl; [by apply Hg|].
    intros task. by apply genuine_stays.
  - split; [done|]. eapply run_step_holds; [done| |done]. destruct ev; try done. simpl in *. subst built0.
    by destruct (application_dispatcher _ _ _) eqn:Ed.
Qed.

(** C6: the whole runtime keeps the rules.  In every state a process can reach,
    with any number of workers, through claims that are cut off, panics,
    restarts and shutdown, and whatever happens to the tables meanwhile, a
    delivery that a worker executes is the delivery of a stored task, its lease
    has a deadline the clock can reach, and the worker has a dispatcher for the
    three formats.  Executing it from then on takes only steps of the service and
    is answered as completed only when the task had its effect; it returns, unless
    it is the completion of a registration and its handler panics. *)
Theorem runtime_executes_stored_tasks (executor : DefaultTaskExecutor) (handler_timeout : Duration.t)
    (rt : runtime) (id : Id) (wt : WorkerTask W) (task : LeasedTask) :
  runtime_reachable rt -> wp_workers (s_pool (rt_supervisor rt)) !! id = Some wt -> wt_state wt = Executing task ->
  0 <= handler_timeout -> 0 <= storage_timeout executor ->
  service_reachable (rt_service rt) /\ formats (wt_dispatcher wt) = [send_format; create_format; record_format] /\
  Instant.valid (lease_deadline (lt_lease task)) /\
  exists t, delivery_of (rt_service rt) (lt_attempt task) t /\
    forall env w, view w = rt_service rt ->
      (forall cut, ee_handler_cut env = Some cut -> rtc (handler_step t) (view w) (view (cut w))) ->
      jitter_in_range (ee_jitter env) -> Instant.valid (ee_now env) ->
      ee_settle_now env + storage_timeout executor <= INSTANT_MAX ->
      exists r w', execute_and_settle executor env (wt_dispatcher wt) task handler_timeout w = (r, w') /\
        rtc service_step (view w) (view w') /\
        match r with
        | Some r => Worker.answer_ok (view w') (task, r)
        | None => dispatch (wt_dispatcher wt) (lt_attempt task) w = (None, w') /\
            exists em id p at_, record_task em id p at_ t
        end.
Proof.
  intros [Hr [_ Hw]]%runtime_invariant Ht He Hh Hs. destruct (Hw id wt Ht) as [Hb Hg].
  rewrite He in Hg. destruct Hg as (Hv & t & Hd).
  destruct (application_dispatcher_built writer now fresh) as (d & Ed & _ & Hf & _).
  assert (d = wt_dispatcher wt) as -> by (unfold built in Hb; congruence).
  split_and!; [done..|]. exists t. split; [done|]. intros env w Hvw Hcut Hj Hn Hmax.
  rewrite <- Hvw in Hr, Hd.
  destruct (Worker.execution_answer view writer now fresh unused (wt_dispatcher wt) executor handler_timeout Hb Hh Hs
    env task w t Hr) as (r & w' & E & Hst & Hres); [by split|].
  exists r, w'. split_and!; [done..|]. destruct r; [done|]. destruct Hres as [Hp _]. split; [done|].
  by apply (dispatch_handled view writer now fresh unused _ _ t _ _ _ (reachable_service _ Hr) Hb Hd Hp).
Qed.
End Runtime.
