(* ===== verification/Wiring.v ===== *)
(** * The assembled program

    [cqrs-runtime/src/postgres/command_factory.rs], the reading half of
    [event_repository_with_outbox/repository.rs], [postgres/pool.rs], and
    [account-managements-service/src/startup/wiring.rs]: how the program puts its
    parts together.  What is proved is that the assembled program is a service in
    the sense of [Processing], over any [cqrs_es] framework that runs commands on
    the tables. *)

From S2P Require Import Prelude DomainValues EmailReservation UserAccount FloatTime Binary64 TaskData.
From S2P Require Import Database EventRepository CommandRetry TaskQueue TaskHandling TaskExecutor RuntimeConfig.
From S2P Require Import Supervisor Application System Presentation Diagnostics EventCodec EventStore Tables Processing.
From S2P Require Import Runtime.
#[local] Open Scope Z_scope.

(** ** The event repository *)

Record SerializedSnapshot := {
  sn_aggregate_id : rstr; sn_aggregate : Value; sn_current_sequence : Z; sn_current_snapshot : Z;
}.

(** The trait of [cqrs_es]; the first argument of each operation is [A::TYPE], and
    [Replay] stands for its [ReplayStream]. *)
Class PersistedEventRepository (W Replay : Type) := {
  get_events : rstr -> rstr -> W -> result PersistenceError (list SerializedEvent) * W;
  get_last_events : rstr -> rstr -> Z -> W -> result PersistenceError (list SerializedEvent) * W;
  get_snapshot : rstr -> rstr -> W -> result PersistenceError (option SerializedSnapshot) * W;
  persist : rstr -> list SerializedEvent -> option (rstr * Value * Z) -> W -> result PersistenceError unit * W;
  stream_events : rstr -> rstr -> W -> result PersistenceError Replay * W;
  stream_all_events : rstr -> W -> result PersistenceError Replay * W;
}.

(** What the pool gives access to: the tables, and how a statement or a
    transaction that begins now fares, with the clocks and draws it meets;
    [pool_acquire] waits for a connection. *)
Record PgPool (W : Type) := {
  pool_db : W -> db; pool_write : db -> W -> W; pool_link : W -> link; pool_now : W -> Z;
  pool_acquire : W -> W; pool_claim : W -> claim_env; pool_settle : W -> settle_env;
  pool_recover : W -> recover_env;
}.
Arguments pool_db {W} _ _.
Arguments pool_write {W} _ _ _.
Arguments pool_link {W} _ _.
Arguments pool_now {W} _ _.
Arguments pool_acquire {W} _ _.
Arguments pool_claim {W} _ _.
Arguments pool_settle {W} _ _.
Arguments pool_recover {W} _ _.

Section Repository.
Context {W Replay : Type}.

(** [PostgresEventRepositoryWithOutbox]: it reads through [postgres_es] and writes
    itself. *)
Definition outbox_repository (pool : PgPool W) (reader : PersistedEventRepository W Replay)
    (self : Repository) : PersistedEventRepository W Replay := {|
  get_events := @get_events _ _ reader;
  get_last_events := @get_last_events _ _ reader;
  get_snapshot := @get_snapshot _ _ reader;
  persist ty events snapshot_update w :=
    let '(r, d) := persist_command self (pool_link pool w) (pool_now pool w) ty events snapshot_update
                     (pool_db pool w) in
    (r, pool_write pool d w);
  stream_events := @stream_events _ _ reader;
  stream_all_events := @stream_all_events _ _ reader |}.
End Repository.

(** ** The task queue *)

Section Queue.
Context `{F64Rounding} {W : Type}.

Record PostgresTaskQueue := { pq_pool : PgPool W; pq_statement_timeout : Duration.t }.

Definition queue_with_config (pool : PgPool W) (config : PostgresTaskQueueConfig) : PostgresTaskQueue :=
  {| pq_pool := pool; pq_statement_timeout := qc_statement_timeout config |}.
(** [None] is the panic of the default configuration's [expect]. *)
Definition queue_new (pool : PgPool W) : option PostgresTaskQueue :=
  match queue_config_default with Ok config => Some (queue_with_config pool config) | Err _ => None end.

(** The trait [TaskQueue]: each operation is its transaction on the pool.  The
    statement timeout is among the faults a transaction meets; recovery panics
    with its backoff. *)
Definition postgres_claim (self : PostgresTaskQueue) (format : TaskFormat) (owner : rstr) (limit : Z)
    (lease : Duration.t) (w : W) : result TaskProcessingError (list LeasedTask) * W :=
  let w := pool_acquire (pq_pool self) w in
  let '(r, d) := claim (pool_claim (pq_pool self) w) format owner limit lease (pool_db (pq_pool self) w) in
  (r, pool_write (pq_pool self) d w).
Definition postgres_settle (self : PostgresTaskQueue) (task : LeasedTask) (request : SettlementRequest) (w : W) :
    result TaskProcessingError SettlementResult * W :=
  let w := pool_acquire (pq_pool self) w in
  let '(r, d) := settle (pool_settle (pq_pool self) w) task request (pool_db (pq_pool self) w) in
  (r, pool_write (pq_pool self) d w).
Definition postgres_recover (self : PostgresTaskQueue) (limit : Z) (w : W) :
    option (result TaskProcessingError LeaseRecoveryReport * W) :=
  let w := pool_acquire (pq_pool self) w in
  '(r, d) ← recover_expired (pool_recover (pq_pool self) w) limit (pool_db (pq_pool self) w);
  Some (r, pool_write (pq_pool self) d w).

(** The queue as the ports of the executor and the poller. *)
Definition postgres_claims (self : PostgresTaskQueue) : TaskClaimPort W := {| queue_claim := postgres_claim self |}.
Definition postgres_settlements (self : PostgresTaskQueue) : TaskQueuePort W :=
  {| queue_settle := postgres_settle self |}.

(** [prepare_task_runtime]: the queue and the runtime over it. *)
Definition prepare_task_runtime (pool : PgPool W) (factory : TaskDispatcherFactory (W := W))
    (queue_config : PostgresTaskQueueConfig) (runtime_config : TaskRuntimeConfig) :
    result WorkerSetupError (PostgresTaskQueue * TaskRuntime (W := W)) :=
  let queue := queue_with_config pool queue_config in
  runtime ← prepare factory runtime_config;
  Ok (queue, runtime).
End Queue.
Arguments PostgresTaskQueue W : clear implicits.

(** ** The command executor *)

(** [CqrsFramework::execute] over a snapshot store with its interval; it panics
    when the aggregate does. *)
Class CqrsEs (W Replay : Type) := cqrs_execute :
  forall {St C E D : Type} `{Aggregate St C E D},
    PersistedEventRepository W Replay -> Z -> rstr -> C -> W -> option (result (AggregateError D) unit) * W.

(** The trait [CommandExecutor]; [None] is a panic. *)
Definition CommandExecutor (W C D : Type) : Type :=
  rstr -> C -> list NewTask -> W -> option (result (CommandGatewayError D) unit) * W.

Section Executor.
Context `{F64Rounding} {W Replay : Type} `{CqrsEs W Replay}.
Context (pool : PgPool W) (reader : PersistedEventRepository W Replay) (draws : Z -> Q -> Q -> Q).

(** The framework that is built for one task list. *)
Definition framework_for {St C E D} `{Aggregate St C E D} (snapshot_interval : Z) (tasks : list NewTask) :
    rstr -> C -> W -> option (result (AggregateError D) unit) * W :=
  let repository := outbox_repository pool reader (with_outbox repository_new tasks) in
  cqrs_execute (St := St) repository snapshot_interval.

(** [CqrsCommandExecutor] as the trait; the delays it slept are not returned. *)
Definition cqrs_command_executor {C D} (retry_policy : AggregateConflictRetryPolicy)
    (build_framework : list NewTask -> rstr -> C -> W -> option (result (AggregateError D) unit) * W) :
    CommandExecutor W C D := fun aggregate_id command tasks w =>
  map_answer fst (CommandRetry.execute retry_policy draws build_framework aggregate_id command tasks w).

Definition command_executor {St C E D} `{Aggregate St C E D} (config : PostgresCommandConfig) :
    CommandExecutor W C D :=
  cqrs_command_executor (conflict_retry config) (framework_for (St := St) (snapshot_interval config)).

(** ** The application *)

Context `{UuidCrate, EmailCrate, ChronoCrate, TokenDigest, HttpCrates}.

(** [CqrsEmailReservationGateway] and [CqrsUserAccountGateway]; a panic of the
    executor is theirs. *)
Definition cqrs_email_gateway (executor : CommandExecutor W EmailReservationCommand EmailReservationError) :
    EmailReservationGateway W := {|
  email_execute_with_outbox command tasks w :=
    executor (email_aggregate_id command) command tasks w |}.
Definition cqrs_account_gateway (executor : CommandExecutor W UserAccountCommand UserAccountError) :
    UserAccountGateway W := {|
  account_execute_with_outbox command tasks w :=
    executor (account_aggregate_id command) command tasks w |}.

(** [Utc::now] is read at each call. *)
Definition system_registration_clock (utc_now : W -> DateTime) : RegistrationClock W := utc_now.

(** The router serves one request, given what the handler would draw. *)
Record ApplicationParts := {
  router : material -> DateTime -> method -> list rstr -> option Value -> W -> option Response * W;
  dispatcher_factory : TaskDispatcherFactory (W := W);
}.

(** [None] is the panic of the default configuration's [expect]. *)
Definition build (stdout : Writer (W:=W)) (utc_now : W -> DateTime) (fresh : W -> Uuid) : option ApplicationParts :=
  command_config ← command_config_default;
  let email_gateway := cqrs_email_gateway (command_executor (St := EmailReservation) command_config) in
  let account_gateway := cqrs_account_gateway (command_executor (St := UserAccount) command_config) in
  let registration := @registration_service _ _ _ _ W email_gateway account_gateway in
  let email_reservation := @email_reservation_service _ _ _ W email_gateway in
  Some {| router := @serve _ _ _ W email_reservation registration;
          dispatcher_factory _ := @application_dispatcher _ _ _ W email_gateway account_gateway stdout
            (system_registration_clock utc_now) fresh |}.
End Executor.

(** ** The default configuration *)

Lemma policy_default_ok `{F64Laws} : exists p, policy_default = Ok p /\ policy_ok p.
Proof.
  assert (Hj : (0 <= rnd (2 # 10) <= 1)%Q).
  { split; [by apply rnd_nonneg|]. rewrite <- (rnd_exact 1) by lia. by apply rnd_mono. }
  assert (Hp : exists p, policy_default = Ok p).
  { unfold policy_default, policy_new. simpl.
    rewrite (proj2 (Qle_bool_iff _ _) (proj1 Hj)), (proj2 (Qle_bool_iff _ _) (proj2 Hj)). simpl. eauto. }
  destruct Hp as [p Hp]. exists p. split; [done|]. by eapply policy_new_ok in Hp.
Qed.

Lemma command_config_default_ok `{F64Laws} :
  exists config, command_config_default = Some config /\ policy_ok (conflict_retry config) /\
    snapshot_interval config = 25.
Proof.
  destruct policy_default_ok as (p & Hp & Hok). unfold command_config_default, command_config_new. rewrite Hp.
  simpl. eauto.
Qed.

(** ** The assembled program is a service *)

Section Assembled.
Context `{F64Laws, UuidLaws, EmailLaws, ChronoLaws, TokenDigest, HttpCrates} {W Replay : Type}
  (view : W -> service_state) `{CqrsEs W Replay}.
Context (pool : PgPool W) (reader : PersistedEventRepository W Replay) (draws : Z -> Q -> Q -> Q)
  (stdout : Writer (W:=W)) (now : W -> DateTime) (fresh : W -> Uuid) (unused : W -> UserAccountId -> Prop)
  (others : relation W).

(** What other processes do between two moments of this one: steps of the
    service, none of which uses an account ID that this process has drawn. *)
Class OthersLaws := {
  others_steps w w' : others w w' -> rtc service_step (view w) (view w');
  others_unused w w' id : others w w' -> unused w id -> unused w' id;
  unused_new w id : unused w id -> ~ id_issued (sv_db (view w)) id;
}.

(** The pool reaches the tables of the service, and a lost reply is no answer
    of the database. *)
Class PoolLaws := {
  pool_reads w : pool_db pool w = sv_db (view w);
  pool_writes d w : view (pool_write pool d w) = wrote (view w) d;
  pool_link_answers w : link_ok (pool_link pool w);
  pool_waits w : others w (pool_acquire pool w);
  pool_instant w : Instant.valid (ce_instant (pool_claim pool w));
  pool_jitter w id : jitter_in_range (re_jitter (pool_recover pool w) id);
  pool_unused w id : unused w id -> unused (pool_write pool (pool_db pool w) w) id;
}.

(** Documented of [cqrs_es] over [postgres_es]: [execute] loads the aggregate as
    the tables have it at some moment, by its snapshot and the events after it or
    by all its events; a rejection is returned, and the accepted events, which the
    sink has applied, are handed to [persist] at a later moment, with a snapshot when
    one is due, for which they are applied again.  A panic of the aggregate comes
    before anything is written. *)
Inductive cqrs_run {St C E D} `{Aggregate St C E D} (repository : PersistedEventRepository W Replay)
    (key : rstr) (c : C) (w : W) : option (result (AggregateError D) unit) -> W -> Prop :=
| cqrs_unread w' e : others w w' -> technical e -> cqrs_run repository key c w (Some (Err e)) w'
| cqrs_rejected w0 w' s n v e :
    others w w0 -> loads (sv_db (view w0)) key s n v -> agg_handle s c = Some (Err e) -> others w0 w' ->
    cqrs_run repository key c w (Some (Err (UserError e))) w'
| cqrs_unchanged w0 w' s n v :
    others w w0 -> loads (sv_db (view w0)) key s n v -> agg_handle s c = Some (Ok []) -> others w0 w' ->
    cqrs_run repository key c w (Some (Ok tt)) w'
| cqrs_panicked w0 w' s n v :
    others w w0 -> loads (sv_db (view w0)) key s n v ->
    (agg_handle s c = None \/ exists es, agg_handle s c = Some (Ok es) /\
      (apply_all s es = None \/ exists s1, apply_all s es = Some s1 /\ apply_all s1 es = None)) ->
    others w0 w' -> cqrs_run repository key c w None w'
| cqrs_written w0 w1 w2 w' s n v es s1 snapshot metadata r :
    others w w0 -> loads (sv_db (view w0)) key s n v -> agg_handle s c = Some (Ok es) ->
    apply_all s es = Some s1 ->
    (snapshot = None \/ exists s2, apply_all s1 es = Some s2 /\
       snapshot = Some (key, state_to_json s2, v + 1)) ->
    others w0 w1 ->
    @persist _ _ repository (agg_type St) (serialize key metadata n es) snapshot w1 = (r, w2) -> others w2 w' ->
    cqrs_run repository key c w (Some (map_err aggregate_error_of r)) w'.

Class CqrsLaws := cqrs_runs : forall {St C E D} `{Aggregate St C E D} self interval key (c : C) w r w',
  cqrs_execute (St := St) (outbox_repository pool reader self) interval key c w = (r, w') ->
  cqrs_run (St := St) (outbox_repository pool reader self) key c w r w'.

Context `{!OthersLaws, !PoolLaws, !CqrsLaws, !ConsoleLaws view stdout}.

(** *** The queue *)

Section Transactions.
Context (queue : PostgresTaskQueue W).
Hypothesis queue_pool : pq_pool queue = pool.

(** Its operations are transactions of the service. *)
Lemma postgres_settle_transactions : @QueueTableLaws _ _ _ _ W view (postgres_settlements queue).
Proof.
  intros task request w r w'. simpl. unfold postgres_settle. rewrite queue_pool.
  set (w1 := pool_acquire pool w). rewrite pool_reads.
  destruct (settle _ _ _ _) as [r0 d] eqn:E. intros [= <- <-].
  exists (pool_settle pool w1), (view w1). rewrite E, pool_writes. split_and!; [|done|done].
  apply others_steps, pool_waits.
Qed.

Lemma postgres_claim_transactions : @ClaimTableLaws _ _ _ _ W view (postgres_claims queue).
Proof.
  intros format owner limit lease w r w'. simpl. unfold postgres_claim. rewrite queue_pool.
  set (w1 := pool_acquire pool w). rewrite pool_reads.
  destruct (claim _ _ _ _ _ _) as [r0 d] eqn:E. intros [= <- <-].
  exists (pool_claim pool w1), (view w1). rewrite E, pool_writes. split_and!; [|apply others_steps, pool_waits|done..].
  apply pool_instant.
Qed.

Lemma postgres_recover_steps limit w r w' :
  0 <= limit -> postgres_recover queue limit w = Some (r, w') -> rtc service_step (view w) (view w').
Proof.
  intros Hl. unfold postgres_recover. rewrite queue_pool. set (w1 := pool_acquire pool w). rewrite pool_reads.
  destruct (recover_expired _ _ _) as [[r0 d]|] eqn:E; [|done]. intros [= _ <-]. rewrite pool_writes.
  etrans; [apply others_steps, (pool_waits w)|]. apply rtc_once, ss_queue.
  change d with (r0, d).2. eapply table_recover; [done|apply pool_jitter|done].
Qed.
End Transactions.

Hypothesis draws_in_range : forall k lo hi, (lo <= hi -> lo <= draws k lo hi <= hi)%Q.

(** A run over the repository of one task list is a run on the tables. *)
Lemma framework_for_runs {St C E D} `{AggregateLaws St C E D} (ready : W -> Prop) (adm : db -> Prop)
    interval tasks key (c : C) w r w' :
  (forall w w', others w w' -> ready w -> ready w') ->
  (forall w, ready w -> ready (pool_write pool (pool_db pool w) w)) ->
  (forall w, ready w -> adm (sv_db (view w))) ->
  ready w -> framework_for (St := St) pool reader interval tasks key c w = (r, w') ->
  run_on (St := St) adm tasks key c (view w) r (view w') /\ (r = Some (Err AggregateConflict) -> ready w').
Proof.
  intros Ho Hp Ha Hw Hrun. apply cqrs_runs in Hrun.
  destruct Hrun as [w' e Hs He|w0 w' s n v e Hs0 Hl Hh Hs|w0 w' s n v Hs0 Hl Hh Hs|w0 w' s n v Hs0 Hl Hh Hs
    |w0 w1 w2 w' s n v es s1 snapshot metadata r Hs0 Hl Hh Hs1 Hsn Hs2 Hpe Hs3].
  - split; [|by intros [= ->]; destruct He as [?|[?|?]]].
    exists (view w), (view w), (sv_db (view w)). split_and!; [done|done|by apply Ha|by apply run_unread|].
    right. split; [done|by apply others_steps].
  - split; [|done]. exists (view w0), (view w0), (sv_db (view w0)). split_and!;
      [by apply others_steps|done|by apply Ha, (Ho w)|by eapply run_rejected|].
    right. split; [done|by apply others_steps].
  - split; [|done]. exists (view w0), (view w0), (sv_db (view w0)). split_and!;
      [by apply others_steps|done|by apply Ha, (Ho w)|by eapply run_unchanged|].
    right. split; [done|by apply others_steps].
  - split; [|done]. exists (view w0), (view w0), (sv_db (view w0)). split_and!;
      [by apply others_steps|done|by apply Ha, (Ho w)|by eapply run_panicked|].
    right. split; [done|by apply others_steps].
  - assert (Hw1 : ready w1) by eauto. cbn [persist outbox_repository] in Hpe.
    pose proof (persist_command_cases (with_outbox repository_new tasks) (pool_link pool w1) (pool_now pool w1)
      (agg_type St) (serialize key metadata n es) snapshot (pool_db pool w1)) as Hc.
    destruct (persist_command _ _ _ _ _ _ _) as [r0 d'] eqn:Ed. injection Hpe as -> <-. split.
    + exists (view w0), (view w1), d'. split_and!; [by apply others_steps..|by apply Ha| |].
      * rewrite pool_reads in Ed. eapply run_written; try done. apply pool_link_answers.
      * left. rewrite <- pool_writes. by apply others_steps.
    + intros Hr. eapply Ho; [done|]. destruct Hc as (_ & _ & [->|(e & Hle & -> & _)]).
      * by intros ->.
      * by apply Hp.
      * pose proof (pool_link_answers w1) as Hlk. rewrite Hle in Hlk. simpl in Hlk, Hr.
        by destruct (map_sqlx_error e).
Qed.

Lemma email_gateway_laws config :
  policy_ok (conflict_retry config) ->
  @EmailTableLaws _ _ _ _ W view
    (cqrs_email_gateway (command_executor (St := EmailReservation) pool reader draws config)) unused.
Proof.
  intros Hp c tasks w r w' Hm E.
  destruct (gateway_execute_runs (St := EmailReservation) view new_ids (may_issue unused) email_aggregate_id
    (conflict_retry config) draws (framework_for (St := EmailReservation) pool reader (snapshot_interval config))
    Hp draws_in_range) with (c := c) (tasks := tasks) (w := w) as (r0 & w0 & E0 & Hg); [|done|].
  - intros tasks0 c0 w0 r0 w1 Hw0 E0. eapply (framework_for_runs (may_issue unused c0)); [..|done|done].
    + intros ? ? Ho Hx id Hid. eapply others_unused; [done|by apply Hx].
    + intros ? Hx id Hid. by apply pool_unused, Hx.
    + intros ? Hx id Hid. by apply unused_new, Hx.
  - simpl in E. change (command_executor _ _ _ _ _ _ _ _) with (gateway_execute email_aggregate_id
      (conflict_retry config) draws (framework_for (St := EmailReservation) pool reader
      (snapshot_interval config)) c tasks w) in E. rewrite E0 in E. by injection E as <- <-.
Qed.

Lemma account_gateway_laws config :
  policy_ok (conflict_retry config) ->
  @AccountTableLaws _ _ _ _ W view
    (cqrs_account_gateway (command_executor (St := UserAccount) pool reader draws config)).
Proof.
  intros Hp c tasks w r w' E.
  destruct (gateway_execute_runs (St := UserAccount) view (fun _ _ => True) (fun _ _ => True)
    account_aggregate_id (conflict_retry config) draws
    (framework_for (St := UserAccount) pool reader (snapshot_interval config))
    Hp draws_in_range) with (c := c) (tasks := tasks) (w := w) as (r0 & w0 & E0 & Hg); [|done|].
  - intros tasks0 c0 w0 r0 w1 _ E0. by eapply (framework_for_runs (fun _ => True)).
  - simpl in E. change (command_executor _ _ _ _ _ _ _ _) with (gateway_execute account_aggregate_id
      (conflict_retry config) draws (framework_for (St := UserAccount) pool reader
      (snapshot_interval config)) c tasks w) in E. rewrite E0 in E. by injection E as <- <-.
Qed.

(** *** What the parts do *)

(** What a success response stands for is in the tables: the ID and code that
    were drawn and their delivery, the digest of the returned token, or the
    accepted profile and its creation task. *)
Definition request_stored (m : material) (w : W) : Prop :=
  exists em,
    (stored_for view w em (fun e => issued e = Some (m_account_id m, m_verification_code m)) /\
       task_kept view w (send_task em (m_account_id m) (m_verification_code m))) \/
    (exists id, stored_for view w em
       (fun e => e = EmailVerified em id (digest (m_account_creation_token m)))) \/
    (exists id dg p, task_kept view w (create_task em id p) /\
       stored_for view w em (fun e => e = RegistrationProfileAccepted em id dg p)).

Lemma confirmed_token `{EmailReservationGateway W} m em id code w v w' :
  confirm_email m em id code w = (Some (Ok v), w') -> ve_account_creation_token v = m_account_creation_token m.
Proof.
  unfold confirm_email. destruct (negb _); [done|]. destruct (email_execute _ _) as [[[u|]|] w1]; [|done..].
  by intros [= <- _].
Qed.

Lemma served_steps (email_gateway : EmailReservationGateway W) (account_gateway : UserAccountGateway W)
    m t mth path payload w resp w' :
  EmailTableLaws view unused -> service_reachable (view w) -> unused w (m_account_id m) ->
  @serve _ _ _ W email_reservation_service registration_service m t mth path payload w = (resp, w') ->
  resp <> None /\ rtc service_step (view w) (view w') /\ (succeeded resp = true -> request_stored m w').
Proof.
  intros Hl Hr Hu Hs. apply serve_use_case in Hs as [(-> & Hn & Hf)|(em & He & Hs)].
  { split_and!; [done|done|]. by rewrite Hf. }
  destruct (use_case_steps view unused w em Hr He) as (Hu1 & Hu2 & Hu3 & Hu4).
  destruct Hs as [(r & E & Hn & Hok)|[(r & E & Hn & Hok)|[(id & code & r & E & Hn & Hok)|(tid & s & r & Hem & E & Hn & Hok)]]].
  - destruct (Hu1 m r w' Hu E) as (? & ? & Hst). split_and!; [by auto|done|]. intros Hx. exists em. left. by apply Hst, Hok.
  - destruct (Hu2 m r w' Hu E) as (? & ? & Hst). split_and!; [by auto|done|]. intros Hx. exists em. left. by apply Hst, Hok.
  - destruct (Hu3 m id code r w' E) as (? & ? & Hst). split_and!; [by auto|done|].
    intros Hx%Hok. exists em. right; left. exists id.
    destruct r as [[v|]|]; [|done..]. rewrite <- (confirmed_token _ _ _ _ _ _ _ E). by apply Hst.
  - destruct (Hu4 t tid s r w' Hem E) as (? & ? & Hst). split_and!; [by auto|done|].
    intros (p & ? & ?)%Hok%Hst. exists em. right; right. by eexists _, _, p.
Qed.

(** A factory that always builds the same dispatcher prepares a runtime. *)
Lemma prepare_same (factory : TaskDispatcherFactory (W := W)) d config :
  (forall k, factory k = Ok d) ->
  exists rt, prepare factory config = Ok rt /\ Forall (fun d' => d' = d) (tr_dispatchers rt).
Proof.
  intros Hf. unfold prepare, startup_dispatchers. rewrite Hf. simpl.
  assert (Hc : forall l, exists ds, collect ((fun k => build_checked_dispatcher (factory k) (formats d)
    (Z.of_nat k)) <$> l) = Ok ds /\ Forall (fun d' => d' = d) ds).
  { induction l as [|k l (ds & IH & Hds)]; [by exists []|]. exists (d :: ds).
    rewrite fmap_cons. cbn [collect]. rewrite IH. split; [|by constructor].
    replace (build_checked_dispatcher (factory k) (formats d) (Z.of_nat k)) with
      (Ok (E := WorkerSetupError) d); [done|].
    unfold build_checked_dispatcher. rewrite Hf. simpl. by rewrite bool_decide_eq_true_2. }
  destruct (Hc (seq 1 (Z.to_nat (concurrency (rc_worker config) - 1)))) as (ds & -> & Hds). simpl.
  eexists. split; [done|]. by constructor.
Qed.

(** C4: the program as it is assembled keeps the rules. With its default
    configuration the wiring never panics. Each HTTP request through the router,
    whatever its method, path and body, is answered, does nothing but steps of
    the service, and what a success response stands for is in the tables. Every
    runtime configuration can be prepared, over a queue on the same pool and
    with dispatchers for exactly the three task formats. Polling and recovery
    are steps of the service, and a poll returns deliveries of stored tasks.
    Executing such a delivery with any of the dispatchers does nothing but steps
    of the service, and reports completion only of work that is done, and
    failure only when no attempt is left; it panics only when its handler does,
    which happens to no task but the completion of a registration. *)
Theorem assembled_service_keeps_the_rules :
  exists parts, build pool reader draws stdout now fresh = Some parts /\
  (forall m t mth path payload w resp w',
     service_reachable (view w) -> unused w (m_account_id m) ->
     router parts m t mth path payload w = (resp, w') ->
     resp <> None /\ rtc service_step (view w) (view w') /\ (succeeded resp = true -> request_stored m w')) /\
  (forall queue_config config, exists queue rt,
     prepare_task_runtime pool (dispatcher_factory parts) queue_config config = Ok (queue, rt) /\
     (forall limit w r w', 0 <= limit -> postgres_recover queue limit w = Some (r, w') ->
        rtc service_step (view w) (view w')) /\
     (forall poller t0 owner limit lease races w tasks poller' w',
        0 <= lease -> service_reachable (view w) ->
        @poller_claim W (postgres_claims queue) poller t0 owner limit lease races w
        = Some (Ok tasks, poller', w') ->
        rtc service_step (view w) (view w') /\ Forall (genuine (view w')) tasks) /\
     forall d, d ∈ tr_dispatchers rt -> formats d = [send_format; create_format; record_format] /\
     forall env task t handler_timeout w,
       service_reachable (view w) -> delivery_of (view w) (lt_attempt task) t ->
       (forall cut, ee_handler_cut env = Some cut -> rtc (handler_step t) (view w) (view (cut w))) ->
       jitter_in_range (ee_jitter env) ->
       Instant.valid (ee_now env) -> Instant.valid (lease_deadline (lt_lease task)) ->
       0 <= handler_timeout -> 0 <= storage_timeout (tr_executor rt) ->
       ee_settle_now env + storage_timeout (tr_executor rt) <= INSTANT_MAX ->
       exists r w', @execute_and_settle _ W (postgres_settlements queue) (tr_executor rt) env d task
           handler_timeout w = (r, w') /\
         rtc service_step (view w) (view w') /\
         match r with
         | Some r => (r = Ok SettledCompleted -> effect (view w') t) /\
             (forall f, r = Ok (SettledFailed f) -> tf_cause f = AttemptLimitReached)
         | None => dispatch d (lt_attempt task) w = (None, w') /\
             exists em id p at_, record_task em id p at_ t
         end).
Proof.
  destruct command_config_default_ok as (config & Hc & Hp & _).
  pose proof (email_gateway_laws config Hp) as He. pose proof (account_gateway_laws config Hp) as Ha.
  unfold build. rewrite Hc. eexists. split; [done|]. split.
  - intros m t mth path payload w resp w' Hr Hu Hs. by eapply served_steps.
  - intros qc rc. simpl.
    destruct (@application_dispatcher_built _ _ _ W
      (cqrs_email_gateway (command_executor (St := EmailReservation) pool reader draws config))
      (cqrs_account_gateway (command_executor (St := UserAccount) pool reader draws config)) stdout
      (system_registration_clock now) fresh)
      as (d & Hd & _ & Hf & _).
    destruct (prepare_same (fun _ => Ok d) d rc) as (rt & Hrt & Hds); [done|]. rewrite Forall_forall in Hds.
    rewrite Hd. set (queue := queue_with_config pool qc). exists queue, rt.
    pose proof (postgres_settle_transactions queue eq_refl) as Hq. pose proof (postgres_claim_transactions queue eq_refl) as Hcl.
    split_and!.
    + unfold prepare_task_runtime. by rewrite Hrt.
    + by apply postgres_recover_steps.
    + intros poller t0 owner limit lease races w tasks poller' w' Hl Hr Hpc.
      eapply (poller_claim_genuine view) in Hpc as [? Hg]; [|done..]. split; [done|by apply Hg].
    + intros d' ->%Hds. split; [done|]. intros env task t timeout w Hr Hdel. by eapply execution_steps.
Qed.
End Assembled.
