(* ===== verification/Progress.v ===== *)
(** * Progress

    What the other files prove is that nothing wrong happens; here the assembled
    program is shown to get its work done.  While the database and the console
    answer and nobody uses the same address, executing a claimed task of any of the
    three kinds completes it, and a registration succeeds from the reservation to
    the recorded account.  One case is left out because the program does not get it
    done: recording the account at a position where a snapshot is due. *)

From S2P Require Import Prelude DomainValues EmailReservation UserAccount FloatTime Binary64 TaskData.
From S2P Require Import Database EventRepository CommandRetry TaskQueue TaskHandling TaskExecutor RuntimeConfig.
From S2P Require Import Application System Presentation EventCodec EventStore Tables Recording Processing Wiring.
#[local] Open Scope Z_scope.

(** ** Positions of a stream *)

(** Where the next event of a stream goes. *)
Definition next_position (d : db) (ty key : rstr) (n : Z) : Prop :=
  1 <= n /\ events d !! (ty, key, n) = None /\ forall m, 1 <= m < n -> is_Some (events d !! (ty, key, m)).

Lemma next_position_stream {St C E D} `{AggregateLaws St C E D} d key es :
  stream_stored (St := St) d key es -> next_position d (agg_type St) key (Z.of_nat (length es) + 1).
Proof.
  intros Hs. split_and!; [lia| |].
  - specialize (Hs (Z.of_nat (length es) + 1)). rewrite nth_event_succ, Nat2Z.id in Hs by lia.
    rewrite lookup_ge_None_2 in Hs by lia. by destruct (events d !! _).
  - intros m Hm. specialize (Hs m). unfold nth_event in Hs. rewrite (proj2 (Z.leb_le _ _)) in Hs by lia.
    destruct (lookup_lt_is_Some_2 es (Z.to_nat (m - 1))) as [e He]; [lia|]. rewrite He in Hs.
    by destruct (events d !! _).
Qed.

Lemma next_position_unique d ty key n m : next_position d ty key n -> next_position d ty key m -> n = m.
Proof.
  intros (Hn & En & Hbn) (Hm & Em & Hbm). destruct (Z.lt_trichotomy n m) as [Hl|[|Hl]]; [|done|].
  - destruct (Hbm n) as [? ?]; [lia|congruence].
  - destruct (Hbn m) as [? ?]; [lia|congruence].
Qed.

Lemma next_position_kept d d' ty key n :
  (forall m, events d' !! (ty, key, m) = events d !! (ty, key, m)) -> next_position d ty key n -> next_position d' ty key n.
Proof. intros Heq (? & ? & Hb). split_and!; [done|by rewrite Heq|]. intros m Hm. rewrite Heq. by apply Hb. Qed.

(** A snapshot is stored when the events of a command reach a multiple of the
    interval. *)
Definition snapshot_due (interval n count : Z) : bool := n / interval <? (n + count) / interval.

Lemma snapshot_not_due interval n :
  0 < interval -> (n + 1) mod interval <> 0 -> snapshot_due interval n 1 = false.
Proof.
  intros Hi Hm. apply Z.ltb_ge. pose proof (Z.div_mod n interval). pose proof (Z.div_mod (n + 1) interval).
  pose proof (Z.mod_pos_bound n interval Hi). pose proof (Z.mod_pos_bound (n + 1) interval Hi). nia.
Qed.

Lemma snapshot_due_at interval n :
  0 < interval -> (n + 1) mod interval = 0 -> snapshot_due interval n 1 = true.
Proof.
  intros Hi Hm. apply Z.ltb_lt. pose proof (Z.div_mod n interval). pose proof (Z.div_mod (n + 1) interval).
  pose proof (Z.mod_pos_bound n interval Hi). nia.
Qed.

(** ** A command that meets no conflict *)

Lemma first_answer `{F64Laws} {S T D : Type} p draws (operation : S -> option (result (AggregateError D) T) * S) s r s' :
  policy_ok p -> operation s = (r, s') -> conflicted r = false ->
  retry_on_aggregate_conflict p draws operation s = ((fun r => (r, [])) <$> r, s').
Proof.
  intros [[Hm _] _] Ho Hr. unfold retry_on_aggregate_conflict.
  destruct (Z.to_nat (max_attempts p)) as [|k] eqn:E; [lia|]. simpl. rewrite Ho.
  destruct r as [r|]; simpl in *; [by rewrite Hr|done].
Qed.

(** ** An execution in time *)

(** The lease leaves room for the handler's timeout, the storage budget and the
    safety margin, and neither timer fires. *)
Record timely {W} (self : DefaultTaskExecutor) (env : exec_env W) (task : LeasedTask)
    (handler_timeout : Duration.t) : Prop := {
  tm_now : Instant.valid (ee_now env);
  tm_deadline : Instant.valid (lease_deadline (lt_lease task));
  tm_timeouts : 0 < handler_timeout /\ 0 <= storage_timeout self /\
    handler_timeout + storage_timeout self <= DURATION_MAX;
  tm_room : ee_now env + handler_timeout + storage_timeout self + LEASE_SAFETY_MARGIN
    <= lease_deadline (lt_lease task);
  tm_settle : ee_settle_now env < lease_deadline (lt_lease task) - LEASE_SAFETY_MARGIN /\
    ee_settle_now env + storage_timeout self <= INSTANT_MAX;
  tm_uncut : ee_handler_cut env = None;
  tm_answered : ee_race env = Answered;
}.

Lemma timely_run `{F64Rounding} {W} `{TaskQueuePort W} self env d task handler_timeout (w : W) :
  timely self env task handler_timeout ->
  execute_and_settle self env d task handler_timeout w =
    and_then (dispatch d (lt_attempt task) w) (fun res w =>
    and_then (fallback_delay env task res, w) (fun delay w =>
    settle_before self env task (settlement_request res delay)
      (lease_deadline (lt_lease task) - LEASE_SAFETY_MARGIN) w)).
Proof.
  intros [Hn Hl (Hh & Hs & Hmax) Hroom _ Hcut _].
  pose proof (execution_plan_spec _ _ handler_timeout (storage_timeout self) Hn Hl) as Hp.
  specialize (Hp ltac:(lia) ltac:(lia)). unfold plan_safe in Hp. unfold execute_and_settle. destruct Hn as [Hn _].
  destruct (execution_plan _ _ _ _) as [[hd sd|sd|]|e]; [|lia..].
  rewrite Hcut. by destruct Hp as (_ & _ & -> & _).
Qed.

Lemma timely_execution `{F64Rounding} {W} `{TaskQueuePort W} self env d task handler_timeout (w w1 : W) :
  timely self env task handler_timeout -> dispatch d (lt_attempt task) w = (Some (Ok tt), w1) ->
  execute_and_settle self env d task handler_timeout w
  = (Some (queue_settle task Completed w1).1, (queue_settle task Completed w1).2).
Proof.
  intros Ht Hd. rewrite timely_run, Hd by done. destruct Ht as [_ _ _ _ [Hsn Hsm] _ Hr].
  cbn [and_then fallback_delay settlement_request].
  unfold settle_before. rewrite (proj2 (Z.leb_gt _ _)) by done. unfold settle_deadline, Instant.checked_add.
  rewrite checked_le by done. simpl. rewrite Hr. by destruct (queue_settle _ _ _).
Qed.

(** When everything that is ready fits, everything is taken. *)
Lemma all_ready_taken o keep key limit (ids : list Uuid) i r :
  NoDup ids -> (forall j, j ∈ ids -> exists r, o !! j = Some r /\ keep j r = true) ->
  o !! i = Some r -> keep i r = true -> Z.of_nat (length (select_rows o keep key)) <= limit ->
  Z.of_nat (length ids) = limit -> i ∈ ids.
Proof.
  intros Hnd Hin Hi Hk Hlen Hl. destruct (decide (i ∈ ids)) as [|Hni]; [done|].
  assert (Hsub : i :: ids ⊆+ (select_rows o keep key).*2).
  { apply NoDup_submseteq; [by constructor|]. intros j Hj.
    assert (exists r, o !! j = Some r /\ keep j r = true) as (rj & Hrj & Hkj).
    { apply elem_of_cons in Hj as [->|Hj]; [eauto|by apply Hin]. }
    apply list_elem_of_fmap. exists (key rj, j). split; [done|]. apply elem_of_select_rows. eauto. }
  apply submseteq_length in Hsub. rewrite length_fmap in Hsub. simpl in Hsub. lia.
Qed.

Section Progress.
Context `{F64Laws, UuidLaws, EmailLaws, ChronoLaws, TokenDigest, HttpCrates} {W Replay : Type}
  (view : W -> service_state) `{CqrsEs W Replay}.
Context (pool : PgPool W) (reader : PersistedEventRepository W Replay) (draws : Z -> Q -> Q -> Q)
  (stdout : Writer (W:=W)) (now : W -> DateTime) (fresh : W -> Uuid) (unused : W -> UserAccountId -> Prop)
  (others : relation W).
Context `{!OthersLaws view unused others, !PoolLaws view pool unused others,
  !CqrsLaws view pool reader others, !ConsoleLaws view stdout}.
Hypothesis draws_in_range : forall k lo hi, (lo <= hi -> lo <= draws k lo hi <= hi)%Q.

(** ** While nothing interferes *)

(** Moments at which the database and the console answer and nobody else writes. *)
Context (calm : W -> Prop).

Definition undisturbed (w w' : W) : Prop := calm w' /\ view w' = view w.

(** Documented of [cqrs_es], when nothing interferes: a run loads the aggregate and
    answers with its rejection, or hands its events to [persist], with a snapshot
    when one is due, or panics when the aggregate does; nothing is said of a stream
    that cannot be read. *)
Definition snapshot_update {St C E D} `{Aggregate St C E D} (interval : Z) (key : rstr) (n v : Z)
    (s1 : St) (es : list E) : option (option (rstr * Value * Z)) :=
  if snapshot_due interval n (Z.of_nat (length es))
  then s2 ← apply_all s1 es; Some (Some (key, state_to_json s2, v + 1))
  else Some None.

Inductive calm_run {St C E D} `{Aggregate St C E D} (repository : PersistedEventRepository W Replay)
    (interval : Z) (key : rstr) (c : C) (w : W) : option (result (AggregateError D) unit) -> W -> Prop :=
| calm_rejected s n v e w' :
    loads (sv_db (view w)) key s n v -> agg_handle s c = Some (Err e) -> undisturbed w w' ->
    calm_run repository interval key c w (Some (Err (UserError e))) w'
| calm_written s n v es s1 snapshot metadata w1 r w2 w' :
    loads (sv_db (view w)) key s n v -> agg_handle s c = Some (Ok es) -> apply_all s es = Some s1 ->
    snapshot_update interval key n v s1 es = Some snapshot -> undisturbed w w1 ->
    @persist _ _ repository (agg_type St) (serialize key metadata n es) snapshot w1 = (r, w2) ->
    undisturbed w2 w' -> calm_run repository interval key c w (Some (map_err aggregate_error_of r)) w'
| calm_panicked s n v w' :
    loads (sv_db (view w)) key s n v ->
    (agg_handle s c = None \/ exists es, agg_handle s c = Some (Ok es) /\
      forall s1, apply_all s es = Some s1 -> snapshot_update interval key n v s1 es = None) ->
    undisturbed w w' -> calm_run repository interval key c w None w'.

Class CalmLaws := {
  calm_acquire w : calm w -> undisturbed w (pool_acquire pool w);
  calm_write d w : calm w -> calm (pool_write pool d w);
  calm_link w : calm w -> pool_link pool w = Healthy;
  calm_now w : calm w -> timestamp_in_range (pool_now pool w) = true;
  calm_claim w : calm w -> ce_fault (pool_claim pool w) = NoFault /\
    forall id, ce_locked (pool_claim pool w) id = false;
  calm_settle w : calm w -> se_fault (pool_settle pool w) = NoFault;
  calm_prints line w : calm w -> exists w1 w2, write_line stdout line w = (true, w1) /\
    flush stdout w1 = (true, w2) /\ calm w2 /\ sv_db (view w2) = sv_db (view w);
  calm_runs {St C E D} `{AggregateLaws St C E D} self interval key (c : C) w r w' es :
    calm w -> stream_holds (St := St) (sv_db (view w)) key es ->
    cqrs_execute (St := St) (outbox_repository pool reader self) interval key c w = (r, w') ->
    calm_run (St := St) (outbox_repository pool reader self) interval key c w r w';
}.
Context `{!CalmLaws}.

Lemma calm_reads w : pool_db pool w = sv_db (view w).
Proof. by eapply pool_reads. Qed.
Lemma calm_writes d w : view (pool_write pool d w) = wrote (view w) d.
Proof. by eapply pool_writes. Qed.

(** Rows that other tasks have in the outbox stay. *)
Definition rows_stay (w w' : W) : Prop :=
  forall i r, outbox (sv_db (view w)) !! i = Some r -> outbox (sv_db (view w')) !! i = Some r.

(** Tasks a command can add. *)
Definition addable (d : db) (tasks : list NewTask) : Prop :=
  Forall built tasks /\ Forall (fun t => nt_schedule t = Now) tasks /\ NoDup (nt_id <$> tasks) /\
  Forall (fun t => outbox d !! nt_id t = None) tasks /\ (length tasks <= 1)%nat.

Lemma addable_nil d : addable d [].
Proof. split_and!; [done|done|apply NoDup_nil_2|done|simpl; lia]. Qed.
Lemma addable_one {P} `{TaskPayload P} d tid (p : P) t :
  new_task tid p = Ok t -> outbox d !! tid = None -> addable d [t].
Proof.
  intros Ht Hf. split_and!; [apply Forall_singleton; exact (new_task_built _ _ _ Ht)
    |apply Forall_singleton; exact (new_task_now _ _ _ Ht)|apply NoDup_singleton| |done].
  apply Forall_singleton. by rewrite (proj1 (new_task_fields _ _ _ Ht)).
Qed.

(** ** One run *)

Section Run.
Context {St C E D : Type} `{AggregateLaws St C E D}.
Implicit Types (c : C) (es : list E).

Lemma calm_refused interval tasks key c w r w' es s e :
  calm w -> stream_holds (St := St) (sv_db (view w)) key es -> apply_all agg_default es = Some s ->
  agg_handle s c = Some (Err e) -> framework_for (St := St) pool reader interval tasks key c w = (r, w') ->
  r = Some (Err (UserError e)) /\ undisturbed w w'.
Proof.
  intros Hc Hh Hs Hd Hr. eapply calm_runs in Hr; [|done..].
  destruct Hr as [s' n v e' w' Hl Hd' Hu|s' n v es' s1 sn md w1 r w2 w' Hl Hd' _ _ _ _ _|s' n v w' Hl Hp _];
    destruct (load_replays _ _ _ _ _ _ Hh Hl) as (Hs' & _); assert (s' = s) as -> by congruence.
  - rewrite Hd in Hd'. by simplify_eq.
  - congruence.
  - destruct Hp as [?|(es' & ? & _)]; congruence.
Qed.

(** An accepted command is stored, with its tasks. *)
Lemma calm_accepted interval tasks key c w r w' es s e :
  calm w -> stream_holds (St := St) (sv_db (view w)) key es -> apply_all agg_default es = Some s ->
  agg_handle s c = Some (Ok [e]) -> event_ok e -> outbox_ok (sv_db (view w)) -> addable (sv_db (view w)) tasks ->
  0 < interval -> (Z.of_nat (length es) + 1) mod interval <> 0 -> Z.of_nat (length es) + 1 <= i64_MAX ->
  framework_for (St := St) pool reader interval tasks key c w = (r, w') ->
  r = Some (Ok tt) /\ calm w' /\ rows_stay w w' /\
  stream_holds (St := St) (sv_db (view w')) key (es ++ [e]) /\
  others_kept (St := St) key (sv_db (view w)) (sv_db (view w')) /\
  forall t, t ∈ tasks -> exists w1, calm w1 /\ outbox (sv_db (view w')) !! nt_id t
    = Some (task_row (pool_now pool w1) (agg_type St) key (Z.of_nat (length es) + 1) t).
Proof.
  intros Hc Hh Hs Hd Heok Hok (Hb & Hnow & Hnd & Hfr & Hlen) Hi Hm Hmax Hr. eapply calm_runs in Hr; [|done..].
  pose proof (accepted_one _ _ _ Hd) as (? & s1 & [= <-] & Hs1).
  assert (Hsu : forall v, snapshot_update interval key (Z.of_nat (length es)) v s1 [e] = Some None).
  { intros v. unfold snapshot_update. by rewrite snapshot_not_due. }
  destruct Hr as [s' n v e' w' Hl Hd' Hu|s' n v es' s1' sn md w1 r w2 w' Hl Hd' Hs1' Hsn [Hc1 Hv1] Hpe [Hc2 Hv2]
    |s' n v w' Hl Hp _];
    destruct (load_replays _ _ _ _ _ _ Hh Hl) as (Hs' & -> & Hver); assert (s' = s) as -> by congruence.
  - congruence.
  - assert (es' = [e]) as -> by congruence. rewrite apply_all_one in Hs1'. assert (s1' = s1) as -> by congruence.
    rewrite Hsu in Hsn. injection Hsn as <-. cbn [persist outbox_repository] in Hpe.
    rewrite calm_link, calm_reads, Hv1 in Hpe by done.
    destruct (publication_succeeds (with_outbox repository_new tasks) (pool_now pool w1) (agg_type St)
      {| se_aggregate_id := key; se_sequence := Z.of_nat (length es) + 1; se_event_type := agg_event_type e;
         se_event_version := agg_event_version e; se_payload := event_to_json e; se_metadata := md |}
      (sv_db (view w))) as (d' & Hp & Hcom & _); [done..| | |simpl; lia| |done|].
    { eapply Forall_impl; [exact Hnow|]. intros t ->. unfold available_at. simpl. rewrite Z.add_0_r. by apply calm_now. }
    { apply (next_position_stream _ _ es), Hh. }
    { unfold EVENT_BINDS, TASK_BINDS, u16_MAX. cbn [repo_tasks with_outbox]. lia. }
    cbn [serialize] in Hpe. rewrite Hp in Hpe. injection Hpe as <- <-. simpl in *.
    rewrite calm_writes in Hv2.
    destruct (commit_holds _ _ _ _ _ _ _ v _ _ _ _ Hh Heok Hs Hs1 (or_introl eq_refl) Hver Hcom) as (Hh' & Hk & _).
    destruct Hcom as (_ & _ & _ & Hin & Hout & _).
    split_and!; [done|done| |by rewrite Hv2|by rewrite Hv2|].
    + intros i row Hrow. rewrite Hv2. simpl. rewrite Hout; [done|].
      intros (t & -> & Ht)%list_elem_of_fmap. rewrite Forall_forall in Hfr. rewrite Hfr in Hrow; done.
    + intros t Ht. exists w1. split; [done|]. rewrite Hv2. by apply Hin.
  - destruct Hp as [?|(es' & Hd' & Hp)]; [congruence|]. assert (es' = [e]) as -> by congruence.
    rewrite apply_all_one in Hp. specialize (Hp s1 Hs1). by rewrite Hsu in Hp.
Qed.
End Run.

(** ** The handlers *)

Context (config : PostgresCommandConfig).
Hypothesis default_config : command_config_default = Some config.

Lemma policy_valid : policy_ok (conflict_retry config).
Proof. destruct command_config_default_ok as (c & Hc & ? & _). by rewrite default_config in Hc; simplify_eq. Qed.
Lemma default_interval : snapshot_interval config = 25.
Proof. destruct command_config_default_ok as (c & Hc & _ & ?). by rewrite default_config in Hc; simplify_eq. Qed.

#[local] Instance email_gateway : EmailReservationGateway W :=
  cqrs_email_gateway (command_executor (St := EmailReservation) pool reader draws config).
#[local] Instance account_gateway : UserAccountGateway W :=
  cqrs_account_gateway (command_executor (St := UserAccount) pool reader draws config).

Lemma email_answers c tasks w r w' :
  framework_for (St := EmailReservation) pool reader 25 tasks (email_aggregate_id c) c w = (r, w') ->
  conflicted r = false -> email_execute_with_outbox c tasks w = (map_err map_aggregate_error <$> r, w').
Proof.
  intros Hr Hn. unfold email_execute_with_outbox. simpl. unfold command_executor, cqrs_command_executor, CommandRetry.execute.
  rewrite default_interval, (first_answer _ _ _ _ _ _ policy_valid Hr Hn). by destruct r.
Qed.

Lemma account_answers c tasks w r w' :
  framework_for (St := UserAccount) pool reader 25 tasks (account_aggregate_id c) c w = (r, w') ->
  conflicted r = false -> account_execute_with_outbox c tasks w = (map_err map_aggregate_error <$> r, w').
Proof.
  intros Hr Hn. unfold account_execute_with_outbox. simpl. unfold command_executor, cqrs_command_executor, CommandRetry.execute.
  rewrite default_interval, (first_answer _ _ _ _ _ _ policy_valid Hr Hn). by destruct r.
Qed.

Lemma undisturbed_rows w w' : undisturbed w w' -> rows_stay w w'.
Proof. intros [_ Hv] i r. by rewrite Hv. Qed.

Lemma send_calm em id code a w :
  calm w -> 1000000 <= code <= 9999999 ->
  exists w', send_verification_code_handle (console_send stdout)
      {| sv_email := em; sv_account_id := id; sv_verification_code := code |} a w = (Some (Ok tt), w') /\
    calm w' /\ rows_stay w w'.
Proof.
  intros Hc Hcode. unfold send_verification_code_handle, console_send.
  rewrite (proj2 (Z.leb_le _ _)), (proj2 (Z.leb_le _ _)) by (simpl; lia). cbn [negb andb].
  destruct (calm_prints (console_line (delivery_from
    {| sv_email := em; sv_account_id := id; sv_verification_code := code |}) a) w Hc) as (w1 & w2 & E1 & E2 & Hc2 & Hd).
  rewrite E1, E2. exists w2. split_and!; [done|done|]. intros i r. by rewrite Hd.
Qed.

(** The reservations are as they were. *)
Definition reservations_kept (w w' : W) : Prop :=
  forall key n, events (sv_db (view w')) !! (agg_type EmailReservation, key, n)
    = events (sv_db (view w)) !! (agg_type EmailReservation, key, n).

(** The record task of a new account, as it was published. *)
Definition continues (w w' : W) (em : Email) (id : UserAccountId) (p : RegistrationProfile) (t : NewTask) : Prop :=
  record_task em id p (now w) t /\ exists w1, calm w1 /\ outbox (sv_db (view w')) !! nt_id t
    = Some (task_row (pool_now pool w1) (agg_type UserAccount) (account_id_to_string id) 1 t).

Lemma create_calm em id p t a w :
  calm w -> service_inv (view w) -> task_stored (sv_db (view w)) t -> email_valid em -> create_task em id p t ->
  outbox (sv_db (view w)) !! fresh w = None ->
  exists w', create_account_handle now fresh {| ct_email := em; ct_account_id := id; ct_profile := p |} a w = (Some (Ok tt), w') /\
    calm w' /\ rows_stay w w' /\ reservations_kept w w' /\
    (next_position (sv_db (view w)) (agg_type UserAccount) (account_id_to_string id) 1 ->
     exists t', continues w w' em id p t').
Proof.
  intros Hc Hi Hst He Ht Hfresh. unfold create_account_handle, create_account. cbn [ct_email ct_account_id ct_profile].
  destruct (record_new_task (fresh w) {| rt_email := em; rt_account_id := id; rt_profile := p;
    rt_created_at := now w |}) as [t' Ht']. rewrite Ht'.
  set (c := CreateAccount _ _ _ _ _ _ _).
  pose proof (si_trace _ Hi) as (ww & Hrep & Hw & _)%trace_holds. apply reachable_world in Hw.
  pose proof (stored_create_registered _ ww em id p t Hrep Hw Hst He Ht) as Hreg.
  pose proof (rep_accounts _ _ Hrep (account_id_to_string id)) as Hh.
  pose proof (account_apply_all (account_stream ww (account_id_to_string id))) as Hs.
  destruct (framework_for (St := UserAccount) pool reader 25 [t'] (account_aggregate_id c) c w) as [r w'] eqn:Er.
  destruct (account_decision_cases ww id em p (now w) Hw Hreg) as [[Hempty Hd]|(at' & Ha & Hd)]; fold c in Hd.
  - destruct (calm_accepted (St := UserAccount) 25 [t'] (account_id_to_string id) c w r w'
      (account_stream ww (account_id_to_string id)) _ (account_event em id p (now w)) Hc Hh Hs)
      as (-> & Hc' & Hrows & _ & Hk & Hnew);
      [|done|by apply (rep_outbox _ _ Hrep)|by apply (addable_one _ _ _ _ Ht')|..|exact Er|].
    + change (Some (account_decision ww c) = Some (Ok [account_event em id p (now w)])). by rewrite Hd.
    + lia.
    + by rewrite Hempty.
    + by rewrite Hempty.
    + rewrite (account_answers _ _ _ _ _ Er eq_refl). exists w'.
      split_and!; [done..| |]. { intros key n. by apply Hk. } intros _. exists t'.
      split; [by exists (fresh w)|]. destruct (Hnew t') as (w1 & ? & Hrow); [by apply list_elem_of_singleton|].
      rewrite Hempty in Hrow. by exists w1.
  - destruct (calm_refused (St := UserAccount) 25 [t'] (account_id_to_string id) c w r w' _ _ AlreadyCreated Hc Hh Hs)
      as [-> Hu]; [|exact Er|].
    { change (Some (account_decision ww c) = Some (Err AlreadyCreated)). by rewrite Hd. }
    rewrite (account_answers _ _ _ _ _ Er eq_refl). exists w'.
    split_and!; [done|apply Hu|by apply undisturbed_rows| |]. { intros key n. by rewrite (proj2 Hu). }
    intros (_ & Hn & _).
    pose proof (sh_events _ _ _ Hh 1) as Hm. rewrite Ha in Hm. by rewrite Hn in Hm.
Qed.
(** The position its completion event would take is one an event can have, and no
    snapshot is due there. *)
Definition recordable (d : db) (t : NewTask) : Prop :=
  forall em id p at_ n, email_valid em -> record_task em id p at_ t ->
    next_position d (agg_type EmailReservation) (email_to_string em) n -> n <= i64_MAX /\ n mod 25 <> 0.

Lemma record_calm em id p at_ t a w :
  calm w -> service_inv (view w) -> task_stored (sv_db (view w)) t -> email_valid em ->
  record_task em id p at_ t -> recordable (sv_db (view w)) t ->
  exists w', record_account_created_handle {| rt_email := em; rt_account_id := id; rt_profile := p;
      rt_created_at := at_ |} a w = (Some (Ok tt), w') /\ calm w' /\ rows_stay w w'.
Proof.
  intros Hc Hi Hst He Ht Hroom. unfold record_account_created_handle, record_account_created, email_execute.
  cbn [rt_email rt_account_id rt_profile rt_created_at]. set (c := RecordAccountCreated _ _ _ _).
  pose proof (si_trace _ Hi) as (ww & Hrep & Hw & _)%trace_holds. apply reachable_world in Hw.
  destruct (record_task_meaning ww em id p at_ t He Ht) as [Hreg Hac].
  { by apply (inv_tasks _ Hw), (stored_task_published (sv_db (view w))). }
  pose proof (rep_reservations _ _ Hrep (email_to_string em)) as Hh.
  destruct (Hroom em id p at_ (Z.of_nat (length (stream ww (email_to_string em))) + 1) He Ht) as [Hmax Hm].
  { apply (next_position_stream _ _ _), Hh. }
  pose proof (sh_state _ _ _ Hh) as [s Hs].
  pose proof (record_decision_cases ww em id p at_ Hw Hreg Hac) as Hcases. unfold email_decision in Hcases.
  fold c in Hcases. change (EmailReservation.replay (stream ww (email_aggregate_id c)) = Some s) in Hs.
  rewrite Hs in Hcases. cbn [mbind option_bind] in Hcases.
  destruct (framework_for (St := EmailReservation) pool reader 25 [] (email_aggregate_id c) c w) as [r w'] eqn:Er.
  destruct Hcases as [Hd|[Hd _]].
  - destruct (calm_accepted (St := EmailReservation) 25 [] (email_to_string em) c w r w'
      (stream ww (email_to_string em)) s (AccountCreationCompleted em id at_) Hc Hh Hs Hd)
      as (-> & Hc' & Hrows & _); try done; [by apply (rep_outbox _ _ Hrep)|apply addable_nil|].
    rewrite (email_answers _ _ _ _ _ Er eq_refl). by exists w'.
  - destruct (calm_refused (St := EmailReservation) 25 [] (email_to_string em) c w r w' _ s
      AccountCreationAlreadyCompleted Hc Hh Hs Hd Er) as [-> Hu].
    rewrite (email_answers _ _ _ _ _ Er eq_refl). exists w'.
    split_and!; [done|apply Hu|by apply undisturbed_rows].
Qed.

(** Where a snapshot is due, whatever load the record command runs on accepts it,
    and applying its event a second time for the snapshot panics. *)
Lemma completion_reapplied em id p at_ t n st s m v :
  service_reachable st -> email_valid em -> task_stored (sv_db st) t -> record_task em id p at_ t ->
  ~ event_in (St := EmailReservation) (sv_db st) (email_to_string em) (AccountCreationCompleted em id at_) ->
  next_position (sv_db st) (agg_type EmailReservation) (email_to_string em) n -> n mod 25 = 0 ->
  loads (sv_db st) (email_to_string em) s m v ->
  m + 1 = n /\
  agg_handle s (RecordAccountCreated em id p at_) = Some (Ok [AccountCreationCompleted em id at_]) /\
  exists s1, agg_apply s (AccountCreationCompleted em id at_) = Some s1 /\
    snapshot_update 25 (email_to_string em) m v s1 [AccountCreationCompleted em id at_] = None.
Proof.
  intros Hi%reachable_service He Hst Ht Hno Hpos Hm Hl.
  pose proof (si_trace _ Hi) as (ww & Hrep & Hw & _)%trace_holds. apply reachable_world in Hw.
  destruct (record_task_meaning ww em id p at_ t He Ht) as [Hreg Hac].
  { by apply (inv_tasks _ Hw), (stored_task_published (sv_db st)). }
  pose proof (rep_reservations _ _ Hrep (email_to_string em)) as Hh.
  destruct (load_replays _ _ _ _ _ _ Hh Hl) as (Hs & -> & _).
  assert (n = Z.of_nat (length (stream ww (email_to_string em))) + 1) as ->.
  { eapply next_position_unique; [done|]. apply next_position_stream, Hh. }
  assert (Hd : EmailReservation.handle s (RecordAccountCreated em id p at_)
    = Some (Ok [AccountCreationCompleted em id at_])).
  { pose proof (record_decision_cases ww em id p at_ Hw Hreg Hac) as Hcases. unfold email_decision in Hcases.
    change (EmailReservation.replay (stream ww (email_to_string em)) = Some s) in Hs.
    cbn [email_aggregate_id] in Hcases. rewrite Hs in Hcases. cbn [mbind option_bind] in Hcases.
    destruct Hcases as [|[_ Hem]]; [done|]. destruct Hno.
    by apply (event_in_stream _ _ _ _ Hh). }
  split_and!; [done|exact Hd|]. destruct (accepts_lifecycle _ _ _ Hd) as (? & s1 & [= <-] & Ha & Hlc).
  exists s1. split; [exact Ha|]. unfold snapshot_update. rewrite snapshot_due_at by (done || lia).
  destruct s1 as [ph1]. cbn [phase] in Hlc. inversion Hlc; subst. reflexivity.
Qed.

(** ** Executions *)

Context (dispatcher : TaskDispatcher W) (queue : PostgresTaskQueue W).
Hypothesis dispatcher_built : application_dispatcher stdout now fresh = Ok dispatcher.
Hypothesis queue_pool : pq_pool queue = pool.

Lemma dispatch_calm a t w :
  calm w -> service_inv (view w) -> delivery_of (view w) a t ->
  outbox (sv_db (view w)) !! fresh w = None -> recordable (sv_db (view w)) t ->
  exists w', dispatch dispatcher a w = (Some (Ok tt), w') /\ calm w' /\ rows_stay w w'.
Proof.
  intros Hc Hi (Hst & Hid & Ha) Hfresh Hroom.
  pose proof (si_trace _ Hi) as (ww & Hrep & Hw & _)%trace_holds. apply reachable_world in Hw.
  destruct (inv_tasks _ Hw t (stored_task_published _ _ _ Hrep Hst)) as [(em & id & code & Ht & He & Hcode)
    |[(em & id & p & Ht & He & _)|(em & id & p & at_ & Ht & He & _)]]; pose proof Ht as [tid Hs];
    destruct (dispatch_published stdout now fresh dispatcher tid t a w dispatcher_built Ha) as (Hps & Hpc & Hpr).
  - rewrite (Hps {| sv_email := em; sv_account_id := id; sv_verification_code := code |});
      [|split; [done|unfold u32_MAX; simpl; lia]|done].
    destruct (send_calm em id code a w Hc) as (w' & -> & ? & ?); [lia|]. eauto.
  - rewrite (Hpc {| ct_email := em; ct_account_id := id; ct_profile := p |} He Hs).
    destruct (create_calm em id p t a w Hc Hi Hst He Ht Hfresh) as (w' & -> & ? & ? & _). eauto.
  - rewrite (Hpr {| rt_email := em; rt_account_id := id; rt_profile := p; rt_created_at := at_ |} He Hs).
    destruct (record_calm em id p at_ t a w Hc Hi Hst He Ht Hroom) as (w' & -> & ? & ?). eauto.
Qed.
(** The delivery's lease is the row's, and lasts while nothing interferes. *)
Definition leased (w : W) (task : LeasedTask) (row : outbox_row) : Prop :=
  outbox (sv_db (view w)) !! at_id (lt_attempt task) = Some row /\
  forall w', calm w' -> held (se_clock (pool_settle pool w')) (lock_token (lt_lease task)) row.

#[local] Instance settlements : TaskQueuePort W := postgres_settlements queue.

(** A handler that succeeded in time leaves a completed task. *)
Lemma handled_completes self env task t handler_timeout w w1 row :
  calm w1 -> service_inv (view w) -> delivery_of (view w) (lt_attempt task) t -> leased w task row ->
  timely self env task handler_timeout -> rows_stay w w1 ->
  dispatch dispatcher (lt_attempt task) w = (Some (Ok tt), w1) ->
  exists w', execute_and_settle self env dispatcher task handler_timeout w = (Some (Ok SettledCompleted), w') /\
    calm w' /\ rtc service_step (view w) (view w') /\ effect (view w') t /\
    events (sv_db (view w')) = events (sv_db (view w1)) /\
    forall i, outbox (sv_db (view w')) !! i = if decide (i = at_id (lt_attempt task))
      then Some (settled_by (pool_settle pool (pool_acquire pool w1)) Completed row)
      else outbox (sv_db (view w1)) !! i.
Proof.
  intros Hc Hi Hdel [Hrow Hheld] Htm Hstay Hd.
  pose proof (email_gateway_laws view pool reader draws unused others draws_in_range config policy_valid) as HE.
  pose proof (account_gateway_laws view pool reader draws unused others draws_in_range config policy_valid) as HA.
  destruct (dispatch_handled view stdout now fresh unused dispatcher (lt_attempt task) t w (Some (Ok tt)) w1 Hi
    dispatcher_built Hdel Hd) as (Hs & Hans).
  destruct (steps_grow _ _ Hs Hi) as [Hg Hi1].
  assert (Hdel1 : delivery_of (view w1) (lt_attempt task) t) by (split; [by apply (gr_tasks _ _ Hg), Hdel|apply Hdel]).
  destruct (answered_effect _ _ _ _ (si_trace _ Hi1) Hdel1 Hans) as [_ Heff].
  rewrite (timely_execution _ _ _ _ _ _ _ Htm Hd). simpl. unfold postgres_settle. rewrite queue_pool, calm_reads.
  destruct (calm_acquire w1 Hc) as [Hca Hva]. set (wa := pool_acquire pool w1) in *. rewrite Hva.
  rewrite (settle_current _ task Completed _ row); [|by apply trace_outbox, Hi1|done|by apply calm_settle|].
  2:{ unfold current_lease. rewrite (Hstay _ _ Hrow). simpl. by rewrite decide_True by by apply Hheld. }
  cbn [fst snd]. eexists. split; [reflexivity|]. rewrite calm_writes, Hva. set (d' := set_outbox _ _).
  assert (Hss : service_step (view w1) (wrote (view w1) d')).
  { replace d' with (settle (pool_settle pool wa) task Completed (sv_db (view w1))).2.
    - apply ss_settle. exists t. split; [done|]. right. exists (Ok tt), 0. by auto.
    - rewrite (settle_current _ task Completed _ row); [done|by apply trace_outbox, Hi1|done|by apply calm_settle|].
      unfold current_lease. rewrite (Hstay _ _ Hrow). simpl. by rewrite decide_True by by apply Hheld. }
  split_and!; [by apply calm_write|by eapply rtc_r| |done|].
  - eapply grows_effect; [by apply step_grows; [apply Hi1|exact Hss]|by apply Heff].
  - intros i. simpl. case_decide as Hid; [subst; apply lookup_insert_eq|by rewrite lookup_insert_ne].
Qed.

(** C8: the program gets its work done.  At a moment from which the database and
    the console answer and nobody interferes, executing a claimed task in time,
    of whichever kind and however often it was delivered before, completes it: the
    executor answers so, the row is completed, and the code was printed, the
    account is stored or the reservation has recorded it.  The exception is a
    completion event at a position where a snapshot is due. *)
Theorem claimed_tasks_complete self env task t handler_timeout w row :
  service_reachable (view w) -> calm w -> delivery_of (view w) (lt_attempt task) t -> leased w task row ->
  timely self env task handler_timeout ->
  outbox (sv_db (view w)) !! fresh w = None -> recordable (sv_db (view w)) t ->
  exists w', execute_and_settle self env dispatcher task handler_timeout w = (Some (Ok SettledCompleted), w') /\
    calm w' /\ rtc service_step (view w) (view w') /\ effect (view w') t /\
    exists row', outbox (sv_db (view w')) !! nt_id t = Some row' /\ ob_status row' = st_completed.
Proof.
  intros Hr%reachable_service Hc Hdel Hl Htm Hf Hroom.
  destruct (dispatch_calm (lt_attempt task) t w Hc Hr Hdel Hf Hroom) as (w1 & Hd & Hc1 & Hstay).
  destruct (handled_completes self env task t handler_timeout w w1 row Hc1 Hr Hdel Hl Htm Hstay Hd)
    as (w' & ? & ? & ? & ? & _ & Ho). exists w'. split_and!; [done..|].
  exists (settled_by (pool_settle pool (pool_acquire pool w1)) Completed row). split; [|done].
  destruct Hdel as (_ & -> & _). by rewrite Ho, decide_True.
Qed.
(** The exception is real: where a snapshot is due, the execution of a record task
    panics, in time and undisturbed as it may be, and leaves the tables as they
    were, so that no delivery of the task can complete the reservation there. *)
Theorem completion_at_snapshot_panics self env task em id p at_ t n handler_timeout w :
  service_reachable (view w) -> calm w -> delivery_of (view w) (lt_attempt task) t ->
  timely self env task handler_timeout -> email_valid em -> record_task em id p at_ t ->
  ~ event_in (St := EmailReservation) (sv_db (view w)) (email_to_string em) (AccountCreationCompleted em id at_) ->
  next_position (sv_db (view w)) (agg_type EmailReservation) (email_to_string em) n -> n mod 25 = 0 ->
  exists w', execute_and_settle self env dispatcher task handler_timeout w = (None, w') /\ undisturbed w w'.
Proof.
  intros Hr Hc (Hst & Hid & Ha) Htm He Ht Hno Hpos Hm. rewrite timely_run by done.
  rewrite (dispatch_record stdout now fresh dispatcher dispatcher_built em id p at_ t) by done.
  set (c := RecordAccountCreated em id p at_).
  pose proof (si_trace _ (reachable_service _ Hr)) as (ww & Hrep & _)%trace_holds.
  destruct (framework_for (St := EmailReservation) pool reader 25 [] (email_aggregate_id c) c w) as [r w'] eqn:Er.
  exists w'. pose proof Er as Hrun. eapply calm_runs in Hrun; [|done|apply (rep_reservations _ _ Hrep)].
  pose proof (fun s m v => completion_reapplied em id p at_ t n (view w) s m v Hr He Hst Ht Hno Hpos Hm) as Hre.
  destruct Hrun as [s m v e w' Hl Hd Hu|s m v es s1 sn md w1 r w2 w' Hl Hd Hs1 Hsn _ _ _|s m v w' Hl _ Hu].
  - destruct (Hre s m v Hl) as (_ & Hd' & _). fold c in Hd'. congruence.
  - destruct (Hre s m v Hl) as (_ & Hd' & s1' & Hs1' & Hsn'). fold c in Hd'. rewrite Hd in Hd'.
    injection Hd' as ->. rewrite apply_all_one, Hs1' in Hs1. injection Hs1 as <-. cbn [email_aggregate_id c] in Hsn.
    change (email_aggregate_id c) with (email_to_string em) in Hsn. congruence.
  - rewrite (email_answers _ _ _ _ _ Er eq_refl). by split.
Qed.

(** ** Polling *)

Context (owner : rstr) (limit : Z) (lease handler_timeout : Duration.t) (self : DefaultTaskExecutor)
  (env : exec_env W).

(** Polls ask for leases that outlast the calm period and are executed in time, and
    new task IDs are new. *)
Record polling : Prop := {
  po_limit : 0 <= limit;
  po_request w : calm w -> claim_request_ok (pool_claim pool w) limit lease;
  po_fits w id : calm w -> lease_fits (pool_claim pool w) (Duration.as_millis lease) id;
  po_outlasts w w' id : calm w -> calm w' -> se_clock (pool_settle pool w')
    < ce_clock (pool_claim pool w) id + Duration.as_millis lease * NANOS_PER_MILLI;
  po_timely w task : calm w -> lease_deadline (lt_lease task) = ce_instant (pool_claim pool w) + lease ->
    timely self env task handler_timeout;
  po_fresh w : calm w -> outbox (sv_db (view w)) !! fresh w = None;
}.
Hypothesis polls : polling.

(** A poll has room for all that is ready. *)
Definition has_room (w : W) (format : TaskFormat) : Prop :=
  Z.of_nat (length (select_rows (outbox (sv_db (view w))) (ready (pool_claim pool (pool_acquire pool w)) format)
    ob_available_at)) <= limit.

(** A task that waits and is due. *)
Definition waits (w : W) (t : NewTask) : Prop :=
  nt_schedule t = Now /\ exists row, outbox (sv_db (view w)) !! nt_id t = Some row /\ carries row t /\
    ob_status row = st_pending /\ ob_available_at row <= ce_now (pool_claim pool (pool_acquire pool w)).

Lemma poll_delivers t w :
  calm w -> service_inv (view w) -> waits w t -> has_room w (nt_format t) ->
  exists tasks task row w1, postgres_claim queue (nt_format t) owner limit lease w = (Ok tasks, w1) /\
    task ∈ tasks /\ calm w1 /\ rtc service_step (view w) (view w1) /\
    events (sv_db (view w1)) = events (sv_db (view w)) /\
    delivery_of (view w1) (lt_attempt task) t /\ leased w1 task row /\ timely self env task handler_timeout.
Proof.
  intros Hc Hi (Hnow & row & Hrow & Hcar & Hpend & Hdue) Hhas. unfold postgres_claim. rewrite queue_pool, calm_reads.
  destruct (calm_acquire w Hc) as [Hca Hva]. set (wa := pool_acquire pool w) in *. rewrite Hva.
  set (ce := pool_claim pool wa) in *. destruct (calm_claim wa Hca) as [Hf Hlk].
  destruct (claim_takes_ready_tasks ce (nt_format t) owner limit lease (sv_db (view w)))
    as (ids & tasks & d' & Hcl & Hnd & Hlen & Hret & Ho & Hall);
    [by apply trace_outbox, Hi|apply polls|by apply polls|intros; by apply polls|done|].
  pose proof (Forall2_length _ _ _ Hret) as Hll.
  assert (Hready : ready ce (nt_format t) (nt_id t) row = true).
  { destruct Hcar as (Hty & Hv & _). unfold ready. fold ce in Hlk. rewrite Hpend, Hty, Hv, Hlk.
    rewrite !bool_decide_eq_true_2, Z.eqb_refl, (proj2 (Z.leb_le _ _)) by done. done. }
  assert (Hin : nt_id t ∈ ids).
  { destruct (decide (nt_id t ∈ ids)) as [|Hn]; [done|]. destruct (Hall _ _ Hrow Hready Hn) as [Hl _].
    eapply (all_ready_taken (outbox (sv_db (view w))) (ready ce (nt_format t)) ob_available_at limit);
      [done| |done|done|done|lia].
    intros j [k Hk]%list_elem_of_lookup. destruct (Forall2_lookup_l _ _ _ _ _ Hret Hk) as (y & _ & r & ? & ? & _). eauto. }
  apply list_elem_of_lookup in Hin as [k Hk].
  destruct (Forall2_lookup_l _ _ _ _ _ Hret Hk) as (task & Htk & r & Hr & _ & ->). simplify_eq.
  apply list_elem_of_lookup_2 in Hk, Htk. rewrite Hcl. set (task := leased_task_of _ _ _ _ _) in *.
  exists tasks, task, (claimed_row ce owner (Duration.as_millis lease) (nt_id t) row), (pool_write pool d' wa).
  assert (Hev : events d' = events (sv_db (view w))).
  { destruct (claim_keeps ce (nt_format t) owner limit lease (sv_db (view w))) as (_ & He & _);
      [by apply trace_outbox, Hi|]. by rewrite Hcl in He. }
  assert (Hrow' : outbox d' !! nt_id t = Some (claimed_row ce owner (Duration.as_millis lease) (nt_id t) row)).
  { by rewrite Ho, decide_True, Hrow. }
  rewrite calm_writes, Hva. split_and!; [done|done|by apply calm_write| |done| | |].
  - apply rtc_once, ss_queue. replace d' with (claim ce (nt_format t) owner limit lease (sv_db (view w))).2
      by (by rewrite Hcl). apply table_claim.
  - destruct Hcar as (Hty & Hv & Hp & Hcar). split_and!; [|done|by split]. split; [done|].
    eexists. split; [exact Hrow'|]. done.
  - split; [by rewrite calm_writes|]. intros w' Hw'. split_and!; [done..|]. simpl. by apply polls.
  - by eapply (po_timely polls wa).
Qed.
(** A poll hands the task out, and its execution completes it. *)
Definition finishes (t : NewTask) (w w' : W) : Prop :=
  exists tasks task w1, postgres_claim queue (nt_format t) owner limit lease w = (Ok tasks, w1) /\
    task ∈ tasks /\ at_id (lt_attempt task) = nt_id t /\
    execute_and_settle self env dispatcher task handler_timeout w1 = (Some (Ok SettledCompleted), w').

Lemma create_finishes em id p t w :
  calm w -> service_inv (view w) -> email_valid em -> create_task em id p t -> waits w t -> has_room w (nt_format t) ->
  next_position (sv_db (view w)) (agg_type UserAccount) (account_id_to_string id) 1 ->
  exists w1 w2 t', finishes t w w2 /\ calm w2 /\ rtc service_step (view w) (view w2) /\ effect (view w2) t /\
    reservations_kept w w2 /\ continues w1 w2 em id p t'.
Proof.
  intros Hc Hi He Ht Hwt Hhas Hpos.
  destruct (poll_delivers t w Hc Hi Hwt Hhas)
    as (tasks & task & row & w1 & Hcl & Hin & Hc1 & Hs1 & Hev & Hdel & Hl & Htm).
  destruct (steps_grow _ _ Hs1 Hi) as [_ Hi1]. pose proof Hdel as (Hst & Hid & Ha). pose proof Ht as [tid Hn].
  destruct (dispatch_published stdout now fresh dispatcher tid t (lt_attempt task) w1 dispatcher_built Ha) as (_ & Hpc & _).
  specialize (Hpc {| ct_email := em; ct_account_id := id; ct_profile := p |} He Hn).
  destruct (create_calm em id p t (lt_attempt task) w1 Hc1 Hi1 Hst He Ht) as (wh & Hh & Hch & Hstay & Hkept & Hnew);
    [by apply polls|]. rewrite Hh in Hpc.
  destruct (handled_completes self env task t handler_timeout w1 wh row Hch Hi1 Hdel Hl Htm Hstay Hpc)
    as (w2 & Hex & Hc2 & Hs2 & Heff & Hev2 & Ho).
  destruct Hnew as (t' & Hrt & w' & Hw' & Hrow'). { unfold next_position. by rewrite Hev. }
  exists w1, w2, t'. split_and!; [by exists tasks, task, w1|done|by etrans|done| |].
  { intros key n. by rewrite Hev2, Hkept, Hev. } split; [done|].
  exists w'. split; [done|]. rewrite Ho, decide_False; [done|]. intros Heq. destruct Hl as [Hl _].
  destruct Hrt as [tid' Hrt]. pose proof (task_format _ _ _ Hrt) as Hf'. pose proof (task_format _ _ _ Hn) as Hf.
  destruct Hst as (_ & r & Hr & Hcar). rewrite Hid in Hr. assert (r = row) as -> by congruence.
  apply Hstay in Hl. rewrite <- Heq, Hrow' in Hl. injection Hl as <-. destruct Hcar as (Hty & _). simpl in Hty.
  injection Hf as Hf. injection Hf' as Hf'. rewrite <- Hf, <- Hf' in Hty. discriminate Hty.
Qed.

Lemma record_finishes em id p at_ t w :
  calm w -> service_inv (view w) -> email_valid em -> record_task em id p at_ t -> waits w t -> has_room w (nt_format t) ->
  recordable (sv_db (view w)) t ->
  exists w', finishes t w w' /\ calm w' /\ rtc service_step (view w) (view w') /\ effect (view w') t.
Proof.
  intros Hc Hi He Ht Hwt Hhas Hroom.
  destruct (poll_delivers t w Hc Hi Hwt Hhas)
    as (tasks & task & row & w1 & Hcl & Hin & Hc1 & Hs1 & Hev & Hdel & Hl & Htm).
  destruct (steps_grow _ _ Hs1 Hi) as [_ Hi1].
  destruct (dispatch_calm (lt_attempt task) t w1 Hc1 Hi1 Hdel) as (wh & Hd & Hch & Hstay).
  { by apply polls. }
  { unfold recordable, next_position. by rewrite Hev. }
  destruct (handled_completes self env task t handler_timeout w1 wh row Hch Hi1 Hdel Hl Htm Hstay Hd)
    as (w2 & Hex & Hc2 & Hs2 & Heff & _). destruct Hdel as (_ & Hid & _).
  exists w2. split_and!; [by exists tasks, task, w1|done|by etrans|done].
Qed.

(** A record task is published with the account it records. *)
Lemma recorded_account em id p at_ t w :
  service_inv (view w) -> email_valid em -> record_task em id p at_ t -> task_stored (sv_db (view w)) t ->
  event_in (St := UserAccount) (sv_db (view w)) (account_id_to_string id) (account_event em id p at_).
Proof.
  intros Hi He Ht Hst. pose proof (si_trace _ Hi) as (ww & Hrep & Hw & _)%trace_holds. apply reachable_world in Hw.
  destruct (record_task_meaning ww em id p at_ t He Ht) as [_ Ha].
  { by apply (inv_tasks _ Hw), (stored_task_published (sv_db (view w))). }
  apply (event_in_stream _ _ _ _ (rep_accounts _ _ Hrep _)). rewrite Ha. by apply list_elem_of_singleton.
Qed.

(** ** From the reservation to the account *)

(** How far a reservation is: its phase, and the number of its events. *)
Definition reservation_at (w : W) (em : Email) (n : nat) (ph : ReservationPhase) : Prop :=
  exists es, stream_holds (St := EmailReservation) (sv_db (view w)) (email_to_string em) es /\
    length es = n /\ EmailReservation.replay es = Some (mk_EmailReservation ph).

(** The task is in the outbox and was not claimed yet. *)
Definition queued (w : W) (t : NewTask) : Prop :=
  nt_schedule t = Now /\ exists row, outbox (sv_db (view w)) !! nt_id t = Some row /\ carries row t /\
    ob_status row = st_pending.

(** Later moments of the calm period, up to which the service did whatever it did
    for other addresses and accounts, and delivered codes. *)
Definition later (em : Email) (id : UserAccountId) (w w' : W) : Prop :=
  calm w' /\ rtc service_step (view w) (view w') /\
  (forall n, events (sv_db (view w')) !! (agg_type EmailReservation, email_to_string em, n)
     = events (sv_db (view w)) !! (agg_type EmailReservation, email_to_string em, n)) /\
  (forall n, events (sv_db (view w')) !! (agg_type UserAccount, account_id_to_string id, n)
     = events (sv_db (view w)) !! (agg_type UserAccount, account_id_to_string id, n)).

(** What a stream's rows say, they say of one list of events. *)
Lemma stored_unique {St C E D} `{AggregateLaws St C E D} d d' key es es' :
  stream_holds (St := St) d key es -> stream_holds (St := St) d' key es' ->
  (forall n, events d' !! (agg_type St, key, n) = events d !! (agg_type St, key, n)) -> es' = es.
Proof.
  intros Hh Hh' Heq. apply list_eq. intros i.
  pose proof (sh_events _ _ _ Hh (Z.of_nat i + 1)) as Hm. pose proof (sh_events _ _ _ Hh' (Z.of_nat i + 1)) as Hm'.
  rewrite Heq in Hm'. rewrite !nth_event_succ, !Nat2Z.id in * by lia.
  pose proof (sh_ok _ _ _ Hh) as Hok. pose proof (sh_ok _ _ _ Hh') as Hok'. rewrite Forall_lookup in Hok, Hok'.
  destruct (es !! i) as [e|] eqn:Ee, (es' !! i) as [e'|] eqn:Ee', (events d !! _) as [row|]; try done.
  destruct Hm as (_ & _ & Hp), Hm' as (_ & _ & Hp'). rewrite Hp in Hp'.
  pose proof (event_roundtrip e (Hok _ _ Ee)) as Hr. rewrite Hp', event_roundtrip in Hr by eauto. congruence.
Qed.

Lemma reservation_later em id w w' n ph :
  service_inv (view w) -> later em id w w' -> reservation_at w em n ph ->
  service_inv (view w') /\ reservation_at w' em n ph.
Proof.
  intros Hi (_ & Hs & Hev & _) (es & Hh & Hlen & Hr). destruct (steps_grow _ _ Hs Hi) as [_ Hi']. split; [done|].
  pose proof (si_trace _ Hi') as (ww & Hrep & _)%trace_holds. pose proof (rep_reservations _ _ Hrep (email_to_string em)) as Hh'.
  exists es. by rewrite (stored_unique _ _ _ _ _ Hh Hh' Hev) in Hh'.
Qed.

(** A command the diagram allows is accepted. *)
Lemma email_calm c tasks w n ph e ph' :
  calm w -> service_inv (view w) -> reservation_at w (command_email c) n ph -> lifecycle ph c e ph' ->
  reservation_event_ok e -> addable (sv_db (view w)) tasks -> Forall (fun t => nt_schedule t = Now) tasks ->
  (Z.of_nat n + 1) mod 25 <> 0 -> Z.of_nat n + 1 <= i64_MAX ->
  exists w', email_execute_with_outbox c tasks w = (Some (Ok tt), w') /\ calm w' /\
    reservation_at w' (command_email c) (S n) ph' /\
    (forall key m, events (sv_db (view w')) !! (agg_type UserAccount, key, m)
       = events (sv_db (view w)) !! (agg_type UserAccount, key, m)) /\
    forall t, t ∈ tasks -> queued w' t.
Proof.
  intros Hc Hi (es & Hh & <- & Hr) Hl He Ht Hnow Hm Hmax. destruct (lifecycle_accepts _ _ _ _ Hl) as [Hd Ha].
  pose proof (si_trace _ Hi) as (ww & Hrep & _)%trace_holds. rewrite <- aggregate_id_email in *.
  destruct (framework_for (St := EmailReservation) pool reader 25 tasks (email_aggregate_id c) c w) as [r w'] eqn:Er.
  destruct (calm_accepted (St := EmailReservation) 25 tasks (email_aggregate_id c) c w r w' es _ e Hc Hh Hr Hd He
    (rep_outbox _ _ Hrep) Ht ltac:(lia) Hm Hmax Er) as (-> & Hc' & _ & Hh' & Hk & Hrows).
  rewrite (email_answers _ _ _ _ _ Er eq_refl). exists w'. split_and!; [done|done| | |].
  - exists (es ++ [e]). split_and!; [by rewrite <- aggregate_id_email|rewrite length_app; simpl; lia|].
    by rewrite replay_snoc, Hr.
  - intros key m. by apply Hk.
  - intros t Hin. rewrite Forall_forall in Hnow. split; [by apply Hnow|].
    destruct (Hrows t Hin) as (w1 & _ & Hrow). eexists. by split; [exact Hrow|].
Qed.

(** The account does not exist yet. *)
Definition account_absent (w : W) (id : UserAccountId) : Prop :=
  next_position (sv_db (view w)) (agg_type UserAccount) (account_id_to_string id) 1.

(** An ID that was never given out has no account. *)
Lemma unused_absent w id : service_inv (view w) -> unused w id -> account_absent w id.
Proof.
  intros Hi Hu. pose proof (si_trace _ Hi) as (ww & Hrep & Hw & _)%trace_holds. apply reachable_world in Hw.
  pose proof (next_position_stream _ _ _ (sh_events _ _ _ (rep_accounts _ _ Hrep (account_id_to_string id)))) as Hn.
  destruct (inv_accounts ww Hw (account_id_to_string id)) as [E|(em & id' & p & at_ & t & Hk & _ & Hreg & _)];
    [by rewrite E in Hn|].
  assert (id' = id) as -> by (destruct id, id'; f_equal; symmetry; by apply uuid_to_string_inj).
  destruct (unused_new view unused others w id Hu). by eapply issued_stored, registered_issues.
Qed.

Lemma email_laws : EmailTableLaws view unused.
Proof. exact (email_gateway_laws view pool reader draws unused others draws_in_range config policy_valid). Qed.

Lemma reserve_calm m em w :
  let id := m_account_id m in let code := m_verification_code m in
  service_reachable (view w) -> calm w -> email_valid em -> unused w id -> 1000000 <= code <= 9999999 ->
  outbox (sv_db (view w)) !! m_task_id m = None -> reservation_at w em 0 Absent ->
  exists w' t, reserve_email m em w = (Some (Ok {| re_email := em; re_account_id := id |}), w') /\ calm w' /\
    service_reachable (view w') /\ reservation_at w' em 1 (AwaitingCode id code) /\ account_absent w' id /\
    send_task em id code t /\ queued w' t.
Proof.
  intros id code Hr Hc He Hu Hcode Hf Hat. pose proof (reachable_service _ Hr) as Hi.
  destruct (send_new_task (m_task_id m) {| sv_email := em; sv_account_id := id; sv_verification_code := code |}) as [t Ht].
  destruct (email_calm (ReserveEmail em id code) [t] w 0 Absent (EmailReserved em id code) (AwaitingCode id code))
    as (w' & Hx & Hc' & Hat' & Hk & Hq);
    [done|done|done|by apply lc_reserve|split; [done|unfold u32_MAX; lia]|by apply (addable_one _ _ _ _ Ht)
    |apply Forall_singleton; exact (new_task_now _ _ _ Ht)|done|done|].
  assert (Huc : reserve_email m em w = (Some (Ok {| re_email := em; re_account_id := id |}), w')).
  { unfold reserve_email. fold id code. by rewrite Ht, Hx. }
  pose proof email_laws as HE. destruct (use_case_steps view unused w em Hr He) as (Hst & _).
  destruct (Hst m _ _ Hu Huc) as (_ & Hs & _). exists w', t. split_and!; [done|done|by eapply reachable_steps|done| | |].
  - eapply next_position_kept; [intros n; apply Hk|by apply unused_absent].
  - by exists (m_task_id m).
  - apply Hq. by apply list_elem_of_singleton.
Qed.

Lemma confirm_calm m em id code w n :
  service_reachable (view w) -> calm w -> email_valid em -> 1000000 <= code <= 9999999 ->
  reservation_at w em n (AwaitingCode id code) -> account_absent w id ->
  (Z.of_nat n + 1) mod 25 <> 0 -> Z.of_nat n + 1 <= i64_MAX ->
  exists w', confirm_email m em id code w = (Some (Ok {| ve_email := em; ve_account_id := id;
      ve_account_creation_token := m_account_creation_token m |}), w') /\ calm w' /\
    service_reachable (view w') /\ account_absent w' id /\
    reservation_at w' em (S n) (AwaitingProfile id (digest (m_account_creation_token m))).
Proof.
  intros Hr Hc He Hcode Hat Hab Hm Hmax. pose proof (reachable_service _ Hr) as Hi.
  destruct (email_calm (VerifyEmail em id code (digest (m_account_creation_token m))) [] w n (AwaitingCode id code)
    (EmailVerified em id (digest (m_account_creation_token m))) (AwaitingProfile id (digest (m_account_creation_token m))))
    as (w' & Hx & Hc' & Hat' & Hk & _); [done|done|done|by apply lc_verify|done|apply addable_nil|done|done|done|].
  eassert (Huc : confirm_email m em id code w = (Some (Ok _), w')).
  { unfold confirm_email, email_execute. rewrite (proj2 (Z.leb_le _ _)), (proj2 (Z.leb_le _ _)) by lia.
    cbn [negb andb]. by rewrite Hx. }
  pose proof email_laws as HE. destruct (use_case_steps view unused w em Hr He) as (_ & _ & Hst & _).
  destruct (Hst m _ _ _ _ Huc) as (_ & Hs & _). exists w'. split_and!; [done|done|by eapply reachable_steps| |done].
  eapply next_position_kept; [intros k; apply Hk|done].
Qed.

Lemma submit_calm at_ tid s w n :
  let p := profile_new (ps_first_name s) (ps_last_name s) (ps_date_of_birth s) (date_naive at_) in
  service_reachable (view w) -> calm w -> email_valid (ps_email s) -> profile_valid p ->
  outbox (sv_db (view w)) !! tid = None -> account_absent w (ps_account_id s) ->
  reservation_at w (ps_email s) n (AwaitingProfile (ps_account_id s) (digest (ps_account_creation_token s))) ->
  (Z.of_nat n + 1) mod 25 <> 0 -> Z.of_nat n + 1 <= i64_MAX ->
  exists w' t dg, submit_profile at_ tid s w
      = (Some (Ok {| as_email := ps_email s; as_account_id := ps_account_id s |}), w') /\ calm w' /\
    service_reachable (view w') /\ account_absent w' (ps_account_id s) /\
    reservation_at w' (ps_email s) (S n) (CreatingAccount (ps_account_id s) dg p) /\
    create_task (ps_email s) (ps_account_id s) p t /\ queued w' t.
Proof.
  intros p Hr Hc He Hp Hf Hab Hat Hm Hmax. pose proof (reachable_service _ Hr) as Hi.
  set (dg := digest (ps_account_creation_token s)) in *.
  destruct (create_new_task tid {| ct_email := ps_email s; ct_account_id := ps_account_id s; ct_profile := p |}) as [t Ht].
  destruct (email_calm (SubmitRegistrationProfile (ps_email s) (ps_account_id s) dg p) [t] w n
    (AwaitingProfile (ps_account_id s) dg) (RegistrationProfileAccepted (ps_email s) (ps_account_id s) dg p)
    (CreatingAccount (ps_account_id s) dg p)) as (w' & Hx & Hc' & Hat' & Hk & Hq);
    [done|done|done| |done|by apply (addable_one _ _ _ _ Ht)|apply Forall_singleton; exact (new_task_now _ _ _ Ht)|done|done|].
  { rewrite <- (proj1 Hp) at 2 3. constructor. by rewrite (proj1 Hp). }
  assert (Huc : submit_profile at_ tid s w
    = (Some (Ok {| as_email := ps_email s; as_account_id := ps_account_id s |}), w')).
  { unfold submit_profile. fold p dg. by rewrite Ht, Hx. }
  pose proof email_laws as HE. destruct (use_case_steps view unused w _ Hr He) as (_ & _ & _ & Hst).
  destruct (Hst _ _ _ _ _ eq_refl Huc) as (_ & Hs & _). exists w', t, dg.
  split_and!; [done|done|by eapply reachable_steps| |done|by exists tid|].
  - eapply next_position_kept; [intros k; apply Hk|done].
  - apply Hq. by apply list_elem_of_singleton.
Qed.

Lemma reservation_next em n ph w :
  reservation_at w em n ph -> next_position (sv_db (view w)) (agg_type EmailReservation) (email_to_string em) (Z.of_nat n + 1).
Proof. intros (es & Hh & <- & _). by apply next_position_stream, Hh. Qed.

(** At any later moment of the calm period. *)
Definition thereafter (em : Email) (id : UserAccountId) (w : W) (P : W -> Prop) : Prop :=
  calm w /\ forall w', later em id w w' -> P w'.

Lemma later_state em id n ph w (P : W -> Prop) :
  calm w -> service_reachable (view w) -> reservation_at w em n ph -> account_absent w id ->
  (forall w', calm w' -> service_reachable (view w') -> reservation_at w' em n ph -> account_absent w' id -> P w') ->
  thereafter em id w P.
Proof.
  intros Hc Hr Hat Hab HP. split; [done|]. intros w' Hl.
  destruct (reservation_later _ _ _ _ _ _ (reachable_service _ Hr) Hl Hat) as [_ Hat']. destruct Hl as (Hc' & Hs & _ & Hk).
  apply HP; [done|by eapply reachable_steps|done|by eapply next_position_kept].
Qed.

(** The task is due, and the poll has room for all that is ready. *)
Definition polled (w : W) (t : NewTask) : Prop := waits w t /\ has_room w (nt_format t).

(** A record task is of one address. *)
Lemma record_task_email em em' id id' p p' at_ at' t :
  email_valid em -> email_valid em' -> record_task em id p at_ t -> record_task em' id' p' at' t -> em = em'.
Proof.
  intros He He' [tid Ht] [tid' Ht'].
  by pose proof (task_payload (P := RecordAccountCreatedTaskV1) _ _
    {| rt_email := em; rt_account_id := id; rt_profile := p; rt_created_at := at_ |}
    {| rt_email := em'; rt_account_id := id'; rt_profile := p'; rt_created_at := at' |} _ He He' Ht Ht') as [= -> _ _ _].
Qed.

(** Creating the account and recording it, of a reservation that has its profile. *)
Lemma creation_finishes em id p dg t n w :
  calm w -> service_reachable (view w) -> email_valid em -> create_task em id p t -> polled w t ->
  reservation_at w em n (CreatingAccount id dg p) -> account_absent w id ->
  (Z.of_nat n + 1) mod 25 <> 0 -> Z.of_nat n + 1 <= i64_MAX ->
  exists w4 t4 created, finishes t w w4 /\
    event_in (St := UserAccount) (sv_db (view w4)) (account_id_to_string id) (account_event em id p created) /\
    record_task em id p created t4 /\ queued w4 t4 /\
    thereafter em id w4 (fun w4 => polled w4 t4 -> exists w5, finishes t4 w4 w5 /\ calm w5 /\
      service_reachable (view w5) /\ event_in (St := EmailReservation) (sv_db (view w5)) (email_to_string em)
        (AccountCreationCompleted em id created)).
Proof.
  intros Hc Hr He Ht [Hwt Hhas] Hat Hab Hm Hmax. pose proof (reachable_service _ Hr) as Hi.
  destruct (create_finishes em id p t w Hc Hi He Ht Hwt Hhas Hab)
    as (w1 & w4 & t4 & Hfin & Hc4 & Hs & Heff & Hk & Hrt & wp & Hwp & Hrow).
  pose proof (reachable_steps _ _ Hr Hs) as Hr4. pose proof (reachable_service _ Hr4) as Hi4. pose proof Hrt as [tid Hn].
  assert (Hst : task_stored (sv_db (view w4)) t4).
  { split; [exact (new_task_now _ _ _ Hn)|]. eexists. split; [exact Hrow|]. done. }
  exists w4, t4, (now w1). split_and!; [done| |done| |].
  - by apply (recorded_account em id p (now w1) t4).
  - split; [exact (new_task_now _ _ _ Hn)|]. eexists. by split; [exact Hrow|].
  - split; [done|]. intros w5 (Hc5 & Hs5 & Hk5 & _) [Hwt5 Hhas5].
    pose proof (reachable_steps _ _ Hr4 Hs5) as Hr5.
    destruct (record_finishes em id p (now w1) t4 w5) as (w6 & ? & ? & Hs6 & [_ _ Her]); [done|by apply reachable_service|done..| |].
    + intros em0 id0 p0 at0 n0 He0 Ht0 Hn0. rewrite (record_task_email _ _ _ _ _ _ _ _ _ He0 He Ht0 Hrt) in Hn0.
      apply reservation_next in Hat. replace n0 with (Z.of_nat n + 1); [done|].
      eapply next_position_unique; [|exact Hn0]. eapply next_position_kept; [|exact Hat].
      intros k. by rewrite Hk5, Hk.
    + exists w6. split_and!; [done|done|by eapply reachable_steps|by eapply Her].
Qed.

(** C7: a registration succeeds from end to end.  In a calm period, an address that
    has no reservation is reserved, with a code that waits to be delivered; with
    that code it is confirmed at any later moment, whatever the service does for
    others meanwhile; with the token that was returned, a valid profile is
    accepted, and its creation task waits; once that is due, a poll and an execution
    complete it and the account is stored, with the submitted profile, and the
    record task waits; once that is due, a poll and an execution complete it, and
    the reservation has recorded the account and the time it was created. *)
Theorem registrations_succeed em m1 w0 :
  let id := m_account_id m1 in let code := m_verification_code m1 in
  service_reachable (view w0) -> calm w0 -> email_valid em -> reservation_at w0 em 0 Absent ->
  unused w0 id -> 1000000 <= code <= 9999999 -> outbox (sv_db (view w0)) !! m_task_id m1 = None ->
  exists w1 t1, reserve_email m1 em w0 = (Some (Ok {| re_email := em; re_account_id := id |}), w1) /\
    send_task em id code t1 /\ queued w1 t1 /\
  thereafter em id w1 (fun w1 => forall m2, let token := m_account_creation_token m2 in
  exists w2, confirm_email m2 em id code w1
      = (Some (Ok {| ve_email := em; ve_account_id := id; ve_account_creation_token := token |}), w2) /\
  thereafter em id w2 (fun w2 => forall at_ tid first last dob, let p := profile_new first last dob (date_naive at_) in
  profile_valid p -> outbox (sv_db (view w2)) !! tid = None ->
  exists w3 t3, submit_profile at_ tid {| ps_email := em; ps_account_id := id; ps_account_creation_token := token;
        ps_first_name := first; ps_last_name := last; ps_date_of_birth := dob |} w2
      = (Some (Ok {| as_email := em; as_account_id := id |}), w3) /\ create_task em id p t3 /\ queued w3 t3 /\
  thereafter em id w3 (fun w3 => polled w3 t3 ->
  exists w4 t4 created, finishes t3 w3 w4 /\
    event_in (St := UserAccount) (sv_db (view w4)) (account_id_to_string id) (account_event em id p created) /\
    record_task em id p created t4 /\ queued w4 t4 /\
  thereafter em id w4 (fun w4 => polled w4 t4 ->
  exists w5, finishes t4 w4 w5 /\ calm w5 /\ service_reachable (view w5) /\
    event_in (St := EmailReservation) (sv_db (view w5)) (email_to_string em)
      (AccountCreationCompleted em id created))))).
Proof.
  intros id code Hr Hc He Hat Hu Hcode Hf.
  destruct (reserve_calm m1 em w0 Hr Hc He Hu Hcode Hf Hat) as (w1 & t1 & ? & Hc1 & Hr1 & Hat1 & Hab1 & ? & ?).
  exists w1, t1. split_and!; [done..|]. eapply later_state; [done..|]. clear dependent w1.
  intros w1 Hc1 Hr1 Hat1 Hab1 m2 token.
  destruct (confirm_calm m2 em id code w1 1 Hr1 Hc1 He Hcode Hat1 Hab1) as (w2 & ? & Hc2 & Hr2 & Hab2 & Hat2); [done..|].
  exists w2. split; [done|]. eapply later_state; [done..|]. clear dependent w2.
  intros w2 Hc2 Hr2 Hat2 Hab2 at_ tid first last dob p Hp Hf2. set (sub := Build_ProfileSubmission _ _ _ _ _ _).
  destruct (submit_calm at_ tid sub w2 2 Hr2 Hc2 He Hp Hf2 Hab2 Hat2) as (w3 & t3 & dg & ? & Hc3 & Hr3 & Hab3 & Hat3 & Ht3 & ?);
    [done..|].
  exists w3, t3. split_and!; [done..|]. eapply later_state; [done..|]. intros w3' Hc3' Hr3' Hat3' Hab3' Hpo.
  by apply (creation_finishes em id p dg t3 3).
Qed.
End Progress.
