(* ===== verification/ReferenceStore.v ===== *)
(** * A reference framework

    An executable [postgres_es] reader and [cqrs_es] framework over the state of a
    service: a command reads the snapshot and the later events, or all events,
    through the repository it is given, decides, and writes through it.  The
    theorems do not depend on them; they show that what is assumed of the
    framework ([Wiring.CqrsLaws]) can be kept, and they run the examples. *)

From S2P Require Import Prelude DomainValues EmailReservation UserAccount FloatTime TaskData Database EventRepository.
From S2P Require Import CommandRetry TaskQueue Application EventCodec EventStore Tables Processing Wiring Progress.
From stdpp Require Import sorting.
#[local] Open Scope Z_scope.

(** ** Reading *)

Definition row_le (a b : Z * event_row) : Prop := a.1 <= b.1.
#[local] Instance row_le_dec a b : Decision (row_le a b).
Proof. unfold row_le. apply _. Defined.
#[local] Instance row_le_trans : Transitive row_le.
Proof. intros a b c. unfold row_le. lia. Qed.
#[local] Instance row_le_total : Total row_le.
Proof. intros a b. unfold row_le. lia. Qed.

Definition in_stream {R} (ty key : rstr) (low : Z) (kr : rstr * rstr * Z * R) : bool :=
  bool_decide (kr.1.1 = (ty, key)) && (low <? kr.1.2).
Definition stream_rows_of (d : db) (ty key : rstr) (low : Z) : list (Z * event_row) :=
  merge_sort row_le ((fun kr => (kr.1.2, kr.2)) <$>
    filter (fun kr => in_stream ty key low kr = true) (map_to_list (events d))).

Definition snapshot_row_of (d : db) (ty key : rstr) : option (Z * snapshot_row) :=
  head ((fun kr => (kr.1.2, kr.2)) <$>
    filter (fun kr => bool_decide (kr.1.1 = (ty, key)) = true) (map_to_list (snapshots d))).

Definition event_of_row (key : rstr) (nr : Z * event_row) : SerializedEvent := {|
  se_aggregate_id := key; se_sequence := nr.1; se_event_type := er_event_type nr.2;
  se_event_version := er_event_version nr.2; se_payload := er_payload nr.2; se_metadata := er_metadata nr.2 |}.

Definition table_events (ty key : rstr) (low : Z) (st : service_state) : list SerializedEvent :=
  event_of_row key <$> stream_rows_of (sv_db st) ty key low.

(** The reader writes nothing, and its streams are lists. *)
Definition table_reader : PersistedEventRepository service_state (list SerializedEvent) := {|
  get_events ty key st := (Ok (table_events ty key (-1) st), st);
  get_last_events ty key last_sequence st := (Ok (table_events ty key last_sequence st), st);
  get_snapshot ty key st :=
    (Ok ('(n, row) ← snapshot_row_of (sv_db st) ty key;
         Some {| sn_aggregate_id := key; sn_aggregate := sr_payload row; sn_current_sequence := n;
                 sn_current_snapshot := sr_current_snapshot row |}), st);
  persist _ _ _ st := (Err OptimisticLockError, st);
  stream_events ty key st := (Ok (table_events ty key (-1) st), st);
  stream_all_events _ st := (Ok [], st) |}.

(** ** One run *)

Section Run.
Context {St C E D : Type} `{Aggregate St C E D} {Replay : Type}.
Implicit Types (repository : PersistedEventRepository service_state Replay).

(** The state, the position of the last event, and the snapshot's version. *)
Definition replayed (s0 : St) (n v : Z) (es : list SerializedEvent) : option (St * Z * Z) :=
  es' ← mapM (fun e => event_of_json (se_payload e)) es; s ← apply_all s0 es';
  Some (s, from_option se_sequence n (last es), v).

Definition load repository (key : rstr) (st : service_state) : option (St * Z * Z) :=
  match (@get_snapshot _ _ repository (agg_type St) key st).1 with
  | Ok None =>
    es ← result_ok (@get_events _ _ repository (agg_type St) key st).1; replayed agg_default 0 0 es
  | Ok (Some sn) =>
    s0 ← state_of_json (sn_aggregate sn);
    es ← result_ok (@get_last_events _ _ repository (agg_type St) key (sn_current_sequence sn) st).1;
    replayed s0 (sn_current_sequence sn) (sn_current_snapshot sn) es
  | Err _ => None
  end.

(** A due snapshot is stored with its event; [None] is a panic of the aggregate. *)
Definition reference_execute repository (snapshot_interval : Z) (key : rstr) (c : C) (st : service_state) :
    option (result (AggregateError D) unit) * service_state :=
  match load repository key st with
  | None => (Some (Err DeserializationError), st)
  | Some (s, n, v) =>
    match agg_handle s c with
    | None => (None, st)
    | Some (Err e) => (Some (Err (UserError e)), st)
    | Some (Ok es) =>
      match apply_all s es with
      | None => (None, st)
      | Some s1 =>
        match snapshot_update snapshot_interval key n v s1 es with
        | None => (None, st)
        | Some snapshot =>
          let '(r, st) := @persist _ _ repository (agg_type St) (serialize key (JObject []) n es) snapshot st in
          (Some (map_err aggregate_error_of r), st)
        end
      end
    end
  end.
End Run.

#[export] Instance reference_cqrs : CqrsEs service_state (list SerializedEvent) :=
  fun St C E D _ => reference_execute (St := St).

(** A pool whose connections never fail: tasks are published at one moment,
    claimed at a later one and settled after that. *)
Definition claim_at (time : Z) : claim_env := {|
  ce_instant := 0; ce_now := time; ce_clock _ := time; ce_token i := (i + 1000)%N; ce_locked _ := false;
  ce_fault := NoFault |}.
Definition settle_at (time : Z) : settle_env := {| se_now := time; se_clock := time; se_fault := NoFault |}.
Definition recover_at (time : Z) : recover_env := {|
  re_now := time; re_update _ := time; re_jitter _ := 1%Q; re_locked _ := false; re_fault := NoFault |}.
Definition table_pool : PgPool service_state := {|
  pool_db := sv_db; pool_write d st := wrote st d; pool_link _ := Healthy; pool_now _ := 0;
  pool_acquire st := st; pool_claim _ := claim_at 10; pool_settle _ := settle_at 20;
  pool_recover _ := recover_at 30 |}.

(** ** It keeps the contract *)

Section Contract.
Context {St C E D : Type} `{Aggregate St C E D}.

Abbreviation key_of key n := (agg_type St, key, n).
Abbreviation repository tasks := (outbox_repository table_pool table_reader (with_outbox repository_new tasks)).

Lemma elem_of_stream_rows d key low n r :
  (n, r) ∈ stream_rows_of d (agg_type St) key low <-> low < n /\ events d !! key_of key n = Some r.
Proof.
  unfold stream_rows_of. rewrite merge_sort_Permutation, list_elem_of_fmap. split.
  - intros ([[[ty k] m] r'] & [= -> ->] & [Hk Hin]%list_elem_of_filter).
    apply elem_of_map_to_list in Hin. unfold in_stream in Hk. zify_bool. simpl in *. by simplify_eq.
  - intros [Hl Hr]. exists (key_of key n, r). split; [done|].
    apply list_elem_of_filter. split; [|by apply elem_of_map_to_list]. unfold in_stream. simpl.
    by rewrite bool_decide_eq_true_2, (proj2 (Z.ltb_lt _ _)).
Qed.

Lemma stream_rows_NoDup d key low : NoDup (stream_rows_of d (agg_type St) key low).*1.
Proof.
  unfold stream_rows_of. rewrite merge_sort_Permutation, <- list_fmap_compose.
  apply NoDup_fmap_2_strong; [|apply NoDup_filter, NoDup_map_to_list].
  intros [[[ty k] m] r] [[[ty' k'] m'] r'] [Hx Hin]%list_elem_of_filter [Hy Hin']%list_elem_of_filter Heq.
  apply elem_of_map_to_list in Hin, Hin'. unfold in_stream in *. zify_bool. simpl in *. simplify_eq. congruence.
Qed.

Lemma strictly_sorted rows : StronglySorted row_le rows -> NoDup rows.*1 ->
  StronglySorted (fun a b : Z * event_row => a.1 < b.1) rows.
Proof.
  induction 1 as [|a rows Hs IH Hf]; intros Hn; [constructor|]. apply NoDup_cons in Hn as [Ha Hn].
  constructor; [by apply IH|]. rewrite Forall_forall in *. intros b Hb.
  specialize (Hf b Hb). unfold row_le in Hf. assert (a.1 <> b.1); [|lia].
  intros Heq. apply Ha. rewrite Heq. by apply list_elem_of_fmap_2.
Qed.

Lemma stream_rows_above d key low : rows_above (St := St) d key low (stream_rows_of d (agg_type St) key low).
Proof.
  split; [|intros n r; apply elem_of_stream_rows].
  apply strictly_sorted; [apply (StronglySorted_merge_sort row_le)|apply stream_rows_NoDup].
Qed.

Lemma snapshot_row_some d key n row :
  snapshot_row_of d (agg_type St) key = Some (n, row) -> snapshots d !! key_of key n = Some row.
Proof.
  intros Hh%head_Some_elem_of%list_elem_of_fmap. destruct Hh as ([[[ty k] m] r] & [= -> ->] & [Hk Hin]%list_elem_of_filter).
  apply elem_of_map_to_list in Hin. simpl in Hk. apply bool_decide_eq_true in Hk. by simplify_eq.
Qed.

Lemma snapshot_row_none d key n : snapshot_row_of d (agg_type St) key = None -> snapshots d !! key_of key n = None.
Proof.
  intros Hh%head_None%fmap_nil_inv. apply eq_None_not_Some. intros [row Hr].
  assert (Hin : (key_of key n, row) ∈ filter (fun kr => bool_decide (kr.1.1 = (agg_type St, key)) = true)
    (map_to_list (snapshots d))).
  { apply list_elem_of_filter. split; [by apply bool_decide_eq_true|by apply elem_of_map_to_list]. }
  rewrite Hh in Hin. by apply not_elem_of_nil in Hin.
Qed.

Lemma decode_events key rows :
  mapM (fun e => event_of_json (se_payload e)) (event_of_row key <$> rows) = decode_rows (St := St) rows.
Proof.
  unfold decode_rows. induction rows as [|[n r] rows IH]; [done|].
  rewrite fmap_cons. cbn [mapM]. by rewrite IH.
Qed.

Lemma last_sequence key n rows :
  from_option se_sequence n (last (event_of_row key <$> rows)) = from_option fst n (last rows).
Proof. rewrite fmap_last. by destruct (last rows). Qed.

Lemma load_loads tasks key st s n v :
  load (repository tasks) key st = Some (s, n, v) -> loads (St := St) (sv_db st) key s n v.
Proof.
  unfold load, replayed.
  cbn [get_snapshot get_events get_last_events outbox_repository table_reader fst].
  unfold table_events.
  destruct (snapshot_row_of _ _ _) as [[m row]|] eqn:Es; cbn [mbind option_bind result_ok sn_aggregate
    sn_current_sequence sn_current_snapshot]; rewrite decode_events, last_sequence.
  - destruct (state_of_json _) as [s0|] eqn:Ej; [|done]. cbn [mbind option_bind].
    destruct (decode_rows _) as [es|] eqn:Ed; [|done]. cbn [mbind option_bind].
    destruct (apply_all _ _) as [s'|] eqn:Ea; [|done]. intros [= <- <- <-].
    eapply loads_snapshot; [by apply snapshot_row_some|done|apply stream_rows_above|done|done].
  - destruct (decode_rows _) as [es|] eqn:Ed; [|done]. cbn [mbind option_bind].
    destruct (apply_all _ _) as [s'|] eqn:Ea; [|done]. intros [= <- <- <-].
    eapply loads_events; [intros m; by apply snapshot_row_none|apply stream_rows_above|done|done].
Qed.

Lemma reference_runs tasks interval key c st r st' :
  reference_execute (St := St) (repository tasks) interval key c st = (r, st') ->
  cqrs_run (St := St) (fun st => st) eq (repository tasks) key c st r st'.
Proof.
  unfold reference_execute. destruct (load (repository tasks) key st) as [[[s n] v]|] eqn:El.
  2:{ intros [= <- <-]. apply cqrs_unread; [done|]. right. by left. }
  apply load_loads in El. destruct (agg_handle s c) as [[es|e]|] eqn:Eh.
  2:{ intros [= <- <-]. by eapply cqrs_rejected. }
  2:{ intros [= <- <-]. eapply cqrs_panicked; [done|done|by left|done]. }
  destruct (apply_all s es) as [s1|] eqn:Ea.
  2:{ intros [= <- <-]. eapply cqrs_panicked; [done|done| |done]. right. eauto. }
  destruct (snapshot_update interval key n v s1 es) as [sn|] eqn:Es.
  2:{ intros [= <- <-]. eapply cqrs_panicked; [done|done| |done]. right. exists es. split; [done|]. right.
      exists s1. split; [done|]. unfold snapshot_update in Es. case_match; [|done].
      by destruct (apply_all s1 es). }
  destruct (@persist _ _ _ _ _ _ _) as [r0 st1] eqn:Ep. intros [= <- <-].
  eapply cqrs_written; [done..| |done|exact Ep|done].
  unfold snapshot_update in Es. case_match; [|by injection Es as <-; left].
  destruct (apply_all s1 es) as [s2|] eqn:Ea2; [|done]. injection Es as <-. eauto.
Qed.
End Contract.

(** ** It gets its work done *)

Section Answers.
Context {St C E D : Type} `{AggregateLaws St C E D}.

Abbreviation repository tasks := (outbox_repository table_pool table_reader (with_outbox repository_new tasks)).

(** An intact stream is read. *)
Lemma load_succeeds tasks key st es :
  stream_holds (St := St) (sv_db st) key es -> is_Some (load (St := St) (repository tasks) key st).
Proof.
  intros Hh. pose proof (sh_state _ _ _ Hh) as [s Hs]. unfold load, replayed.
  cbn [get_snapshot get_events get_last_events outbox_repository table_reader fst]. unfold table_events.
  destruct (snapshot_row_of _ _ _) as [[m row]|] eqn:Es; cbn [mbind option_bind result_ok sn_aggregate
    sn_current_sequence sn_current_snapshot]; rewrite decode_events, last_sequence.
  - apply snapshot_row_some in Es. destruct (stored_snapshot_typed _ _ _ _ _ Hh Es) as (s0 & Hs0 & Hm & _ & Ht).
    rewrite Hs0. cbn [mbind option_bind].
    destruct (rows_above_stream (sv_db st) key m (drop (Z.to_nat m) es) (stream_rows_of (sv_db st) (agg_type St) key m))
      as [Hf _]; [apply stream_rows; [apply Hh|lia]|apply stream_rows_above|].
    rewrite (decode_stored _ _ Hf) by (apply Forall_drop, Hh). cbn [mbind option_bind].
    rewrite <- (take_drop (Z.to_nat m) es), apply_all_app, Ht in Hs. cbn [mbind option_bind] in Hs. by rewrite Hs.
  - pose proof (stream_rows_above (St := St) (sv_db st) key (-1)) as Ha.
    apply (rows_above_all _ _ es) in Ha; [|apply Hh].
    destruct (rows_above_stream (sv_db st) key 0 es _ (stream_rows _ _ _ 0 (sh_events _ _ _ Hh) ltac:(lia)) Ha) as [Hf _].
    rewrite (decode_stored _ _ Hf) by apply Hh. cbn [mbind option_bind]. by rewrite Hs.
Qed.

Lemma reference_answers tasks interval key c st r st' es :
  stream_holds (St := St) (sv_db st) key es ->
  reference_execute (St := St) (repository tasks) interval key c st = (r, st') ->
  calm_run (St := St) (fun st => st) (fun _ => True) (repository tasks) interval key c st r st'.
Proof.
  intros Hh. unfold reference_execute. destruct (load_succeeds tasks key st es Hh) as [[[s n] v] El].
  rewrite El. apply load_loads in El. destruct (agg_handle s c) as [[es'|e]|] eqn:Eh.
  - destruct (apply_all s es') as [s1|] eqn:Ea.
    2:{ intros [= <- <-]. eapply calm_panicked; [done| |done]. right. exists es'. split; [done|]. by rewrite Ea. }
    destruct (snapshot_update interval key n v s1 es') as [sn|] eqn:Es.
    2:{ intros [= <- <-]. eapply calm_panicked; [done| |done]. right. exists es'. split; [done|].
        rewrite Ea. by intros ? [= <-]. }
    destruct (@persist _ _ _ _ _ _ _) as [r0 st1] eqn:Ep. intros [= <- <-]. by eapply calm_written.
  - intros [= <- <-]. by eapply calm_rejected.
  - intros [= <- <-]. by eapply calm_panicked; [done|left|].
Qed.
End Answers.

(** ** The laws can be kept *)

Definition unused `{UuidCrate, EmailCrate, ChronoCrate} (st : service_state) (id : UserAccountId) : Prop :=
  ~ id_issued (sv_db st) id.

#[export] Instance alone `{F64Laws, UuidLaws, EmailLaws, ChronoLaws} : OthersLaws (fun st => st) unused eq.
Proof. split; [by intros st st' ->|by intros st st' id ->|done]. Defined.
Lemma jitter_one `{F64Laws} : jitter_in_range 1.
Proof. split; rewrite <- (rnd_exact 1) by lia; by apply rnd_mono. Qed.

#[export] Instance table_pool_laws `{F64Laws, UuidCrate, EmailCrate, ChronoCrate} :
  PoolLaws (fun st => st) table_pool unused eq.
Proof. split; try done. intros. apply jitter_one. Defined.
#[export] Instance reference_laws : CqrsLaws (fun st => st) table_pool table_reader eq.
Proof.
  intros St C E D Ag [tasks] interval key c st r st' Hrun. by eapply (reference_runs (St := St) tasks).
Defined.
(** Nothing ever interferes with the reference store, on any console that prints. *)
Lemma table_calm (stdout : Writer (W:=service_state)) :
  (forall line st, exists st1 st2, write_line stdout line st = (true, st1) /\ flush stdout st1 = (true, st2) /\
     sv_db st2 = sv_db st) ->
  CalmLaws (fun st => st) table_pool table_reader stdout (fun _ => True).
Proof.
  intros Hp. split; try done.
  - intros line st _. destruct (Hp line st) as (st1 & st2 & ? & ? & ?). by exists st1, st2.
  - intros St C E D Ag AgL [tasks] interval key c st r st' es _ Hh Hr. by eapply (reference_answers (St := St) tasks).
Qed.
