(* ===== verification/RunningService.v ===== *)
(** * The service running

    The program assembled by [Wiring.build], over the reference framework
    ([ReferenceStore]), the PostgreSQL queue and a console.  Everything evaluates:
    a registration is run from the reservation to the recorded account, and it
    witnesses the theorems of [Processing] and [Wiring]. *)

From S2P Require Import Prelude DomainValues EmailReservation UserAccount FloatTime Binary64 TaskData.
From S2P Require Import Database EventRepository CommandRetry TaskQueue TaskHandling TaskExecutor RuntimeConfig.
From S2P Require Import Supervisor Application System Presentation EventCodec EventStore Tables Processing Wiring.
From S2P Require Import WorkerPool Diagnostics Runtime ReferenceStore Worker.
#[local] Open Scope Z_scope.
#[export] Existing Instance binary64.
#[export] Existing Instance binary64_laws.
#[local] Existing Instance ex_parsers.
#[local] Existing Instance DiagnosticsExample.printers.

(** ** The assembled program *)

Definition ex_config : PostgresCommandConfig :=
  stdpp.option.default {| snapshot_interval := 25; conflict_retry := ex_policy |} command_config_default.

Lemma ex_config_default : command_config_default = Some ex_config.
Proof. by destruct command_config_default_ok as (config & E & _); unfold ex_config; rewrite E. Qed.

#[export] Instance email_gateway : EmailReservationGateway service_state :=
  cqrs_email_gateway (command_executor (St := EmailReservation) table_pool table_reader ex_draws ex_config).
#[export] Instance account_gateway : UserAccountGateway service_state :=
  cqrs_account_gateway (command_executor (St := UserAccount) table_pool table_reader ex_draws ex_config).

Definition queue : PostgresTaskQueue service_state :=
  queue_with_config table_pool {| qc_statement_timeout := Duration.from_secs 4 |}.
#[export] Instance queue_port : TaskQueuePort service_state := postgres_settlements queue.
#[export] Instance claim_port : TaskClaimPort service_state := postgres_claims queue.

Definition console : Writer (W:=service_state) :=
  {| write_line line st := (true, printed st line); flush st := (true, st) |}.
Definition clock (_ : service_state) : DateTime := 1789344000000000000.
Definition next_id (o : gmap Uuid outbox_row) : Uuid := map_fold (fun i _ m => N.max (i + 1) m) 100%N o.
Definition fresh_task (st : service_state) : Uuid := next_id (outbox (sv_db st)).

(** ** They keep their contracts *)

Lemma ex_config_policy : policy_ok (conflict_retry ex_config).
Proof.
  destruct command_config_default_ok as (config & E & Hp & _). rewrite ex_config_default in E. by injection E as <-.
Qed.

#[export] Instance email_table_laws : EmailTableLaws (fun st => st) unused.
Proof. apply (email_gateway_laws _ _ _ _ _ eq); [apply ex_draws_ok|apply ex_config_policy]. Qed.
#[export] Instance account_table_laws : AccountTableLaws (fun st => st).
Proof. apply (account_gateway_laws _ _ _ _ unused eq); [apply ex_draws_ok|apply ex_config_policy]. Qed.
#[export] Instance queue_table_laws : QueueTableLaws (fun st => st).
Proof. by apply (postgres_settle_transactions _ _ unused eq). Qed.
#[export] Instance claim_table_laws : ClaimTableLaws (fun st => st).
Proof. by apply (postgres_claim_transactions _ _ unused eq). Qed.
#[export] Instance console_laws : ConsoleLaws (fun st => st) console.
Proof.
  split.
  - intros line st. apply rtc_once, ss_print.
  - done.
  - intros line st st1 st2 [= <-] [= <-]. apply elem_of_app. right. by apply list_elem_of_singleton.
Defined.

(** ** A worker *)

(** Claim what is ready of a format, for a minute. *)
Definition claim_tasks (format : TaskFormat) (st : service_state) : list LeasedTask * service_state :=
  let '(r, d') := claim (claim_at 10) format (§"worker") 5 (Duration.from_secs 60) (sv_db st) in
  (stdpp.option.default [] (result_ok r), wrote st d').

Definition app_dispatcher : TaskDispatcher service_state :=
  match application_dispatcher console clock fresh_task with
  | Ok d => d
  | Err _ => {| adapters := []; formats := []; routes := ∅ |}
  end.
Definition executor : DefaultTaskExecutor := {| storage_timeout := Duration.from_secs 1 |}.
Definition in_time : exec_env service_state := {|
  ee_now := 0; ee_handler_cut := None; ee_settle_now := 5; ee_race := Answered; ee_jitter := 1%Q |}.

Definition execute_task (task : LeasedTask) (st : service_state) :
    option (result TaskProcessingError SettlementResult) * service_state :=
  execute_and_settle executor in_time app_dispatcher task (Duration.from_secs 30) st.

(** A worker that panics is restarted, and goes on with the next task. *)
Fixpoint execute_tasks (tasks : list LeasedTask) (st : service_state) :
    list (option (result TaskProcessingError SettlementResult)) * service_state :=
  match tasks with
  | [] => ([], st)
  | task :: tasks =>
    let '(r, st) := execute_task task st in let '(rs, st) := execute_tasks tasks st in (r :: rs, st)
  end.

Definition deliver (format : TaskFormat) (st : service_state) :
    list (option (result TaskProcessingError SettlementResult)) * service_state :=
  let '(tasks, st) := claim_tasks format st in execute_tasks tasks st.

Lemma app_dispatcher_built : application_dispatcher console clock fresh_task = Ok app_dispatcher.
Proof.
  destruct (application_dispatcher_built console clock fresh_task) as (d & Hd & _).
  unfold app_dispatcher. by rewrite Hd.
Qed.

(** ** A registration *)

Definition generated : material := {|
  m_account_id := ex_id; m_verification_code := 1234567; m_account_creation_token := §"token";
  m_task_id := 50%N |}.
Definition submission : ProfileSubmission := {|
  ps_email := ex_email; ps_account_id := ex_id; ps_account_creation_token := §"token";
  ps_first_name := §" Alice "; ps_last_name := §"Smith"; ps_date_of_birth := 7436 |}.
Definition delivered (format : TaskFormat) (st : service_state) : service_state :=
  (deliver format st).2.

Definition st1 : service_state := (reserve_email generated ex_email service_start).2.
Definition st2 : service_state := delivered send_format st1.
Definition st3 : service_state := (confirm_email generated ex_email ex_id 1234567 st2).2.
Definition st4 : service_state := (submit_profile (clock st3) 51%N submission st3).2.
Definition st5 : service_state := delivered create_format st4.
Definition st6 : service_state := delivered record_format st5.


(** ** The running service is a service *)

Lemma execute_task_steps task t st :
  service_reachable st -> delivery_of st (lt_attempt task) t ->
  lease_deadline (lt_lease task) = Duration.from_secs 60 ->
  exists r st', execute_task task st = (r, st') /\ rtc service_step st st'.
Proof.
  intros Hr Hd Hl.
  destruct (execution_steps (fun st => st) console clock fresh_task unused executor in_time app_dispatcher task t
    (Duration.from_secs 30) st) as (r & st' & ? & ? & _);
    [done|apply app_dispatcher_built|done|done|done|done|by rewrite Hl|done|done|done|]. eauto.
Qed.

Lemma execute_tasks_steps tasks st :
  service_reachable st ->
  (forall lt, lt ∈ tasks -> lease_deadline (lt_lease lt) = Duration.from_secs 60 /\
     exists t, delivery_of st (lt_attempt lt) t) ->
  exists rs st', execute_tasks tasks st = (rs, st') /\ rtc service_step st st'.
Proof.
  revert st. induction tasks as [|task tasks IH]; intros st Hr Ht; [by eexists _, _|]. simpl.
  destruct (Ht task) as (Hl & t & Hd); [set_solver|].
  destruct (execute_task_steps task t st Hr Hd Hl) as (r & st1 & -> & Hs1).
  destruct (IH st1) as (rs & st2 & -> & Hs2); [by eapply reachable_steps| |].
  - intros lt Hlt. destruct (Ht lt) as (? & t' & Ht' & ?); [set_solver|]. split; [done|]. exists t'.
    split; [|done]. apply (stored_stays t' st); [|done]. split; [by apply reachable_service|done].
  - eexists _, _. split; [done|by etrans].
Qed.

Lemma claim_tasks_steps format st :
  service_reachable st -> rtc service_step st (claim_tasks format st).2 /\
  forall lt, lt ∈ (claim_tasks format st).1 -> lease_deadline (lt_lease lt) = Duration.from_secs 60 /\
    exists t, delivery_of (claim_tasks format st).2 (lt_attempt lt) t.
Proof.
  intros Hr. unfold claim_tasks. destruct (claim _ _ _ _ _ _) as [[tasks|e] d'] eqn:Ec; simpl.
  - destruct (claimed_delivery st _ _ _ _ _ _ _ (reachable_service _ Hr) Ec) as (_ & Hs & Hret).
    split; [by apply rtc_once|done].
  - split; [|by intros lt ?%not_elem_of_nil]. apply rtc_once.
    replace d' with (claim (claim_at 10) format (§"worker") 5 (Duration.from_secs 60)
      (sv_db st)).2 by (by rewrite Ec). apply ss_queue, table_claim.
Qed.

Lemma delivered_steps format st : service_reachable st -> rtc service_step st (delivered format st).
Proof.
  intros Hr. unfold delivered, deliver. destruct (claim_tasks_steps format st Hr) as [Hs Hret].
  destruct (claim_tasks format st) as [tasks st']. simpl in *.
  destruct (execute_tasks_steps tasks st') as (rs & st2 & -> & Hs'); [by eapply reachable_steps|done|]. by etrans.
Qed.
Lemma delivered_reachable format st : service_reachable st -> service_reachable (delivered format st).
Proof. intros Hr. by eapply reachable_steps, delivered_steps. Qed.

Lemma reserve_reachable m em st :
  service_reachable st -> email_valid em -> unused st (m_account_id m) ->
  service_reachable (reserve_email m em st).2.
Proof.
  intros Hr He Hu. destruct (reserve_email m em st) as [r st'] eqn:E. eapply reachable_steps; [done|].
  by apply (use_case_steps (fun st => st) unused st em Hr He) in E as (_ & ? & _).
Qed.
Lemma confirm_reachable m em id code st :
  service_reachable st -> email_valid em -> service_reachable (confirm_email m em id code st).2.
Proof.
  intros Hr He. destruct (confirm_email m em id code st) as [r st'] eqn:E. eapply reachable_steps; [done|].
  by apply (use_case_steps (fun st => st) unused st em Hr He) in E as (_ & ? & _).
Qed.
Lemma submit_reachable at_ tid s st :
  service_reachable st -> email_valid (ps_email s) -> service_reachable (submit_profile at_ tid s st).2.
Proof.
  intros Hr He. destruct (submit_profile at_ tid s st) as [r st'] eqn:E. eapply reachable_steps; [done|].
  by apply (use_case_steps (fun st => st) unused st _ Hr He) in E as (_ & ? & _).
Qed.

Lemma unused_start : unused service_start ex_id.
Proof. intros (key & n & row & e & code & Hr & _). simpl in Hr. by rewrite lookup_empty in Hr. Qed.

Lemma reachable1 : service_reachable st1.
Proof. apply reserve_reachable; [constructor|apply ex_email_valid|apply unused_start]. Qed.
Lemma reachable4 : service_reachable st4.
Proof.
  apply submit_reachable; [|apply ex_email_valid]. apply confirm_reachable; [|apply ex_email_valid].
  apply delivered_reachable, reachable1.
Qed.
Lemma reachable5 : service_reachable st5.
Proof. apply delivered_reachable, reachable4. Qed.
Lemma reachable6 : service_reachable st6.
Proof. apply delivered_reachable, reachable5. Qed.

(** ** Witnesses *)

Definition creation : CreateAccountTaskV1 := {|
  ct_email := ex_email; ct_account_id := ex_id;
  ct_profile := profile_new (§"Alice") (§"Smith") 7436 (date_naive (clock st3)) |}.

Lemma completed_tasks_took_effect_witness :
  exists r, outbox (sv_db st6) !! 51%N = Some r /\ ob_status r = st_completed /\
    exists n row at_, events (sv_db st6) !! (agg_type UserAccount, account_id_to_string ex_id, n) = Some row /\
      account_event_of_json (er_payload row) = Some (account_event ex_email ex_id (ct_profile creation) at_).
Proof.
  destruct (outbox (sv_db st6) !! 51%N) as [r|] eqn:Er; [|vm_compute in Er; discriminate Er].
  destruct (completed_tasks_took_effect st6 51%N r reachable6 Er) as [Hc _].
  assert (Hrow : ob_status r = st_completed /\ ob_task_type r = TASK_TYPE CreateAccountTaskV1 /\
    from_value (ob_payload r) = Some creation).
  { vm_compute in Er. injection Er as <-. vm_compute. by split_and!. }
  destruct Hrow as (Hs & Ht & Hp). exists r. split; [done|]. split; [done|].
  exact (proj1 (proj2 (Hc Hs)) creation Ht Hp).
Defined.

Lemma use_cases_are_stored_witness :
  stored_for (fun st => st) st1 ex_email (fun e => issued e = Some (ex_id, 1234567)) /\
  task_kept (fun st => st) st1 (send_task ex_email ex_id 1234567).
Proof.
  apply (proj2 (proj2 (proj1 (use_cases_are_stored (fun st => st) unused service_start ex_email ltac:(constructor) ex_email_valid)
    generated (reserve_email generated ex_email service_start).1 st1 unused_start
    (surjective_pairing _)))). by vm_compute.
Defined.

(** A reservation over HTTP, through the assembled program. *)
Definition reservation_body : option Value := Some (JObject [(§"email", JString (§" Alice@Example.COM "))]).

Lemma assembled_service_keeps_the_rules_witness :
  exists parts resp st, build table_pool table_reader ex_draws console clock fresh_task = Some parts /\
    router parts generated 0 POST [§"email-reservations"] reservation_body service_start = (Some resp, st) /\
    status resp = ACCEPTED /\ rtc service_step service_start st /\ request_stored (fun st => st) generated st.
Proof.
  destruct (assembled_service_keeps_the_rules (fun st => st) table_pool table_reader ex_draws console clock
    fresh_task unused eq ex_draws_ok) as (parts & Hb & Hr & _).
  assert (Hp : (fun parts => status <$> (router parts generated 0 POST [§"email-reservations"] reservation_body
      service_start).1) <$> Some parts = Some (Some ACCEPTED)) by (rewrite <- Hb; by vm_compute).
  exists parts. destruct (router parts generated 0 POST [§"email-reservations"] reservation_body service_start)
    as [resp st] eqn:E. cbn [fmap option_fmap option_map] in Hp. rewrite E in Hp.
  destruct (Hr generated 0 POST [§"email-reservations"] reservation_body service_start resp st) as (Hn & Hst & Hok);
    [constructor|apply unused_start|exact E|].
  destruct resp as [resp|]; [|by destruct Hn]. injection Hp as Hs. exists resp, st.
  split_and!; try done. apply Hok. unfold succeeded. by rewrite Hs.
Defined.

Lemma worker_keeps_the_rules_witness :
  exists task run, (claim_tasks create_format st4).1 = [task] /\
    run = run_task_worker 3 app_dispatcher (default_executor executor) (Duration.from_secs 30)
      [Received (fun st => st) task false in_time; StopSeen (fun st => st)] (claim_tasks create_format st4).2 /\
    (exists rest, [task] = (fst <$> wr_executed run) ++ wr_left run ++ in_hand run ++ rest) /\
    wr_left run = [] /\ rtc service_step (claim_tasks create_format st4).2 (wr_world run).
Proof.
  assert (Hlen : length (claim_tasks create_format st4).1 = 1%nat) by (by vm_compute).
  destruct (claim_tasks_steps create_format st4 reachable4) as [Hr%(reachable_steps _ _ reachable4) Hret].
  destruct (claim_tasks create_format st4) as [tasks st]. cbn [fst snd] in *.
  destruct tasks as [|task [|? ?]]; try discriminate Hlen. destruct (Hret task) as (Hl & t & Hd); [by left|].
  exists task. eexists. split; [reflexivity|]. split; [reflexivity|].
  destruct (worker_keeps_the_rules (fun st => st) console clock fresh_task unused 3 app_dispatcher executor
    (Duration.from_secs 30) app_dispatcher_built ltac:(done) ltac:(done)
    [Received (fun st => st) task false in_time; StopSeen (fun st => st)] st Hr)
    as (Hst & _ & _ & (rest & Ht & _) & _).
  - cbn [turns_ok]. split; [done|]. split; [|done]. exists t. split; try done. by rewrite Hl.
  - split_and!; [by exists rest| |exact Hst].
    cbn [run_task_worker te_execute_and_settle default_executor].
    by destruct (execute_and_settle _ _ _ _ _ _) as [[r|] st'].
Defined.

(** A worker that has received the creation task which a poll claimed. *)
Abbreviation running := (runtime_reachable (fun st => st) console clock fresh_task 1 [create_format]
  (Duration.from_secs 60)).

Definition one_worker : TaskRuntimeConfig := {|
  rc_storage := {| sc_storage_timeout := Duration.from_secs 1 |};
  rc_worker := {| concurrency := 1; queue_capacity := 1; poll_interval := Duration.from_secs 1;
                  handler_timeout := Duration.from_secs 30; lease_duration := Duration.from_secs 60 |} |}.

Lemma event_reachable rt ev s' :
  running rt ->
  match ev with ClaimReturned _ => False | ExitTaken _ _ d => d = Ok app_dispatcher | _ => True end ->
  run_step 1 [create_format] (rt_supervisor rt) ev = SNext s' -> running (mk_runtime s' (rt_service rt)).
Proof.
  intros Hr He Hs. eapply rr_step; [done|]. eapply (rt_event _ _ _ _ _ _ _ _ ev); [|done].
  destruct ev; try done.
Qed.

Lemma claim_reachable rt st0 task poller' st s' :
  running rt -> service_reachable st0 ->
  poller_claim (poller_new [create_format] (Duration.from_secs 1)) 0 (§"worker") 1 (Duration.from_secs 60)
    (fun _ => Answered) st0 = Some (Ok [task], poller', st) ->
  st = rt_service rt ->
  run_step 1 [create_format] (rt_supervisor rt) (ClaimReturned [task]) = SNext s' ->
  running (mk_runtime s' (rt_service rt)).
Proof. intros Hr H0 Hp -> Hs. eapply rr_step; [done|]. by eapply rt_claimed. Qed.

Lemma received_runtime st0 task st poller' d :
  service_reachable st0 -> application_dispatcher console clock fresh_task = Ok d ->
  poller_claim (poller_new [create_format] (Duration.from_secs 1)) 0 (§"worker") 1 (Duration.from_secs 60)
    (fun _ => Answered) st0 = Some (Ok [task], poller', st) ->
  exists rt wt, running rt /\ wp_workers (s_pool (rt_supervisor rt)) !! 7%N = Some wt /\
    wt_state wt = Executing task /\ rt_service rt = st.
Proof.
  intros Hr0 Hd Hp.
  assert (Hs : rtc service_step st0 st).
  { by apply (poller_claim_genuine (fun st => st)) in Hp as [? _]. }
  assert (Hst : running (mk_runtime (sup_start [7%N] [d]) st)).
  { eapply (rr_started _ _ _ _ _ _ _ one_worker _ (§"worker") [7%N]);
      [done|unfold prepare, startup_dispatchers; rewrite Hd; reflexivity|reflexivity|by eapply reachable_steps]. }
  pose proof (event_reachable _ TickFired _ Hst I eq_refl) as Hst'. clear Hst. rename Hst' into Hst.
  pose proof (event_reachable _ RecoveryReturned _ Hst I eq_refl) as Hst'. clear Hst. rename Hst' into Hst.
  pose proof (event_reachable _ LimitComputed _ Hst I eq_refl) as Hst'. clear Hst. rename Hst' into Hst.
  pose proof (claim_reachable _ _ _ _ _ _ Hst Hr0 Hp eq_refl eq_refl) as Hst'. clear Hst. rename Hst' into Hst.
  pose proof (event_reachable _ (WorkerPool.Received 7%N) _ Hst I eq_refl) as Hst'. clear Hst. rename Hst' into Hst.
  by eexists _, _.
Qed.

Lemma runtime_executes_stored_tasks_witness :
  exists task rt wt t r st', running rt /\ wp_workers (s_pool (rt_supervisor rt)) !! 7%N = Some wt /\
    wt_state wt = Executing task /\ delivery_of (rt_service rt) (lt_attempt task) t /\
    execute_and_settle executor in_time (wt_dispatcher wt) task (Duration.from_secs 30) (rt_service rt)
    = (r, st') /\ rtc service_step (rt_service rt) st'.
Proof.
  assert (Hone : match poller_claim (poller_new [create_format] (Duration.from_secs 1)) 0 (§"worker") 1
      (Duration.from_secs 60) (fun _ => Answered) st4 with Some (Ok [_], _, _) => true | _ => false end = true)
    by (by vm_compute).
  destruct (poller_claim _ _ _ _ _ _ _) as [[[[[|task [|? ?]]|e] poller'] st]|] eqn:Hp; try discriminate Hone.
  destruct (received_runtime st4 task st poller' app_dispatcher reachable4 app_dispatcher_built Hp)
    as (rt & wt & Hr & Hw & He & Hst).
  destruct (runtime_executes_stored_tasks (fun st => st) console clock fresh_task unused 1 [create_format]
    (Duration.from_secs 60) ltac:(done) executor (Duration.from_secs 30) rt 7%N wt task Hr Hw He
    ltac:(done) ltac:(done)) as (_ & _ & _ & t & Ht & Hex).
  clear Hone Hp Hst.
  destruct (Hex in_time (rt_service rt) eq_refl) as (r & st' & E & Ha & _);
    [intros cut Hcut; discriminate Hcut|done..|].
  exists task, rt, wt, t, r, st'. split_and!; assumption.
Defined.
