(* ===== verification/RunningProgress.v ===== *)
(** * The running service finishes its work

    The registration of [RunningService], as a case of [Progress]: its polls keep
    what is asked of polls, and its stored tasks are those the theorems are about. *)

From S2P Require Import Prelude DomainValues EmailReservation UserAccount FloatTime Binary64 TaskData.
From S2P Require Import Database EventRepository CommandRetry TaskQueue TaskHandling TaskExecutor RuntimeConfig.
From S2P Require Import Application System Presentation EventCodec EventStore Tables Processing Wiring Progress.
From S2P Require Import ReferenceStore RunningService.
#[local] Open Scope Z_scope.

(** ** New task IDs *)

Lemma next_id_above o i r : o !! i = Some r -> (i < next_id o)%N.
Proof.
  unfold next_id. revert i r.
  apply (map_fold_weak_ind (fun m o => forall i r, o !! i = Some r -> (i < m)%N)).
  - intros i r. by rewrite lookup_empty.
  - intros j x o' m _ IH i r [[<- _]|[_ Hi]]%lookup_insert_Some; [lia|]. specialize (IH i r Hi). lia.
Qed.

Lemma fresh_task_new st : outbox (sv_db st) !! fresh_task st = None.
Proof. apply eq_None_not_Some. intros [r Hr%next_id_above]. unfold fresh_task in Hr. lia. Qed.

(** ** Calm polls *)

#[export] Instance running_calm : CalmLaws (fun st => st) table_pool table_reader console (fun _ => True).
Proof. apply table_calm. intros line st. by eexists _, _. Qed.

Lemma running_timely task :
  lease_deadline (lt_lease task) = Duration.from_secs 60 ->
  timely executor in_time task (Duration.from_secs 30).
Proof. intros Hl. split; rewrite ?Hl; by vm_compute. Qed.

Lemma running_polls :
  polling (fun st => st) table_pool fresh_task (fun _ => True) 5 (Duration.from_secs 60)
    (Duration.from_secs 30) executor in_time.
Proof.
  split; try (intros; by vm_compute).
  - intros st task _ Hl. by apply running_timely.
  - intros st _. apply fresh_task_new.
Qed.

(** ** Positions *)

Definition next_position_b (d : db) (ty key : rstr) (n : nat) : bool :=
  match events d !! (ty, key, Z.of_nat n + 1) with
  | Some _ => false
  | None => forallb (fun m => bool_decide (is_Some (events d !! (ty, key, Z.of_nat m)))) (seq 1 n)
  end.

Lemma next_position_check d ty key n :
  next_position_b d ty key n = true -> next_position d ty key (Z.of_nat n + 1).
Proof.
  unfold next_position_b. destruct (events d !! _) eqn:E; [done|]. intros Hall. split_and!; [lia|done|].
  intros m Hm. rewrite forallb_forall in Hall. specialize (Hall (Z.to_nat m)).
  rewrite Z2Nat.id in Hall by lia. eapply bool_decide_eq_true_1, Hall, in_seq. lia.
Qed.

(** ** Witnesses *)

Abbreviation registration_finishes := (finishes app_dispatcher queue (§"worker") 5
  (Duration.from_secs 60) (Duration.from_secs 30) executor in_time).

(** What a stored record task was built from. *)
Lemma record_payload em id p at_ t a :
  email_valid em -> record_task em id p at_ t -> delivers a t ->
  from_value (at_payload a)
  = Some {| rt_email := em; rt_account_id := id; rt_profile := p; rt_created_at := at_ |}.
Proof.
  intros He [tid (_ & _ & Hv & _)%new_task_fields] [_ ->].
  by apply (payload_roundtrip (P := RecordAccountCreatedTaskV1)) in Hv.
Qed.

(** A delivery of a record task whose completion is the event after [n]. *)
Lemma recordable_at st t a rt n :
  delivers a t -> from_value (at_payload a) = Some rt ->
  next_position_b (sv_db st) (agg_type EmailReservation) (email_to_string (rt_email rt)) n = true ->
  (Z.of_nat n + 1 <=? i64_MAX) && negb ((Z.of_nat n + 1) mod 25 =? 0) = true ->
  recordable (sv_db st) t.
Proof.
  intros Ha Hrt Hb Hn em id p at_ m He Ht Hm. rewrite (record_payload em id p at_ t a He Ht Ha) in Hrt.
  injection Hrt as <-. apply next_position_check in Hb. simpl in Hb.
  rewrite (next_position_unique _ _ _ _ _ Hm Hb). zify_bool. lia.
Qed.

Definition executable_b (st : service_state) (task : LeasedTask) : bool :=
  match outbox (sv_db st) !! at_id (lt_attempt task), from_value (at_payload (lt_attempt task)) with
  | Some row, Some rt =>
    bool_decide (held 20 (lock_token (lt_lease task)) row) &&
    next_position_b (sv_db st) (agg_type EmailReservation) (email_to_string (rt_email rt)) 3
  | _, _ => false
  end.

Lemma executable_leased st task t :
  executable_b st task = true -> delivers (lt_attempt task) t ->
  (exists row, leased (fun st => st) table_pool (fun _ => True) st task row) /\ recordable (sv_db st) t.
Proof.
  unfold executable_b. intros Hb Ha. destruct (outbox _ !! _) as [row|] eqn:Er; [|done].
  destruct (from_value _) as [rt|] eqn:Ef; [|done]. apply andb_true_iff in Hb as [Hh%bool_decide_eq_true_1 Hp].
  split; [by exists row|]. by eapply recordable_at.
Qed.

Lemma claimed_tasks_complete_witness :
  exists task t st, (claim_tasks record_format st5).1 = [task] /\
    execute_task task (claim_tasks record_format st5).2 = (Some (Ok SettledCompleted), st) /\ effect st t /\
    exists row, outbox (sv_db st) !! nt_id t = Some row /\ ob_status row = st_completed.
Proof.
  assert (Hone : match claim_tasks record_format st5 with ([task], st) => executable_b st task | _ => false end = true)
    by (by vm_compute).
  destruct (claim_tasks_steps record_format st5 reachable5) as [Hr%(reachable_steps _ _ reachable5) Hret].
  destruct (claim_tasks record_format st5) as [tasks st]. cbn [fst snd] in *.
  destruct tasks as [|task [|? ?]]; try discriminate Hone. destruct (Hret task) as (Hl & t & Hd); [by left|].
  destruct (executable_leased st task t Hone (proj2 (proj2 Hd))) as [[row Hrow] Hroom].
  destruct (claimed_tasks_complete (fun st => st) table_pool table_reader ex_draws console clock fresh_task
    unused eq ex_draws_ok (fun _ => True) ex_config ex_config_default app_dispatcher queue app_dispatcher_built
    eq_refl executor in_time task t (Duration.from_secs 30) st row Hr I Hd Hrow (running_timely task Hl)
    (fresh_task_new st) Hroom) as (st' & Hx & _ & _ & He & Hc).
  exists task, t, st'. split_and!; [done|exact Hx|exact He|exact Hc].
Defined.

Lemma same_moment st : later (fun st => st) (fun _ => True) ex_email ex_id st st.
Proof. by split_and!. Qed.

(** Everything in the outbox is due, and there is room for it. *)
Definition all_due_b (st : service_state) (format : TaskFormat) : bool :=
  bool_decide (map_Forall (fun _ row => ob_available_at row <= 10) (outbox (sv_db st))) &&
  (Z.of_nat (length (select_rows (outbox (sv_db st)) (ready (claim_at 10) format) ob_available_at)) <=? 5).

Lemma all_due_polled st t :
  all_due_b st (nt_format t) = true -> queued (fun st => st) st t -> polled (fun st => st) table_pool 5 st t.
Proof.
  intros [Hd%bool_decide_eq_true_1 Hl%Z.leb_le]%andb_true_iff (Hn & row & Hr & Hc & Hs).
  split; [|exact Hl]. split; [exact Hn|]. exists row. split_and!; [exact Hr|exact Hc|exact Hs|exact (Hd _ _ Hr)].
Qed.

(** A client that confirms and submits at once. *)
Definition confirmed : service_state := (confirm_email generated ex_email ex_id 1234567 st1).2.
Definition submitted : service_state := (submit_profile (clock confirmed) 51%N submission confirmed).2.

Lemma submitted_due : all_due_b submitted create_format = true.
Proof. by vm_compute. Qed.

Lemma registrations_succeed_witness :
  exists t st created, create_task ex_email ex_id (ct_profile creation) t /\ registration_finishes t submitted st /\
    event_in (St := UserAccount) (sv_db st) (account_id_to_string ex_id)
      (account_event ex_email ex_id (ct_profile creation) created).
Proof.
  destruct (registrations_succeed (fun st => st) table_pool table_reader ex_draws console clock fresh_task
    unused eq ex_draws_ok (fun _ => True) ex_config ex_config_default app_dispatcher queue app_dispatcher_built
    eq_refl (§"worker") 5 (Duration.from_secs 60) (Duration.from_secs 30) executor in_time running_polls
    ex_email generated service_start) as (w1 & t1 & Hw1 & _ & _ & _ & H1).
  - constructor.
  - exact I.
  - apply ex_email_valid.
  - exists []. split_and!; [apply stream_holds_empty|done|done].
  - apply unused_start.
  - done.
  - done.
  - apply (f_equal snd) in Hw1. change (st1 = w1) in Hw1. subst w1.
    destruct (H1 st1 (same_moment st1) generated) as (w2 & Hw2 & _ & H2).
    apply (f_equal snd) in Hw2. change (confirmed = w2) in Hw2. subst w2.
    destruct (H2 confirmed (same_moment confirmed) (clock confirmed) 51%N (§" Alice ") (§"Smith") 7436)
      as (w3 & t3 & Hw3 & Ht3 & Hq3 & _ & H3).
    + by vm_compute.
    + by vm_compute.
    + apply (f_equal snd) in Hw3. change (submitted = w3) in Hw3. subst w3.
      change (profile_new (§" Alice ") (§"Smith") 7436 (date_naive (clock confirmed))) with (ct_profile creation) in *.
      destruct (H3 submitted (same_moment submitted)) as (st & t4 & created & Hf & He & _).
      { apply all_due_polled; [|exact Hq3]. destruct Ht3 as [tid Ht%task_format]. injection Ht as <-. exact submitted_due. }
      exists t3, st, created. split; [exact Ht3|]. split; [exact Hf|exact He].
Defined.
