(* ===== verification/DomainTests.v ===== *)
(** * The domain's own tests

    The unit tests of [account-managements-service/src/domain], evaluated on the
    model: each is a definition with the assertions of the test of the same
    name, and all of them come out true.  [TestFramework] of [cqrs_es] replays
    the given events, lets the aggregate handle the command and compares. *)

From S2P Require Import Prelude DomainValues EmailReservation UserAccount TaskData Application EventCodec.
#[local] Open Scope Z_scope.

(** ** [cqrs_es::test::TestFramework] *)

Section Framework.
Context {S C E D : Type} `{Aggregate S C E D} `{EqDecision E, EqDecision D}.

Definition when_given (given : list E) (c : C) : option (result D (list E)) :=
  s ← apply_all agg_default given; agg_handle s c.
Definition then_expect_events (given : list E) (c : C) (expected : list E) : bool :=
  bool_decide (when_given given c = Some (Ok expected)).
Definition then_expect_error (given : list E) (c : C) (expected : D) : bool :=
  bool_decide (when_given given c = Some (Err expected)).

(** The state a snapshot or event reads back as. *)
Definition survives {A} `{EqDecision A} (encode : A -> Value) (decode : Value -> option A) (a : A) : bool :=
  bool_decide (decode (encode a) = Some a).
End Framework.

(** Days since 1970-01-01 of a date of the Gregorian calendar. *)
Definition date (year month day : Z) : NaiveDate :=
  let y := if month <=? 2 then year - 1 else year in
  let era := y / 400 in
  let yoe := y - era * 400 in
  let doy := (153 * (if 2 <? month then month - 3 else month + 9) + 2) / 5 + day - 1 in
  era * 146097 + yoe * 365 + yoe / 4 - yoe / 100 + doy - 719468.
(** Noon of a day in September 2026. *)
Definition timestamp (day : Z) : DateTime := date 2026 9 day * NANOS_PER_DAY + 12 * 3600 * NANOS_PER_SEC.

Example epoch : date 1970 1 1 = 0 /\ date 2000 3 1 = 11017.
Proof. done. Qed.

(** ** E-mail reservations *)

Module ReservationTests.
Definition email : Email := mk_Email (§"alice@example.com").
Definition id (value : N) : UserAccountId := from_uuid value.
Definition reserved := EmailReserved email (id 1) 1234567.
Definition verified := EmailVerified email (id 1) (§"digest").
Definition profile : RegistrationProfile := profile_new (§" Alice ") (§" Smith ") (date 1990 5 12) (date 2026 9 14).
Definition created_at : DateTime := timestamp 14.
Definition accepted := RegistrationProfileAccepted email (id 1) (§"digest") profile.
Definition completed := AccountCreationCompleted email (id 1) created_at.

Abbreviation expect_events := (then_expect_events (S := EmailReservation)).
Abbreviation expect_error := (then_expect_error (S := EmailReservation)).

Definition reserve_requires_absent_email_and_valid_code : bool :=
  expect_events [] (ReserveEmail email (id 1) 1234567) [reserved] &&
  expect_error [reserved] (ReserveEmail email (id 2) 7654321) AlreadyReserved &&
  expect_error [] (ReserveEmail email (id 1) 12) InvalidVerificationCodeFormat.

Definition reissue_changes_id_even_when_numeric_code_repeats : bool :=
  expect_events [reserved] (RequestVerificationCode email (id 2) 1234567)
    [VerificationCodeRequested email (id 2) 1234567] &&
  expect_events [reserved; verified] (RequestVerificationCode email (id 2) 7654321)
    [VerificationRestarted email (id 2) 7654321] &&
  forallb (fun '(events, next_id, code, error) =>
      expect_error events (RequestVerificationCode email next_id code) error)
    [([], id 2, 7654321, NotReserved); ([reserved], id 1, 7654321, AccountIdUnchanged);
     ([reserved], id 2, 12, InvalidVerificationCodeFormat)].

Definition verification_uses_current_pair_and_issues_one_digest : bool :=
  expect_events [reserved] (VerifyEmail email (id 1) 1234567 (§"digest")) [verified] &&
  forallb (fun '(events, account_id, code, error) =>
      expect_error events (VerifyEmail email account_id code (§"other")) error)
    [([], id 1, 1234567, NotReserved); ([reserved], id 2, 1234567, NotCurrentAccountId);
     ([reserved], id 1, 7654321, InvalidVerificationCode);
     ([reserved; verified], id 1, 1234567, AlreadyVerified);
     ([reserved; verified], id 2, 1234567, NotCurrentAccountId)].

(** [assert_eq!] on the aggregate after each [apply]; a panic fails the test. *)
Definition applied (s : option EmailReservation) (e : EmailReservationEvent) : option EmailReservation :=
  s ← s; EmailReservation.apply s e.
Definition replay_and_snapshot_keep_only_active_proof : bool :=
  let s0 := EmailReservation.default in
  let s1 := applied (Some s0) reserved in
  let s2 := applied s1 verified in
  let s3 := applied s2 (VerificationRestarted email (id 2) 7654321) in
  bool_decide (phase s0 = Absent) && negb (is_reserved s0) &&
  bool_decide (EmailReservation.account_id s0 = None) &&
  bool_decide (EmailReservation.account_id <$> s1 = Some (Some (id 1))) &&
  bool_decide (phase <$> s2 = Some (AwaitingProfile (id 1) (§"digest"))) &&
  bool_decide (phase <$> s3 = Some (AwaitingCode (id 2) 7654321)) &&
  match s3 with Some s => survives reservation_to_json reservation_of_json s | None => false end.

Definition submit (account_id : UserAccountId) (token_digest : rstr) (p : RegistrationProfile) :=
  SubmitRegistrationProfile email account_id token_digest p.
Definition with_names (first last : rstr) (p : RegistrationProfile) : RegistrationProfile :=
  {| first_name := first; last_name := last; date_of_birth := date_of_birth p;
     validation_date := validation_date p |}.
Definition with_dates (birth validation : NaiveDate) (p : RegistrationProfile) : RegistrationProfile :=
  {| first_name := first_name p; last_name := last_name p; date_of_birth := birth;
     validation_date := validation |}.

Definition profile_submission_requires_current_token_and_valid_profile : bool :=
  expect_events [reserved; verified] (submit (id 1) (§"digest") (with_names (§" Alice ") (§" Smith ") profile))
    [accepted] &&
  forallb (fun '(events, id_value, token, error) => expect_error events (submit id_value token profile) error)
    [([], id 1, §"digest", NotReserved); ([reserved], id 1, §"digest", NotAwaitingProfile);
     ([reserved; verified], id 2, §"digest", NotCurrentAccountId);
     ([reserved; verified], id 1, §"wrong", InvalidAccountCreationToken)] &&
  forallb (fun '(invalid, error) => expect_error [reserved; verified] (submit (id 1) (§"digest") invalid) error)
    [(with_names (§"  ") (last_name profile) profile, EmailReservation.EmptyFirstName);
     (with_names (first_name profile) (§"  ") profile, EmailReservation.EmptyLastName);
     (with_dates (date 2026 9 15) (validation_date profile) profile, EmailReservation.FutureDateOfBirth)].

Definition a_consumed_token_cannot_submit_another_profile : bool :=
  forallb (fun history =>
    expect_error history (submit (id 1) (§"digest") (with_dates (date_of_birth profile) (date 1980 1 1) profile))
      ProfileAlreadySubmitted &&
    expect_error history (submit (id 1) (§"digest") (with_names (first_name profile) (§"Jones") profile))
      ProfileAlreadySubmitted &&
    expect_error history (submit (id 1) (§"wrong") profile) InvalidAccountCreationToken &&
    expect_error history (submit (id 2) (§"digest") profile) NotCurrentAccountId)
  [[reserved; verified; accepted]; [reserved; verified; accepted; completed]].

Definition record (account_id : UserAccountId) (p : RegistrationProfile) (at_ : DateTime) :=
  RecordAccountCreated email account_id p at_.
Definition completion_requires_matching_account_fact_and_is_idempotent : bool :=
  let changed := with_names (§"Bob") (last_name profile) profile in
  expect_events [reserved; verified; accepted] (record (id 1) profile created_at) [completed] &&
  expect_error [reserved; verified; accepted; completed] (record (id 1) profile created_at)
    AccountCreationAlreadyCompleted &&
  forallb (fun '(history, account_id, p, at_, error) => expect_error history (record account_id p at_) error)
    [([], id 1, profile, created_at, NotReserved);
     ([reserved], id 1, profile, created_at, NotAwaitingProfile);
     ([reserved; verified], id 1, profile, created_at, NotAwaitingProfile);
     ([reserved; verified; accepted], id 2, profile, created_at, AccountCreationMismatch);
     ([reserved; verified; accepted], id 1, changed, created_at, AccountCreationMismatch);
     ([reserved; verified; accepted; completed], id 1, profile, created_at + Duration.from_secs 1,
      AccountCreationMismatch)].

Definition creation_phases_block_code_reissue_and_keep_accepted_profile_on_replay : bool :=
  forallb (fun history =>
    expect_error history (RequestVerificationCode email (id 2) 7654321) AccountCreationStarted &&
    expect_error history (ReserveEmail email (id 2) 7654321) AlreadyReserved &&
    match EmailReservation.replay history with
    | Some s => bool_decide (EmailReservation.account_id s = Some (id 1)) && is_reserved s &&
                survives reservation_to_json reservation_of_json s
    | None => false
    end)
  [[reserved; verified; accepted]; [reserved; verified; accepted; completed]].

Definition metadata_matches_new_event_shapes : bool :=
  let account_id := id 99 in
  let plain := profile_new (§"Alice") (§"Smith") (date 1990 5 12) (date 2026 9 14) in
  forallb (fun '(event, kind, version) =>
    bool_decide (EmailReservation.event_type event = kind) &&
    bool_decide (EmailReservation.event_version event = version) &&
    survives reservation_event_to_json reservation_event_of_json event)
  [(EmailReserved email account_id 1234567, §"email_reserved", §"1");
   (VerificationCodeRequested email account_id 1234567, §"verification_code_requested", §"1");
   (VerificationRestarted email account_id 1234567, §"verification_restarted", §"1");
   (EmailVerified email account_id (§"digest"), §"email_verified", §"1");
   (RegistrationProfileAccepted email account_id (§"digest") plain, §"registration_profile_accepted", §"1");
   (AccountCreationCompleted email account_id (timestamp 14), §"account_creation_completed", §"1")].
End ReservationTests.

(** ** User accounts *)

Module AccountTests.
Definition id_of (value : N) : UserAccountId := from_uuid value.
Definition email_of (value : rstr) : Email := match email_parse value with Ok e => e | Err _ => mk_Email [] end.
Definition command := CreateAccount (id_of 1) (email_of (§"Alice@Example.com")) (§" Alice ") (§" Smith ")
  (date 1990 5 12) (date 2026 9 14) (timestamp 14).
Definition created_event : UserAccountEvent := account_event_of {|
  ca_account_id := id_of 1; ca_email := email_of (§"alice@example.com"); ca_first_name := §"Alice";
  ca_last_name := §"Smith"; ca_date_of_birth := date 1990 5 12; ca_validation_date := date 2026 9 14;
  ca_created_at := timestamp 14 |}.

Abbreviation expect_events := (then_expect_events (S := UserAccount)).
Abbreviation expect_error := (then_expect_error (S := UserAccount)).

Definition first_creation_records_normalized_profile_and_fixed_time : bool :=
  bool_decide (created UserAccount.default = None) &&
  expect_events [] command [created_event] &&
  bool_decide (UserAccount.event_type created_event = §"account_created") &&
  bool_decide (UserAccount.event_version created_event = §"1") &&
  survives account_event_to_json account_event_of_json created_event.

Definition first_creation_rejects_invalid_profile_without_event : bool :=
  let create first last birth := CreateAccount (id_of 1) (email_of (§"Alice@Example.com")) first last birth
    (date 2026 9 14) (timestamp 14) in
  expect_error [] (create (32 :: 9 :: §" ")%N (§" Smith ") (date 1990 5 12)) UserAccount.EmptyFirstName &&
  expect_error [] (create (§" Alice ") (§"  ") (date 1990 5 12)) UserAccount.EmptyLastName &&
  expect_error [] (create (§" Alice ") (§" Smith ") (date 2026 9 15))
    (UserAccount.FutureDateOfBirth (date 2026 9 15) (date 2026 9 14)) &&
  expect_events [] (create (§" Alice ") (§" Smith ") (date 2026 9 14))
    [account_event_of {|
       ca_account_id := id_of 1; ca_email := email_of (§"alice@example.com"); ca_first_name := §"Alice";
       ca_last_name := §"Smith"; ca_date_of_birth := date 2026 9 14; ca_validation_date := date 2026 9 14;
       ca_created_at := timestamp 14 |}].

Definition exact_retry_ignores_new_created_at_and_conflicting_intent_fails : bool :=
  let create account_id address first last birth validation created := CreateAccount account_id address first last
    birth validation created in
  expect_error [created_event] (create (id_of 1) (email_of (§"Alice@Example.com")) (§" Alice ") (§" Smith ")
    (date 1990 5 12) (date 2026 9 14) (timestamp 15)) AlreadyCreated &&
  forallb (fun change => expect_error [created_event] change AlreadyExistsWithDifferentData)
    [create (id_of 2) (email_of (§"Alice@Example.com")) (§" Alice ") (§" Smith ") (date 1990 5 12) (date 2026 9 14) (timestamp 14);
     create (id_of 1) (email_of (§"bob@example.com")) (§" Alice ") (§" Smith ") (date 1990 5 12) (date 2026 9 14) (timestamp 14);
     create (id_of 1) (email_of (§"Alice@Example.com")) (§"Alicia") (§" Smith ") (date 1990 5 12) (date 2026 9 14) (timestamp 14);
     create (id_of 1) (email_of (§"Alice@Example.com")) (§" Alice ") (§"Jones") (date 1990 5 12) (date 2026 9 14) (timestamp 14);
     create (id_of 1) (email_of (§"Alice@Example.com")) (§" Alice ") (§" Smith ") (date 1991 5 12) (date 2026 9 14) (timestamp 14);
     create (id_of 1) (email_of (§"Alice@Example.com")) (§" Alice ") (§" Smith ") (date 1990 5 12) (date 2026 9 15) (timestamp 14)].

Definition replay_and_snapshot_preserve_original_creation : bool :=
  let account := UserAccount.apply UserAccount.default created_event in
  match created account with
  | Some c =>
    bool_decide (ca_account_id c = id_of 1) && bool_decide (email_as_str (ca_email c) = §"alice@example.com") &&
    bool_decide (ca_first_name c = §"Alice") && bool_decide (ca_last_name c = §"Smith") &&
    bool_decide (ca_date_of_birth c = date 1990 5 12) && bool_decide (ca_validation_date c = date 2026 9 14) &&
    bool_decide (ca_created_at c = timestamp 14)
  | None => false
  end && survives account_to_json account_of_json account.
End AccountTests.

(** The domain behaves as its tests expect. *)
Theorem domain_tests_pass :
  forallb (fun passed => passed)
    [ReservationTests.reserve_requires_absent_email_and_valid_code;
     ReservationTests.reissue_changes_id_even_when_numeric_code_repeats;
     ReservationTests.verification_uses_current_pair_and_issues_one_digest;
     ReservationTests.replay_and_snapshot_keep_only_active_proof;
     ReservationTests.profile_submission_requires_current_token_and_valid_profile;
     ReservationTests.a_consumed_token_cannot_submit_another_profile;
     ReservationTests.completion_requires_matching_account_fact_and_is_idempotent;
     ReservationTests.creation_phases_block_code_reissue_and_keep_accepted_profile_on_replay;
     ReservationTests.metadata_matches_new_event_shapes;
     AccountTests.first_creation_records_normalized_profile_and_fixed_time;
     AccountTests.first_creation_rejects_invalid_profile_without_event;
     AccountTests.exact_retry_ignores_new_created_at_and_conflicting_intent_fails;
     AccountTests.replay_and_snapshot_preserve_original_creation] = true.
Proof. vm_compute. reflexivity. Qed.
