(* ===== verification/RuntimeTests.v ===== *)
(** * The runtime's own tests

    Unit tests of [cqrs-runtime/src], evaluated on the model: each is a
    definition with the assertions of the test of the same name, and all of
    them come out true.  Floating-point numbers are those of [Binary64]; a
    process environment is a lookup function, and a test that draws random
    delays many times draws the ends and the middle of the range. *)

From S2P Require Import Prelude DomainValues FloatTime Binary64 TaskData Database EventRepository.
From S2P Require Import CommandRetry TaskQueue TaskHandling TaskExecutor RuntimeConfig Supervisor.
From S2P Require Import HostLifecycle Diagnostics.
From stdpp Require Import pretty.
#[local] Open Scope Z_scope.
#[local] Existing Instance binary64.

(** ** Assertions *)

Definition is_ok {E A} (r : result E A) : bool := match r with Ok _ => true | Err _ => false end.
Definition is_err {E A} (r : result E A) : bool := negb (is_ok r).
(** [r.unwrap()] followed by assertions; an error fails the test. *)
Definition unwrapped {E A} (r : result E A) (assertions : A -> bool) : bool :=
  match r with Ok a => assertions a | Err _ => false end.
Definition fails_with {E A} `{EqDecision E} (r : result E A) (e : E) : bool :=
  match r with Ok _ => false | Err e' => bool_decide (e' = e) end.

#[local] Instance TaskStorageConfigError_eq_dec : EqDecision TaskStorageConfigError.
Proof. solve_decision. Defined.
#[local] Instance PostgresTaskQueueConfigError_eq_dec : EqDecision PostgresTaskQueueConfigError.
Proof. solve_decision. Defined.
#[local] Instance TaskWorkerPoolConfigError_eq_dec : EqDecision TaskWorkerPoolConfigError.
Proof. solve_decision. Defined.
#[local] Instance TaskRuntimeConfigError_eq_dec : EqDecision TaskRuntimeConfigError.
Proof. solve_decision. Defined.
#[local] Instance Q_eq_decision : EqDecision Q.
Proof. solve_decision. Defined.
#[local] Instance AggregateConflictRetryPolicy_eq_dec : EqDecision AggregateConflictRetryPolicy.
Proof. solve_decision. Defined.
#[local] Instance AggregateConflictRetryPolicyError_eq_dec : EqDecision AggregateConflictRetryPolicyError.
Proof. solve_decision. Defined.
#[local] Instance PostgresCommandConfigError_eq_dec : EqDecision PostgresCommandConfigError.
Proof. solve_decision. Defined.
#[local] Instance WriteValidationError_eq_dec : EqDecision WriteValidationError.
Proof. solve_decision. Defined.
#[local] Instance UnknownSource_eq_dec : EqDecision UnknownSource.
Proof. solve_decision. Defined.
#[local] Instance PersistenceError_eq_dec : EqDecision PersistenceError.
Proof. solve_decision. Defined.
#[local] Instance ExecutionPlan_eq_dec : EqDecision ExecutionPlan.
Proof. solve_decision. Defined.

(** A process environment, or the settings of a lookup closure. *)
Definition settings (s : list (rstr * rstr)) : lookup_fn :=
  fun name => snd <$> List.find (fun p => bool_decide (p.1 = name)) s.
Definition no_settings : lookup_fn := fun _ => None.
Definition always (value : rstr) : lookup_fn := fun _ => Some value.

(** ** [env.rs] *)

Definition integer_parsing_preserves_absence_aliases_and_overflow_behavior : bool :=
  unwrapped (read_u64 no_settings (§"KEY") 42) (fun n => n =? 42) &&
  forallb (fun '(value, n) => unwrapped (read_u64 (always value) (§"KEY") 42) (fun m => m =? n))
    [(§"0", 0); (§"+0", 0); (§"18446744073709551615", u64_MAX)] &&
  forallb (fun value => is_err (read_u64 (always value) (§"KEY") 42))
    [[]; §"-1"; §" 1"; §"garbage"; §"18446744073709551616"].

(** ** [task/queue/storage_config.rs] *)

Module StorageConfigTests.
Definition KEY := §"OUTBOX_STORAGE_TIMEOUT_MS".

(** A value that is not Unicode reads as absent. *)
Definition storage_from_env_validates_settings_in_an_isolated_process : bool :=
  forallb (fun lookup => unwrapped (storage_config_from_lookup lookup)
             (fun c => sc_storage_timeout c =? Duration.from_secs 6)) [no_settings; no_settings] &&
  unwrapped (storage_config_from_lookup (settings [(KEY, §"750")]))
    (fun c => sc_storage_timeout c =? Duration.from_millis 750) &&
  fails_with (storage_config_from_lookup (settings [(KEY, §"invalid")])) StorageInvalidEnvironmentValue &&
  fails_with (storage_config_from_lookup (settings [(KEY, §"0")])) InvalidStorageTimeout.

Definition storage_timeout_config_has_defaults_overrides_and_rejects_invalid_budgets : bool :=
  unwrapped (storage_config_from_lookup no_settings)
    (fun c => sc_storage_timeout c =? Duration.from_secs 6) &&
  unwrapped (storage_config_from_lookup (always (§"750")))
    (fun c => sc_storage_timeout c =? Duration.from_millis 750) &&
  forallb (fun value => is_err (storage_config_from_lookup (always value)))
    [§"0"; §"invalid"; §"-1"; §"9223372036854775808"; §"18446744073709551616"] &&
  forallb (fun timeout => is_err (storage_config_new timeout)) [0; DURATION_MAX].
End StorageConfigTests.

(** ** [postgres/task_queue/config.rs] *)

Module QueueConfigTests.
Definition KEY := §"OUTBOX_POSTGRES_STATEMENT_TIMEOUT_MS".

Definition queue_from_env_validates_settings_in_an_isolated_process : bool :=
  unwrapped (queue_config_from_lookup no_settings)
    (fun c => qc_statement_timeout c =? Duration.from_secs 4) &&
  unwrapped (queue_config_from_lookup (settings [(KEY, §"125")]))
    (fun c => qc_statement_timeout c =? Duration.from_millis 125) &&
  fails_with (queue_config_from_lookup (settings [(KEY, §"invalid")])) QueueInvalidEnvironmentValue &&
  forallb (fun value => fails_with (queue_config_from_lookup (settings [(KEY, value)])) InvalidStatementTimeout)
    [§"0"; §"2147483648"].

Definition statement_timeout_config_validates_defaults_overrides_and_server_range : bool :=
  unwrapped (queue_config_from_lookup no_settings)
    (fun c => qc_statement_timeout c =? Duration.from_secs 4) &&
  unwrapped (queue_config_from_lookup (always (§"125")))
    (fun c => qc_statement_timeout c =? Duration.from_millis 125) &&
  is_ok (queue_config_from_lookup (always (§"2147483647"))) &&
  forallb (fun value => is_err (queue_config_from_lookup (always value)))
    [§"0"; §"invalid"; §"-1"; §"2147483648"; §"18446744073709551616"] &&
  forallb (fun timeout => is_err (queue_config_new timeout)) [0; 1; DURATION_MAX].
End QueueConfigTests.

(** ** [runtime/worker_pool_config.rs] *)

Module WorkerConfigTests.
Definition only (key value : rstr) : lookup_fn := settings [(key, value)].

Definition from_env_validates_independent_worker_limits_in_an_isolated_process : bool :=
  unwrapped (worker_config_from_lookup no_settings)
    (fun c => (concurrency c =? 128) && (queue_capacity c =? 128)) &&
  unwrapped (worker_config_from_lookup (only (§"OUTBOX_WORKER_CONCURRENCY") (§"2")))
    (fun c => (concurrency c =? 2) && (queue_capacity c =? 128)) &&
  fails_with (worker_config_from_lookup (only (§"OUTBOX_WORKER_CONCURRENCY") (§"invalid")))
    (WorkerInvalidEnvironmentValue (§"OUTBOX_WORKER_CONCURRENCY")) &&
  fails_with (worker_config_from_lookup (only (§"OUTBOX_WORKER_CONCURRENCY") (§"0"))) InvalidConcurrency.

Definition custom_settings : lookup_fn := settings
  [(§"OUTBOX_WORKER_CONCURRENCY", §"2"); (§"OUTBOX_QUEUE_CAPACITY", §"3");
   (§"OUTBOX_POLL_INTERVAL_MS", §"50"); (§"OUTBOX_HANDLER_TIMEOUT_SECS", §"10");
   (§"OUTBOX_LEASE_SECS", §"120")].

Definition defaults_and_independent_environment_overrides : bool :=
  unwrapped (worker_config_from_lookup no_settings) (fun c =>
    (concurrency c =? 128) && (queue_capacity c =? 128) &&
    (lease_duration c =? Duration.from_secs 60) && (handler_timeout c =? Duration.from_secs 15) &&
    is_ok (validate_for_storage_timeout c (Duration.from_secs 6))) &&
  unwrapped (worker_config_from_lookup custom_settings) (fun c =>
    (concurrency c =? 2) && (queue_capacity c =? 3) && (poll_interval c =? Duration.from_millis 50) &&
    (handler_timeout c =? Duration.from_secs 10)) &&
  unwrapped (worker_config_from_lookup (only (§"OUTBOX_WORKER_CONCURRENCY") (§"1000")))
    (fun c => queue_capacity c =? 128) &&
  unwrapped (worker_config_from_lookup (only (§"OUTBOX_QUEUE_CAPACITY") (§"256")))
    (fun c => concurrency c =? 128).

Definition invalid_environment_and_structural_values_are_typed : bool :=
  forallb (fun '(key, value) => is_err (worker_config_from_lookup (only key value)))
    [(§"OUTBOX_WORKER_CONCURRENCY", §"garbage"); (§"OUTBOX_WORKER_CONCURRENCY", §"0");
     (§"OUTBOX_QUEUE_CAPACITY", §"0"); (§"OUTBOX_QUEUE_CAPACITY", §"18446744073709551615");
     (§"OUTBOX_POLL_INTERVAL_MS", §"0"); (§"OUTBOX_HANDLER_TIMEOUT_SECS", §"0");
     (§"OUTBOX_HANDLER_TIMEOUT_SECS", §"120"); (§"OUTBOX_LEASE_SECS", §"0");
     (§"OUTBOX_LEASE_SECS", §"18446744073709551615");
     (§"OUTBOX_POLL_INTERVAL_MS", §"18446744073709551615")] &&
  let s := Duration.from_secs in
  fails_with (worker_config_new 1 0 (s 1) (s 30) (s 120)) InvalidQueueCapacity &&
  is_err (worker_config_new 1 1 (s 1) (s 30) DURATION_MAX) &&
  is_err (worker_config_new 1 1 DURATION_MAX (s 30) (s 120)).

Definition build (c q handler lease : Z) : result TaskWorkerPoolConfigError TaskWorkerPoolConfig :=
  worker_config_new c q (Duration.from_secs 1) (Duration.from_secs handler) (Duration.from_secs lease).
Definition validated (c : result TaskWorkerPoolConfigError TaskWorkerPoolConfig) (storage : Duration.t)
    (expected : result TaskWorkerPoolConfigError unit) : bool :=
  unwrapped c (fun c => bool_decide (validate_for_storage_timeout c storage = expected)).

(** The one assertion without a kind, [is_err], holds with the kind below. *)
Definition queue_waves_budget_boundaries_and_storage_overflow : bool :=
  let build c q lease := build c q 30 lease in let s := Duration.from_secs in
  forallb (fun '(q, required) =>
      validated (build 128 q required) (s 5) (Err LeaseTooShort) &&
      validated (build 128 q (required + 1)) (s 5) (Ok tt))
    [(128, 80); (256, 115); (257, 150)] &&
  validated (build 2 3 120) (s 5) (Ok tt) &&
  validated (build 1000 1000 120) (s 5) (Ok tt) &&
  validated (build 128 256 120) (s 10) (Err LeaseTooShort) &&
  validated (build 1 1 120) 0 (Err WorkerInvalidStorageTimeout) &&
  validated (build 1 1 120) DURATION_MAX (Err LeaseBudgetOverflow) &&
  validated (build 1 MAX_QUEUE_CAPACITY 120) (s 5) (Err LeaseBudgetOverflow) &&
  validated (build 1 MAX_QUEUE_CAPACITY 120) (Duration.from_millis i64_MAX) (Err LeaseBudgetOverflow) &&
  validated (build 1 1 120) (s (u64_MAX / 2)) (Err LeaseBudgetOverflow).

Definition default_lease_budget_has_the_expected_boundary_and_rejects_an_extra_queue_wave : bool :=
  let build queue lease := build 128 queue 15 lease in let s := Duration.from_secs in
  validated (build 128 53) (s 6) (Err LeaseTooShort) &&
  validated (build 128 54) (s 6) (Ok tt) && validated (build 128 60) (s 6) (Ok tt) &&
  validated (build 256 60) (s 6) (Err LeaseTooShort) && validated (build 256 75) (s 6) (Ok tt).
End WorkerConfigTests.

(** ** [runtime/config.rs] *)

Module RuntimeConfigTests.
Definition lookup (s : list (rstr * rstr)) : result TaskRuntimeConfigError TaskRuntimeConfig :=
  runtime_config_from_lookup (settings s).
Definition overrides : list (rstr * rstr) :=
  [(§"OUTBOX_STORAGE_TIMEOUT_MS", §"500"); (§"OUTBOX_WORKER_CONCURRENCY", §"2");
   (§"OUTBOX_QUEUE_CAPACITY", §"3"); (§"OUTBOX_POLL_INTERVAL_MS", §"25");
   (§"OUTBOX_HANDLER_TIMEOUT_SECS", §"2"); (§"OUTBOX_LEASE_SECS", §"30")].

Definition from_env_checks_the_combined_lease_budget_in_an_isolated_process : bool :=
  let s := Duration.from_secs in let ms := Duration.from_millis in
  unwrapped (lookup []) (fun c => (sc_storage_timeout (rc_storage c) =? s 6) &&
    (lease_duration (rc_worker c) =? s 60)) &&
  unwrapped (lookup overrides) (fun c =>
    (sc_storage_timeout (rc_storage c) =? ms 500) && (concurrency (rc_worker c) =? 2) &&
    (queue_capacity (rc_worker c) =? 3) && (poll_interval (rc_worker c) =? ms 25) &&
    (handler_timeout (rc_worker c) =? s 2) && (lease_duration (rc_worker c) =? s 30)) &&
  fails_with (lookup [(§"OUTBOX_STORAGE_TIMEOUT_MS", §"invalid")])
    (StorageError StorageInvalidEnvironmentValue) &&
  fails_with (lookup [(§"OUTBOX_LEASE_SECS", §"53")]) (WorkerError LeaseTooShort).

(** That each of six names is read once is what the definition of the lookup
    shows; the rest of the test is evaluated. *)
Definition combined_defaults_and_independent_overrides_use_existing_settings_once : bool :=
  let s := Duration.from_secs in
  unwrapped runtime_config_default (fun c =>
    (concurrency (rc_worker c) =? 128) && (queue_capacity (rc_worker c) =? 128) &&
    (poll_interval (rc_worker c) =? s 1) && (handler_timeout (rc_worker c) =? s 15) &&
    (lease_duration (rc_worker c) =? s 60) && (sc_storage_timeout (rc_storage c) =? s 6)) &&
  is_ok (runtime_config_from_lookup no_settings) &&
  unwrapped (lookup [(§"OUTBOX_WORKER_CONCURRENCY", §"256")]) (fun c =>
    (queue_capacity (rc_worker c) =? 128) && (concurrency (rc_worker c) =? 256)) &&
  unwrapped (lookup [(§"OUTBOX_QUEUE_CAPACITY", §"256"); (§"OUTBOX_LEASE_SECS", §"75")]) (fun c =>
    (concurrency (rc_worker c) =? 128) && (queue_capacity (rc_worker c) =? 256)) &&
  unwrapped (lookup [(§"OUTBOX_STORAGE_TIMEOUT_MS", §"5000")])
    (fun c => sc_storage_timeout (rc_storage c) =? s 5).

(** [Error::source] of either error is the error it holds. *)
Definition parsing_errors_preserve_the_configuration_boundary_and_source : bool :=
  fails_with (lookup [(§"OUTBOX_STORAGE_TIMEOUT_MS", §"invalid")])
    (StorageError StorageInvalidEnvironmentValue) &&
  fails_with (lookup [(§"OUTBOX_WORKER_CONCURRENCY", §"invalid")])
    (WorkerError (WorkerInvalidEnvironmentValue (§"OUTBOX_WORKER_CONCURRENCY"))) &&
  fails_with (lookup [(§"OUTBOX_STORAGE_TIMEOUT_MS", §"0")]) (StorageError InvalidStorageTimeout).

Definition full_budget_is_checked_at_load_time_with_strict_wave_boundaries : bool :=
  forallb (fun s => fails_with (lookup s) (WorkerError LeaseTooShort))
    [[(§"OUTBOX_LEASE_SECS", §"53")]; [(§"OUTBOX_QUEUE_CAPACITY", §"129")]] &&
  is_ok (lookup [(§"OUTBOX_LEASE_SECS", §"54")]) &&
  is_ok (lookup [(§"OUTBOX_QUEUE_CAPACITY", §"129"); (§"OUTBOX_LEASE_SECS", §"75")]) &&
  fails_with (lookup [(§"OUTBOX_WORKER_CONCURRENCY", §"1");
                      (§"OUTBOX_QUEUE_CAPACITY", show_int MAX_QUEUE_CAPACITY)])
    (WorkerError LeaseBudgetOverflow).
End RuntimeConfigTests.

Theorem configuration_tests_pass :
  forallb id
    [integer_parsing_preserves_absence_aliases_and_overflow_behavior;
     StorageConfigTests.storage_from_env_validates_settings_in_an_isolated_process;
     StorageConfigTests.storage_timeout_config_has_defaults_overrides_and_rejects_invalid_budgets;
     QueueConfigTests.queue_from_env_validates_settings_in_an_isolated_process;
     QueueConfigTests.statement_timeout_config_validates_defaults_overrides_and_server_range;
     WorkerConfigTests.from_env_validates_independent_worker_limits_in_an_isolated_process;
     WorkerConfigTests.defaults_and_independent_environment_overrides;
     WorkerConfigTests.invalid_environment_and_structural_values_are_typed;
     WorkerConfigTests.queue_waves_budget_boundaries_and_storage_overflow;
     WorkerConfigTests.default_lease_budget_has_the_expected_boundary_and_rejects_an_extra_queue_wave;
     RuntimeConfigTests.from_env_checks_the_combined_lease_budget_in_an_isolated_process;
     RuntimeConfigTests.combined_defaults_and_independent_overrides_use_existing_settings_once;
     RuntimeConfigTests.parsing_errors_preserve_the_configuration_boundary_and_source;
     RuntimeConfigTests.full_budget_is_checked_at_load_time_with_strict_wave_boundaries] = true.
Proof. vm_compute. reflexivity. Qed.

(** ** [command/retry.rs] and [postgres/command_factory.rs] *)

Module RetryTests.
(** The operation appends the time of each call; the clock is paused, so that
    only the delays between the calls pass. *)
Definition call_times (delays : list Duration.t) : list Duration.t :=
  reverse (foldl (fun times d => default 0 (head times) + d :: times) [0] delays).
Definition middle (lo hi : Q) : Q := ((lo + hi) / 2)%Q.

Definition conflicts_wait_for_the_configured_backoff_and_stop_after_the_last_attempt : bool :=
  unwrapped (policy_new 4 (Duration.from_millis 5) (Duration.from_millis 12) (Finite 0)) (fun policy =>
    match retry_on_aggregate_conflict (T := unit) (D := unit) policy (fun _ => middle)
            (fun calls => (Some (Err AggregateConflict), calls + 1)) 0 with
    | (Some (Err AggregateConflict, delays), calls) =>
      (calls =? 4) && bool_decide (call_times delays = Duration.from_millis <$> [0; 5; 15; 27])
    | _ => false
    end).

Definition a_reloaded_domain_or_unknown_commit_outcome_stops_conflict_retries_immediately : bool :=
  unwrapped (policy_new 5 (Duration.from_secs 1) (Duration.from_secs 1) (Finite 0)) (fun policy =>
    forallb (fun terminal =>
      match retry_on_aggregate_conflict (T := Z) (D := unit) policy (fun _ => middle)
              (fun calls => (Some (if calls =? 0 then Err AggregateConflict else terminal), calls + 1)) 0 with
      | (Some (r, delays), calls) =>
        negb (is_conflict r) && (calls =? 2) && bool_decide (delays = [Duration.from_secs 1])
      | (None, _) => false
      end)
    [Ok 42; Err (UserError tt); Err DatabaseConnectionError; Err DeserializationError;
     Err UnexpectedError]).

Definition draws : list (Q -> Q -> Q) := [fun lo _ => lo; middle; fun _ hi => hi].
Definition stays_within (policy : AggregateConflictRetryPolicy) (retry : Z) (bounds : Z * Z) : bool :=
  forallb (fun draw => match backoff policy draw retry with
                       | Some d => (bounds.1 <=? d) && (d <=? bounds.2)
                       | None => false
                       end) draws.

Definition default_policy_has_bounded_exponential_jitter : bool :=
  let ms := Duration.from_millis in
  unwrapped policy_default (fun policy =>
    (max_attempts policy =? 3) &&
    bool_decide (backoff_bounds policy 1 = Some (ms 4, ms 6)) &&
    bool_decide (backoff_bounds policy 2 = Some (ms 8, ms 12)) &&
    bool_decide (backoff_bounds policy 5 = Some (ms 40, ms 50)) &&
    forallb (fun retry => match backoff_bounds policy retry with
                          | Some bounds => stays_within policy retry bounds
                          | None => false
                          end) [1; 2; 3; 4; 5]).

Definition retry_policy_rejects_zero_attempts : bool :=
  is_err (policy_new 0 0 0 (Finite 0)) &&
  is_err (policy_new 1 DURATION_MAX DURATION_MAX (Finite (rnd (2 # 10)))) &&
  is_err (policy_new 1 0 0 NotFinite) &&
  is_err (policy_new 1 (Duration.from_secs 2) (Duration.from_secs 1) (Finite (rnd (2 # 10)))).

Definition large_representable_backoff_and_tiny_jitter_remain_bounded : bool :=
  let cap := Duration.from_millis i64_MAX in
  forallb (fun jitter => unwrapped (policy_new 2 cap cap (Finite (rnd jitter))) (fun policy =>
      match backoff_bounds policy usize_MAX with
      | Some (lower, upper) =>
        (lower <=? upper) && (upper <=? cap) && stays_within policy usize_MAX (lower, upper)
      | None => false
      end))
    [0; 1 # 100000000000000000000; 2 # 10; 1]%Q.

Definition config_defaults_overrides_and_zero_interval_are_checked : bool :=
  match command_config_default with
  | Some defaults => (snapshot_interval defaults =? 25) &&
      bool_decide (Ok (conflict_retry defaults) = policy_default)
  | None => false
  end &&
  unwrapped (policy_new 1 0 0 (Finite 0)) (fun retry =>
    unwrapped (command_config_new 2 retry) (fun c =>
      (snapshot_interval c =? 2) && bool_decide (conflict_retry c = retry)) &&
    fails_with (command_config_new 0 retry) InvalidSnapshotInterval).
End RetryTests.

(** ** [command/executor.rs]

    [CqrsFramework] over [DummyStore]: load, handle, commit.  The state counts
    the commits and records the handled commands and, when a framework is
    built, its tasks. *)

Module CommandTests.
Inductive DummyError := Rejected.
Inductive DummyCommand := Record_ (value : rstr) | Reject.
#[local] Instance DummyCommand_eq_dec : EqDecision DummyCommand.
Proof. solve_decision. Defined.
#[local] Instance DummyError_eq_dec : EqDecision DummyError.
Proof. solve_decision. Defined.
#[local] Instance CommandGatewayError_eq_dec : EqDecision (CommandGatewayError DummyError).
Proof. solve_decision. Defined.

Record store := { commits : Z; seen : list DummyCommand; built : list (list NewTask) }.
Definition no_store : store := {| commits := 0; seen := []; built := [] |}.

Definition dummy_framework (conflicts : Z) (load_error : option (AggregateError DummyError))
    (tasks : list NewTask) (_ : rstr) (command : DummyCommand) (s : store) :
    option (result (AggregateError DummyError) unit) * store :=
  match load_error with
  | Some e => (Some (Err e), s)
  | None =>
    let s := {| commits := commits s; seen := seen s ++ [command]; built := built s ++ [tasks] |} in
    match command with
    | Reject => (Some (Err (UserError Rejected)), s)
    | Record_ _ =>
      (Some (if commits s <? conflicts then Err AggregateConflict else Ok tt),
       {| commits := commits s + 1; seen := seen s; built := built s |})
    end
  end.

Definition no_delay (max_attempts : Z) : result AggregateConflictRetryPolicyError AggregateConflictRetryPolicy :=
  policy_new max_attempts 0 0 (Finite 0).
Definition executed (max_attempts conflicts : Z) (load_error : option (AggregateError DummyError))
    (command : DummyCommand) (tasks : list NewTask) (s : store) :
    option (result (CommandGatewayError DummyError) unit) * store :=
  match no_delay max_attempts with
  | Ok policy =>
    map_answer fst (execute policy (fun _ lo _ => lo) (dummy_framework conflicts load_error)
      (§"aggregate") command tasks s)
  | Err _ => (None, s)
  end.
Definition technical : list (AggregateError DummyError) :=
  [DatabaseConnectionError; DeserializationError; UnexpectedError].
Definition a_task : list NewTask :=
  match from_payload 1%N (mk_TaskFormat (§"dummy") 1) (JObject [(§"value", JString (§"same"))]) with
  | Ok t => [t]
  | Err _ => []
  end.

(** The framework is built once and called for each attempt, with the same
    tasks: each call records them. *)
Definition executor_builds_once_and_retries_the_unchanged_command_and_tasks : bool :=
  match executed 3 2 None (Record_ (§"same")) a_task no_store with
  | (Some (Ok _), s) =>
    (commits s =? 3) && bool_decide (seen s = [Record_ (§"same"); Record_ (§"same"); Record_ (§"same")]) &&
    forallb (fun tasks => bool_decide (nt_id <$> tasks = nt_id <$> a_task)) (built s)
  | _ => false
  end.

Definition executor_maps_domain_conflict_and_technical_errors_without_wrong_retries : bool :=
  match executed 3 0 None Reject [] no_store with
  | (Some r, _) => fails_with r (Domain Rejected)
  | (None, _) => false
  end &&
  match executed 3 usize_MAX None (Record_ (§"value")) [] no_store with
  | (Some r, s) => fails_with r Conflict && (commits s =? 3)
  | (None, _) => false
  end &&
  forallb (fun e => match executed 3 0 (Some e) (Record_ (§"value")) [] no_store with
                    | (Some r, _) => fails_with r GatewayUnavailable
                    | (None, _) => false
                    end) technical.

(** The categories logged: one for each technical failure, none for a
    rejection or a conflict. *)
Definition executor_logs_technical_failure_once_and_suppresses_domain_and_conflict_failures : bool :=
  bool_decide (log_aggregate_error <$> technical
               = [Some (§"connection"); Some (§"deserialization"); Some (§"unexpected")]) &&
  bool_decide (log_aggregate_error (UserError Rejected) = None) &&
  bool_decide (log_aggregate_error (D := DummyError) AggregateConflict = None) &&
  match executed 3 usize_MAX None Reject [] no_store with
  | (Some r, s) => fails_with r (Domain Rejected) &&
      match executed 3 usize_MAX None (Record_ (§"private_command")) [] s with
      | (Some r, s) => fails_with r Conflict && (commits s =? 3)
      | (None, _) => false
      end
  | (None, _) => false
  end.

Definition maps_every_framework_error_category : bool :=
  bool_decide (map_aggregate_error (UserError Rejected) = Domain Rejected) &&
  bool_decide (map_aggregate_error (D := DummyError) AggregateConflict = Conflict) &&
  forallb (fun e => bool_decide (map_aggregate_error e = GatewayUnavailable)) technical.

(** [SendOnlyAggregate] in a [MemStore], which keeps what is committed; its command
    is a cell that only one thread reads. *)
Inductive DummyEvent := Recorded (value : rstr).
#[local] Instance DummyEvent_eq_dec : EqDecision DummyEvent.
Proof. solve_decision. Defined.
Definition send_only_handle (command : Z) : result DummyError (list DummyEvent) :=
  Ok [Recorded (lit (pretty command))].
Definition send_only_framework (_ : list NewTask) (aggregate_id : rstr) (command : Z)
    (s : list (rstr * DummyEvent)) :
    option (result (AggregateError DummyError) unit) * list (rstr * DummyEvent) :=
  match send_only_handle command with
  | Ok es => (Some (Ok tt), s ++ ((fun e => (aggregate_id, e)) <$> es))
  | Err e => (Some (Err (UserError e)), s)
  end.

Definition executor_accepts_send_commands_without_requiring_sync : bool :=
  unwrapped (no_delay 1) (fun policy =>
    match execute policy (fun _ lo _ => lo) send_only_framework (§"send-only") 7 [] [] with
    | (Some (Ok _, _), s) => bool_decide (s = [(§"send-only", Recorded (§"7"))])
    | _ => false
    end).
End CommandTests.

Theorem command_tests_pass :
  forallb id
    [RetryTests.conflicts_wait_for_the_configured_backoff_and_stop_after_the_last_attempt;
     RetryTests.a_reloaded_domain_or_unknown_commit_outcome_stops_conflict_retries_immediately;
     RetryTests.default_policy_has_bounded_exponential_jitter;
     RetryTests.retry_policy_rejects_zero_attempts;
     RetryTests.large_representable_backoff_and_tiny_jitter_remain_bounded;
     RetryTests.config_defaults_overrides_and_zero_interval_are_checked;
     CommandTests.executor_accepts_send_commands_without_requiring_sync;
     CommandTests.executor_builds_once_and_retries_the_unchanged_command_and_tasks;
     CommandTests.executor_maps_domain_conflict_and_technical_errors_without_wrong_retries;
     CommandTests.executor_logs_technical_failure_once_and_suppresses_domain_and_conflict_failures;
     CommandTests.maps_every_framework_error_category] = true.
Proof. vm_compute. reflexivity. Qed.
