(* ===== verification/TaskTests.v ===== *)
(** * The task library's own tests

    Unit tests of [cqrs-runtime/src/task], [src/postgres], [src/runtime/poller.rs],
    [src/runtime/preparation.rs], [src/host/signal.rs] and [src/diagnostics.rs],
    evaluated on the model as in [RuntimeTests].  The scripted queue of
    [task/test_support.rs] implements the interfaces of the executor and the
    poller; where a test lets a future hang, the timer wins the race, and where it
    measures how long, the deadline of the timer is compared. *)

From S2P Require Import Prelude DomainValues FloatTime Binary64 TaskData Database EventRepository.
From S2P Require Import CommandRetry TaskQueue TaskHandling TaskExecutor RuntimeConfig Supervisor.
From S2P Require Import HostLifecycle Diagnostics RuntimeTests.
#[local] Open Scope Z_scope.
#[local] Existing Instance binary64.

#[local] Instance TaskValidationError_eq_dec : EqDecision TaskValidationError.
Proof. solve_decision. Defined.
#[local] Instance WriteValidationError_eq_dec : EqDecision WriteValidationError.
Proof. solve_decision. Defined.
#[local] Instance TaskHandlerError_eq_dec : EqDecision TaskHandlerError.
Proof. solve_decision. Defined.
#[local] Instance TaskDispatcherError_eq_dec : EqDecision TaskDispatcherError.
Proof. solve_decision. Defined.
#[local] Instance WorkerSetupError_eq_dec : EqDecision WorkerSetupError.
Proof. solve_decision. Defined.
#[local] Instance SettlementRequest_eq_dec : EqDecision SettlementRequest.
Proof. solve_decision. Defined.
#[local] Instance ExecutionPlan_eq_dec : EqDecision ExecutionPlan.
Proof. solve_decision. Defined.
#[local] Instance TaskSchedule_eq_dec : EqDecision TaskSchedule.
Proof. solve_decision. Defined.

(** No text beyond ASCII is printed here. *)
#[local] Existing Instance ex_parsers.
#[local] Existing Instance DiagnosticsExample.printers.

(** [assert_eq!] on JSON values. *)
Fixpoint value_eqb (a b : Value) {struct a} : bool :=
  match a, b with
  | JNull, JNull => true
  | JBool x, JBool y => Bool.eqb x y
  | JNumber x, JNumber y => x =? y
  | JString x, JString y => bool_decide (x = y)
  | JArray l, JArray m =>
    (fix go (l m : list Value) := match l, m with
     | [], [] => true
     | x :: l, y :: m => value_eqb x y && go l m
     | _, _ => false
     end) l m
  | JObject l, JObject m =>
    (fix go (l m : list (rstr * Value)) := match l, m with
     | [], [] => true
     | (k, x) :: l, (k', y) :: m => bool_decide (k = k') && value_eqb x y && go l m
     | _, _ => false
     end) l m
  | _, _ => false
  end.
Definition attempt_eqb (a b : TaskAttempt) : bool :=
  (at_id a =? at_id b)%N && bool_decide (at_format a = at_format b) &&
  value_eqb (at_payload a) (at_payload b) && value_eqb (at_metadata a) (at_metadata b) &&
  (at_number a =? at_number b).

(** [str::contains] *)
Fixpoint contains (hay needle : rstr) : bool :=
  bool_decide (take (length needle) hay = needle) ||
  match hay with [] => false | _ :: hay => contains hay needle end.

Definition empty : Value := JObject [].
Definition an_object (k v : rstr) : Value := JObject [(k, JString v)].

(** ** [task/test_support.rs] *)

Record DummyTask := { dummy_value : rstr }.
#[export] Instance dummy_payload : TaskPayload DummyTask := {|
  TASK_TYPE := §"dummy_task"; TASK_VERSION := 1;
  to_value t := Some (an_object (§"value") (dummy_value t)); from_value _ := None |}.

Definition a_format (ty : rstr) (version : Z) : TaskFormat :=
  match format_new ty version with Ok f => f | Err _ => mk_TaskFormat [] 0 end.
Definition dummy_format : TaskFormat :=
  match format_of DummyTask with Ok f => f | Err _ => mk_TaskFormat [] 0 end.

(** [claimed]; the lease ends sixty seconds after [now]. *)
Definition claimed (id : Uuid) (now : Instant.t) : LeasedTask := {|
  lt_attempt := {| at_id := id; at_format := dummy_format; at_payload := an_object (§"value") (§"runtime");
                   at_metadata := an_object (§"correlation_id") (§"test"); at_number := 2 |};
  lt_lease := {| lock_token := (id + 1000)%N; lease_deadline := now + Duration.from_secs 60 |} |}.
Definition with_deadline (task : LeasedTask) (deadline : Instant.t) : LeasedTask := {|
  lt_attempt := lt_attempt task;
  lt_lease := {| lock_token := lock_token (lt_lease task); lease_deadline := deadline |} |}.
Definition with_format (task : LeasedTask) (format : TaskFormat) : LeasedTask := {|
  lt_attempt := {| at_id := at_id (lt_attempt task); at_format := format;
                   at_payload := at_payload (lt_attempt task);
                   at_metadata := at_metadata (lt_attempt task); at_number := at_number (lt_attempt task) |};
  lt_lease := lt_lease task |}.

(** The scripted [Queue]: what it hands out, what it was asked, and how it fails.
    [now] is the paused clock. *)
Record Queue := {
  now_ : Instant.t;
  incoming : list LeasedTask;
  outcomes : list (Uuid * SettlementRequest);
  requested : list TaskFormat;
  claim_error : bool;
  settle_error : bool;
  lost_owner : bool;
  failing_format : option TaskFormat;
  (* the format whose claim does not end before the budget of the poll *)
  hanging_format : option TaskFormat;
  calls : Z;
  recovery_limits : list Z;
  recovery_calls : Z;
  recovery_error : bool;
}.
Definition queue_default : Queue := {|
  now_ := Duration.from_secs 1000; incoming := []; outcomes := []; requested := [];
  claim_error := false; settle_error := false; lost_owner := false; failing_format := None;
  hanging_format := None; calls := 0; recovery_limits := []; recovery_calls := 0; recovery_error := false |}.
Definition with_incoming (q : Queue) (tasks : list LeasedTask) : Queue := {|
  now_ := now_ q; incoming := tasks; outcomes := outcomes q; requested := requested q;
  claim_error := claim_error q; settle_error := settle_error q; lost_owner := lost_owner q;
  failing_format := failing_format q; hanging_format := hanging_format q; calls := calls q;
  recovery_limits := recovery_limits q; recovery_calls := recovery_calls q; recovery_error := recovery_error q |}.
Definition with_requested (q : Queue) (formats : list TaskFormat) : Queue := {|
  now_ := now_ q; incoming := incoming q; outcomes := outcomes q; requested := formats;
  claim_error := claim_error q; settle_error := settle_error q; lost_owner := lost_owner q;
  failing_format := failing_format q; hanging_format := hanging_format q; calls := calls q;
  recovery_limits := recovery_limits q; recovery_calls := recovery_calls q; recovery_error := recovery_error q |}.
Definition with_outcomes (q : Queue) (requests : list (Uuid * SettlementRequest)) : Queue := {|
  now_ := now_ q; incoming := incoming q; outcomes := requests; requested := requested q;
  claim_error := claim_error q; settle_error := settle_error q; lost_owner := lost_owner q;
  failing_format := failing_format q; hanging_format := hanging_format q; calls := calls q;
  recovery_limits := recovery_limits q; recovery_calls := recovery_calls q; recovery_error := recovery_error q |}.
Definition with_calls (q : Queue) (n : Z) : Queue := {|
  now_ := now_ q; incoming := incoming q; outcomes := outcomes q; requested := requested q;
  claim_error := claim_error q; settle_error := settle_error q; lost_owner := lost_owner q;
  failing_format := failing_format q; hanging_format := hanging_format q; calls := n;
  recovery_limits := recovery_limits q; recovery_calls := recovery_calls q; recovery_error := recovery_error q |}.
Definition with_faults (q : Queue) (claim settle lost : bool) (failing hanging : option TaskFormat) : Queue := {|
  now_ := now_ q; incoming := incoming q; outcomes := outcomes q; requested := requested q;
  claim_error := claim; settle_error := settle; lost_owner := lost;
  failing_format := failing; hanging_format := hanging; calls := calls q;
  recovery_limits := recovery_limits q; recovery_calls := recovery_calls q; recovery_error := recovery_error q |}.

Definition with_recovery (q : Queue) (limits : list Z) (n : Z) (error : bool) : Queue := {|
  now_ := now_ q; incoming := incoming q; outcomes := outcomes q; requested := requested q;
  claim_error := claim_error q; settle_error := settle_error q; lost_owner := lost_owner q;
  failing_format := failing_format q; hanging_format := hanging_format q; calls := calls q;
  recovery_limits := limits; recovery_calls := n; recovery_error := error |}.

(** The [while] loop of [claim] over the front of the queue. *)
Fixpoint pop_matching (format : TaskFormat) (limit : nat) (deadline : Instant.t) (tasks : list LeasedTask) :
    list LeasedTask * list LeasedTask :=
  match limit, tasks with
  | S limit, task :: rest =>
    if bool_decide (at_format (lt_attempt task) = format) then
      let '(result, rest) := pop_matching format limit deadline rest in
      (with_deadline task deadline :: result, rest)
    else ([], tasks)
  | _, _ => ([], tasks)
  end.

Definition scripted_claim (format : TaskFormat) (_ : rstr) (limit : Z) (lease : Duration.t) (q : Queue) :
    result TaskProcessingError (list LeasedTask) * Queue :=
  let q := with_requested q (requested q ++ [format]) in
  if bool_decide (hanging_format q = Some format) then (Err TimedOut, q)
  else if claim_error q || bool_decide (failing_format q = Some format) then (Err Unavailable, q)
  else
    let '(result, rest) := pop_matching format (Z.to_nat limit) (now_ q + lease) (incoming q) in
    (Ok result, with_incoming q rest).

Definition scripted_settle (task : LeasedTask) (outcome : SettlementRequest) (q : Queue) :
    result TaskProcessingError SettlementResult * Queue :=
  let confirmed := match outcome with
    | Completed => SettledCompleted
    | Retry _ _ => RetryScheduled
    | Failed _ => SettledFailed {| tf_id := at_id (lt_attempt task); tf_format := at_format (lt_attempt task);
                                   tf_attempt := at_number (lt_attempt task); tf_cause := PermanentRejection |}
    end in
  let q := with_outcomes q (outcomes q ++ [(at_id (lt_attempt task), outcome)]) in
  (if settle_error q then Err Unavailable
   else if lost_owner q then Ok OwnershipLost else Ok confirmed, q).

Definition scripted_recover (limit : Z) (q : Queue) : result TaskProcessingError LeaseRecoveryReport * Queue :=
  let q := with_recovery q (recovery_limits q ++ [limit]) (recovery_calls q + 1) (recovery_error q) in
  (if recovery_error q then Err Unavailable else Ok (report_new 0 []), q).

#[export] Instance scripted_claims : TaskClaimPort Queue := {| queue_claim := scripted_claim |}.
#[export] Instance scripted_settlements : TaskQueuePort Queue := {| queue_settle := scripted_settle |}.

(** [Adapter], which does not hang, and [CountingAdapter] and [ProbeAdapter], which
    count their calls. *)
Definition fixed_adapter (r : result TaskHandlerError unit) : TaskAdapter Queue := {|
  ad_formats := [dummy_format]; ad_invoke _ q := (Some r, q) |}.
Definition adapter : TaskAdapter Queue := fixed_adapter (Ok tt).
Definition counting_adapter : TaskAdapter Queue := {|
  ad_formats := [dummy_format]; ad_invoke _ q := let q := with_calls q (calls q + 1) in (Some (Ok tt), q) |}.
(** [dispatcher], before its [unwrap]. *)
Definition dispatcher (adapter : TaskAdapter Queue) : result TaskDispatcherError (TaskDispatcher Queue) :=
  try_new [adapter].
Definition probe_adapter : TaskAdapter Queue := {|
  ad_formats := [dummy_format]; ad_invoke _ q := (Some (Ok tt), with_calls q (calls q + 1)) |}.

(** ** [task/data] and [task/queue/settlement.rs] *)

Module DataTests.
Inductive Broken := ABroken.
#[local] Instance broken_payload : TaskPayload Broken := {|
  TASK_TYPE := §"broken"; TASK_VERSION := 1; to_value _ := None; from_value _ := None |}.
Inductive InvalidFormatTask := AnInvalid.
#[local] Instance invalid_payload : TaskPayload InvalidFormatTask := {|
  TASK_TYPE := §"invalid_format"; TASK_VERSION := 0; to_value _ := Some JNull; from_value _ := None |}.

Definition construction_validates_format_objects_attempts_and_schedule : bool :=
  unwrapped (new_task 1 {| dummy_value := §"runtime" |}) (fun task =>
    value_eqb (nt_payload task) (an_object (§"value") (§"runtime")) &&
    (task_version (nt_format task) =? 1) &&
    bool_decide (format_display (nt_format task) = §"dummy_task v1") &&
    (nt_max_attempts task =? 10) && value_eqb (nt_metadata task) empty &&
    bool_decide (nt_schedule task = Now) &&
    unwrapped (task ← with_metadata task (an_object (§"trace") (§"test"));
               task ← with_max_attempts task 2;
               scheduled task (After 0)) (fun updated =>
      (nt_id updated =? nt_id task)%N && (nt_max_attempts updated =? 2) &&
      is_err (with_metadata updated (JArray [])) && is_err (with_max_attempts updated 0) &&
      is_err (scheduled updated (After DURATION_MAX)) && is_ok (scheduled updated (At 0)))) &&
  bool_decide (format_new [] 1 = Err EmptyType) &&
  bool_decide (format_new (§"valid") 0 = Err InvalidVersion) &&
  unwrapped (format_new (§"valid") 1) (fun f => is_err (from_payload 1 f (JArray []))) &&
  fails_with (new_task 1 ABroken) Serialization.

Definition a_payload_with_an_invalid_declared_format_cannot_become_a_task : bool :=
  fails_with (new_task 1 AnInvalid) (FormatError InvalidVersion).

Definition invalid_attempt_data_is_rejected : bool :=
  let build payload metadata attempt := attempt_new 1 (a_format (§"test") 1) payload metadata attempt in
  is_err (build (JArray []) empty 1) && is_err (build empty (JArray []) 1) && is_err (build empty empty 0).

Definition confirmed_results_and_recovery_counts_are_unambiguous : bool :=
  let failed := {| tf_id := 1; tf_format := a_format (§"test") 1; tf_attempt := 1;
                   tf_cause := AttemptLimitReached |} in
  forallb (fun r => is_applied r && bool_decide (failure r = None)) [SettledCompleted; RetryScheduled] &&
  negb (is_applied OwnershipLost) && bool_decide (failure OwnershipLost = None) &&
  bool_decide (failure (SettledFailed failed) = Some failed) &&
  (processed_count (report_new 2 [failed]) =? 3) && (retried_count (report_new 2 [failed]) =? 2).
End DataTests.

(** ** [postgres/event_repository_with_outbox] *)

Module PlanTests.
Definition event (sequence : Z) : SerializedEvent := {|
  se_aggregate_id := §"aggregate"; se_sequence := sequence; se_event_type := §"recorded";
  se_event_version := §"1"; se_payload := empty; se_metadata := empty |}.
Definition snapshot (version : Z) : option (rstr * Value * Z) := Some (§"aggregate", empty, version).
Definition task : list NewTask :=
  match from_payload 1 (a_format (§"test") 1) empty with Ok t => [t] | Err _ => [] end.
Definition copies (n : nat) : list NewTask := replicate n () ≫= fun _ => task.

(** [PersistenceError::UnknownError] holding the validation error. *)
Definition invalid (r : result PersistenceError WritePlan) : option WriteValidationError :=
  match r with Err (UnknownError (FromValidation e)) => Some e | _ => None end.

Definition a_write_plan_rejects_oversized_task_batches_including_snapshot_binds : bool :=
  forallb (fun '(count, s) =>
      bool_decide (invalid (write_plan_new [event 1] s (copies count)) = Some BindLimitExceeded))
    [(Z.to_nat 5958, None); (Z.to_nat 5957, snapshot 1); (Z.to_nat 5957, snapshot 2)].

Definition invalid_write_shapes_retain_their_validation_reason : bool :=
  forallb (fun '(events, s, tasks, expected) =>
      bool_decide (write_validation_display <$> invalid (write_plan_new events s tasks) = Some expected))
    [([], snapshot 1, [], §"a snapshot requires a committed domain event");
     ([], None, task, §"outbox tasks require a committed domain event");
     ([event 1; event 2], None, [], §"a command may commit at most one domain event")] &&
  match write_plan_new [] None [] with Ok NoOp => true | _ => false end.

Definition both_event_and_snapshot_sequence_overflows_are_rejected_before_sql : bool :=
  let overflow := i64_MAX + 1 in
  forallb (fun '(e, s) => bool_decide (invalid (write_plan_new [e] s []) = Some SequenceOverflow))
    [(event overflow, None); (event 1, snapshot overflow)].

Definition converts_supported_sequence : bool :=
  match sequence_as_i64 42 with Ok n => n =? 42 | Err _ => false end.

Definition unknown {A} (r : result PersistenceError A) : bool :=
  match r with Err (UnknownError _) => true | _ => false end.

Definition rejects_batches_over_the_postgres_bind_limit : bool :=
  is_ok (validate_bind_count 1 6) && is_ok (validate_bind_count 5957 0) &&
  unknown (validate_bind_count 5958 0) && is_err (validate_bind_count usize_MAX 0) &&
  forallb (fun binds => is_ok (validate_bind_count 5956 binds) && is_err (validate_bind_count 5957 binds))
    [5; 6].

Definition rejects_overflowing_sequence : bool := unknown (sequence_as_i64 (i64_MAX + 1)).

Definition maps_non_connection_database_errors_to_unexpected_errors : bool :=
  match map_sqlx_error (OtherSqlxError (§"RowNotFound")) with UnknownError _ => true | _ => false end.
Definition maps_io_errors_to_connection_errors : bool :=
  match map_sqlx_error (Io (§"connection refused")) with ConnectionError _ => true | _ => false end.
Definition tls_failures_preserve_the_source_as_connection_errors : bool :=
  let tls := Tls (§"TLS handshake failed") in
  match map_sqlx_error tls with ConnectionError source => bool_decide (source = tls) | _ => false end.
End PlanTests.

(** ** [postgres/task_queue] *)

Module PostgresQueueTests.
Definition task : LeasedTask := claimed 1 0.

Definition confirmed_settlement_rejects_unknown_status_and_missing_failure_cause : bool :=
  forallb (fun status => bool_decide (settlement_result (lt_attempt task) status None = Err InvalidDelivery))
    [Some (§"unexpected"); Some (§"failed")] &&
  forallb (fun request =>
      let parameters := settlement_parameters request in
      unwrapped (settlement_result (lt_attempt task) (Some (§"failed")) (sp_failure_cause parameters))
        (fun r => match failure r with
                  | Some f => (tf_id f =? at_id (lt_attempt task))%N &&
                      (tf_attempt f =? at_number (lt_attempt task)) &&
                      bool_decide (Some (tf_cause f) = sp_failure_cause parameters)
                  | None => false
                  end))
    [Retry 0 (§"retry"); Failed (§"permanent")].

Definition claim_rows_validate_delivery_data_and_preserve_lease_context : bool :=
  let value := JObject [(§"value", JNumber 1)] in
  let row payload metadata attempts := {| cr_id := 5; cr_payload := payload; cr_metadata := metadata;
                                          cr_attempts := attempts; cr_lock_token := 6 |} in
  unwrapped (into_claimed_task (row value empty 2) (a_format (§"test") 1) 77) (fun claimed =>
    (at_id (lt_attempt claimed) =? 5)%N && (at_number (lt_attempt claimed) =? 2) &&
    value_eqb (at_payload (lt_attempt claimed)) value &&
    (lease_deadline (lt_lease claimed) =? 77) && (lock_token (lt_lease claimed) =? 6)%N) &&
  forallb (fun '(payload, metadata, attempts) =>
      fails_with (into_claimed_task (row payload metadata attempts) (a_format (§"test") 1) 77) InvalidDelivery)
    [(JArray [], empty, 2); (empty, JArray [], 2); (empty, empty, 0)].

Definition invalid_recovery_format_is_an_invalid_delivery : bool :=
  let row := {| ob_aggregate_type := []; ob_aggregate_id := []; ob_aggregate_sequence := 1;
                ob_task_type := §"test"; ob_task_version := 0; ob_payload := empty; ob_metadata := empty;
                ob_status := st_processing; ob_created_at := 0; ob_available_at := 0; ob_finished_at := None;
                ob_attempts := 1; ob_max_attempts := 1; ob_last_error := None; ob_locked_by := None;
                ob_lock_token := None; ob_locked_until := None |} in
  bool_decide (into_failure 1 row = Err InvalidDelivery).

(** The closed pool: no transaction begins.  The operation and the category are
    in the record each operation writes before the error is erased. *)
Definition unavailable_queue_logs_operation_and_cause_before_erasing_source : bool :=
  let d := mk_db ∅ ∅ ∅ in
  fails_with (claim {| ce_instant := 0; ce_now := 0; ce_clock _ := 0; ce_locked _ := false;
                       ce_token id := id; ce_fault := BeginFails |}
                (at_format (lt_attempt task)) (§"private_owner") 1 (Duration.from_secs 60) d).1 Unavailable &&
  fails_with (settle {| se_now := 0; se_clock := 0; se_fault := BeginFails |} task Completed d).1 Unavailable &&
  match recover_expired {| re_now := 0; re_update _ := 0; re_jitter _ := 1%Q; re_locked _ := false;
                           re_fault := BeginFails |} 1 d with
  | Some (r, _) => fails_with r Unavailable
  | None => false
  end &&
  forallb (fun operation =>
      bool_decide (lr_message (log_sqlx_failure operation Database.PoolClosed) = §"storage operation failed"))
    [§"claim"; §"settle"; §"recover_expired"] &&
  bool_decide (sqlx_kind Database.PoolClosed = §"pool_closed").
End PostgresQueueTests.

Theorem storage_tests_pass :
  forallb id
    [DataTests.construction_validates_format_objects_attempts_and_schedule;
     DataTests.a_payload_with_an_invalid_declared_format_cannot_become_a_task;
     DataTests.invalid_attempt_data_is_rejected;
     DataTests.confirmed_results_and_recovery_counts_are_unambiguous;
     PlanTests.a_write_plan_rejects_oversized_task_batches_including_snapshot_binds;
     PlanTests.invalid_write_shapes_retain_their_validation_reason;
     PlanTests.both_event_and_snapshot_sequence_overflows_are_rejected_before_sql;
     PlanTests.converts_supported_sequence;
     PlanTests.rejects_batches_over_the_postgres_bind_limit;
     PlanTests.rejects_overflowing_sequence;
     PlanTests.maps_non_connection_database_errors_to_unexpected_errors;
     PlanTests.maps_io_errors_to_connection_errors;
     PlanTests.tls_failures_preserve_the_source_as_connection_errors;
     PostgresQueueTests.confirmed_settlement_rejects_unknown_status_and_missing_failure_cause;
     PostgresQueueTests.claim_rows_validate_delivery_data_and_preserve_lease_context;
     PostgresQueueTests.invalid_recovery_format_is_an_invalid_delivery;
     PostgresQueueTests.unavailable_queue_logs_operation_and_cause_before_erasing_source] = true.
Proof. vm_compute. reflexivity. Qed.

(** ** [task/executor/lease_budget.rs] *)

Module BudgetTests.
Definition s := Duration.from_secs.

(** The bits of the largest number of seconds the clock can be set back. *)
Definition seconds_back (now : Instant.t) : Z :=
  foldl (fun seconds bit =>
      let candidate := Z.lor seconds (Z.shiftl 1 (Z.of_nat bit)) in
      if bool_decide (is_Some (Instant.checked_sub now (s candidate))) then candidate else seconds)
    0 (reverse (seq 0 64)).

Definition a_lease_near_the_platform_clock_minimum_is_left_for_recovery : bool :=
  let now := s 1000 in
  match Instant.checked_sub now (s (seconds_back now)) with
  | Some deadline =>
    bool_decide (Instant.checked_sub deadline LEASE_SAFETY_MARGIN = None) &&
    bool_decide (execution_plan now deadline (s 1) (s 1) = Ok RecoverOnly)
  | None => false
  end.

Definition exact_budget_runs_and_shorter_budgets_retry_or_recover : bool :=
  let now := s 1000 in let handler := s 30 in let storage := s 5 in
  let deadline := now + handler + storage + LEASE_SAFETY_MARGIN in
  bool_decide (execution_plan now deadline handler storage
               = Ok (Run (now + handler) (deadline - LEASE_SAFETY_MARGIN))) &&
  match execution_plan now (deadline - 1) handler storage with Ok (RetryOnly _) => true | _ => false end &&
  bool_decide (execution_plan now (now + LEASE_SAFETY_MARGIN) handler storage = Ok RecoverOnly) &&
  bool_decide (execution_plan now now handler storage = Ok RecoverOnly) &&
  bool_decide (execution_plan now deadline DURATION_MAX storage = Err InvalidExecutionBudget) &&
  bool_decide (execution_plan now deadline 0 storage = Err InvalidExecutionBudget).
End BudgetTests.

(** ** [task/handling] *)

Module HandlingTests.
(** A payload with one string field, of a type and version; unknown fields are
    ignored. *)
Record Payload (ty : rstr) (version : Z) := { p_value : rstr }.
Arguments p_value {ty version} _.
#[local] Instance payload_task ty version : TaskPayload (Payload ty version) := {|
  TASK_TYPE := ty; TASK_VERSION := version;
  to_value p := Some (an_object (§"value") (p_value p));
  from_value v := match json_get (§"value") v with
                  | Some (JString s) => Some {| p_value := s |}
                  | _ => None
                  end |}.

Definition registry_error_formatting_sanitizes_names_without_changing_the_format : bool :=
  forallb (fun '(name, safe_name) =>
      let format := a_format name 2 in
      let error := DuplicateFormat format in
      let rendered := dispatcher_error_display error ++ §" " ++ dispatcher_error_debug error in
      contains rendered safe_name && contains rendered (§"2") && negb (contains rendered (§"private_")) &&
      negb (contains rendered (§"mail@example.com")) &&
      bool_decide (error = DuplicateFormat (mk_TaskFormat name 2)))
    [(§"create_account", §"create_account");
     (§"private_format" ++ [10%N] ++ §"mail@example.com", §"unknown")] &&
  bool_decide (dispatcher_error_debug EmptyDispatcher = §"Empty") &&
  contains (dispatcher_error_debug (InvalidFormat EmptyType)) (§"EmptyType").

(** [RecordingAdapter]: the world is the list of the types it was called with. *)
Definition recording (formats : list TaskFormat) : TaskAdapter (list rstr) := {|
  ad_formats := formats;
  ad_invoke delivery calls := (Some (Ok tt), calls ++ [task_type (at_format delivery)]) |}.
Definition base : TaskAttempt := lt_attempt (claimed 1 0).
Definition attempt_of (format : TaskFormat) (payload : Value) : TaskAttempt := {|
  at_id := at_id base; at_format := format; at_payload := payload; at_metadata := at_metadata base;
  at_number := 1 |}.

Definition permanent (r : option (result TaskHandlerError unit) * list rstr) : bool :=
  match r with (Some (Err (HandlerPermanent _)), _) => true | _ => false end.

(** Two deliveries, one after the other. *)
Definition both {W A} (first second : W -> option A * W) (w : W) : option (A * A) * W :=
  and_then (first w) (fun r w => map_answer (pair r) (second w)).

Definition routes_in_order_and_rejects_duplicates_empty_and_unknown_formats : bool :=
  let first := a_format (§"first") 1 in let second := a_format (§"second") 2 in
  unwrapped (try_new [recording [first]; recording [second]]) (fun registry =>
    bool_decide (formats registry = [first; second]) &&
    match both (dispatch registry (attempt_of second (at_payload base)))
            (dispatch registry (attempt_of first (at_payload base))) [] with
    | (Some (Ok _, Ok _), calls) => bool_decide (calls = [§"second"; §"first"])
    | _ => false
    end && permanent (dispatch registry base [])) &&
  fails_with (try_new (W := list rstr) []) EmptyDispatcher &&
  fails_with (try_new [recording []]) EmptyDispatcher &&
  fails_with (try_new [recording [first; first]]) (DuplicateFormat first).

(** The handler of the typed adapters: it records version and value. *)
Definition versioned (version : Z) : TaskHandler (list (Z * rstr)) (Payload (§"versioned_operation") version) :=
  fun payload _ calls => (Some (Ok tt), calls ++ [(version, p_value payload)]).

Definition typed_adapters_route_versions_separately_and_reject_duplicate_formats : bool :=
  unwrapped (task_adapter (versioned 1)) (fun one => unwrapped (task_adapter (versioned 2)) (fun two =>
  unwrapped (format_of (Payload (§"versioned_operation") 1)) (fun first =>
  unwrapped (format_of (Payload (§"versioned_operation") 2)) (fun second =>
    unwrapped (try_new [one; two]) (fun registry =>
      bool_decide (formats registry = [first; second]) &&
      match both (dispatch registry (attempt_of second (an_object (§"value") (§"decoded"))))
              (dispatch registry (attempt_of first (an_object (§"value") (§"decoded")))) [] with
      | (Some (Ok _, Ok _), calls) => bool_decide (calls = [(2, §"decoded"); (1, §"decoded")])
      | _ => false
      end) &&
    fails_with (try_new [one; one]) (DuplicateFormat first))))).

(** [json_adapter.rs]: a handler with a counter of its own records the value,
    the count and the delivery of each call. *)
Definition journal : Type := Z * list (rstr * Z * TaskAttempt).
Definition recorder (version : Z) (result : result TaskHandlerError unit) :
    TaskHandler journal (Payload (§"test_operation") version) :=
  fun payload delivery '(count, calls) =>
    (Some result, (count + 1, calls ++ [(p_value payload, count + 1, delivery)])).
Definition delivery (format : TaskFormat) (payload : Value) : TaskAttempt := {|
  at_id := 9; at_format := format; at_payload := payload;
  at_metadata := an_object (§"correlation_id") (§"original"); at_number := 3 |}.
Definition one : TaskFormat := a_format (§"test_operation") 1.

(** That the handler borrows the delivery itself, and not a copy, cannot be
    told from its contents. *)
Definition decodes_owned_dto_preserves_original_delivery_and_mutable_handler_state : bool :=
  let task := delivery one (JObject [(§"value", JString (§"accepted"));
                                     (§"future_field", an_object (§"locale") (§"en"))]) in
  unwrapped (task_adapter (recorder 1 (Ok tt))) (fun adapter =>
    bool_decide (ad_formats adapter = [at_format task]) &&
    match both (ad_invoke adapter task) (ad_invoke adapter task) (0, []) with
    | (Some (Ok _, Ok _), (_, [(v1, c1, d1); (v2, c2, d2)])) =>
      bool_decide (v1 = §"accepted") && bool_decide (v2 = §"accepted") && (c1 =? 1) && (c2 =? 2) &&
      attempt_eqb d1 task && attempt_eqb d2 task
    | _ => false
    end).

Definition format_and_decode_failures_are_permanent_and_never_call_business_handler : bool :=
  let two := a_format (§"test_operation") 2 in
  unwrapped (task_adapter (recorder 1 (Ok tt))) (fun adapter =>
    forallb (fun '(format, payload, reason) =>
        match ad_invoke adapter (delivery format payload) (0, []) with
        | (Some (Err error), (_, [])) =>
          bool_decide (error = HandlerPermanent reason) &&
          bool_decide (handler_error_display error = reason) &&
          negb (contains (handler_error_debug error) (§"private_"))
        | _ => false
        end)
      [(a_format (§"private_actual_type" ++ [10%N] ++ §"secret@example.com") 1,
        an_object (§"value") (§"private_payload"), §"unsupported task format for test_operation v1");
       (two, an_object (§"value") (§"valid"), §"unsupported task format for test_operation v1");
       (two, empty, §"unsupported task format for test_operation v1");
       (one, empty, §"invalid test_operation v1 task payload");
       (one, JObject [(§"value", an_object (§"private_payload") (§"secret"))],
        §"invalid test_operation v1 task payload")]).

Definition business_results_pass_through_without_retry_or_reason_changes : bool :=
  forallb (fun result =>
      unwrapped (task_adapter (recorder 1 result)) (fun adapter =>
        let '(r, (_, calls)) := ad_invoke adapter (delivery one (an_object (§"value") (§"valid"))) (0, []) in
        bool_decide (r = Some result) && (length calls =? 1)%nat))
    [Ok tt; Err (HandlerRetry (§"business retry") (Some (Duration.from_secs 7)));
     Err (HandlerRetry (§"default backoff") None); Err (HandlerPermanent (§"business rejection"))].

Inductive PrivatePayload := APrivate.
Definition PRIVATE_TYPE : rstr := §"private_expected_type" ++ [10%N] ++ §"secret@example.com".
#[local] Instance private_payload : TaskPayload PrivatePayload := {|
  TASK_TYPE := PRIVATE_TYPE; TASK_VERSION := 4; to_value _ := Some JNull; from_value _ := None |}.
(** [NeverCalled] panics. *)
Definition never_called {P} : TaskHandler (list rstr) P := fun _ _ marks => (None, marks).

Definition arbitrary_expected_types_and_serde_errors_are_not_exposed : bool :=
  unwrapped (task_adapter (P := PrivatePayload) never_called) (fun adapter =>
    bool_decide (ad_formats adapter = [a_format PRIVATE_TYPE 4]) &&
    forallb (fun '(format, reason) =>
        match ad_invoke adapter (delivery format (an_object (§"private_payload_sentinel") (§"secret"))) [] with
        | (Some (Err error), []) => bool_decide (handler_error_display error = reason) &&
            negb (contains (handler_error_debug error) (§"private_"))
        | _ => false
        end)
      [(a_format PRIVATE_TYPE 4, §"invalid unknown v4 task payload");
       (a_format (§"other") 4, §"unsupported task format for unknown v4")]).

Definition validates_format_before_registering_handler : bool :=
  fails_with (task_adapter (P := Payload [] 1) (never_called)) EmptyType &&
  fails_with (task_adapter (recorder 0 (Ok tt))) InvalidVersion &&
  fails_with (task_adapter (recorder (-1) (Ok tt))) InvalidVersion.
End HandlingTests.

Theorem handling_tests_pass :
  forallb id
    [BudgetTests.a_lease_near_the_platform_clock_minimum_is_left_for_recovery;
     BudgetTests.exact_budget_runs_and_shorter_budgets_retry_or_recover;
     HandlingTests.registry_error_formatting_sanitizes_names_without_changing_the_format;
     HandlingTests.routes_in_order_and_rejects_duplicates_empty_and_unknown_formats;
     HandlingTests.typed_adapters_route_versions_separately_and_reject_duplicate_formats;
     HandlingTests.decodes_owned_dto_preserves_original_delivery_and_mutable_handler_state;
     HandlingTests.format_and_decode_failures_are_permanent_and_never_call_business_handler;
     HandlingTests.business_results_pass_through_without_retry_or_reason_changes;
     HandlingTests.arbitrary_expected_types_and_serde_errors_are_not_exposed;
     HandlingTests.validates_format_before_registering_handler] = true.
Proof. vm_compute. reflexivity. Qed.

(** ** [task/executor/default_executor.rs] *)

Module ExecutorTests.
Definition s := Duration.from_secs.
Definition T0 : Instant.t := now_ queue_default.

(** [task_executor_with_config], and [task_executor] with the default budget. *)
Definition executor (storage_secs : Z) : DefaultTaskExecutor := {| storage_timeout := s storage_secs |}.
(** An execution that starts at [T0]; the handler ends, or is cut, before the
    settlement starts at [settle_now]. *)
Definition env (hang : bool) (settle_now : Instant.t) (race : settle_race) : exec_env Queue := {|
  ee_now := T0; ee_handler_cut := if hang then Some (fun q => q) else None; ee_settle_now := settle_now;
  ee_race := race; ee_jitter := 1%Q |}.

Definition run (storage_secs : Z) (e : exec_env Queue) (adapter : TaskAdapter Queue) (task : LeasedTask)
    (handler : Duration.t) (q : Queue) : option (result TaskProcessingError SettlementResult) * Queue :=
  match try_new [adapter] with
  | Ok dispatcher => execute_and_settle (executor storage_secs) e dispatcher task handler q
  | Err _ => (None, q)
  end.
Definition applied (r : option (result TaskProcessingError SettlementResult) * Queue) (q' : Queue -> bool) : bool :=
  match r with (Some (Ok r), q) => is_applied r && q' q | _ => false end.
Definition failed (r : option (result TaskProcessingError SettlementResult) * Queue) (e : TaskProcessingError)
    (q' : Queue -> bool) : bool :=
  match r with (Some (Err e'), q) => bool_decide (e' = e) && q' q | _ => false end.

Definition delayed_task_retries_without_starting_handler_and_expired_task_waits_for_recovery : bool :=
  applied (run 5 (env false T0 Answered) probe_adapter (with_deadline (claimed 1 T0) (T0 + s 39)) (s 30)
             queue_default) (fun q =>
    (calls q =? 0) &&
    match outcomes q with
    | [(_, Retry _ reason)] => bool_decide (reason = §"insufficient lease budget before handler execution")
    | _ => false
    end &&
    failed (run 5 (env false T0 Answered) probe_adapter (with_deadline (claimed 2 T0) T0) (s 30) q)
      LeaseBudgetExhausted (fun q => (calls q =? 0) && (length (outcomes q) =? 1)%nat)) &&
  bool_decide (ad_formats probe_adapter = [dummy_format]).

(** The hanging settlement is cut at its deadline, one second later. *)
Definition lease_margin_shortens_settlement_deadline_without_starting_handler : bool :=
  let deadline := T0 + LEASE_SAFETY_MARGIN + s 1 in
  failed (run 6 (env false T0 CancelledAfter) probe_adapter (with_deadline (claimed 1 T0) deadline) (s 30)
            queue_default) TimedOut (fun q =>
    (calls q =? 0) && match outcomes q with (_, Retry _ _) :: _ => true | _ => false end) &&
  bool_decide (settle_deadline (executor 6) T0 (deadline - LEASE_SAFETY_MARGIN) = Some (T0 + s 1)).

(** The clock advances by two minutes while the handler runs. *)
Definition process_pause_exhausting_lease_prevents_a_late_acknowledgement : bool :=
  failed (run 6 (env false (T0 + s 120) Answered) probe_adapter (claimed 1 T0) (s 30) queue_default)
    LeaseBudgetExhausted (fun q => (calls q =? 1) && bool_decide (outcomes q = [])).

Definition unrepresentable_handler_budget_is_rejected_before_execution : bool :=
  failed (run 6 (env false T0 Answered) (fixed_adapter (Ok tt)) (claimed 1 T0) DURATION_MAX queue_default)
    InvalidExecutionBudget (fun q => bool_decide (outcomes q = [])).

Definition storage_deadline_bounds_settlement_without_a_terminal_outcome : bool :=
  failed (run 3 (env false T0 CancelledAfter) (fixed_adapter (Ok tt)) (claimed 1 T0) (s 30) queue_default)
    TimedOut (fun q => (length (outcomes q) =? 1)%nat) &&
  bool_decide (settle_deadline (executor 3) T0 (lease_deadline (lt_lease (claimed 1 T0)) - LEASE_SAFETY_MARGIN)
               = Some (T0 + s 3)).

(** The deliveries of the test, one after the other. *)
Definition classified : list (result TaskHandlerError unit * bool) :=
  [(Ok tt, false); (Err (HandlerRetry (§"throttle") (Some (s 300))), false);
   (Err (HandlerRetry (§"network") None), false); (Err (HandlerPermanent (§"invalid")), false); (Ok tt, true)].
Fixpoint deliver (cases : list (result TaskHandlerError unit * bool)) (q : Queue) : option Queue :=
  match cases with
  | [] => Some q
  | (r, hang) :: cases =>
    match run 6 (env hang T0 Answered) (fixed_adapter r) (claimed 1 T0) (s 30) q with
    | (Some (Ok r), q) => if is_applied r then deliver cases q else None
    | _ => None
    end
  end.

Definition delivery_classifies_success_errors_and_timeout_and_preserves_ownership_result : bool :=
  match deliver classified queue_default with
  | Some q =>
    match (outcomes q).*2 with
    | [o0; o1; Retry delay _; o3; Retry _ reason] =>
      bool_decide (o0 = Completed) && bool_decide (o1 = Retry (s 300) (§"throttle")) &&
      (s 8 <=? delay) && (delay <=? s 12) && bool_decide (o3 = Failed (§"invalid")) &&
      bool_decide (reason = §"handler timed out")
    | _ => false
    end &&
    match run 6 (env false T0 Answered) (fixed_adapter (Ok tt)) (claimed 1 T0) (s 30)
            (with_faults q false false true None None) with
    | (Some (Ok r), _) => negb (is_applied r)
    | _ => false
    end &&
    failed (run 6 (env false T0 Answered) (fixed_adapter (Ok tt)) (claimed 1 T0) (s 30)
              (with_faults q false true true None None)) Unavailable (fun _ => true)
  | None => false
  end.
End ExecutorTests.

(** ** [runtime/poller.rs] *)

Module PollerTests.
Definition s := Duration.from_secs.
Definition T0 : Instant.t := now_ queue_default.
Definition poll (p : Poller) (limit : Z) (races : nat -> settle_race) (q : Queue) :=
  poller_claim p T0 (§"test") limit (s 60) races q.
Definition answered (_ : nat) : settle_race := Answered.
Definition hangs_at (n : nat) (offset : nat) : settle_race :=
  if (offset =? n)%nat then CancelledAfter else Answered.

(** How long the timers run: the claim's until its deadline, the recovery's for
    the storage budget. *)
Definition storage_deadlines_bound_claim_and_recovery : bool :=
  let p := poller_new [dummy_format] (s 3) in
  let hanging := with_faults queue_default false false false None (Some dummy_format) in
  match poll p 1 (hangs_at 0) hanging with Some (Err e, _, _) => bool_decide (e = TimedOut) | _ => false end &&
  (p_storage_timeout p =? s 3) &&
  fails_with (poller_recover scripted_recover CancelledAfter 1 hanging).1 TimedOut.

(** Each claim takes two of the three seconds: the second one is cut, after the
    queue was asked and before it answered. *)
Definition one_claim_budget_spans_formats_and_preserves_already_confirmed_tasks : bool :=
  let second_format := a_format (§"second") 1 in
  let q := with_faults (with_incoming queue_default [claimed 1 T0; with_format (claimed 2 T0) second_format])
             false false false None (Some second_format) in
  match poll (poller_new [dummy_format; second_format] (s 3)) 2 (hangs_at 1) q with
  | Some (Ok [task], _, q) =>
    (at_id (lt_attempt task) =? 1)%N && (lease_deadline (lt_lease task) =? T0 + s 60) &&
    (length (incoming q) =? 1)%nat && (length (requested q) =? 2)%nat
  | _ => false
  end.

Definition polled (r : option (result TaskProcessingError (list LeasedTask) * Poller * Queue))
    (next : list LeasedTask -> Poller -> Queue -> bool) : bool :=
  match r with Some (Ok tasks, p, q) => next tasks p q | _ => false end.

Definition claiming_rotates_formats_and_respects_capacity : bool :=
  let future := a_format (§"future") 2 in
  let q := with_incoming queue_default [claimed 1 T0; with_format (claimed 2 T0) future] in
  let p := poller_new [dummy_format; future] (s 6) in
  bool_decide (p_formats p = [dummy_format; future]) &&
  polled (poll p 1 answered q) (fun tasks p q => (length tasks =? 1)%nat &&
  polled (poll p 1 answered q) (fun tasks p q =>
    bool_decide (at_format <$> (lt_attempt <$> tasks) = [future]) &&
    bool_decide (requested q = [dummy_format; future]) &&
  polled (poll p 0 answered q) (fun tasks p q => (length tasks =? 0)%nat &&
  polled (poll p 3 answered q) (fun tasks p q => (length tasks =? 0)%nat &&
    polled (poll (poller_new [] (s 6)) 1 answered q) (fun tasks _ _ => (length tasks =? 0)%nat) &&
    match poll p 1 answered (with_faults q true false false None None) with
    | Some (Err e, _, _) => bool_decide (e = Unavailable)
    | _ => false
    end)))).

Definition a_later_format_failure_does_not_discard_already_claimed_work : bool :=
  let unsupported := a_format (§"temporarily_unavailable") 1 in
  let q := with_faults (with_incoming queue_default [claimed 1 T0]) false false false (Some unsupported) None in
  polled (poll (poller_new [dummy_format; unsupported] (s 6)) 2 answered q) (fun tasks _ _ =>
    bool_decide (at_id <$> (lt_attempt <$> tasks) = [1%N])).
End PollerTests.

(** ** [runtime/preparation.rs]

    The counters of built and dropped dispatchers in these tests count Rust
    values; the assertions on results are evaluated. *)

Module PreparationTests.
Definition s := Duration.from_secs.
Definition idle (formats : list TaskFormat) : result TaskDispatcherError (TaskDispatcher Queue) :=
  try_new [{| ad_formats := formats; ad_invoke _ q := (Some (Ok tt), q) |}].
Definition config (c : Z) : result TaskRuntimeConfigError TaskRuntimeConfig :=
  storage ← map_err StorageError storage_config_default;
  worker ← map_err WorkerError (worker_config_new c c (s 1) (s 15) (s 60));
  runtime_config_new storage worker.

Definition synchronous_preparation_builds_exactly_c_registries_without_a_tokio_runtime : bool :=
  unwrapped (config 3) (fun config =>
    unwrapped (prepare (fun _ => idle [dummy_format]) config) (fun runtime =>
      (length (tr_dispatchers runtime) =? 3)%nat)).

Definition format_name_version_and_order_mismatches_drop_partial_startup_registries : bool :=
  let audit := a_format (§"audit") 1 in
  let first := [dummy_format; audit] in
  forallb (fun second =>
      unwrapped (config 3) (fun config =>
        fails_with (prepare (fun k => idle (if (k =? 0)%nat then first else second)) config) (FormatsMismatch 1)))
    [[a_format (§"other") 1; audit]; [a_format (task_type dummy_format) 2; audit]; reverse first].

Definition empty_duplicate_and_later_factory_failures_are_indexed_before_storage_work : bool :=
  forallb (fun '(fail_at, formats, source) =>
      unwrapped (config 4) (fun config =>
        fails_with (prepare (fun k => idle (if (k =? fail_at)%nat then formats else [dummy_format])) config)
          (Build (Z.of_nat fail_at) source)))
    [(0%nat, [], EmptyDispatcher); (0%nat, [dummy_format; dummy_format], DuplicateFormat dummy_format);
     (2%nat, [], EmptyDispatcher)].
End PreparationTests.

(** ** [host/signal.rs] *)

Module SignalTests.
Definition denied : IoError := {| io_kind := §"PermissionDenied"; io_text := §"interrupt failed" |}.

Definition registering_signal_observation_waits_without_sending_os_signals : bool :=
  match shutdown_signal (Ok tt) None None true with None => true | Some _ => false end.
Definition interrupt_success : bool :=
  match wait_for_signal (Some (Ok tt)) None true with Some (Ok _) => true | _ => false end.
Definition interrupt_error_preserves_source : bool :=
  match wait_for_signal (Some (Err denied)) None true with
  | Some (Err e) => bool_decide (io_kind e = §"PermissionDenied")
  | _ => false
  end.
Definition terminate_success : bool :=
  match wait_for_signal None (Some (Some tt)) true with Some (Ok _) => true | _ => false end.
Definition terminate_closed_stream_is_error : bool :=
  match wait_for_signal None (Some None) true with
  | Some (Err e) => bool_decide (io_kind e = §"Other") &&
      bool_decide (io_text e = §"SIGTERM signal stream closed")
  | _ => false
  end.
End SignalTests.

(** ** [diagnostics.rs]

    The captured log is the records' messages and field values. *)

Module DiagnosticsTests.
Definition field_text (f : field) : rstr :=
  match f with FStr s | FText s => s | FInt n => show_int n | FBool b => debug_bool b end.
Definition captured (log : list log_record) (needle : rstr) : bool :=
  existsb (fun r => contains (lr_message r) needle ||
                    existsb (fun f => contains (field_text f.2) needle) (lr_fields r)) log.
Definition has_field (log : list log_record) (name value : rstr) : bool :=
  existsb (fun r => existsb (fun f => bool_decide (f.1 = name) && bool_decide (field_text f.2 = value))
                      (lr_fields r)) log.
Definition private_source : dyn_error := OtherSource (§"private_source") None.
Definition categories : list rstr := [§"connection"; §"deserialization"; §"unexpected"].

Definition framework_diagnostics_keep_category_and_sanitize_type_without_source_text : bool :=
  let log := ((fun category => log_command_failure (§"Aggregate_1") category private_source) <$> categories)
             ++ [log_command_failure (§"private_type" ++ [10%N] ++ §"mail@example.com") (§"unexpected")
                   private_source] in
  forallb (fun r => bool_decide (lr_message r = §"command execution failed")) log && (length log =? 4)%nat &&
  forallb (captured log) categories &&
  has_field log (§"aggregate_type") (§"Aggregate_1") && has_field log (§"aggregate_type") (§"unknown") &&
  has_field log (§"operation") (§"execute") && negb (captured log (§"private_")) &&
  bool_decide (safe_type [] = §"unknown").

Definition sqlx_errors : list (SqlxError * rstr) :=
  let text := §"private_text" in
  [(Io text, §"io"); (Tls text, §"tls"); (PoolTimedOut, §"pool_timeout");
   (Database.PoolClosed, §"pool_closed"); (Decode text, §"decode");
   (ColumnDecode (§"private_column") text, §"decode"); (Configuration text, §"configuration");
   (OtherSqlxError text, §"other"); (DatabaseError (Some (§"42P01")) None text, §"database")].
Definition private_codes : list (option rstr) :=
  [None; Some (§"private_code"); Some (§"42p01"); Some (§"1234"); Some (§"123456")].

Definition sqlx_classification_uses_fixed_categories_and_valid_sqlstate_only : bool :=
  let faults := (fun code => DatabaseError code None (§"private_text")) <$> private_codes in
  let log :=
    (sqlx_errors ≫= fun '(e, _) =>
       [log_sqlx_failure (§"claim") e;
        log_command_failure (§"Invoice") (§"unexpected") (SqlxSource e (§"private_text") None)])
    ++ (log_sqlx_failure (§"settle") <$> faults)
    ++ [log_command_failure (§"Invoice") (§"unexpected")
          (OtherSource (§"private_wrapper") (Some (SqlxSource Database.PoolClosed [] None)))] in
  forallb (fun '(e, category) => bool_decide (sqlx_kind e = category) && captured log category) sqlx_errors &&
  forallb (fun e => bool_decide (sqlstate e = None)) faults &&
  captured log (§"42P01") && has_field log (§"storage_category") (§"pool_closed") &&
  negb (captured log (§"private_")).
End DiagnosticsTests.

Theorem execution_tests_pass :
  forallb id
    [ExecutorTests.delayed_task_retries_without_starting_handler_and_expired_task_waits_for_recovery;
     ExecutorTests.lease_margin_shortens_settlement_deadline_without_starting_handler;
     ExecutorTests.process_pause_exhausting_lease_prevents_a_late_acknowledgement;
     ExecutorTests.unrepresentable_handler_budget_is_rejected_before_execution;
     ExecutorTests.storage_deadline_bounds_settlement_without_a_terminal_outcome;
     ExecutorTests.delivery_classifies_success_errors_and_timeout_and_preserves_ownership_result;
     PollerTests.storage_deadlines_bound_claim_and_recovery;
     PollerTests.one_claim_budget_spans_formats_and_preserves_already_confirmed_tasks;
     PollerTests.claiming_rotates_formats_and_respects_capacity;
     PollerTests.a_later_format_failure_does_not_discard_already_claimed_work;
     PreparationTests.synchronous_preparation_builds_exactly_c_registries_without_a_tokio_runtime;
     PreparationTests.format_name_version_and_order_mismatches_drop_partial_startup_registries;
     PreparationTests.empty_duplicate_and_later_factory_failures_are_indexed_before_storage_work;
     SignalTests.registering_signal_observation_waits_without_sending_os_signals;
     SignalTests.interrupt_success; SignalTests.interrupt_error_preserves_source;
     SignalTests.terminate_success; SignalTests.terminate_closed_stream_is_error;
     DiagnosticsTests.framework_diagnostics_keep_category_and_sanitize_type_without_source_text;
     DiagnosticsTests.sqlx_classification_uses_fixed_categories_and_valid_sqlstate_only] = true.
Proof. vm_compute. reflexivity. Qed.
