(* ===== verification/HostTests.v ===== *)
(** * The host's own tests

    Unit tests of [cqrs-runtime/src/host/lifecycle.rs], of
    [account-managements-service/src/startup/service.rs] and of the records of
    [cqrs-runtime/src/runtime/worker.rs], evaluated on the model as in
    [RuntimeTests].  A component of the host is a script: what it completes with,
    once it is ready, which may depend on whether the shared token was
    cancelled. *)

From S2P Require Import Prelude DomainValues FloatTime TaskData Database TaskHandling RuntimeConfig.
From S2P Require Import Supervisor HostLifecycle Diagnostics RuntimeTests TaskTests ServiceTests.
#[local] Open Scope Z_scope.

(** ** Scripted components *)

Record script := {
  on_signal : bool -> option (result IoError unit);
  on_inbound : bool -> option (result IoError unit);
  on_tasks : bool -> option TaskRuntimeExit;
}.
Definition pending {A} (_ : bool) : option A := None.
Definition ready {A} (a : A) (_ : bool) : option A := Some a.
(** [shutdown.cancelled().await], then the value. *)
Definition when_cancelled {A} (a : A) (cancelled : bool) : option A := if cancelled then Some a else None.

Definition completed {A} (spawned : bool) (old : option A) (next : option A) : option A :=
  match old with Some a => Some a | None => if spawned then next else None end.
(** Everything that is ready completes before the host's next poll. *)
Definition progress (sc : script) (h : host) : host := {|
  h_phase := h_phase h; h_cancelled := h_cancelled h;
  h_signal := completed (h_spawned h) (h_signal h) (on_signal sc (h_cancelled h));
  h_inbound := completed (h_spawned h) (h_inbound h) (on_inbound sc (h_cancelled h));
  h_tasks := completed (h_spawned h) (h_tasks h) (on_tasks sc (h_cancelled h));
  h_spawned := h_spawned h; h_logged := h_logged h |}.
Fixpoint drive (rounds : nat) (sc : script) (h : host) : host :=
  match rounds with
  | O => h
  | S rounds => drive rounds sc (host_poll (progress sc (host_start h)))
  end.
(** [run(..).await]: the first poll selects, the next ones drain. *)
Definition run (sc : script) (cancelled : bool) : host := drive 3 sc (host_new cancelled).

Definition cancel (h : host) : host := {|
  h_phase := h_phase h; h_cancelled := true; h_signal := h_signal h; h_inbound := h_inbound h;
  h_tasks := h_tasks h; h_spawned := h_spawned h; h_logged := h_logged h |}.
Definition returned (h : host) : option (result HostError unit) :=
  match h_phase h with Returned r => Some r | _ => None end.
Definition unfinished (h : host) : bool := match returned h with None => true | Some _ => false end.
Definition returns_ok (h : host) : bool := match returned h with Some (Ok _) => true | _ => false end.
Definition returns_error (h : host) (matches : HostError -> bool) : bool :=
  match returned h with Some (Err e) => matches e | _ => false end.
(** A component that waits for the token stopped when it completed. *)
Definition inbound_stopped (h : host) : bool := bool_decide (is_Some (h_inbound h)).
Definition tasks_stopped (h : host) : bool := match h_tasks h with Some _ => true | None => false end.

Module LifecycleTests.
Definition other (text : rstr) : IoError := {| io_kind := §"Other"; io_text := text |}.
Definition outbox_error : TaskRuntimeError := WorkerSetup (FormatsMismatch 7).
Definition panic : JoinError := {| je_task_id := 1; je_panicked := true; je_payload := §"tasks panic" |}.
Definition drained (signal : bool -> option (result IoError unit)) : script := {|
  on_signal := signal; on_inbound := when_cancelled (Ok tt); on_tasks := when_cancelled (Ok (Ok tt)) |}.

Definition signal_drains_inbound_and_outbox_before_returning : bool :=
  let h := run (drained (ready (Ok tt))) false in returns_ok h && inbound_stopped h && tasks_stopped h.

Definition signal_failure_still_drains_components : bool :=
  let h := run (drained (ready (Err (other (§"signal handler failed"))))) false in
  returns_error h (fun e => match e with ShutdownSignal _ => true | _ => false end) &&
  inbound_stopped h && tasks_stopped h.

Definition inbound_failure_stops_outbox_before_returning_error : bool :=
  let h := run {| on_signal := pending; on_inbound := ready (Err (other (§"Inbound failed")));
                  on_tasks := when_cancelled (Ok (Ok tt)) |} false in
  returns_error h (fun e => match e with Inbound _ => true | _ => false end) && tasks_stopped h.

Definition unexpected_outbox_exit_stops_inbound_before_returning_error : bool :=
  let h := run {| on_signal := pending; on_inbound := when_cancelled (Ok tt);
                  on_tasks := ready (Ok (Ok tt)) |} false in
  returns_error h (fun e => match e with TaskRuntimeStopped => true | _ => false end) && inbound_stopped h.

Definition outbox_panic_stops_inbound_before_returning_join_error : bool :=
  let h := run {| on_signal := pending; on_inbound := when_cancelled (Ok tt);
                  on_tasks := ready (Err panic) |} false in
  returns_error h (fun e => match e with TaskRuntimeJoin _ => true | _ => false end) && inbound_stopped h.

(** The runtime cancels the shared token and goes on draining. *)
Definition shared_cancellation_stops_inbound_before_outbox_drain_finishes : bool :=
  let draining := {| on_signal := pending; on_inbound := when_cancelled (Ok tt); on_tasks := pending |} in
  let h := drive 2 draining (cancel (host_poll (host_new false))) in
  inbound_stopped h && unfinished h &&
  returns_error (drive 2 {| on_signal := pending; on_inbound := pending;
                            on_tasks := ready (Ok (Err outbox_error)) |} h)
    (fun e => match e with TaskRuntimeFailed (WorkerSetup (FormatsMismatch 7)) => true | _ => false end).

Definition cancellation_and_signal_win_over_simultaneous_successful_component_exits : bool :=
  forallb (fun signal_ready : bool =>
      returns_ok (run {| on_signal := if signal_ready then ready (Ok tt) else pending;
                         on_inbound := ready (Ok tt); on_tasks := ready (Ok (Ok tt)) |} (negb signal_ready)))
    [false; true].

Definition clean_inbound_exit_without_cancellation_is_unexpected : bool :=
  returns_error (run {| on_signal := pending; on_inbound := ready (Ok tt);
                        on_tasks := when_cancelled (Ok (Ok tt)) |} false)
    (fun e => match e with InboundStopped => true | _ => false end).

(** The dropped future leaves the spawned task running, which sees the token. *)
Definition dropping_host_requests_shutdown_and_detaches_outbox : bool :=
  let h := host_poll (host_new false) in
  unfinished h &&
  let h := host_drop h in
  h_cancelled h &&
  tasks_stopped (progress {| on_signal := pending; on_inbound := pending;
                             on_tasks := when_cancelled (Ok (Ok tt)) |} h).

Inductive initiator := SignalFailure | Signal | Token | InboundExit | TasksExit.
Definition initiated (by_ : initiator) : host :=
  run {| on_signal := match by_ with
           | SignalFailure => ready (Err (other (§"private_signal_source")))
           | Signal => ready (Ok tt)
           | _ => pending
           end;
         on_inbound := (match by_ with InboundExit => ready | _ => when_cancelled end)
                         (Err (other (§"private_inbound_source")));
         on_tasks := (match by_ with InboundExit => when_cancelled | _ => ready end) (Ok (Err outbox_error)) |}
    (match by_ with Token => true | _ => false end).
Definition log_of (h : host) : list log_record :=
  (fun e => @host_error_log _ printers e ErrorTests.MESSAGE) <$> h_logged h.

Definition primary_failures_survive_shutdown_and_secondary_failures_are_logged : bool :=
  forallb (fun by_ =>
      let h := initiated by_ in let log := log_of h in
      returns_error h (fun e => match by_, e with
        | SignalFailure, ShutdownSignal _ | InboundExit, Inbound _ => true
        | (Signal | Token | TasksExit), TaskRuntimeFailed _ => true
        | _, _ => false
        end) &&
      negb (DiagnosticsTests.captured log (§"private_")) &&
      (length log =? match by_ with SignalFailure => 2 | _ => 1 end)%nat &&
      match by_ with
      | InboundExit => DiagnosticsTests.captured log (§"TaskRuntime")
      | SignalFailure => DiagnosticsTests.captured log (§"TaskRuntime") &&
          DiagnosticsTests.captured log (§"Inbound")
      | _ => DiagnosticsTests.captured log (§"Inbound")
      end)
    [SignalFailure; Signal; Token; InboundExit; TasksExit].

Definition creating_and_dropping_unpolled_host_starts_nothing : bool :=
  let all := {| on_signal := ready (Ok tt); on_inbound := ready (Ok tt); on_tasks := ready (Ok (Ok tt)) |} in
  let h := progress all (host_new false) in let h := progress all (host_drop h) in
  negb (inbound_stopped h) && negb (tasks_stopped h) && bool_decide (h_signal h = None) && negb (h_cancelled h).

(** The work goes on after the drop, or the abort, until its own release. *)
Definition drop_and_abort_allow_started_outbox_work_to_drain : bool :=
  let started := host_poll (host_new false) in
  let h := host_drop started in
  h_spawned started && h_cancelled h &&
  negb (tasks_stopped (progress {| on_signal := pending; on_inbound := pending; on_tasks := pending |} h)) &&
  tasks_stopped (progress {| on_signal := pending; on_inbound := pending; on_tasks := ready (Ok (Ok tt)) |} h).

Definition normal_return_waits_for_both_drains_before_cleanup : bool :=
  forallb (fun inbound_first : bool =>
      let first := {| on_signal := ready (Ok tt);
                      on_inbound := if inbound_first then when_cancelled (Ok tt) else pending;
                      on_tasks := if inbound_first then pending else when_cancelled (Ok (Ok tt)) |} in
      let h := run first false in
      unfinished h && h_cancelled h &&
      returns_ok (drive 2 (drained pending) h))
    [false; true].

Definition inbound_and_signal_can_borrow_non_send_state : bool :=
  returns_ok (run {| on_signal := ready (Ok tt); on_inbound := ready (Ok tt);
                     on_tasks := when_cancelled (Ok (Ok tt)) |} false).

Definition signal_error_wins_over_ready_token_and_components : bool :=
  returns_error (run {| on_signal := ready (Err (other (§"signal failure")));
                        on_inbound := ready (Err (other (§"inbound failure")));
                        on_tasks := ready (Ok (Err outbox_error)) |} true)
    (fun e => match e with ShutdownSignal _ => true | _ => false end).

(** Both exits are ready when the host is polled again. *)
Definition inbound_exit_wins_over_simultaneous_outbox_exit : bool :=
  let h := host_poll (host_new false) in
  let h' := drive 2 {| on_signal := pending; on_inbound := ready (Ok tt); on_tasks := ready (Ok (Ok tt)) |} h in
  unfinished h &&
  returns_error h' (fun e => match e with InboundStopped => true | _ => false end).
End LifecycleTests.

Theorem host_tests_pass :
  forallb (fun b : bool => b)
    [LifecycleTests.signal_drains_inbound_and_outbox_before_returning;
     LifecycleTests.signal_failure_still_drains_components;
     LifecycleTests.inbound_failure_stops_outbox_before_returning_error;
     LifecycleTests.unexpected_outbox_exit_stops_inbound_before_returning_error;
     LifecycleTests.outbox_panic_stops_inbound_before_returning_join_error;
     LifecycleTests.shared_cancellation_stops_inbound_before_outbox_drain_finishes;
     LifecycleTests.cancellation_and_signal_win_over_simultaneous_successful_component_exits;
     LifecycleTests.clean_inbound_exit_without_cancellation_is_unexpected;
     LifecycleTests.dropping_host_requests_shutdown_and_detaches_outbox;
     LifecycleTests.primary_failures_survive_shutdown_and_secondary_failures_are_logged;
     LifecycleTests.creating_and_dropping_unpolled_host_starts_nothing;
     LifecycleTests.drop_and_abort_allow_started_outbox_work_to_drain;
     LifecycleTests.normal_return_waits_for_both_drains_before_cleanup;
     LifecycleTests.inbound_and_signal_can_borrow_non_send_state;
     LifecycleTests.signal_error_wins_over_ready_token_and_components;
     LifecycleTests.inbound_exit_wins_over_simultaneous_outbox_exit] = true.
Proof. vm_compute. reflexivity. Qed.

(** ** [startup/service.rs] *)

Module StartupTests.
#[local] Existing Instances parsers printers.
Import RegistrationTests.

Definition config : result ServiceConfigError ServiceConfig := service_config_from_lookup (settings
  [(§"DATABASE_URL", §"postgres://localhost/service"); (§"BIND_ADDRESS", §"127.0.0.1:0");
   (§"OUTBOX_WORKER_CONCURRENCY", §"1"); (§"OUTBOX_QUEUE_CAPACITY", §"1")]).

(** [wiring::build]: the dispatcher of the application, over some gateways. *)
Definition wired (_ : nat) : result TaskDispatcherError (TaskDispatcher (list nat)) :=
  @Application.application_dispatcher uuids emails Application.ex_chrono (list nat)
    conflict_email_gateway conflict_account_gateway
    {| Application.write_line _ w := (true, w); Application.flush w := (true, w) |} (fun _ => 0) (fun _ => 1%N).
Definition process (factory : nat -> result TaskDispatcherError (TaskDispatcher (list nat)))
    (bind : result IoError unit) (host : result HostError unit) : process_env (Router := unit) (W := list nat) := {|
  dotenv := Err DotenvNotFound; read_var _ := Err NotPresent; install_subscriber _ := Ok tt;
  connect_with _ _ := Ok tt; application := (tt, factory); bind_listener _ := bind; local_addr := Ok tt;
  host_run _ _ := host |}.
Definition in_use : IoError := {| io_kind := §"AddrInUse"; io_text := §"occupied" |}.
Definition closes_pool (effects : list effect) : bool :=
  existsb (fun e => match e with HostLifecycle.PoolClosed => true | _ => false end) effects.
Definition opens_listener (effects : list effect) : bool :=
  existsb (fun e => match e with ListenerOpened => true | _ => false end) effects.

(** The address is in use, but no listener is bound before the preparation. *)
Definition preparation_error_closes_pool_and_precedes_listener_binding : bool :=
  unwrapped config (fun config =>
    match prepare_connected (process (fun _ => try_new []) (Err in_use) (Ok tt)) config with
    | (Err (TaskPreparation (Build 0 EmptyDispatcher)), effects) =>
      closes_pool effects && negb (opens_listener effects)
    | _ => false
    end).

Definition binding_error_closes_pool_after_preparing_real_application : bool :=
  unwrapped config (fun config =>
    match prepare_connected (process wired (Err in_use) (Ok tt)) config with
    | (Err (BindFailed source), effects) => bool_decide (io_kind source = §"AddrInUse") && closes_pool effects
    | _ => false
    end).

Definition host_failure_closes_pool_before_returning_original_error : bool :=
  let denied := {| io_kind := §"PermissionDenied"; io_text := §"private_signal_source" |} in
  let env := process wired (Ok tt) (Err (ShutdownSignal denied)) in
  unwrapped config (fun config =>
    match prepare_connected env config with
    | (Ok service, _) =>
      match run_until env service with
      | (Err (Host (ShutdownSignal source) as error), effects) =>
        closes_pool effects && bool_decide (io_kind source = §"PermissionDenied") &&
        negb (contains (service_error_debug error ++ §" " ++ service_error_display error) (§"private_"))
      | _ => false
      end
    | _ => false
    end).

Definition closes_listener (effects : list effect) : bool :=
  existsb (fun e => match e with ListenerClosed => true | _ => false end) effects.

(** The logger of the process is installed once. *)
Definition public_preparation_initializes_logger_and_retains_owned_resources : bool :=
  let env := process wired (Ok tt) (Ok tt) in
  let second := {| dotenv := dotenv env; read_var := read_var env; install_subscriber _ := Err (§"already installed");
    connect_with := connect_with env; application := application env;
    bind_listener := bind_listener env; local_addr := local_addr env; host_run := host_run env |} in
  unwrapped config (fun config =>
    match service_prepare env config, service_prepare second config with
    | (Ok service, effects), (Err (LoggingFailed _), effects') =>
      opens_listener effects && negb (closes_pool effects) && negb (closes_pool effects') &&
      match run_until env service with
      | (Ok _, effects) => closes_pool effects && closes_listener effects
      | _ => false
      end
    | _, _ => false
    end).
End StartupTests.

(** ** [runtime/worker.rs] *)

Module WorkerTests.
#[local] Existing Instances parsers printers.
Definition failed (id : Uuid) (ty : rstr) (attempt : Z) (cause : TaskFailureCause) : TaskFailure := {|
  tf_id := id; tf_format := mk_TaskFormat ty 1; tf_attempt := attempt; tf_cause := cause |}.

Definition confirmed_failure_events_contain_identity_and_safe_reason_only : bool :=
  let log := log_failed <$>
    ((failed 1 (§"create_account") 2 <$> [PermanentRejection; AttemptLimitReached; LeaseExpired])
     ++ [failed 2 (§"secret" ++ [10%N] ++ §"alice@example.com") 1 LeaseExpired]) in
  (length log =? 4)%nat &&
  DiagnosticsTests.has_field log (§"task_id") (§"00000000-0000-0000-0000-000000000001") &&
  DiagnosticsTests.has_field log (§"task_type") (§"create_account") &&
  DiagnosticsTests.has_field log (§"task_version") (§"1") &&
  DiagnosticsTests.has_field log (§"attempt") (§"2") &&
  forallb (DiagnosticsTests.captured log) [§"permanent failure"; §"retry limit reached"; §"worker lease expired"] &&
  DiagnosticsTests.has_field log (§"task_type") (§"unknown") &&
  forallb (fun private => negb (DiagnosticsTests.captured log private))
    [§"secret"; §"alice@example.com"; §"token"].
End WorkerTests.

Theorem startup_tests_pass :
  forallb (fun b : bool => b)
    [StartupTests.preparation_error_closes_pool_and_precedes_listener_binding;
     StartupTests.binding_error_closes_pool_after_preparing_real_application;
     StartupTests.host_failure_closes_pool_before_returning_original_error;
     StartupTests.public_preparation_initializes_logger_and_retains_owned_resources;
     WorkerTests.confirmed_failure_events_contain_identity_and_safe_reason_only] = true.
Proof. vm_compute. reflexivity. Qed.
