(* ===== verification/WorkerTests.v ===== *)
(** * The workers' own tests

    Unit tests of [cqrs-runtime/src/runtime/worker.rs], [worker_pool.rs],
    [supervisor.rs] and [preparation.rs] that run workers, evaluated on the model
    as in [RuntimeTests]: a worker meets the turns the test arranges, and a
    supervisor the events. *)

From S2P Require Import Prelude DomainValues FloatTime Binary64 TaskData Database EventRepository.
From S2P Require Import CommandRetry TaskQueue TaskHandling TaskExecutor RuntimeConfig Supervisor WorkerPool.
From S2P Require Import Diagnostics Runtime RuntimeTests TaskTests.
From S2P Require Worker.
#[local] Open Scope Z_scope.
#[local] Existing Instance binary64.
#[local] Existing Instance ex_parsers.
#[local] Existing Instance DiagnosticsExample.printers.

Definition same (q : Queue) : Queue := q.
Definition T0 : Instant.t := now_ queue_default.
Definition in_time : exec_env Queue := ExecutorTests.env false T0 Answered.

(** ** [runtime/worker.rs] *)

Module RunTests.
Import Worker.

Definition run (index : Z) (adapter : TaskAdapter Queue) (turns : list (turn Queue)) (timeout_secs : Z) :
    option (worker_run Queue) :=
  match dispatcher adapter with
  | Ok d => Some (run_task_worker index d (default_executor (ExecutorTests.executor 6))
                    (Duration.from_secs timeout_secs) turns queue_default)
  | Err _ => None
  end.

Definition returned (r : worker_run Queue) (index : Z) : bool :=
  match wr_end r with ReturnedIndex i => i =? index | _ => false end.

Definition a_closed_channel_drains_its_ready_delivery_and_then_stops_the_worker : bool :=
  match run 7 (adapter) [Received same (claimed 1 T0) false in_time; ChannelClosed same] 1 with
  | Some r => returned r 7 &&
      match outcomes (wr_world r) with [(id, Completed)] => (id =? 1)%N | _ => false end
  | None => false
  end.

(** The notification of the dequeued delivery cancels the token. *)
Definition cancellation_after_dequeue_prevents_handler_execution_and_settlement : bool :=
  match run 3 counting_adapter [Received same (claimed 1 T0) true in_time] 1 with
  | Some r => returned r 3 && (wr_notified r =? 1)%nat &&
      (length (wr_left r) =? 1)%nat && (calls (wr_world r) =? 0) && (length (outcomes (wr_world r)) =? 0)%nat
  | None => false
  end.

Definition idle_worker_cancels_pending_receive_while_sender_is_open : bool :=
  match run 0 (adapter) [] 30, run 0 (adapter) [StopSeen same] 30 with
  | Some waiting, Some stopped =>
    match wr_end waiting with StillRunning => true | _ => false end && returned stopped 0 &&
    (length (wr_left stopped) =? 0)%nat && (length (outcomes (wr_world stopped)) =? 0)%nat
  | _, _ => false
  end.
End RunTests.

(** ** [runtime/worker_pool.rs] and [runtime/supervisor.rs] *)

Module PoolTests.
Fixpoint run_steps (evs : list (sup_event Queue)) (s : supervisor Queue) : option (supervisor Queue) :=
  match evs with
  | [] => Some s
  | ev :: evs => match run_step 1 [dummy_format] s ev with SNext s => run_steps evs s | _ => None end
  end.

(** The executor never answers: the drain ends by its timer, and not before. *)
Definition drain_aborts_and_joins_an_executor_that_ignores_execution_budgets : bool :=
  match try_new [adapter] with
  | Ok d =>
    let pool := spawn worker_pool_new 4%N 0 d in
    match run_steps [WorkerPool.Received 4%N; StopRequested; BreakTaken]
            (mk_supervisor pool [claimed 1 T0] false false false Selecting false) with
    | Some s =>
      match run_steps [AllJoined] s, run_steps [Joined 4%N] s, run_steps [DrainTimedOut] s with
      | None, None, Some ended => bool_decide (dom (wp_workers (s_pool ended)) = ∅)
      | _, _, _ => false
      end
    | None => false
    end &&
    (drain_timeout {| storage_timeout := Duration.from_millis 10 |} (Duration.from_millis 20)
     =? Duration.from_millis 30)
  | Err _ => false
  end.

Definition worker_config (c q : Z) (poll : Duration.t) : result TaskWorkerPoolConfigError TaskWorkerPoolConfig :=
  worker_config_new c q poll (Duration.from_secs 30) (Duration.from_secs 120).

Definition startup_diagnostics_report_effective_worker_limits_and_owner : bool :=
  let owner := uuid_display 5 in
  unwrapped (worker_config 2 3 (Duration.from_secs 3600)) (fun config =>
    unwrapped (run_startup (fun _ => try_new [adapter]) config (ExecutorTests.executor 6) false)
      (fun dispatchers =>
        match dispatchers with
        | Some ds =>
          match run_prepared (ExecutorTests.executor 6) config ds owner [1%N; 2%N] false with
          | Some (Running _ _ log) =>
            bool_decide (lr_message log = §"task runtime started") &&
            DiagnosticsTests.has_field [log] (§"concurrency") (§"2") &&
            DiagnosticsTests.has_field [log] (§"queue_capacity") (§"3") &&
            DiagnosticsTests.has_field [log] (§"lease_seconds") (§"120") &&
            DiagnosticsTests.has_field [log] (§"owner") owner
          | _ => false
          end
        | None => false
        end)).
End PoolTests.

(** ** [runtime/preparation.rs] *)

Module PreparedTests.
Definition cancelled_prepared_run_releases_handlers_without_spawn_or_storage : bool :=
  unwrapped (PreparationTests.config 2) (fun config =>
    unwrapped (prepare (fun _ => PreparationTests.idle [dummy_format]) config) (fun prepared =>
      (length (tr_dispatchers prepared) =? 2)%nat &&
      match runtime_run prepared [] [] true with Some AlreadyCancelled => true | _ => false end)).
End PreparedTests.

Theorem worker_tests_pass :
  forallb id
    [RunTests.a_closed_channel_drains_its_ready_delivery_and_then_stops_the_worker;
     RunTests.cancellation_after_dequeue_prevents_handler_execution_and_settlement;
     RunTests.idle_worker_cancels_pending_receive_while_sender_is_open;
     PoolTests.drain_aborts_and_joins_an_executor_that_ignores_execution_budgets;
     PoolTests.startup_diagnostics_report_effective_worker_limits_and_owner;
     PreparedTests.cancelled_prepared_run_releases_handlers_without_spawn_or_storage] = true.
Proof. vm_compute. reflexivity. Qed.
